(** * Stable matching with couples: a shallow embedding of [smp_c.py]

    The first part of the file embeds the Python source, class by class and
    function by function; the second part states and proves its properties.

    Python integers are [Z], Python lists are [list], dictionaries keyed by
    integers (or by agents, which hash and compare by uid) are [gmap Z _],
    raised exceptions are the [Raise] arm of [result]. *)

From stdpp Require Import gmap strings list fin_maps.
From Stdlib Require Import ZArith Lia DecimalString Ascii.

Open Scope Z_scope.

Set Warnings "-clear-no-such-hyp".

(** ** Exceptions and the error monad *)

Inductive exn : Type :=
  | KeyError
  | ValueError
  | IndexError
  | AssertionError
  | AttributeError
  | Exception (msg : string).

Inductive result (A : Type) : Type :=
  | Ok (a : A)
  | Raise (e : exn).
Arguments Ok {A} a.
Arguments Raise {A} e.

Definition raises {A} (r : result A) : Prop := ∃ e, r = Raise e.

#[global] Instance result_ret : MRet result := fun A a => Ok a.
#[global] Instance result_bind : MBind result := fun A B f r =>
  match r with
  | Ok a => f a
  | Raise e => Raise e
  end.

(** [d[k]] on a dictionary: [KeyError] when the key is absent. *)
Definition getitem {V} (d : gmap Z V) (k : Z) : result V :=
  match d !! k with
  | Some v => Ok v
  | None => Raise KeyError
  end.

(** [l[i]] on a list, for an index that is not negative. *)
Definition list_getitem {A} (l : list A) (i : nat) : result A :=
  match l !! i with
  | Some a => Ok a
  | None => Raise IndexError
  end.

(** [assert b]. *)
Definition py_assert (b : bool) : result unit :=
  if b then Ok tt else Raise AssertionError.

(** A [for] loop whose body may raise: the state after the last element, or
    the first exception. *)
Fixpoint for_each {A S} (f : A → S → result S) (l : list A) (s : S) : result S :=
  match l with
  | [] => Ok s
  | a :: l' => s' ← f a s; for_each f l' s'
  end.

(** A list comprehension whose element expression may raise. *)
Fixpoint comprehension {A B} (f : A → result B) (l : list A) : result (list B) :=
  match l with
  | [] => Ok []
  | a :: l' => b ← f a; bs ← comprehension f l'; Ok (b :: bs)
  end.

(** [xrange(n)] and [xrange(a, b)]. *)
Definition xrange (n : Z) : list Z := seqZ 0 n.
Definition xrange2 (a b : Z) : list Z := seqZ a (b - a).

(** [len(l)] as a Python integer. *)
Definition len {A} (l : list A) : Z := Z.of_nat (length l).

(** ** Iteration order of a Python [set]

    [list(set(l))] enumerates the distinct items of [l] in the order of the
    hash table, which the language leaves open.  The embedding takes the
    order as a parameter: any function that enumerates the distinct items
    once each. *)
Class PySet : Type := mkPySet {
  set_iter : list Z → list Z;
  set_iter_NoDup : ∀ l, NoDup (set_iter l);
  set_iter_elem : ∀ l x, x ∈ set_iter l ↔ x ∈ l
}.

(** CPython keeps a set of at most five integers in a table of eight slots
    and iterates over the slots in order; an integer [x] that meets no
    collision sits in slot [x mod 8].  [slot_order] is that order: by slot,
    and by time of insertion within a slot. *)
Fixpoint slot_insert (x : Z) (l : list Z) : list Z :=
  match l with
  | [] => [x]
  | y :: l' => if bool_decide (x mod 8 < y mod 8) then x :: l else y :: slot_insert x l'
  end.

Definition slot_add (acc : list Z) (x : Z) : list Z :=
  if bool_decide (x ∈ acc) then acc else slot_insert x acc.

Definition slot_order (l : list Z) : list Z := foldl slot_add [] l.

(** [combinations(iterable, 2)]: the pairs of positions [i < j], in
    lexicographic order of the positions. *)
Fixpoint combinations2 {A} (pool : list A) : list (A * A) :=
  match pool with
  | [] => []
  | x :: pool' => (pair x <$> pool') ++ combinations2 pool'
  end.

(** ** Text: [str] of an integer, [join], files *)

(** [str(n)] and [%d]: the decimal digits, with a leading minus sign. *)
Definition str_int (n : Z) : string := NilZero.string_of_int (Z.to_int n).

(** [sep.join(l)]. *)
Definition join (sep : string) (l : list string) : string := String.concat sep l.

Definition newline : string := String (ascii_of_nat 10) EmptyString.

(** The text made of the given lines, each followed by a newline. *)
Fixpoint unlines (l : list string) : string :=
  match l with
  | [] => ""
  | x :: l' => x +:+ newline +:+ unlines l'
  end.

(** The file system: file name to contents. *)
Abbreviation filesystem := (gmap string string).

(** [open(name, 'w')] followed by the given write. *)
Definition write_file (fs : filesystem) (name text : string) : filesystem :=
  <[name := text]> fs.

(** [open(name, 'a')] followed by the given write; a missing file is created. *)
Definition append_file (fs : filesystem) (name text : string) : filesystem :=
  <[name := default "" (fs !! name) +:+ text]> fs.

(** ** [class ListPreferenceFunction] *)

Module ListPreferenceFunction.

(** The loop of [get_all_preferred], with the accumulator [preferred]. *)
Fixpoint get_all_preferred_loop (l : list Z) (uid : Z) (preferred : list Z)
  : result (list Z) :=
  match l with
  | [] => Raise (Exception "uid not in preference list")
  | agent :: l' =>
      if decide (agent = uid) then Ok preferred
      else get_all_preferred_loop l' uid (preferred ++ [agent])
  end.

Definition get_all_preferred (internal_list : list Z) (uid : Z) : result (list Z) :=
  get_all_preferred_loop internal_list uid [].

Definition get_all_dispreferred (internal_list : list Z) (uid : Z) : result (list Z) :=
  get_all_preferred_loop (reverse internal_list) uid [].

Definition get_all_weakly_preferred (internal_list : list Z) (uid : Z)
  : result (list Z) :=
  preferred ← get_all_preferred internal_list uid; Ok (preferred ++ [uid]).

Definition get_ordering (internal_list : list Z) : list Z := internal_list.

(** [list.index]: the first position of [uid], [ValueError] when absent. *)
Fixpoint index (l : list Z) (uid : Z) : result Z :=
  match l with
  | [] => Raise ValueError
  | x :: l' => if decide (x = uid) then Ok 0 else i ← index l' uid; Ok (i + 1)
  end.

Definition get_rank (internal_list : list Z) (uid : Z) : result Z :=
  index internal_list uid.

End ListPreferenceFunction.

Module LPF := ListPreferenceFunction.

(** ** [class ListJointPreferenceFunction] *)

Module ListJointPreferenceFunction.

(** [_check_suitability]: the coordinates listed in [indices] must agree. *)
Definition check_suitability (assignment to_test : Z * Z) (indices : list Z) : bool :=
  negb (bool_decide (0 ∈ indices) && negb (bool_decide (to_test.1 = assignment.1)))
  && negb (bool_decide (1 ∈ indices) && negb (bool_decide (to_test.2 = assignment.2))).

Fixpoint get_all_weakly_preferred_loop (l : list (Z * Z)) (assignment : Z * Z)
    (indices : list Z) (weakly_preferred : list (Z * Z)) : result (list (Z * Z)) :=
  match l with
  | [] => Raise (Exception "uid not in preference list")
  | a :: l' =>
      if decide (a = assignment) then Ok (weakly_preferred ++ [a])
      else if check_suitability assignment a indices
           then get_all_weakly_preferred_loop l' assignment indices (weakly_preferred ++ [a])
           else get_all_weakly_preferred_loop l' assignment indices weakly_preferred
  end.

Definition get_all_weakly_preferred (internal_list : list (Z * Z))
    (assignment : Z * Z) (indices : list Z) : result (list (Z * Z)) :=
  get_all_weakly_preferred_loop internal_list assignment indices [].

End ListJointPreferenceFunction.

Module LJPF := ListJointPreferenceFunction.

(** ** The agents: hospitals, residents, couples *)

Definition NIL_HOSPITAL_UID : Z := 999999.
Definition NIL_HOSPITAL_SYMBOL : string := "-1".

(** A hospital.  [h_preference] is [None] for the [NilHospital], which is
    built with [preference_function=None], and the list of a
    [ListPreferenceFunction] for the hospitals the loader builds. *)
Record Hospital : Type := mkHospital {
  h_uid : Z;
  h_capacity : Z;
  h_preference : option (list Z)
}.

(** [NIL_HOSPITAL = NilHospital()]. *)
Definition NIL_HOSPITAL : Hospital := mkHospital NIL_HOSPITAL_UID 10 None.

(** What a resident reaches through its [couple] field: the uid of the
    couple, its joint list and the uids of its two members. *)
Record CoupleRef : Type := mkCoupleRef {
  cref_uid : Z;
  cref_ordering : list (Z * Z);
  cref_residents : Z * Z
}.

Record Resident : Type := mkResident {
  r_uid : Z;
  r_preference : option (list Z);
  r_couple : option CoupleRef
}.

Record Couple : Type := mkCouple {
  c_uid : Z;
  c_preference : list (Z * Z);
  c_residents : Resident * Resident;
  ranked_hospitals : gmap Z (list Z)
}.

#[global] Instance Hospital_eq_dec : EqDecision Hospital.
Proof. solve_decision. Defined.
#[global] Instance CoupleRef_eq_dec : EqDecision CoupleRef.
Proof. solve_decision. Defined.
#[global] Instance Resident_eq_dec : EqDecision Resident.
Proof. solve_decision. Defined.

(** An object of one of the [Agent] subclasses. *)
Inductive Agent : Type :=
  | AResident (r : Resident)
  | AHospital (h : Hospital)
  | ACouple (c : Couple).

Definition uid (a : Agent) : Z :=
  match a with
  | AResident r => r_uid r
  | AHospital h => h_uid h
  | ACouple c => c_uid c
  end.



(** The three module-level dictionaries, which the constructors fill. *)
Record Globals : Type := mkGlobals {
  resident_dict : gmap Z Resident;
  hospital_dict : gmap Z Hospital;
  couple_dict : gmap Z Couple
}.

(** The dictionaries when the module has been loaded: the statement
    [NIL_HOSPITAL = NilHospital()] has registered the nil hospital. *)
Definition module_globals : Globals :=
  mkGlobals ∅ {[NIL_HOSPITAL_UID := NIL_HOSPITAL]} ∅.

(** *** Methods of [SinglePreferrer], on hospitals and on residents *)

Definition with_preference {A} (p : option (list Z)) (f : list Z → result A) : result A :=
  match p with
  | Some l => f l
  | None => Raise AttributeError
  end.

Module Hosp.
Definition get_ordering (h : Hospital) : result (list Z) :=
  with_preference (h_preference h) (fun l => Ok (LPF.get_ordering l)).
Definition get_rank (h : Hospital) (u : Z) : result Z :=
  with_preference (h_preference h) (fun l => LPF.get_rank l u).
(** [NilHospital] overrides this method and returns the empty list. *)
Definition get_all_weakly_preferred (h : Hospital) (u : Z) : result (list Z) :=
  match h_preference h with
  | Some l => LPF.get_all_weakly_preferred l u
  | None => Ok []
  end.
(** [h == NIL_HOSPITAL], by uid. *)
Definition is_nil (h : Hospital) : bool := bool_decide (h_uid h = NIL_HOSPITAL_UID).
End Hosp.

Module Res.
Definition get_ordering (r : Resident) : result (list Z) :=
  with_preference (r_preference r) (fun l => Ok (LPF.get_ordering l)).
Definition get_all_weakly_preferred (r : Resident) (u : Z) : result (list Z) :=
  with_preference (r_preference r) (fun l => LPF.get_all_weakly_preferred l u).
End Res.

(** *** Constructors *)

(** [Hospital.__init__]: the hospital registers itself. *)
Definition Hospital_init (preference : list Z) (u capacity : Z) (g : Globals)
  : Hospital * Globals :=
  let h := mkHospital u capacity (Some preference) in
  (h, mkGlobals (resident_dict g) (<[u := h]> (hospital_dict g)) (couple_dict g)).

(** [Resident.__init__]: the resident registers itself; it has no couple yet. *)
Definition Resident_init (u : Z) (preference : option (list Z)) (g : Globals)
  : Resident * Globals :=
  let r := mkResident u preference None in
  (r, mkGlobals (<[u := r]> (resident_dict g)) (hospital_dict g) (couple_dict g)).

(** The assignment [resident.couple = self] on a resident object. *)
Definition set_couple (cr : CoupleRef) (r : Resident) : Resident :=
  mkResident (r_uid r) (r_preference r) (Some cr).

(** The same assignment seen through [resident_dict]: the entry that holds
    the member object changes with it. *)
Definition set_couple_in (cr : CoupleRef) (r : Resident) (d : gmap Z Resident)
  : gmap Z Resident :=
  match d !! r_uid r with
  | Some r' => if decide (r' = r) then <[r_uid r := set_couple cr r]> d else d
  | None => d
  end.

Section Couple.
Context `{PySet}.

(** [Couple.__init__] (after [JointPreferrer.__init__] and
    [Agent.__init__], whose assertions hold for a list of two residents
    and a joint function of cardinality two). *)
Definition Couple_init (preference : list (Z * Z)) (u : Z) (r0 r1 : Resident)
    (g : Globals) : Couple * Globals :=
  let cr := mkCoupleRef u preference (r_uid r0, r_uid r1) in
  let r0_ranked := preference.*1 in
  let r1_ranked := preference.*2 in
  let ranked := <[r_uid r1 := set_iter r1_ranked]> (<[r_uid r0 := set_iter r0_ranked]> ∅) in
  let c := mkCouple u preference (set_couple cr r0, set_couple cr r1) ranked in
  (c, mkGlobals (set_couple_in cr r1 (set_couple_in cr r0 (resident_dict g)))
                (hospital_dict g)
                (<[u := c]> (couple_dict g))).

End Couple.

Module Coup.
(** [get_ordering], and [get_ranked_hospitals()] without a member. *)
Definition get_ordering (c : Couple) : list (Z * Z) := c_preference c.
(** [get_ranked_hospitals(member)]. *)
Definition get_ranked_hospitals (c : Couple) (member : Resident) : result (list Z) :=
  getitem (ranked_hospitals c) (r_uid member).
(** [JointPreferrer.get_all_weakly_preferred]; [size] is 2. *)
Definition get_all_weakly_preferred (c : Couple) (assignment : Z * Z)
    (indices : list Z) : result (list (Z * Z)) :=
  _ ← py_assert (bool_decide (length indices ≤ 2)%nat);
  LJPF.get_all_weakly_preferred (c_preference c) assignment indices.
End Coup.

Record ProblemInstance : Type := mkInstance {
  hospitals : list Hospital;
  singles : list Resident;
  couples : list Couple
}.

(** ** [class DIMACSClause] and [class ConstraintsBuffer] *)

Record DIMACSClause : Type := mkClause { var_list : list Z }.

(** [DIMACSConstraint.__init__]: the literal list must not be empty. *)
Definition DIMACSClause_init (vl : list Z) : result DIMACSClause :=
  _ ← py_assert (bool_decide (0 < length vl)%nat); Ok (mkClause vl).

(** [DIMACSClause.render]. *)
Definition render (c : DIMACSClause) : string :=
  join " " (str_int <$> var_list c) +:+ " 0".

Record ConstraintsBuffer : Type := mkBuffer {
  filename : string;
  buffer_list : list DIMACSClause;
  buffer_size : nat
}.

Module Buffer.

(** [ConstraintsBuffer.__init__]: the file is opened for writing, which
    truncates it, and the window starts empty. *)
Definition init (name : string) (fs : filesystem) : ConstraintsBuffer * filesystem :=
  (mkBuffer name [] 5000, write_file fs name "").

(** The loop [for item in self.buffer_list: f.write(item.render() + '\n')]. *)
Definition write_all (fs : filesystem) (name : string) (items : list DIMACSClause)
  : filesystem :=
  foldl (fun fs item => append_file fs name (render item +:+ newline)) fs items.

(** [ConstraintsBuffer.append]. *)
Definition append (cb : ConstraintsBuffer) (constraint : DIMACSClause)
    (fs : filesystem) : ConstraintsBuffer * filesystem :=
  if bool_decide (length (buffer_list cb) < buffer_size cb)%nat then
    (mkBuffer (filename cb) (buffer_list cb ++ [constraint]) (buffer_size cb), fs)
  else
    let fs1 := write_all (append_file fs (filename cb) "") (filename cb) (buffer_list cb) in
    let fs2 := append_file fs1 (filename cb) (render constraint +:+ newline) in
    (mkBuffer (filename cb) [] (buffer_size cb), fs2).

(** [ConstraintsBuffer.flush], without the printing of the verbose mode. *)
Definition flush (cb : ConstraintsBuffer) (fs : filesystem)
  : ConstraintsBuffer * filesystem :=
  (mkBuffer (filename cb) [] (buffer_size cb),
   write_all (append_file fs (filename cb) "") (filename cb) (buffer_list cb)).

(** A run of [append] calls. *)
Definition appends (st : ConstraintsBuffer * filesystem) (cs : list DIMACSClause)
  : ConstraintsBuffer * filesystem :=
  foldl (fun st c => append st.1 c st.2) st cs.

(** Creation, the appends, the final flush. *)
Definition session (name : string) (fs : filesystem) (cs : list DIMACSClause)
  : ConstraintsBuffer * filesystem :=
  let st := appends (init name fs) cs in flush st.1 st.2.

(** The unbuffered sink of the comparison: the file is truncated when the
    sink is created and every clause is written when it is appended. *)
Definition direct_session (name : string) (fs : filesystem) (cs : list DIMACSClause)
  : filesystem :=
  foldl (fun fs c => append_file fs name (render c +:+ newline))
        (write_file fs name "") cs.

End Buffer.

(** ** [ProblemInstance.print_matching] *)

(** A dictionary from integers to integers in its iteration order; a
    dictionary holds each key once. *)
Definition int_dict : Type := list (Z * Z).

Fixpoint int_dict_getitem (d : int_dict) (k : Z) : result Z :=
  match d with
  | [] => Raise KeyError
  | (k', v) :: d' => if decide (k' = k) then Ok v else int_dict_getitem d' k
  end.

(** The line written for one key, without its newline. *)
Definition resident_line (matching : int_dict) (resident_uid : Z) : result string :=
  h ← int_dict_getitem matching resident_uid;
  if decide (h = NIL_HOSPITAL_UID)
  then Ok ("r " +:+ str_int resident_uid +:+ " " +:+ NIL_HOSPITAL_SYMBOL)
  else Ok ("r " +:+ str_int resident_uid +:+ " " +:+ str_int h).

(** The text [print_matching] writes to the output file. *)
Definition print_matching_text (matching : int_dict) (header : option string)
  : result string :=
  let head := match header with
              | Some h => "# " +:+ h +:+ newline
              | None => ""
              end in
  if bool_decide (length matching = 0%nat) then Ok (head +:+ "m 0" +:+ newline)
  else
    for_each (fun resident_uid text =>
                line ← resident_line matching resident_uid;
                Ok (text +:+ line +:+ newline))
             matching.*1 (head +:+ "m 1" +:+ newline).

Definition print_matching (matching : int_dict) (name : string)
    (header : option string) (fs : filesystem) : result filesystem :=
  text ← print_matching_text matching header; Ok (write_file fs name text).

(** ** Reading text: lines, tokens, integers *)

Definition is_space (c : ascii) : bool :=
  let n := nat_of_ascii c in
  bool_decide (n = 32 ∨ n = 9 ∨ n = 10 ∨ n = 11 ∨ n = 12 ∨ n = 13)%nat.

(** The lines of a file as [for line in f] yields them: each keeps its
    newline character, and a last line without one is yielded as it is. *)
Fixpoint lines_from (s : string) (cur : string) : list string :=
  match s with
  | EmptyString => if decide (cur = "") then [] else [cur]
  | String c s' =>
      if decide (nat_of_ascii c = 10%nat)
      then (cur +:+ String c "") :: lines_from s' ""
      else lines_from s' (cur +:+ String c "")
  end.

Definition file_lines (text : string) : list string := lines_from text "".

(** [s.startswith(p)]. *)
Definition startswith (s p : string) : bool := String.prefix p s.

(** [s.strip().split()]: the maximal runs of characters that are not white
    space. *)
Fixpoint split_from (s : string) (cur : option string) : list string :=
  match s with
  | EmptyString => match cur with Some w => [w] | None => [] end
  | String c s' =>
      if is_space c
      then match cur with
           | Some w => w :: split_from s' None
           | None => split_from s' None
           end
      else split_from s' (Some (default "" cur +:+ String c ""))
  end.

Definition split (s : string) : list string := split_from s None.

Definition digit_of (c : ascii) : option Z :=
  let n := nat_of_ascii c in
  if bool_decide (48 ≤ n ≤ 57)%nat then Some (Z.of_nat n - 48) else None.

Fixpoint digits_value (s : string) (acc : Z) : option Z :=
  match s with
  | EmptyString => Some acc
  | String c s' =>
      match digit_of c with
      | Some d => digits_value s' (10 * acc + d)
      | None => None
      end
  end.

Definition unsigned_int (s : string) : result Z :=
  match s with
  | EmptyString => Raise ValueError
  | _ => match digits_value s 0 with
         | Some n => Ok n
         | None => Raise ValueError
         end
  end.

(** [int(s)] on a token: an optional sign and decimal digits. *)
Definition py_int (s : string) : result Z :=
  match s with
  | String c s' =>
      if decide (nat_of_ascii c = 45%nat) then n ← unsigned_int s'; Ok (- n)
      else if decide (nat_of_ascii c = 43%nat) then unsigned_int s'
      else unsigned_int s
  | EmptyString => Raise ValueError
  end.

(** ** [ProblemInstance.from_file] *)

(** What the loop of [from_file] carries: the three lists it builds and the
    module-level dictionaries, which the constructors write. *)
Record loader_state : Type := mkLoader {
  ld_hospitals : list Hospital;
  ld_singles : list Resident;
  ld_couples : list Couple;
  ld_globals : Globals
}.

(** [rol[-1]]. *)
Definition last_item {A} (l : list A) : result A :=
  match last l with
  | Some a => Ok a
  | None => Raise IndexError
  end.

(** [int(items[i]) if items[i] != NIL_HOSPITAL_SYMBOL else NIL_HOSPITAL_UID]. *)
Definition hospital_token (items : list string) (i : nat) : result Z :=
  t ← list_getitem items i;
  if decide (t = NIL_HOSPITAL_SYMBOL) then Ok NIL_HOSPITAL_UID else py_int t.

(** The loop over the pair tokens of a [c] line: positions 4, 6, 8, ... and
    their successors. *)
Definition couple_rol (items : list string) : result (list (Z * Z)) :=
  for_each (fun (i : nat) (rol : list (Z * Z)) =>
              if bool_decide (i `mod` 2 ≠ 0)%nat then Ok rol
              else a ← hospital_token items i;
                   b ← hospital_token items (S i);
                   Ok (rol ++ [(a, b)]))
           (seq 4 (length items - 4)) [].

Section Loader.
Context `{PySet}.

(** The three dictionaries that [from_file] creates at its start.  They
    are local variables of the function: the constructors write the
    module-level dictionaries of the same names, and nothing writes
    these. *)
Definition local_resident_dict : gmap Z Resident := ∅.
Definition local_hospital_dict : gmap Z Hospital := ∅.
Definition local_couple_dict : gmap Z Couple := ∅.

Definition resident_line_rol (append_nil : bool) (items : list string)
  : result (list Z) :=
  rol ← comprehension py_int (drop 2 items);
  if append_nil then
    l1 ← last_item rol;
    let rol1 := if decide (l1 = -1) then removelast rol else rol in
    l2 ← last_item rol1;
    Ok (if decide (l2 ≠ NIL_HOSPITAL_UID) then rol1 ++ [NIL_HOSPITAL_UID] else rol1)
  else Ok rol.

Definition load_resident (append_nil : bool) (items : list string)
    (st : loader_state) : result loader_state :=
  t ← list_getitem items 1;
  u ← py_int t;
  if bool_decide (is_Some (local_resident_dict !! u))
  then Raise (Exception "duplicate resident")
  else
    rol ← resident_line_rol append_nil items;
    let '(s, g) := Resident_init u (Some rol) (ld_globals st) in
    Ok (mkLoader (ld_hospitals st) (ld_singles st ++ [s]) (ld_couples st) g).

Definition load_program (items : list string) (st : loader_state)
  : result loader_state :=
  t ← list_getitem items 1;
  u ← py_int t;
  if bool_decide (is_Some (local_hospital_dict !! u))
  then Raise (Exception "duplicate program")
  else
    rol ← comprehension py_int (drop 3 items);
    tc ← list_getitem items 2;
    capacity ← py_int tc;
    let '(h, g) := Hospital_init rol u capacity (ld_globals st) in
    Ok (mkLoader (ld_hospitals st ++ [h]) (ld_singles st) (ld_couples st) g).

Definition load_couple (append_nil : bool) (items : list string)
    (st : loader_state) : result loader_state :=
  t ← list_getitem items 1;
  u ← py_int t;
  if bool_decide (is_Some (local_couple_dict !! u))
  then Raise (Exception "duplicate couple")
  else
    t0 ← list_getitem items 2;
    u0 ← py_int t0;
    if bool_decide (is_Some (local_resident_dict !! u0))
    then Raise (Exception "resident in couple already defined")
    else
      t1 ← list_getitem items 3;
      u1 ← py_int t1;
      if bool_decide (is_Some (local_resident_dict !! u1))
      then Raise (Exception "resident in couple already defined")
      else
        rol ← couple_rol items;
        rol' ← (if append_nil then
                  l ← last_item rol;
                  Ok (if decide (l ≠ (NIL_HOSPITAL_UID, NIL_HOSPITAL_UID))
                      then rol ++ [(NIL_HOSPITAL_UID, NIL_HOSPITAL_UID)] else rol)
                else Ok rol);
        let '(r0, g0) := Resident_init u0 None (ld_globals st) in
        let '(r1, g1) := Resident_init u1 None g0 in
        let '(c, g2) := Couple_init rol' u r0 r1 g1 in
        Ok (mkLoader (ld_hospitals st) (ld_singles st) (ld_couples st ++ [c]) g2).

(** The body of [for line in f]. *)
Definition load_line (append_nil : bool) (line : string) (st : loader_state)
  : result loader_state :=
  if startswith line "#" || startswith line " "
     || startswith line newline || startswith line (String (ascii_of_nat 13) "")
  then Ok st
  else
    let items := split line in
    if startswith line "r" then load_resident append_nil items st
    else if startswith line "p" then load_program items st
    else if startswith line "c" then load_couple append_nil items st
    else Raise (Exception "line not readable").

(** [from_file] on the text of the file, from the given module-level
    dictionaries: the instance and the dictionaries as the constructors
    leave them. *)
Definition from_file (text : string) (append_nil : bool) (g : Globals)
  : result (ProblemInstance * Globals) :=
  st ← for_each (load_line append_nil) (file_lines text) (mkLoader [] [] [] g);
  Ok (mkInstance (ld_hospitals st) (ld_singles st) (ld_couples st), ld_globals st).

End Loader.

(** ** [ProblemInstance.solve_sat]: the CNF encoder *)

(** The names kept in [variable_registry].  The source formats them as
    ['xr_%d,%d'], ['xc_%d,%d,%d'], ['q_%d,%d,%d'] and ['cpref_%d,%d'] and the
    decoder reads the integers back from the text; the embedding keeps the
    integers. *)
Inductive var_name : Type :=
  | xr_name (r h : Z)
  | xc_name (c r h : Z)
  | q_name (h i j : Z)
  | cpref_name (c k : Z).

(** The local variables of [solve_sat] that the encoding reads and writes:
    the allocator, the registry, the three variable tables, and the clauses
    appended to the constraints buffer so far, oldest first. *)
Record sat_state : Type := mkSat {
  last_uid : Z;
  variable_registry : gmap Z var_name;
  res_match : gmap Z (gmap Z Z);
  q : gmap Z (gmap Z (gmap Z Z));
  cpref : gmap Z (gmap Z Z);
  constraints : list DIMACSClause
}.

(** [UIDAllocator(first_uid=1)] and empty tables. *)
Definition sat_init : sat_state := mkSat 0 ∅ ∅ ∅ ∅ [].

(** [var_uid_allocator.allocate_uid()]. *)
Definition allocate_uid (s : sat_state) : Z * sat_state :=
  (last_uid s + 1,
   mkSat (last_uid s + 1) (variable_registry s) (res_match s) (q s) (cpref s)
         (constraints s)).

(** [variable_registry[x] = name]. *)
Definition register (x : Z) (name : var_name) (s : sat_state) : sat_state :=
  mkSat (last_uid s) (<[x := name]> (variable_registry s)) (res_match s) (q s)
        (cpref s) (constraints s).

Definition with_res_match (m : gmap Z (gmap Z Z)) (s : sat_state) : sat_state :=
  mkSat (last_uid s) (variable_registry s) m (q s) (cpref s) (constraints s).

Definition with_q (m : gmap Z (gmap Z (gmap Z Z))) (s : sat_state) : sat_state :=
  mkSat (last_uid s) (variable_registry s) (res_match s) m (cpref s) (constraints s).

Definition with_cpref (m : gmap Z (gmap Z Z)) (s : sat_state) : sat_state :=
  mkSat (last_uid s) (variable_registry s) (res_match s) (q s) m (constraints s).

(** [constraints.append(DIMACSClause(lits))]. *)
Definition append_clause (lits : list Z) (s : sat_state) : result sat_state :=
  c ← DIMACSClause_init lits;
  Ok (mkSat (last_uid s) (variable_registry s) (res_match s) (q s) (cpref s)
            (constraints s ++ [c])).

(** A run of [constraints.append(DIMACSClause(...))] calls. *)
Definition append_clauses (ls : list (list Z)) (s : sat_state) : result sat_state :=
  for_each append_clause ls s.

(** [res_match[r][h]], read and written. *)
Definition get_res_match (s : sat_state) (r h : Z) : result Z :=
  d ← getitem (res_match s) r; getitem d h.

Definition set_res_match (r h x : Z) (s : sat_state) : result sat_state :=
  d ← getitem (res_match s) r;
  Ok (with_res_match (<[r := <[h := x]> d]> (res_match s)) s).

(** [q[h][i][j]], read and written. *)
Definition get_q (s : sat_state) (h i j : Z) : result Z :=
  qh ← getitem (q s) h; qhi ← getitem qh i; getitem qhi j.

Definition set_q (h i j x : Z) (s : sat_state) : result sat_state :=
  qh ← getitem (q s) h;
  qhi ← getitem qh i;
  Ok (with_q (<[h := <[i := <[j := x]> qhi]> qh]> (q s)) s).

(** [q[h][i] = {}]. *)
Definition new_q_row (h i : Z) (s : sat_state) : result sat_state :=
  qh ← getitem (q s) h;
  Ok (with_q (<[h := <[i := ∅]> qh]> (q s)) s).

(** [cpref[c][k]], read and written. *)
Definition get_cpref (s : sat_state) (c k : Z) : result Z :=
  d ← getitem (cpref s) c; getitem d k.

Definition set_cpref (c k x : Z) (s : sat_state) : result sat_state :=
  d ← getitem (cpref s) c;
  Ok (with_cpref (<[c := <[k := x]> d]> (cpref s)) s).

Section Encoder.
Context `{PySet}.
Variable g : Globals.

(** [res_match[resident][hospital_dict[h_uid]]]. *)
Definition match_var (s : sat_state) (resident : Resident) (h_uid' : Z) : result Z :=
  h ← getitem (hospital_dict g) h_uid';
  get_res_match s (r_uid resident) (h_uid h).

(** The literals of the clause "the resident is matched somewhere". *)
Definition at_least_one (s : sat_state) (resident : Resident) (uids : list Z)
  : result (list Z) :=
  lits ← comprehension (match_var s resident) uids;
  nil_lit ← get_res_match s (r_uid resident) (h_uid NIL_HOSPITAL);
  Ok (lits ++ [nil_lit]).

(** [assert not resident in res_match; res_match[resident] = {}]. *)
Definition new_resident_row (resident : Resident) (s : sat_state) : result sat_state :=
  _ ← py_assert (negb (bool_decide (is_Some (res_match s !! r_uid resident))));
  Ok (with_res_match (<[r_uid resident := ∅]> (res_match s)) s).

(** The variable of the nil hospital, which every resident gets. *)
Definition nil_var (resident : Resident) (name : var_name) (s : sat_state)
  : result sat_state :=
  let '(x, s1) := allocate_uid s in
  s2 ← set_res_match (r_uid resident) (h_uid NIL_HOSPITAL) x s1;
  Ok (register x name s2).

(** *** Matching variables and the clause "at least one", for singles *)

Definition single_var (resident : Resident) (hospital_uid : Z) (s : sat_state)
  : result sat_state :=
  hospital ← getitem (hospital_dict g) hospital_uid;
  let '(x, s1) := allocate_uid s in
  s2 ← set_res_match (r_uid resident) (h_uid hospital) x s1;
  Ok (register x (xr_name (r_uid resident) (h_uid hospital)) s2).

Definition single_vars (resident : Resident) (s : sat_state) : result sat_state :=
  s0 ← new_resident_row resident s;
  ordering ← Res.get_ordering resident;
  s1 ← for_each (single_var resident) ordering s0;
  s2 ← nil_var resident (xr_name (r_uid resident) NIL_HOSPITAL_UID) s1;
  lits ← at_least_one s2 resident ordering;
  append_clause lits s2.

(** *** The same for the two members of each couple *)

Definition member_var (couple : Couple) (resident : Resident) (h_uid' : Z)
    (s : sat_state) : result sat_state :=
  h ← getitem (hospital_dict g) h_uid';
  let '(x, s1) := allocate_uid s in
  s2 ← set_res_match (r_uid resident) (h_uid h) x s1;
  Ok (register x (xc_name (c_uid couple) (r_uid resident) h_uid') s2).

Definition member_vars (couple : Couple) (resident : Resident) (s : sat_state)
  : result sat_state :=
  s0 ← new_resident_row resident s;
  ranked ← Coup.get_ranked_hospitals couple resident;
  s1 ← for_each (member_var couple resident) ranked s0;
  s2 ← nil_var resident (xc_name (c_uid couple) (r_uid resident) NIL_HOSPITAL_UID) s1;
  lits ← at_least_one s2 resident ranked;
  append_clause lits s2.

Definition couple_vars (couple : Couple) (s : sat_state) : result sat_state :=
  s1 ← member_vars couple (c_residents couple).1 s;
  member_vars couple (c_residents couple).2 s1.

(** *** No resident is assigned to two hospitals *)

Definition at_most_one (resident : Resident) (pair : Z * Z) (s : sat_state)
  : result sat_state :=
  x1 ← match_var s resident pair.1;
  x2 ← match_var s resident pair.2;
  append_clause [- x1; - x2] s.

Definition single_at_most_one (resident : Resident) (s : sat_state)
  : result sat_state :=
  ordering ← Res.get_ordering resident;
  for_each (at_most_one resident) (combinations2 (ordering ++ [NIL_HOSPITAL_UID])) s.

Definition member_at_most_one (couple : Couple) (resident : Resident)
    (s : sat_state) : result sat_state :=
  ranked ← Coup.get_ranked_hospitals couple resident;
  for_each (at_most_one resident)
           (combinations2 (set_iter (ranked ++ [NIL_HOSPITAL_UID]))) s.

Definition couple_at_most_one (couple : Couple) (s : sat_state) : result sat_state :=
  s1 ← member_at_most_one couple (c_residents couple).1 s;
  member_at_most_one couple (c_residents couple).2 s1.

(** The four loops that create the matching variables and clauses. *)
Definition matching_clauses (inst : ProblemInstance) (s : sat_state)
  : result sat_state :=
  s1 ← for_each single_vars (singles inst) s;
  s2 ← for_each couple_vars (couples inst) s1;
  s3 ← for_each single_at_most_one (singles inst) s2;
  for_each couple_at_most_one (couples inst) s3.

(** *** The counter variables [q[h][i][j]] *)

(** [res_match[resident_dict[ordering[i - 1]]][h]]. *)
Definition y_var (s : sat_state) (h : Hospital) (ordering : list Z) (i : Z)
  : result Z :=
  u ← list_getitem ordering (Z.to_nat (i - 1));
  r ← getitem (resident_dict g) u;
  get_res_match s (r_uid r) (h_uid h).

Definition counter_var (h : Hospital) (i j : Z) (s : sat_state) : result sat_state :=
  let '(x, s1) := allocate_uid s in
  s2 ← set_q (h_uid h) i j x s1;
  Ok (register x (q_name (h_uid h) i j) s2).

(** The clauses of the first row, [i == 1].  Here and below the literals
    of a group of clauses are looked up once; the source looks them up
    again in each clause, in tables that do not change in between. *)
Definition counter_base (h : Hospital) (ordering : list Z) (i : Z) (s : sat_state)
  : result sat_state :=
  y ← y_var s h ordering i;
  q0 ← get_q s (h_uid h) i 0;
  q1 ← get_q s (h_uid h) i 1;
  append_clauses [[y; q0]; [- y; q1]; [- y; - q0]; [y; - q1]] s.

(** The clauses of row [i > 1] for one [j]. *)
Definition counter_step (h : Hospital) (ordering : list Z) (i j : Z) (s : sat_state)
  : result sat_state :=
  if bool_decide (j = 0) then
    y ← y_var s h ordering i;
    a ← get_q s (h_uid h) i 0;
    p ← get_q s (h_uid h) (i - 1) 0;
    append_clauses [[- y; - a]; [p; - a]; [y; - p; a]] s
  else if bool_decide (j = i) then
    y ← y_var s h ordering i;
    a ← get_q s (h_uid h) i j;
    p ← get_q s (h_uid h) (i - 1) (j - 1);
    append_clauses [[y; - a]; [p; - a]; [- y; - p; a]] s
  else
    y ← y_var s h ordering i;
    p ← get_q s (h_uid h) (i - 1) (j - 1);
    a ← get_q s (h_uid h) i j;
    p' ← get_q s (h_uid h) (i - 1) j;
    append_clauses [[- y; - p; a]; [y; - p'; a]; [y; p'; - a]; [- y; p; - a]] s.

(** The body of [for i in xrange(len(ordering) + 1)]. *)
Definition counter_row (h : Hospital) (ordering : list Z) (i : Z) (s : sat_state)
  : result sat_state :=
  if bool_decide (i = 0) then Ok s
  else
    s0 ← new_q_row (h_uid h) i s;
    let js := xrange (Z.min (i + 1) (h_capacity h + 2)) in
    s1 ← for_each (counter_var h i) js s0;
    s2 ← (if bool_decide (i = 1) then counter_base h ordering i s1
          else for_each (counter_step h ordering i) js s1);
    if bool_decide (i >= h_capacity h + 1) then
      a ← get_q s2 (h_uid h) i (h_capacity h + 1);
      append_clause [- a] s2
    else Ok s2.

(** The body of [for h in self.hospitals]. *)
Definition counter_hospital (h : Hospital) (s : sat_state) : result sat_state :=
  let s0 := with_q (<[h_uid h := ∅]> (q s)) s in
  ordering ← Hosp.get_ordering h;
  for_each (counter_row h ordering) (xrange (len ordering + 1)) s0.

Definition counter_clauses (inst : ProblemInstance) (s : sat_state)
  : result sat_state :=
  for_each counter_hospital (hospitals inst) s.

(** *** The threshold variables [cpref[couple][number]] *)

Definition cpref_var (couple : Couple) (number : Z) (s : sat_state)
  : result sat_state :=
  let '(x, s1) := allocate_uid s in
  s2 ← set_cpref (c_uid couple) number x s1;
  Ok (register x (cpref_name (c_uid couple) number) s2).

(** The clauses that tie [cpref[couple][number]] to the previous threshold
    and to the two matching variables [x0] and [x1] of the pair. *)
Definition cpref_step (couple : Couple) (number x0 x1 : Z) (s : sat_state)
  : result sat_state :=
  a ← get_cpref s (c_uid couple) number;
  p ← get_cpref s (c_uid couple) (number - 1);
  append_clauses [[- a; p; x0]; [- a; p; x1]; [a; - p]; [a; - x0; - x1]] s.

(** The body of [for number in xrange(len(ordering))]. *)
Definition cpref_rank (couple : Couple) (ordering : list (Z * Z)) (number : Z)
    (s : sat_state) : result sat_state :=
  hh ← list_getitem ordering (Z.to_nat number);
  h0 ← getitem (hospital_dict g) hh.1;
  h1 ← getitem (hospital_dict g) hh.2;
  s0 ← cpref_var couple number s;
  if bool_decide (number = 0) then
    a ← get_cpref s0 (c_uid couple) number;
    x0 ← get_res_match s0 (r_uid (c_residents couple).1) (h_uid h0);
    x1 ← get_res_match s0 (r_uid (c_residents couple).2) (h_uid h1);
    append_clauses [[- a; x0]; [- a; x1]; [a; - x0; - x1]] s0
  else
    x0 ← get_res_match s0 (r_uid (c_residents couple).1) (h_uid h0);
    x1 ← get_res_match s0 (r_uid (c_residents couple).2) (h_uid h1);
    cpref_step couple number x0 x1 s0.

(** The body of the first [for couple in self.couples] of this part. *)
Definition cpref_couple (couple : Couple) (s : sat_state) : result sat_state :=
  let s0 := with_cpref (<[c_uid couple := ∅]> (cpref s)) s in
  let ordering := Coup.get_ordering couple in
  s1 ← for_each (cpref_rank couple ordering) (xrange (len ordering)) s0;
  let number := len ordering in
  s2 ← cpref_var couple number s1;
  x0 ← get_res_match s2 (r_uid (c_residents couple).1) (h_uid NIL_HOSPITAL);
  x1 ← get_res_match s2 (r_uid (c_residents couple).2) (h_uid NIL_HOSPITAL);
  cpref_step couple number x0 x1 s2.

(** Each couple is matched to one of its ranked pairs or to (nil, nil). *)
Definition couple_matched (couple : Couple) (s : sat_state) : result sat_state :=
  lits ← comprehension (get_cpref s (c_uid couple))
                       (xrange (len (Coup.get_ordering couple) + 1));
  append_clause lits s.

Definition cpref_clauses (inst : ProblemInstance) (s : sat_state)
  : result sat_state :=
  s1 ← for_each cpref_couple (couples inst) s;
  for_each couple_matched (couples inst) s1.

(** *** Stability *)

(** [append_q_vars]. *)
Definition append_q_vars (s : sat_state) (l : list Z)
    (q_vars : list (Hospital * Resident * Z)) : result (list Z) :=
  for_each (fun '(hospital, resident, number) l_copy =>
              if negb (Hosp.is_nil hospital) then
                rk ← Hosp.get_rank hospital (r_uid resident);
                if bool_decide (rk >= number) then
                  x ← get_q s (h_uid hospital) rk number;
                  Ok (l_copy ++ [x])
                else Ok l_copy
              else Ok l_copy)
           q_vars l.

(** Instability for singles: the body of [for h_uid in single.get_ordering()]. *)
Definition single_stability (single : Resident) (h_uid' : Z) (s : sat_state)
  : result sat_state :=
  h ← getitem (hospital_dict g) h_uid';
  wp ← Res.get_all_weakly_preferred single h_uid';
  lits ← comprehension (match_var s single) wp;
  lits' ← append_q_vars s lits [(h, single, h_capacity h)];
  append_clause lits' s.

Definition single_stability_all (single : Resident) (s : sat_state)
  : result sat_state :=
  ordering ← Res.get_ordering single;
  for_each (single_stability single) ordering s.

(** One member of a couple switches: the body of the loop over the ranks. *)
Definition one_switch (couple : Couple) (ordering : list (Z * Z)) (number : Z)
    (s : sat_state) : result sat_state :=
  let r0 := (c_residents couple).1 in
  let r1 := (c_residents couple).2 in
  hh ← list_getitem ordering (Z.to_nat number);
  h0 ← getitem (hospital_dict g) hh.1;
  h1 ← getitem (hospital_dict g) hh.2;
  let first := fun (q_vars : list (Hospital * Resident * Z)) (s : sat_state) =>
    x ← get_res_match s (r_uid r1) (h_uid h1);
    a ← get_cpref s (c_uid couple) number;
    lits ← append_q_vars s [- x; a] q_vars;
    append_clause lits s in
  let second := fun (q_vars : list (Hospital * Resident * Z)) (s : sat_state) =>
    x ← get_res_match s (r_uid r0) (h_uid h0);
    a ← get_cpref s (c_uid couple) number;
    lits ← append_q_vars s [- x; a] q_vars;
    append_clause lits s in
  if negb (bool_decide (h_uid h0 = h_uid h1)) then
    s1 ← first [(h0, r0, h_capacity h0)] s;
    second [(h1, r1, h_capacity h1)] s1
  else
    rk0 ← Hosp.get_rank h0 (r_uid r0);
    rk1 ← Hosp.get_rank h0 (r_uid r1);
    if bool_decide (rk0 < rk1) then
      s1 ← first [(h0, r0, h_capacity h0); (h1, r1, h_capacity h1 - 1)] s;
      second [(h1, r1, h_capacity h1)] s1
    else
      s1 ← first [(h0, r0, h_capacity h0)] s;
      second [(h0, r0, h_capacity h0 - 1); (h1, r1, h_capacity h1)] s1.

Definition one_switch_couple (couple : Couple) (s : sat_state) : result sat_state :=
  let ordering := Coup.get_ordering couple in
  let r0 := (c_residents couple).1 in
  let r1 := (c_residents couple).2 in
  s1 ← for_each (one_switch couple ordering) (xrange (len ordering)) s;
  x ← get_res_match s1 (r_uid r0) (h_uid NIL_HOSPITAL);
  a ← get_cpref s1 (c_uid couple) (len ordering);
  s2 ← append_clause [- x; a] s1;
  x ← get_res_match s2 (r_uid r1) (h_uid NIL_HOSPITAL);
  a ← get_cpref s2 (c_uid couple) (len ordering);
  append_clause [- x; a] s2.

(** Both members of a couple switch. *)
Definition both_switch (couple : Couple) (ordering : list (Z * Z)) (number : Z)
    (s : sat_state) : result sat_state :=
  let r0 := (c_residents couple).1 in
  let r1 := (c_residents couple).2 in
  hh ← list_getitem ordering (Z.to_nat number);
  h0 ← getitem (hospital_dict g) hh.1;
  h1 ← getitem (hospital_dict g) hh.2;
  if bool_decide (h_capacity h0 = 0) || bool_decide (h_capacity h1 = 0) then Ok s
  else
    let emit := fun (q_vars : list (Hospital * Resident * Z)) =>
      x0 ← get_res_match s (r_uid r0) (h_uid h0);
      x1 ← get_res_match s (r_uid r1) (h_uid h1);
      a ← get_cpref s (c_uid couple) number;
      lits ← append_q_vars s [x0; x1; a] q_vars;
      append_clause lits s in
    if negb (bool_decide (h_uid h0 = h_uid h1)) then
      emit [(h0, r0, h_capacity h0); (h1, r1, h_capacity h1)]
    else if bool_decide (h_capacity h0 = 1) then Ok s
    else
      emit [(h0, r0, h_capacity h0); (h1, r1, h_capacity h1);
            (h0, r0, h_capacity h0 - 1); (h1, r1, h_capacity h1 - 1)].

Definition both_switch_couple (couple : Couple) (s : sat_state) : result sat_state :=
  let ordering := Coup.get_ordering couple in
  let r0 := (c_residents couple).1 in
  let r1 := (c_residents couple).2 in
  s1 ← for_each (both_switch couple ordering) (xrange (len ordering)) s;
  x0 ← get_res_match s1 (r_uid r0) (h_uid NIL_HOSPITAL);
  x1 ← get_res_match s1 (r_uid r1) (h_uid NIL_HOSPITAL);
  a ← get_cpref s1 (c_uid couple) (len ordering);
  append_clause [x0; x1; a] s1.

Definition stability_clauses (inst : ProblemInstance) (s : sat_state)
  : result sat_state :=
  s1 ← for_each single_stability_all (singles inst) s;
  s2 ← for_each one_switch_couple (couples inst) s1;
  for_each both_switch_couple (couples inst) s2.

(** *** The whole encoding *)

(** [solve_sat] up to the final [constraints.flush()]: the tables and the
    clauses that have been appended. *)
Definition solve_sat_encode (inst : ProblemInstance) : result sat_state :=
  s1 ← matching_clauses inst sat_init;
  s2 ← counter_clauses inst s1;
  s3 ← cpref_clauses inst s2;
  stability_clauses inst s3.

(** *** The decoder *)

(** One literal of a [v] line of the solver's output. *)
Definition decode_literal (s : sat_state) (lit : Z) (matching : gmap Z Z)
  : result (gmap Z Z) :=
  name ← getitem (variable_registry s) (Z.abs lit);
  match name with
  | xr_name r h => Ok (if bool_decide (lit > 0) then <[r := h]> matching else matching)
  | xc_name _ r h => Ok (if bool_decide (lit > 0) then <[r := h]> matching else matching)
  | _ => Ok matching
  end.

(** [if not single.uid in self.matching: self.matching[single.uid] = NIL_HOSPITAL_UID]. *)
Definition default_single (matching : gmap Z Z) (single : Resident) : gmap Z Z :=
  match matching !! r_uid single with
  | Some _ => matching
  | None => <[r_uid single := NIL_HOSPITAL_UID]> matching
  end.

(** The matching read from the literals of the solver's model (the zero
    that ends the line left out). *)
Definition decode (inst : ProblemInstance) (s : sat_state) (model : list Z)
  : result (gmap Z Z) :=
  m ← for_each (decode_literal s) model ∅;
  let m' := foldl default_single m (singles inst) in
  _ ← py_assert (negb (bool_decide (m' = ∅)));
  Ok m'.

End Encoder.

(** ** Truth assignments *)

(** A literal under an assignment of the variables. *)
Definition lit_true (v : Z → bool) (lit : Z) : bool :=
  if bool_decide (0 < lit) then v lit else negb (v (- lit)).

Definition clause_true (v : Z → bool) (c : DIMACSClause) : bool :=
  existsb (lit_true v) (var_list c).

(** The assignment satisfies every clause of the list. *)
Definition satisfies (v : Z → bool) (cs : list DIMACSClause) : Prop :=
  ∀ c, c ∈ cs → clause_true v c = true.

(** The assignment that a list of literals spells out. *)
Definition assignment_of (model : list Z) : Z → bool :=
  fun x => bool_decide (x ∈ model).

(** ** [cplex_py]: linear constraints *)

(** The names of the variables of the integer program.  The source formats
    them as ['x_%d,%d'], ['x_%d,%d,%d'] and ['alpha_%d,%d'], and the
    evaluator of the verify mode reads the integers back from the text; the
    embedding keeps the integers. *)
Inductive mip_var : Type :=
  | x_single (r h : Z)
  | x_couple (c h0 h1 : Z)
  | alpha (r h : Z).

(** [class CoeffVar].  The numbers of the program are 1, -1, 0, the
    capacities and their negations, written as floats or as Python
    integers; sums and comparisons of them are exact, and the embedding
    keeps them as integers. *)
Record CoeffVar : Type := mkCoeffVar {
  coeff : option Z;
  var : option mip_var
}.

(** [CoeffVar(coeff=c, var=x)], [CoeffVar(var=x)] and [CoeffVar(c)]. *)
Definition term (c : Z) (x : mip_var) : CoeffVar := mkCoeffVar (Some c) (Some x).
Definition const (c : Z) : CoeffVar := mkCoeffVar (Some c) None.

(** [class EqualityConstraint] and [class InequalityConstraint], with the
    term list of the [Expression] on the variable side.  The name ['c%d']
    that a constraint gets is used by the renderer only and is left out. *)
Inductive Constraint : Type :=
  | EqualityConstraint (var_side : list CoeffVar) (const_side : CoeffVar)
  | InequalityConstraint (var_side : list CoeffVar) (const_side : CoeffVar).

Definition var_side (c : Constraint) : list CoeffVar :=
  match c with
  | EqualityConstraint vs _ => vs
  | InequalityConstraint vs _ => vs
  end.

Definition const_side (c : Constraint) : CoeffVar :=
  match c with
  | EqualityConstraint _ k => k
  | InequalityConstraint _ k => k
  end.

(** ** [ProblemInstance.solve_mip]: the constraints

    The [ConstraintsCollection] is the list of the constraints added so
    far, oldest first.  The list [binaries] is written by the generator and
    read by the solver call only; the verify mode does not read it, and the
    embedding leaves it out, like the dictionary [h_match_dict], which the
    verify mode writes and never reads. *)

Section Mip.
Variable g : Globals.




(** *** Matching constraints *)




(** *** Stability constraints: singles *)



(** *** Stability constraints: one member of a couple *)





(** *** Stability constraints: both members of a couple *)




(** *** The whole program *)


(** ** The verify mode of [solve_mip] *)







End Mip.

(** ** The verify mode of [solve_sat] *)

(** What the loops of the verify mode carry: the set of the variables
    given the value [True], the set of the hospitals met, and the hospital
    of each resident. *)
Record verify_state : Type := mkVerify {
  value_dict : gset Z;
  h_hash : gset Z;
  r_match_dict_sat : gmap Z Hospital
}.

Definition set_true (x : Z) (vs : verify_state) : verify_state :=
  mkVerify ({[x]} ∪ value_dict vs) (h_hash vs) (r_match_dict_sat vs).

Section SatVerify.
Context `{PySet}.
Variable g : Globals.

(** The loop over the positions of the hospital's list, for the hospital of
    a line: the counter of the position says "one" from the resident on and
    "none" before. *)
Definition mark_counters (s : sat_state) (h : Hospital) (r : Resident)
    (ordering : list Z) (i : Z) (st : bool * verify_state)
  : result (bool * verify_state) :=
  let '(found_match, vs) := st in
  u ← list_getitem ordering (Z.to_nat (i - 1));
  if bool_decide (u = r_uid r) then
    x ← get_q s (h_uid h) i 1;
    Ok (true, set_true x vs)
  else if found_match then
    x ← get_q s (h_uid h) i 1;
    Ok (found_match, set_true x vs)
  else
    x ← get_q s (h_uid h) i 0;
    Ok (found_match, set_true x vs).

(** The body of [for line in f]. *)
Definition read_match_sat (s : sat_state) (line : string) (vs : verify_state)
  : result verify_state :=
  if startswith line "r " then
    let toks := split line in
    t2 ← list_getitem toks 2;
    n2 ← py_int t2;
    h ← getitem (hospital_dict g) n2;
    t1 ← list_getitem toks 1;
    n1 ← py_int t1;
    r ← getitem (resident_dict g) n1;
    x ← get_res_match s (r_uid r) (h_uid h);
    let vs1 := mkVerify ({[x]} ∪ value_dict vs) (h_hash vs)
                        (<[r_uid r := h]> (r_match_dict_sat vs)) in
    if bool_decide (h_uid h ≠ NIL_HOSPITAL_UID) then
      _ ← py_assert (negb (bool_decide (h_uid h ∈ h_hash vs1)));
      let vs2 := mkVerify (value_dict vs1) ({[h_uid h]} ∪ h_hash vs1)
                          (r_match_dict_sat vs1) in
      ordering ← Hosp.get_ordering h;
      st ← for_each (mark_counters s h r ordering) (xrange2 1 (len ordering + 1))
                    (false, vs2);
      Ok st.2
    else Ok vs1
  else Ok vs.

(** The hospitals that no line names: every counter says "none". *)
Definition mark_empty (s : sat_state) (h : Hospital) (vs : verify_state)
  : result verify_state :=
  if negb (bool_decide (h_uid h ∈ h_hash vs)) then
    ordering ← Hosp.get_ordering h;
    for_each (fun i vs' => x ← get_q s (h_uid h) i 0; Ok (set_true x vs'))
             (xrange2 1 (len ordering + 1)) vs
  else Ok vs.

(** The body of the loop over the ranks of a couple. *)
Definition mark_cpref (s : sat_state) (couple : Couple) (ordering : list (Z * Z))
    (number : Z) (st : bool * verify_state) : result (bool * verify_state) :=
  let '(found_match, vs) := st in
  let r0 := (c_residents couple).1 in
  let r1 := (c_residents couple).2 in
  hh ← list_getitem ordering (Z.to_nat number);
  h0 ← getitem (hospital_dict g) hh.1;
  h1 ← getitem (hospital_dict g) hh.2;
  m0 ← getitem (r_match_dict_sat vs) (r_uid r0);
  found ← (if bool_decide (h_uid h0 = h_uid m0) then
             m1 ← getitem (r_match_dict_sat vs) (r_uid r1);
             Ok (if bool_decide (h_uid h1 = h_uid m1) then true else found_match)
           else Ok found_match);
  if (found : bool) then
    x ← get_cpref s (c_uid couple) number;
    Ok (found, set_true x vs)
  else Ok (found, vs).

(** A member that no line names is unmatched. *)
Definition default_member (s : sat_state) (r : Resident) (vs : verify_state)
  : result verify_state :=
  if negb (bool_decide (is_Some (r_match_dict_sat vs !! r_uid r))) then
    x ← get_res_match s (r_uid r) (h_uid NIL_HOSPITAL);
    Ok (mkVerify ({[x]} ∪ value_dict vs) (h_hash vs)
                 (<[r_uid r := NIL_HOSPITAL]> (r_match_dict_sat vs)))
  else Ok vs.

Definition mark_couple (s : sat_state) (couple : Couple) (vs : verify_state)
  : result verify_state :=
  let ordering := Coup.get_ordering couple in
  let r0 := (c_residents couple).1 in
  let r1 := (c_residents couple).2 in
  vs0 ← default_member s r0 vs;
  vs1 ← default_member s r1 vs0;
  st ← for_each (mark_cpref s couple ordering) (xrange (len ordering)) (false, vs1);
  x ← get_cpref s (c_uid couple) (len ordering);
  Ok (set_true x st.2).

(** [eval_str_clause] on the numbers of a line.  A line of the constraints
    file is the render of a clause: its literals and a final 0. *)
Fixpoint eval_str_clause (value_dict : gset Z) (numbers : list Z) : bool :=
  match numbers with
  | [] => false
  | number :: numbers' =>
      if bool_decide (number = 0) then false
      else if bool_decide (number > 0) && bool_decide (number ∈ value_dict) then true
      else if bool_decide (number < 0) && negb (bool_decide (- number ∈ value_dict))
           then true
           else eval_str_clause value_dict numbers'
  end.

(** The numbers of the line that [render] writes for the clause. *)
Definition line_numbers (c : DIMACSClause) : list Z := var_list c ++ [0].

(** The values that the verify mode gives the variables, from the text of
    the matching file and the state of the encoder. *)
Definition sat_values (inst : ProblemInstance) (s : sat_state) (verify_file : string)
  : result verify_state :=
  vs1 ← for_each (read_match_sat s) (file_lines verify_file) (mkVerify ∅ ∅ ∅);
  vs2 ← for_each (mark_empty s) (hospitals inst) vs1;
  for_each (mark_couple s) (couples inst) vs2.

(** The verify mode of [solve_sat] on the text of the matching file: the
    clauses it prints as failing. *)
Definition sat_verify (inst : ProblemInstance) (verify_file : string)
  : result (list DIMACSClause) :=
  s ← solve_sat_encode g inst;
  vs ← sat_values inst s verify_file;
  Ok (filter (fun c => eval_str_clause (value_dict vs) (line_numbers c) = false)
             (constraints s)).

End SatVerify.

(** ** Notions used in the statements *)

(** The concrete set order used in the examples, with the two facts that
    make it an order of [PySet]. *)
Lemma slot_insert_elem (x y : Z) (l : list Z) : y ∈ slot_insert x l ↔ y = x ∨ y ∈ l.
Proof.
  induction l as [|z l IH]; simpl.
  - rewrite list_elem_of_singleton. set_solver.
  - case_bool_decide; set_solver.
Qed.

Lemma slot_insert_NoDup (x : Z) (l : list Z) : x ∉ l → NoDup l → NoDup (slot_insert x l).
Proof.
  induction l as [|z l IH]; simpl; intros Hx Hnd.
  - apply NoDup_singleton.
  - case_bool_decide.
    + by apply NoDup_cons.
    + apply NoDup_cons in Hnd as [Hz Hnd]. apply NoDup_cons. split.
      * rewrite slot_insert_elem. set_solver.
      * apply IH; [set_solver | done].
Qed.

Lemma slot_fold_spec (l acc : list Z) :
  NoDup acc →
  NoDup (foldl slot_add acc l) ∧ ∀ x, x ∈ foldl slot_add acc l ↔ x ∈ acc ∨ x ∈ l.
Proof.
  revert acc. induction l as [|y l IH]; intros acc Hnd; simpl.
  - split; [done | set_solver].
  - assert (Hnd' : NoDup (slot_add acc y)).
    { unfold slot_add. case_bool_decide; [done|]. by apply slot_insert_NoDup. }
    destruct (IH _ Hnd') as [H1 H2]. split; [done|].
    intros x. rewrite H2. unfold slot_add. case_bool_decide.
    + set_solver.
    + rewrite slot_insert_elem. set_solver.
Qed.

Lemma slot_order_NoDup (l : list Z) : NoDup (slot_order l).
Proof. apply slot_fold_spec, NoDup_nil_2. Qed.

Lemma slot_order_elem (l : list Z) (x : Z) : x ∈ slot_order l ↔ x ∈ l.
Proof.
  unfold slot_order. destruct (slot_fold_spec l [] (NoDup_nil_2)) as [_ ->]. set_solver.
Qed.

Definition cpython_small : PySet := mkPySet slot_order slot_order_NoDup slot_order_elem.

(** The text of a file, the empty text for a file that does not exist. *)
Definition content (fs : filesystem) (name : string) : string := default "" (fs !! name).

(** The distinct items of a list in the order of their first occurrence. *)
Definition first_occurrences (l : list Z) : list Z :=
  foldl (fun acc x => if bool_decide (x ∈ acc) then acc else acc ++ [x]) [] l.

(** The line of the matching file for one entry of the matching. *)
Definition entry_line (e : Z * Z) : string :=
  "r " +:+ str_int e.1 +:+ " " +:+
  (if decide (e.2 = NIL_HOSPITAL_UID) then "-1" else str_int e.2).

(** The lines of the matching file. *)
Definition matching_lines (matching : int_dict) (header : option string) : list string :=
  match header with Some h => ["# " +:+ h] | None => [] end
  ++ match matching with
     | [] => ["m 0"]
     | _ => "m 1" :: (entry_line <$> matching)
     end.

Section Semantics.
Context `{PySet}.
Variable g : Globals.

(** The value of [res_match[resident_dict[u]][h]] under an assignment:
    the resident with uid [u] is matched to the hospital [h]. *)
Definition matched (s : sat_state) (v : Z → bool) (h : Hospital) (u : Z) : bool :=
  match r ← getitem (resident_dict g) u; get_res_match s (r_uid r) (h_uid h) with
  | Ok x => v x
  | Raise _ => false
  end.

(** How many of the listed residents are matched to [h]. *)
Fixpoint count_matched (s : sat_state) (v : Z → bool) (h : Hospital) (l : list Z) : Z :=
  match l with
  | [] => 0
  | u :: l' => (if matched s v h u then 1 else 0) + count_matched s v h l'
  end.

(** The member [r] of a couple is matched to the hospital registered
    under [hu]. *)
Definition member_matched (s : sat_state) (v : Z → bool) (r : Resident) (hu : Z) : bool :=
  match match_var g s r hu with
  | Ok x => v x
  | Raise _ => false
  end.

(** The two members of the couple are matched to the pair. *)
Definition pair_matched (s : sat_state) (v : Z → bool) (c : Couple) (hh : Z * Z) : bool :=
  member_matched s v (c_residents c).1 hh.1 && member_matched s v (c_residents c).2 hh.2.

(** The two members of the couple are matched to the nil hospital. *)
Definition nil_matched (s : sat_state) (v : Z → bool) (c : Couple) : bool :=
  match get_res_match s (r_uid (c_residents c).1) (h_uid NIL_HOSPITAL),
        get_res_match s (r_uid (c_residents c).2) (h_uid NIL_HOSPITAL) with
  | Ok x0, Ok x1 => v x0 && v x1
  | _, _ => false
  end.

(** The couple is matched to one of its first [k + 1] pairs. *)
Definition pairs_matched_up_to (s : sat_state) (v : Z → bool) (c : Couple) (k : Z) : Prop :=
  ∃ k' hh, 0 ≤ k' ≤ k ∧ c_preference c !! Z.to_nat k' = Some hh
           ∧ pair_matched s v c hh = true.

(** The couple is matched to a pair of rank at most [k]; for [k] the
    length of the list, to one of its pairs or to (nil, nil). *)
Definition matched_up_to (s : sat_state) (v : Z → bool) (c : Couple) (k : Z) : Prop :=
  pairs_matched_up_to s v c k
  ∨ (k = len (c_preference c) ∧ nil_matched s v c = true).

(** The counter variables of the hospital say what they are meant to say:
    [q[h][i][j]] exists and is true exactly when [j] of the first [i]
    residents of the hospital's list are matched to it. *)
Definition counter_sem (s : sat_state) (v : Z → bool) (h : Hospital) (ord : list Z)
  : Prop :=
  ∀ i j, 1 ≤ i ≤ len ord → 0 ≤ j ≤ Z.min i (h_capacity h + 1) →
    ∃ a, get_q s (h_uid h) i j = Ok a
         ∧ (v a = true ↔ count_matched s v h (take (Z.to_nat i) ord) = j).

(** The threshold variables of the couple say what they are meant to say. *)
Definition cpref_sem (s : sat_state) (v : Z → bool) (c : Couple) : Prop :=
  ∀ k, 0 ≤ k ≤ len (c_preference c) →
    ∃ a, get_cpref s (c_uid c) k = Ok a ∧ (v a = true ↔ matched_up_to s v c k).

(** The encoder up to the counters, and up to the thresholds. *)
Definition matching_and_counters (inst : ProblemInstance) : result sat_state :=
  s1 ← matching_clauses g inst sat_init;
  counter_clauses g inst s1.

End Semantics.

(** ** Notions used in the proofs about the encoder *)

(** The state with more clauses appended. *)
Definition add_clauses (cs : list DIMACSClause) (s : sat_state) : sat_state :=
  mkSat (last_uid s) (variable_registry s) (res_match s) (q s) (cpref s)
        (constraints s ++ cs).

(** Every variable in the three tables is a positive integer, as the
    allocator hands them out. *)
Definition positive_tables (s : sat_state) : Prop :=
  0 ≤ last_uid s
  ∧ (∀ r h x, get_res_match s r h = Ok x → 0 < x)
  ∧ (∀ h i j x, get_q s h i j = Ok x → 0 < x)
  ∧ (∀ c k x, get_cpref s c k = Ok x → 0 < x).

(** The state [t] while the variables of row [i] of the hospital are being
    allocated from the state [s], in which the rows of the hospital are [qh]. *)
Definition row_state (h : Hospital) (i : Z) (qh : gmap Z (gmap Z Z))
    (s t : sat_state) : Prop :=
  res_match t = res_match s ∧ cpref t = cpref s ∧ constraints t = constraints s
  ∧ positive_tables t
  ∧ ∃ row, q t = <[h_uid h := <[i := row]> qh]> (q s).

(** The second state is the first with more clauses appended. *)
Definition extends (s s' : sat_state) : Prop := ∃ cs, s' = add_clauses cs s.

(** The assignment satisfies the clauses appended after the first [n]. *)
Definition sat_from (n : nat) (v : Z → bool) (s : sat_state) : Prop :=
  satisfies v (drop n (constraints s)).

(** ** Stability of a matching *)

Section Stability.
Variable g : Globals.

(** The hospital of a resident in a matching; a resident without an
    entry is unmatched, which is the nil hospital. *)
Definition assigned (m : gmap Z Z) (r : Z) : Z := default NIL_HOSPITAL_UID (m !! r).

(** How many residents that the hospital strictly prefers to [r] it
    holds: those matched to it, and those of [joining], who come with [r]. *)
Definition better_occupants (m : gmap Z Z) (h : Hospital) (r : Z) (joining : list Z) : Z :=
  match Hosp.get_rank h r, h_preference h with
  | Ok rk, Some l =>
      len (filter (fun u => u ≠ r ∧ (assigned m u = h_uid h ∨ u ∈ joining))
                  (take (Z.to_nat rk) l))
  | _, _ => 0
  end.

(** The hospital refuses [r]: it is not the nil hospital and it is at
    capacity with residents that it strictly prefers to [r]. *)
Definition refuses (m : gmap Z Z) (h : Hospital) (r : Z) (joining : list Z) : bool :=
  negb (Hosp.is_nil h) && bool_decide (h_capacity h ≤ better_occupants m h r joining).

(** The resident strictly prefers the hospital [hu] of its list to its
    assignment: the assignment is not among the hospitals of the list up
    to [hu]. *)
Definition single_prefers (m : gmap Z Z) (r : Resident) (hu : Z) : bool :=
  match Res.get_all_weakly_preferred r hu with
  | Ok wp => bool_decide (assigned m (r_uid r) ∉ wp)
  | Raise _ => false
  end.

(** The single resident and the hospital do not block the matching. *)
Definition single_stable (m : gmap Z Z) (r : Resident) (hu : Z) : Prop :=
  single_prefers m r hu = true →
  ∃ h, hospital_dict g !! hu = Some h ∧ refuses m h (r_uid r) [] = true.

(** The couple strictly prefers the pair of rank [k] to its assignment. *)
Definition couple_prefers (m : gmap Z Z) (c : Couple) (k : nat) : bool :=
  bool_decide ((assigned m (r_uid (c_residents c).1), assigned m (r_uid (c_residents c).2))
               ∉ take (S k) (c_preference c)).

(** One of the two moves of the switch to the pair is refused; a member
    who goes to the hospital of the partner counts the partner among the
    occupants. *)
Definition switch_blocked (m : gmap Z Z) (c : Couple) (hh : Z * Z) : bool :=
  match hospital_dict g !! hh.1, hospital_dict g !! hh.2 with
  | Some h0, Some h1 =>
      let r0 := r_uid (c_residents c).1 in
      let r1 := r_uid (c_residents c).2 in
      let same := bool_decide (h_uid h0 = h_uid h1) in
      refuses m h0 r0 (if same then [r1] else [])
      || refuses m h1 r1 (if same then [r0] else [])
  | _, _ => false
  end.

(** The couple and the pair of rank [k] do not block the matching. *)
Definition couple_stable (m : gmap Z Z) (c : Couple) (k : nat) : Prop :=
  ∀ hh, c_preference c !! k = Some hh → couple_prefers m c k = true →
        switch_blocked m c hh = true.

(** No blocking pair. *)
Definition no_blocking_pair (inst : ProblemInstance) (m : gmap Z Z) : Prop :=
  (∀ r hu l, r ∈ singles inst → r_preference r = Some l → hu ∈ l → single_stable m r hu)
  ∧ (∀ c k, c ∈ couples inst → couple_stable m c k).

End Stability.

(** The literals list every variable from 1 to [n] once, with a sign. *)
Definition total_model (n : Z) (model : list Z) : Prop :=
  Z.abs <$> model = seqZ 1 n.

(** *** The instance of the failing assignment

    Hospitals 1 and 2 of capacity 1, which rank the residents 11 and 12;
    the couple 100 of the residents 11 and 12, which ranks (1, 2) first and
    (1, nil) second. *)
Definition orphan_file : string :=
  unlines ["p 1 1 11"; "p 2 1 12"; "c 100 11 12 1 2 1 -1"].

(** A model of the clauses: 11 is in hospital 1 and 12 in hospital 2.
    Variable 4 is the first of the two variables that [solve_sat] creates
    for "12 is unmatched"; no clause mentions it. *)
Definition orphan_model : list Z := [1; -2; 3; 4; -5; -6; 7; -8; 9; 10; 11; 12].

(** *** Instances for the examples *)

(** The instance and the dictionaries that [from_file] gives for a text,
    under the set order [cpython_small]. *)
Definition loaded (text : string) : ProblemInstance * Globals :=
  match @from_file cpython_small text false module_globals with
  | Ok p => p
  | Raise _ => (mkInstance [] [] [], module_globals)
  end.

(** One hospital with one place, which prefers resident 11 to resident 12;
    both residents rank it. *)
Definition one_place_file : string := unlines ["p 1 1 11 12"; "r 11 1"; "r 12 1"].

(** The state that a run of the encoder ends in. *)
Definition state_of (r : result sat_state) : sat_state :=
  match r with
  | Ok s => s
  | Raise _ => sat_init
  end.

(** An assignment for [one_place_file]: resident 11 has the place, resident
    12 is unmatched. *)
Definition one_place_model : list Z := [1; -2; -3; 4; -5; 6; -7; 8; -9].

(** The states of the encoder on [one_place_file] and on [orphan_file],
    phase by phase. *)
Definition one_place_counters : sat_state :=
  state_of (@matching_and_counters cpython_small (loaded one_place_file).2
              (loaded one_place_file).1).

Definition orphan_matching : sat_state :=
  state_of (@matching_clauses cpython_small (loaded orphan_file).2
              (loaded orphan_file).1 sat_init).

Definition orphan_counters : sat_state :=
  state_of (counter_clauses (loaded orphan_file).2 (loaded orphan_file).1
              orphan_matching).

Definition orphan_thresholds : sat_state :=
  state_of (cpref_clauses (loaded orphan_file).2 (loaded orphan_file).1
              orphan_counters).

(** ** Notions used in the statements about the verify modes *)

(** The uids of the residents of an instance: the singles and the members
    of the couples. *)
Definition residents (inst : ProblemInstance) : list Z :=
  (r_uid <$> singles inst)
  ++ concat ((fun c => [r_uid (c_residents c).1; r_uid (c_residents c).2])
               <$> couples inst).

(** How many of the listed residents the matching gives the hospital. *)
Definition occupants_among (m : gmap Z Z) (hu : Z) (l : list Z) : Z :=
  len (filter (fun u => assigned m u = hu) l).

(** No hospital holds more residents than its capacity. *)
Definition within_capacity (inst : ProblemInstance) (m : gmap Z Z) : Prop :=
  ∀ h, h ∈ hospitals inst →
       occupants_among m (h_uid h) (residents inst) ≤ h_capacity h.

(** Every single has a hospital of its list or none, and every couple a
    pair of its list or (nil, nil). *)
Definition acceptable (inst : ProblemInstance) (m : gmap Z Z) : Prop :=
  (∀ r l, r ∈ singles inst → r_preference r = Some l →
          assigned m (r_uid r) ∈ l ++ [NIL_HOSPITAL_UID])
  ∧ (∀ c, c ∈ couples inst →
          (assigned m (r_uid (c_residents c).1), assigned m (r_uid (c_residents c).2))
          ∈ c_preference c ++ [(NIL_HOSPITAL_UID, NIL_HOSPITAL_UID)]).

(** A stable matching. *)
Definition stable_matching (g : Globals) (inst : ProblemInstance) (m : gmap Z Z) : Prop :=
  acceptable inst m ∧ within_capacity inst m ∧ no_blocking_pair g inst m.

(** An instance without couples, as [from_file] builds it from a file in
    which no uid occurs twice: the dictionaries hold the singles and the
    hospitals of the instance under their uids, and the nil hospital; the
    lists have no duplicates; no hospital has the uid of the nil hospital
    or the number -1, which marks the nil hospital in the files; the
    capacities are not negative. *)
Record well_formed (g : Globals) (inst : ProblemInstance) : Prop := mkWellFormed {
  wf_couples : couples inst = [];
  wf_singles : NoDup (r_uid <$> singles inst);
  wf_hospitals : NoDup (h_uid <$> hospitals inst);
  wf_resident_dict :
    resident_dict g = list_to_map ((fun r => (r_uid r, r)) <$> singles inst);
  wf_hospital_dict :
    hospital_dict g
    = <[NIL_HOSPITAL_UID := NIL_HOSPITAL]>
        (list_to_map ((fun h => (h_uid h, h)) <$> hospitals inst));
  wf_single :
    Forall (fun r => r_couple r = None
                     ∧ ∃ l, r_preference r = Some l ∧ NoDup l ∧ NIL_HOSPITAL_UID ∉ l)
           (singles inst);
  wf_hospital :
    Forall (fun h => h_uid h ≠ NIL_HOSPITAL_UID ∧ h_uid h ≠ -1 ∧ 0 ≤ h_capacity h
                     ∧ ∃ l, h_preference h = Some l ∧ NoDup l)
           (hospitals inst)
}.

(** The entry of a line of a matching file that starts with ['r ']: the
    integers of its second and of its third token. *)
Definition matching_entry (line : string) : result (Z * Z) :=
  let s := split line in
  t2 ← list_getitem s 2;
  n2 ← py_int t2;
  t1 ← list_getitem s 1;
  n1 ← py_int t1;
  Ok (n1, n2).

(** The entries of a matching file, in the order of its lines. *)
Definition matching_entries (verify_file : string) : result (list (Z * Z)) :=
  comprehension matching_entry
    (filter (fun line => startswith line "r " = true) (file_lines verify_file)).

(** *** The constraints of the integer program under a matching *)

Definition indicator (b : bool) : Z := if b then 1 else 0.

(** The value of a term: its coefficient when the matching gives the
    resident the hospital of the variable. *)
Definition term_value (m : gmap Z Z) (t : CoeffVar) : Z :=
  match var t with
  | Some (x_single r h) =>
      default 1 (coeff t) * indicator (bool_decide (assigned m r = h))
  | _ => 0
  end.

Fixpoint side_value (m : gmap Z Z) (ts : list CoeffVar) : Z :=
  match ts with
  | [] => 0
  | t :: ts' => term_value m t + side_value m ts'
  end.

(** The constraint holds under the matching. *)
Definition holds (m : gmap Z Z) (c : Constraint) : Prop :=
  match c, coeff (const_side c) with
  | EqualityConstraint vs _, Some k => side_value m vs = k
  | InequalityConstraint vs _, Some k => side_value m vs ≤ k
  | _, None => False
  end.


Definition sat_entry (g : Globals) (s : sat_state) (e : Z * Z) (vs : verify_state)
  : result verify_state :=
  h ← getitem (hospital_dict g) e.2;
  r ← getitem (resident_dict g) e.1;
  x ← get_res_match s (r_uid r) (h_uid h);
  let vs1 := mkVerify ({[x]} ∪ value_dict vs) (h_hash vs)
                      (<[r_uid r := h]> (r_match_dict_sat vs)) in
  if bool_decide (h_uid h ≠ NIL_HOSPITAL_UID) then
    _ ← py_assert (negb (bool_decide (h_uid h ∈ h_hash vs1)));
    let vs2 := mkVerify (value_dict vs1) ({[h_uid h]} ∪ h_hash vs1)
                        (r_match_dict_sat vs1) in
    ordering ← Hosp.get_ordering h;
    st ← for_each (mark_counters s h r ordering) (xrange2 1 (len ordering + 1))
                  (false, vs2);
    Ok st.2
  else Ok vs1.



Definition stability_constraint (r : Resident) (h : Hospital) (better wp : list Z)
  : Constraint :=
  InequalityConstraint
    (((fun u => term (-1) (x_single u (h_uid h))) <$> (better ++ [r_uid r]))
     ++ ((fun p => term (- h_capacity h) (x_single (r_uid r) p)) <$> wp))
    (const (- h_capacity h)).







(** Every hospital on the list of a single is a hospital of the instance
    that ranks the single: [kr] is the rank of the single on the list of
    the hospital and [k] the rank of the hospital on the list of the
    single. *)
Definition mutual (g : Globals) (inst : ProblemInstance) : Prop :=
  ∀ r l hu, r ∈ singles inst → r_preference r = Some l → hu ∈ l →
    ∃ h ord kr k,
      hospital_dict g !! hu = Some h ∧ h ∈ hospitals inst ∧ h_uid h = hu
      ∧ Hosp.is_nil h = false ∧ h_preference h = Some ord
      ∧ ord !! kr = Some (r_uid r) ∧ r_uid r ∉ take kr ord
      ∧ l !! k = Some hu ∧ hu ∉ take k l.

(** *** The shape of the encoding of an instance without couples *)

(** The entries of the tables of [t] are entries of [t'], and so are the
    names of the registry. *)
Definition persist (t t' : sat_state) : Prop :=
  (∀ r h x, get_res_match t r h = Ok x → get_res_match t' r h = Ok x)
  ∧ (∀ h i j x, get_q t h i j = Ok x → get_q t' h i j = Ok x)
  ∧ variable_registry t ⊆ variable_registry t'.

(** The registry names the variables up to [last_uid]; an entry of
    [res_match] or of [q] is registered under the name of its key. *)
Definition registered (t : sat_state) : Prop :=
  0 ≤ last_uid t
  ∧ (∀ x n, variable_registry t !! x = Some n → 0 < x ≤ last_uid t)
  ∧ (∀ r h x, get_res_match t r h = Ok x →
              variable_registry t !! x = Some (xr_name r h))
  ∧ (∀ h i j x, get_q t h i j = Ok x →
                variable_registry t !! x = Some (q_name h i j)).

(** Where the tables have entries. *)
Definition x_within (t : sat_state) (P : Z → Z → Prop) : Prop :=
  ∀ r h x, get_res_match t r h = Ok x → P r h.

Definition q_within (t : sat_state) (P : Z → Z → Z → Prop) : Prop :=
  ∀ h i j x, get_q t h i j = Ok x → P h i j.

(** The step from [t] to [t'] appends clauses that [C] describes in terms
    of the tables of [t']. *)
Definition yields (C : sat_state → list DIMACSClause → Prop) (t t' : sat_state) : Prop :=
  ∃ cs, constraints t' = constraints t ++ cs ∧ C t' cs.

(** The clauses of a loop: those of its turns, in order. *)
Definition gathered {A} (C : A → sat_state → list DIMACSClause → Prop) (l : list A)
    (s : sat_state) (cs : list DIMACSClause) : Prop :=
  ∃ css, cs = concat css ∧ Forall2 (fun a cs' => C a s cs') l css.

(** A description of clauses that stays true when the tables grow. *)
Definition lasting (C : sat_state → list DIMACSClause → Prop) : Prop :=
  ∀ t t' cs, persist t t' → C t cs → C t' cs.

Section Clauses.
Variable g : Globals.

Definition at_least_clause (r : Resident) (s : sat_state) (cs : list DIMACSClause)
  : Prop :=
  ∃ l lits, r_preference r = Some l ∧ at_least_one g s r l = Ok lits
            ∧ cs = [mkClause lits].

Definition at_most_clause (r : Resident) (pair : Z * Z) (s : sat_state)
    (cs : list DIMACSClause) : Prop :=
  ∃ x1 x2, match_var g s r pair.1 = Ok x1 ∧ match_var g s r pair.2 = Ok x2
           ∧ cs = [mkClause [- x1; - x2]].

Definition at_most_clauses (r : Resident) (s : sat_state) (cs : list DIMACSClause)
  : Prop :=
  ∃ l, r_preference r = Some l
       ∧ gathered (at_most_clause r) (combinations2 (l ++ [NIL_HOSPITAL_UID])) s cs.

Definition base_clauses (h : Hospital) (ord : list Z) (s : sat_state)
    (cs : list DIMACSClause) : Prop :=
  ∃ y q0 q1, y_var g s h ord 1 = Ok y
             ∧ get_q s (h_uid h) 1 0 = Ok q0 ∧ get_q s (h_uid h) 1 1 = Ok q1
             ∧ cs = mkClause <$> [[y; q0]; [- y; q1]; [- y; - q0]; [y; - q1]].

Definition step_clauses (h : Hospital) (ord : list Z) (i j : Z) (s : sat_state)
    (cs : list DIMACSClause) : Prop :=
  ∃ y, y_var g s h ord i = Ok y
  ∧ if bool_decide (j = 0) then
      ∃ a p, get_q s (h_uid h) i 0 = Ok a ∧ get_q s (h_uid h) (i - 1) 0 = Ok p
             ∧ cs = mkClause <$> [[- y; - a]; [p; - a]; [y; - p; a]]
    else if bool_decide (j = i) then
      ∃ a p, get_q s (h_uid h) i j = Ok a ∧ get_q s (h_uid h) (i - 1) (j - 1) = Ok p
             ∧ cs = mkClause <$> [[y; - a]; [p; - a]; [- y; - p; a]]
    else
      ∃ p a p', get_q s (h_uid h) (i - 1) (j - 1) = Ok p
                ∧ get_q s (h_uid h) i j = Ok a
                ∧ get_q s (h_uid h) (i - 1) j = Ok p'
                ∧ cs = mkClause <$> [[- y; - p; a]; [y; - p'; a]; [y; p'; - a];
                                     [- y; p; - a]].

Definition cap_clauses (h : Hospital) (i : Z) (s : sat_state)
    (cs : list DIMACSClause) : Prop :=
  if bool_decide (i >= h_capacity h + 1) then
    ∃ a, get_q s (h_uid h) i (h_capacity h + 1) = Ok a ∧ cs = [mkClause [- a]]
  else cs = [].

Definition row_clauses (h : Hospital) (ord : list Z) (i : Z) (s : sat_state)
    (cs : list DIMACSClause) : Prop :=
  if bool_decide (i = 0) then cs = []
  else
    ∃ cs1 cs2, cs = cs1 ++ cs2
      ∧ (if bool_decide (i = 1) then base_clauses h ord s cs1
         else gathered (step_clauses h ord i)
                       (xrange (Z.min (i + 1) (h_capacity h + 2))) s cs1)
      ∧ cap_clauses h i s cs2.

Definition hospital_clauses (h : Hospital) (s : sat_state) (cs : list DIMACSClause)
  : Prop :=
  ∃ ord, h_preference h = Some ord
         ∧ gathered (row_clauses h ord) (xrange (len ord + 1)) s cs.

Definition stability_clause (r : Resident) (hu : Z) (s : sat_state)
    (cs : list DIMACSClause) : Prop :=
  ∃ h wp lits lits',
    hospital_dict g !! hu = Some h ∧ Res.get_all_weakly_preferred r hu = Ok wp
    ∧ comprehension (match_var g s r) wp = Ok lits
    ∧ append_q_vars s lits [(h, r, h_capacity h)] = Ok lits'
    ∧ cs = [mkClause lits'].

Definition stability_clauses_of (r : Resident) (s : sat_state)
    (cs : list DIMACSClause) : Prop :=
  ∃ l, r_preference r = Some l ∧ gathered (stability_clause r) l s cs.

End Clauses.

(** The clauses of two steps in a row. *)
Definition both (C1 C2 : sat_state → list DIMACSClause → Prop) (s : sat_state)
    (cs : list DIMACSClause) : Prop :=
  ∃ c1 c2, cs = c1 ++ c2 ∧ C1 s c1 ∧ C2 s c2.

(** *** The variables that the verify mode of [solve_sat] makes true *)

(** For an entry of the matching file: the matching variable of the
    entry, and for each position of the list of its hospital the counter
    that says whether the resident is among the residents up to there. *)
Definition entry_marks (g : Globals) (s : sat_state) (e : Z * Z) (x : Z) : Prop :=
  get_res_match s e.1 e.2 = Ok x
  ∨ (e.2 ≠ NIL_HOSPITAL_UID
     ∧ ∃ h ord i,
         hospital_dict g !! e.2 = Some h ∧ h_preference h = Some ord
         ∧ 1 ≤ i ≤ len ord
         ∧ get_q s e.2 i (indicator (bool_decide (e.1 ∈ take (Z.to_nat i) ord))) = Ok x).

(** For a hospital that no entry names: the counters that say "none". *)
Definition empty_marks (s : sat_state) (hh : gset Z) (h : Hospital) (x : Z) : Prop :=
  h_uid h ∉ hh
  ∧ ∃ ord i, h_preference h = Some ord ∧ 1 ≤ i ≤ len ord
             ∧ get_q s (h_uid h) i 0 = Ok x.

(** The residents on the list of a hospital are singles of the instance. *)
Definition listed (inst : ProblemInstance) : Prop :=
  ∀ h ord, h ∈ hospitals inst → h_preference h = Some ord →
           Forall (fun u => u ∈ r_uid <$> singles inst) ord.

(** The assignment that the set of the true variables spells out. *)
Definition valuation (vd : gset Z) : Z → bool := fun x => bool_decide (x ∈ vd).

(** The assignment says what the matching says: a matching variable is
    true when the resident has the hospital, a counter when that many of
    the residents up to its position have the hospital. *)
Definition natural (inst : ProblemInstance) (s : sat_state) (m : gmap Z Z)
    (v : Z → bool) : Prop :=
  (∀ r h x, get_res_match s r h = Ok x → (v x = true ↔ assigned m r = h))
  ∧ (∀ h ord i j a, h ∈ hospitals inst → h_preference h = Some ord →
       get_q s (h_uid h) i j = Ok a →
       (v a = true ↔ occupants_among m (h_uid h) (take (Z.to_nat i) ord) = j)).

(** The clause is not printed by the verify mode of [solve_sat]. *)
Definition passes (vd : gset Z) (c : DIMACSClause) : Prop :=
  eval_str_clause vd (line_numbers c) = true.
(** *** Texts for the examples of the verify modes *)

(** A matching file for [one_place_file]: resident 11 has the place and
    resident 12 is unmatched. *)
Definition one_place_matching : string := unlines ["m 1"; "r 11 1"; "r 12 999999"].


(** *** Notions for further statements *)

(** Every hospital of the dictionary is stored under its own uid, as the
    constructor [Hospital.__init__] stores it. *)
Definition keyed (g : Globals) : Prop :=
  map_Forall (fun k h => h_uid h = k) (hospital_dict g).


(** ** [load_matching_from_file] *)

(** [s.lstrip()], [s.rstrip()] and [s.strip()]: the white space at the
    ends removed. *)
Fixpoint lstrip (s : string) : string :=
  match s with
  | String c s' => if is_space c then lstrip s' else s
  | EmptyString => EmptyString
  end.

Fixpoint rstrip (s : string) : string :=
  match s with
  | String c s' =>
      let t := rstrip s' in
      if is_space c && bool_decide (t = EmptyString) then EmptyString else String c t
  | EmptyString => EmptyString
  end.

Definition strip (s : string) : string := rstrip (lstrip s).

(** The body of [for line in f].  In the assignment
    [matching[int(split[1])] = int(split[2])] the right-hand side is
    evaluated first. *)
Definition load_matching_line (line : string) (matching : gmap Z Z)
  : result (gmap Z Z) :=
  let line := strip line in
  if bool_decide (String.length line = 0%nat) then Ok matching
  else if startswith line "#" then Ok matching
  else
    let items := split line in
    t0 ← list_getitem items 0;
    if decide (t0 = "r") then
      t2 ← list_getitem items 2;
      if decide (t2 = NIL_HOSPITAL_SYMBOL) then
        t1 ← list_getitem items 1;
        k ← py_int t1;
        Ok (<[k := NIL_HOSPITAL_UID]> matching)
      else
        v ← py_int t2;
        t1 ← list_getitem items 1;
        k ← py_int t1;
        Ok (<[k := v]> matching)
    else Ok matching.

(** [load_matching_from_file] on the text of the file. *)
Definition load_matching_from_file (text : string) : result (gmap Z Z) :=
  for_each load_matching_line (file_lines text) ∅.

(** *** Notions for the statements about texts *)

(** No character of the text is a newline. *)
Fixpoint one_line (s : string) : bool :=
  match s with
  | String c s' => negb (bool_decide (nat_of_ascii c = 10%nat)) && one_line s'
  | EmptyString => true
  end.

(** No character of the text is white space. *)
Fixpoint no_space (s : string) : bool :=
  match s with
  | String c s' => negb (is_space c) && no_space s'
  | EmptyString => true
  end.

(** The number that decimal digits spell after the number [acc]. *)
Fixpoint uint_value (d : Decimal.uint) (acc : Z) : Z :=
  match d with
  | Decimal.Nil => acc
  | Decimal.D0 l => uint_value l (10 * acc)
  | Decimal.D1 l => uint_value l (10 * acc + 1)
  | Decimal.D2 l => uint_value l (10 * acc + 2)
  | Decimal.D3 l => uint_value l (10 * acc + 3)
  | Decimal.D4 l => uint_value l (10 * acc + 4)
  | Decimal.D5 l => uint_value l (10 * acc + 5)
  | Decimal.D6 l => uint_value l (10 * acc + 6)
  | Decimal.D7 l => uint_value l (10 * acc + 7)
  | Decimal.D8 l => uint_value l (10 * acc + 8)
  | Decimal.D9 l => uint_value l (10 * acc + 9)
  end.
(** ** [ListJointPreferenceFunction.get_all_dispreferred] *)

(** The loop over [reversed(self.internal_list)], with the accumulator
    [dispreferred]. *)
Fixpoint joint_dispreferred_loop (l : list (Z * Z)) (assignment : Z * Z)
    (indices : list Z) (dispreferred : list (Z * Z)) : result (list (Z * Z)) :=
  match l with
  | [] => Raise (Exception "uid not in preference list")
  | a :: l' =>
      if decide (a = assignment) then Ok dispreferred
      else if LJPF.check_suitability assignment a indices
           then joint_dispreferred_loop l' assignment indices (dispreferred ++ [a])
           else joint_dispreferred_loop l' assignment indices dispreferred
  end.

Definition joint_get_all_dispreferred (internal_list : list (Z * Z))
    (assignment : Z * Z) (indices : list Z) : result (list (Z * Z)) :=
  joint_dispreferred_loop (reverse internal_list) assignment indices [].

(** The pair [b] agrees with the pair [a] on the coordinates of [indices]. *)
Definition agrees_on (indices : list Z) (a b : Z * Z) : Prop :=
  (0 ∈ indices → b.1 = a.1) ∧ (1 ∈ indices → b.2 = a.2).

#[global] Instance agrees_on_dec indices a b : Decision (agrees_on indices a b).
Proof. unfold agrees_on. apply _. Defined.
(** ** The ports of [itertools]: [combinations] and [product] *)

Section Itertools.
Context {A : Type}.

(** [tuple(pool[i] for i in indices)]. *)
Definition pick (pool : list A) (indices : list Z) : result (list A) :=
  comprehension (fun i => list_getitem pool (Z.to_nat i)) indices.

(** The loop [for i in reversed(range(r))] with its [break] and its
    [else]: the last position whose index is not at its end [i + n - r],
    or [None] when the loop ends without [break]. *)
Fixpoint first_movable (indices : list Z) (n r : Z) (positions : list Z)
  : result (option Z) :=
  match positions with
  | [] => Ok None
  | i :: positions' =>
      x ← list_getitem indices (Z.to_nat i);
      if bool_decide (x ≠ i + n - r) then Ok (Some i)
      else first_movable indices n r positions'
  end.

(** [l[i] = v] for a position [i] that is not negative. *)
Definition set_item (l : list Z) (i v : Z) : result (list Z) :=
  if bool_decide (i < len l) then Ok (<[Z.to_nat i := v]> l) else Raise IndexError.

(** [indices[i] += 1] and the loop
    [for j in range(i + 1, r): indices[j] = indices[j - 1] + 1]. *)
Definition advance (indices : list Z) (r i : Z) : result (list Z) :=
  x ← list_getitem indices (Z.to_nat i);
  indices1 ← set_item indices i (x + 1);
  for_each (fun j ind => y ← list_getitem ind (Z.to_nat (j - 1)); set_item ind j (y + 1))
           (xrange2 (i + 1) r) indices1.

(** The loop [while True] of the generator: the tuples yielded so far, and
    [None] when the given number of turns does not reach the [return]. *)
Fixpoint combinations_loop (turns : nat) (pool : list A) (n r : Z) (indices : list Z)
    (yielded : list (list A)) : result (option (list (list A))) :=
  match turns with
  | O => Ok None
  | S turns' =>
      found ← first_movable indices n r (reverse (xrange r));
      match found with
      | None => Ok (Some yielded)
      | Some i =>
          indices' ← advance indices r i;
          t ← pick pool indices';
          combinations_loop turns' pool n r indices' (yielded ++ [t])
      end
  end.

(** [combinations(iterable, r)]: the tuples that the generator yields, in
    order. *)
Definition combinations (turns : nat) (pool : list A) (r : Z)
  : result (option (list (list A))) :=
  let n := len pool in
  if bool_decide (r > n) then Ok (Some [])
  else
    t ← pick pool (xrange r);
    combinations_loop turns pool n r (xrange r) [t].

(** [product] on the pools [args] with the keyword [repeat]: the tuples
    that the generator yields, in order. *)
Definition product (args : list (list A)) (repeat : Z) : list (list A) :=
  let pools := concat (replicate (Z.to_nat repeat) args) in
  foldl (fun result pool => x ← result; y ← pool; [x ++ [y]]) [[]] pools.

End Itertools.

(** The tuple of a pair. *)
Definition tuple2 {A} (p : A * A) : list A := [p.1; p.2].
(** ** What the loop of [from_file] keeps *)

(** The dictionary after the given agents have stored themselves, in order. *)
Definition stored {V} (key : V → Z) (d : gmap Z V) (l : list V) : gmap Z V :=
  foldl (fun d v => <[key v := v]> d) d l.

(** The state of the loader against the dictionaries [g0] it started from:
    [hospital_dict] holds the hospitals read so far, each with a list;
    the singles have a list and no couple; and as long as no couple has
    been read, [resident_dict] holds the singles read so far. *)
Definition loader_inv (g0 : Globals) (st : loader_state) : Prop :=
  hospital_dict (ld_globals st) = stored h_uid (hospital_dict g0) (ld_hospitals st)
  ∧ Forall (fun h => is_Some (h_preference h)) (ld_hospitals st)
  ∧ Forall (fun r => r_couple r = None ∧ is_Some (r_preference r)) (ld_singles st)
  ∧ (ld_couples st = [] →
     resident_dict (ld_globals st) = stored r_uid (resident_dict g0) (ld_singles st)).

(** With [append_nil]: the lists of the singles end with the nil hospital
    and those of the couples with the pair (nil, nil). *)
Definition nil_appended (st : loader_state) : Prop :=
  Forall (fun r => ∃ l, r_preference r = Some l ∧ last l = Some NIL_HOSPITAL_UID)
         (ld_singles st)
  ∧ Forall (fun c => last (c_preference c) = Some (NIL_HOSPITAL_UID, NIL_HOSPITAL_UID))
           (ld_couples st).

(** The instance and the dictionaries that [from_file] gives for a text
    with [append_nil=True], under the set order [cpython_small]. *)
Definition loaded_nil (text : string) : ProblemInstance * Globals :=
  match @from_file cpython_small text true module_globals with
  | Ok p => p
  | Raise _ => (mkInstance [] [] [], module_globals)
  end.

(** Two hospitals, the single 13 and the couple 100 of the residents 11
    and 12. *)
Definition mixed_file : string :=
  unlines ["p 1 1 11 13"; "p 2 1 12"; "r 13 1"; "c 100 11 12 1 2 1 -1"].
(** ** The clauses of an encoding as a DIMACS file *)

(** The number is a variable of the tables [res_match] or [q]. *)
Definition table_entry (s : sat_state) (x : Z) : Prop :=
  (∃ r h, get_res_match s r h = Ok x) ∨ (∃ h i j, get_q s h i j = Ok x).

(** The literal is a variable of the tables or the negation of one. *)
Definition literal_over (s : sat_state) (lit : Z) : Prop :=
  table_entry s lit ∨ table_entry s (- lit).

(** The clause is not empty and its literals are over the tables. *)
Definition clause_over (s : sat_state) (c : DIMACSClause) : Prop :=
  var_list c ≠ [] ∧ Forall (literal_over s) (var_list c).

(** A literal that the header [p cnf <last_uid> <clauses>] allows. *)
Definition dimacs_literal (s : sat_state) (lit : Z) : Prop :=
  lit ≠ 0 ∧ Z.abs lit ≤ last_uid s.

(** The encoding of [one_place_file]. *)
Definition one_place_encoding : sat_state :=
  state_of (@solve_sat_encode cpython_small (loaded one_place_file).2
              (loaded one_place_file).1).

(** * Properties *)

(** ** The error monad *)

Lemma bind_Ok {A B} (f : A → result B) (r : result A) (b : B) :
  r ≫= f = Ok b ↔ ∃ a, r = Ok a ∧ f a = Ok b.
Proof.
  destruct r as [a|e]; simpl; split.
  - intros Hf. exists a. done.
  - intros (a' & [= <-] & Hf). done.
  - intros Hf. discriminate Hf.
  - intros (a' & Hf & _). discriminate Hf.
Qed.

Lemma getitem_Ok {V} (d : gmap Z V) (k : Z) (x : V) : getitem d k = Ok x ↔ d !! k = Some x.
Proof. unfold getitem. destruct (d !! k); split; congruence. Qed.

Lemma list_getitem_Ok {A} (l : list A) (i : nat) (x : A) :
  list_getitem l i = Ok x ↔ l !! i = Some x.
Proof. unfold list_getitem. destruct (l !! i); split; congruence. Qed.

Lemma py_assert_Ok (b : bool) (u : unit) : py_assert b = Ok u ↔ b = true.
Proof. destruct b, u; simpl; split; congruence. Qed.

Lemma for_each_app {A S} (f : A → S → result S) (l1 l2 : list A) (s : S) :
  for_each f (l1 ++ l2) s = for_each f l1 s ≫= for_each f l2.
Proof.
  revert s. induction l1 as [|a l1 IH]; intros s; simpl; [done|].
  destruct (f a s) as [s'|e]; simpl; [apply IH | done].
Qed.

(** A property that every iteration of the loop keeps holds at its end. *)
Lemma for_each_ind {A S} (P : S → Prop) (f : A → S → result S) (l : list A) (s s' : S) :
  for_each f l s = Ok s' → P s →
  (∀ a s1 s2, a ∈ l → P s1 → f a s1 = Ok s2 → P s2) → P s'.
Proof.
  revert s. induction l as [|a l IH]; intros s Hrun Hs Hstep; simpl in Hrun.
  - by injection Hrun as <-.
  - apply bind_Ok in Hrun as (s1 & Ha & Hrun).
    apply (IH s1 Hrun).
    + apply (Hstep a s s1); [left | done | done].
    + intros b t1 t2 Hb. apply Hstep. by right.
Qed.

(** ** List preference functions *)

Lemma get_all_preferred_loop_found (l1 l2 acc : list Z) (u : Z) :
  u ∉ l1 →
  LPF.get_all_preferred_loop (l1 ++ u :: l2) u acc = Ok (acc ++ l1).
Proof.
  revert acc. induction l1 as [|x l1 IH]; intros acc Hnot; simpl.
  - rewrite decide_True by done. by rewrite app_nil_r.
  - rewrite decide_False by (intros ->; apply Hnot; left).
    rewrite IH by (intros Hin; apply Hnot; by right).
    by rewrite <- app_assoc.
Qed.

Lemma get_all_preferred_loop_absent (l acc : list Z) (u : Z) :
  u ∉ l →
  LPF.get_all_preferred_loop l u acc = Raise (Exception "uid not in preference list").
Proof.
  revert acc. induction l as [|x l IH]; intros acc Hnot; simpl; [done|].
  rewrite decide_False by (intros ->; apply Hnot; left).
  apply IH. intros Hin. apply Hnot. by right.
Qed.

Lemma index_found (l1 l2 : list Z) (u : Z) :
  u ∉ l1 → LPF.index (l1 ++ u :: l2) u = Ok (len l1).
Proof.
  unfold len. induction l1 as [|x l1 IH]; intros Hnot; simpl.
  - by rewrite decide_True.
  - rewrite decide_False by (intros ->; apply Hnot; left).
    rewrite IH by (intros Hin; apply Hnot; by right). simpl.
    f_equal. lia.
Qed.

Lemma index_absent (l : list Z) (u : Z) :
  u ∉ l → LPF.index l u = Raise ValueError.
Proof.
  induction l as [|x l IH]; intros Hnot; simpl; [done|].
  rewrite decide_False by (intros ->; apply Hnot; left).
  rewrite IH; [done|]. intros Hin. apply Hnot. by right.
Qed.

(** The rank that [index] returns is a position of the item, and the first. *)
Lemma index_Ok (l : list Z) (u rk : Z) :
  LPF.index l u = Ok rk →
  0 ≤ rk ∧ l !! Z.to_nat rk = Some u ∧ u ∉ take (Z.to_nat rk) l.
Proof.
  revert rk. induction l as [|x l IH]; intros rk Hrk; simpl in Hrk; [done|].
  destruct (decide (x = u)) as [->|Hne].
  - injection Hrk as <-. simpl. split; [lia|]. split; [done | apply not_elem_of_nil].
  - apply bind_Ok in Hrk as (i & Hi & [= <-]).
    destruct (IH i Hi) as (H0 & Hl & Hnot).
    replace (Z.to_nat (i + 1)) with (S (Z.to_nat i)) by lia. simpl.
    split; [lia|]. split; [done|].
    intros [->|Hin]%elem_of_cons; [done | by apply Hnot].
Qed.

(** A duplicate-free list splits around each of its items, with the item
    absent from the part before it. *)
Lemma NoDup_lookup_split (l : list Z) (k : nat) (u : Z) :
  NoDup l → l !! k = Some u →
  l = take k l ++ u :: drop (S k) l ∧ (u ∉ take k l) ∧ length (take k l) = k.
Proof.
  intros Hnd Hk.
  assert (Hsplit : l = take k l ++ u :: drop (S k) l).
  { rewrite <- (take_drop_middle l k u Hk) at 1. done. }
  split; [done|]. split.
  - rewrite Hsplit in Hnd. apply NoDup_app in Hnd as (_ & Hdisj & _).
    intros Hin. apply (Hdisj u Hin). left.
  - apply length_take_le. apply lookup_lt_Some in Hk. lia.
Qed.


(** C7: on a duplicate-free list, for the uid at index [k], [get_rank]
    returns [k] and [get_all_weakly_preferred] returns the first [k] items
    followed by the uid; for a uid that is not in the list,
    [get_all_preferred] and [get_all_weakly_preferred] raise. *)
Theorem C7_rank_and_weakly_preferred (l : list Z) (k : nat) (u absent : Z) :
  NoDup l → l !! k = Some u → absent ∉ l →
  LPF.get_rank l u = Ok (Z.of_nat k)
  ∧ LPF.get_all_weakly_preferred l u = Ok (take k l ++ [u])
  ∧ raises (LPF.get_all_preferred l absent)
  ∧ raises (LPF.get_all_weakly_preferred l absent).
Proof.
  intros Hnd Hk Habs.
  destruct (NoDup_lookup_split l k u Hnd Hk) as (Hsplit & Hnot & Hlen).
  repeat split.
  - unfold LPF.get_rank. rewrite Hsplit, index_found by done.
    unfold len. by rewrite Hlen.
  - unfold LPF.get_all_weakly_preferred, LPF.get_all_preferred.
    rewrite Hsplit at 1. rewrite get_all_preferred_loop_found by done. done.
  - eexists. unfold LPF.get_all_preferred.
    by apply get_all_preferred_loop_absent.
  - eexists. unfold LPF.get_all_weakly_preferred, LPF.get_all_preferred.
    by rewrite get_all_preferred_loop_absent.
Qed.

Lemma C7_rank_and_weakly_preferred_witness :
  LPF.get_rank [5; 3; 8] 3 = Ok 1
  ∧ LPF.get_all_weakly_preferred [5; 3; 8] 3 = Ok [5; 3]
  ∧ raises (LPF.get_all_preferred [5; 3; 8] 7)
  ∧ raises (LPF.get_all_weakly_preferred [5; 3; 8] 7).
Proof.
  apply (C7_rank_and_weakly_preferred [5; 3; 8] 1%nat 3 7).
  - apply (bool_decide_unpack _). vm_compute. reflexivity.
  - reflexivity.
  - apply (bool_decide_unpack _). vm_compute. reflexivity.
Defined.

(** ** The constraints buffer *)

Lemma string_app_cons (x : ascii) (a b : string) : String x a +:+ b = String x (a +:+ b).
Proof. reflexivity. Qed.

Lemma string_app_nil_l (a : string) : "" +:+ a = a.
Proof. reflexivity. Qed.

Lemma string_app_assoc (a b c : string) : (a +:+ b) +:+ c = a +:+ (b +:+ c).
Proof.
  induction a as [|x a IH]; [done|]. rewrite !string_app_cons. by rewrite IH.
Qed.

Lemma string_app_nil_r (a : string) : a +:+ "" = a.
Proof.
  induction a as [|x a IH]; [done|]. rewrite string_app_cons. by rewrite IH.
Qed.

Lemma unlines_app (l1 l2 : list string) : unlines (l1 ++ l2) = unlines l1 +:+ unlines l2.
Proof.
  induction l1 as [|x l1 IH]; simpl; [done|].
  by rewrite IH, ?string_app_assoc.
Qed.

Lemma append_file_content (fs : filesystem) (name text : string) :
  append_file fs name text !! name = Some (content fs name +:+ text).
Proof. unfold append_file, content. by rewrite lookup_insert_eq. Qed.

Lemma content_append_file (fs : filesystem) (name text : string) :
  content (append_file fs name text) name = content fs name +:+ text.
Proof. unfold content at 1. by rewrite append_file_content. Qed.

Lemma content_lookup (fs : filesystem) (name t : string) :
  fs !! name = Some t → content fs name = t.
Proof. unfold content. by intros ->. Qed.

Lemma append_file_other (fs : filesystem) (name other text : string) :
  name ≠ other → append_file fs name text !! other = fs !! other.
Proof. intros Hne. unfold append_file. by rewrite lookup_insert_ne. Qed.

Lemma write_all_content (fs : filesystem) (name : string) (items : list DIMACSClause) :
  content (Buffer.write_all fs name items) name
  = content fs name +:+ unlines (render <$> items).
Proof.
  unfold Buffer.write_all. revert fs.
  induction items as [|c items IH]; intros fs; simpl.
  - by rewrite string_app_nil_r.
  - rewrite IH, content_append_file.
    by rewrite ?string_app_assoc.
Qed.

Lemma write_all_other (fs : filesystem) (name other : string) (items : list DIMACSClause) :
  name ≠ other → Buffer.write_all fs name items !! other = fs !! other.
Proof.
  intros Hne. unfold Buffer.write_all. revert fs.
  induction items as [|c items IH]; intros fs; simpl; [done|].
  rewrite IH. by apply append_file_other.
Qed.

Lemma write_all_exists (fs : filesystem) (name : string) (items : list DIMACSClause) :
  is_Some (fs !! name) → is_Some (Buffer.write_all fs name items !! name).
Proof.
  unfold Buffer.write_all. revert fs.
  induction items as [|c items IH]; intros fs Hfs; simpl; [done|].
  apply IH. rewrite append_file_content. by eexists.
Qed.

(** What a run of appends keeps: the name and the size of the window, the
    bound on the window, the other files, and the text of the file followed
    by the window. *)
Lemma appends_invariant (cb : ConstraintsBuffer) (fs : filesystem) (cs : list DIMACSClause) :
  (length (buffer_list cb) ≤ buffer_size cb)%nat →
  is_Some (fs !! filename cb) →
  let st := Buffer.appends (cb, fs) cs in
  filename st.1 = filename cb
  ∧ buffer_size st.1 = buffer_size cb
  ∧ (length (buffer_list st.1) ≤ buffer_size cb)%nat
  ∧ is_Some (st.2 !! filename cb)
  ∧ (∀ other, filename cb ≠ other → st.2 !! other = fs !! other)
  ∧ content st.2 (filename cb) +:+ unlines (render <$> buffer_list st.1)
    = content fs (filename cb) +:+ unlines (render <$> buffer_list cb)
      +:+ unlines (render <$> cs).
Proof.
  unfold Buffer.appends. revert cb fs.
  induction cs as [|c cs IH]; intros cb fs Hlen Hex; simpl.
  - repeat split; try done. by rewrite string_app_nil_r.
  - set (st1 := Buffer.append cb c fs).
    assert (Hst1 : filename st1.1 = filename cb ∧ buffer_size st1.1 = buffer_size cb
              ∧ (length (buffer_list st1.1) ≤ buffer_size cb)%nat
              ∧ is_Some (st1.2 !! filename cb)
              ∧ (∀ other, filename cb ≠ other → st1.2 !! other = fs !! other)
              ∧ content st1.2 (filename cb) +:+ unlines (render <$> buffer_list st1.1)
                = content fs (filename cb) +:+ unlines (render <$> buffer_list cb)
                  +:+ unlines (render <$> [c])).
    { unfold st1, Buffer.append. case_bool_decide as Hlt; simpl.
      - repeat split; try done.
        + rewrite length_app. simpl. lia.
        + rewrite fmap_app, unlines_app. simpl. by rewrite ?string_app_assoc.
      - repeat split; try done.
        + lia.
        + rewrite append_file_content. by eexists.
        + intros other Hne. rewrite append_file_other, write_all_other by done.
          by apply append_file_other.
        + rewrite content_append_file, write_all_content, content_append_file.
          simpl. by rewrite ?string_app_nil_r, ?string_app_assoc. }
    destruct Hst1 as (Hn & Hs & Hl & He & Ho & Hc).
    destruct st1 as [cb1 fs1]. simpl in *.
    destruct (IH cb1 fs1) as (Hn' & Hs' & Hl' & He' & Ho' & Hc').
    { by rewrite Hs. }
    { by rewrite Hn. }
    rewrite Hn, Hs in *.
    repeat split; try done.
    + intros other Hne. rewrite Ho' by done. by apply Ho.
    + rewrite Hc', <- string_app_assoc, Hc. simpl.
      by rewrite ?string_app_assoc, ?string_app_nil_l.
Qed.

Lemma direct_session_fold (fs : filesystem) (name : string) (cs : list DIMACSClause) :
  foldl (fun fs c => append_file fs name (render c +:+ newline)) fs cs
  = Buffer.write_all fs name cs.
Proof. reflexivity. Qed.

(** C8: after the appends and the flush the backing file holds the renders
    of the appended clauses, one per line and in the order of the appends,
    and the whole file system is the one that writing each clause at once
    would leave; the window never holds more than 5000 clauses; the file is
    empty when the buffer has been created. *)
Theorem C8_buffer_refines_direct_writes
    (name : string) (fs : filesystem) (cs : list DIMACSClause) :
  (Buffer.session name fs cs).2 !! name = Some (unlines (render <$> cs))
  ∧ (Buffer.session name fs cs).2 = Buffer.direct_session name fs cs
  ∧ (∀ k : nat,
       length (buffer_list (Buffer.appends (Buffer.init name fs) (take k cs)).1) ≤ 5000)%nat
  ∧ (Buffer.init name fs).2 !! name = Some ""
  ∧ ∀ c, render c = join " " (str_int <$> var_list c) +:+ " 0".
Proof.
  assert (Hinit : ∀ l, let st := Buffer.appends (Buffer.init name fs) l in
            filename st.1 = name
            ∧ (length (buffer_list st.1) ≤ 5000)%nat
            ∧ is_Some (st.2 !! name)
            ∧ (∀ other, name ≠ other → st.2 !! other = fs !! other)
            ∧ content st.2 name +:+ unlines (render <$> buffer_list st.1)
              = unlines (render <$> l)).
  { intros l. unfold Buffer.init.
    pose proof (appends_invariant (mkBuffer name [] 5000) (write_file fs name "") l) as Hinv.
    simpl in Hinv. destruct Hinv as (Hn & _ & Hl & He & Ho & Hc).
    - lia.
    - unfold write_file. rewrite lookup_insert_eq. by eexists.
    - repeat split; try done.
      + intros other Hne. rewrite Ho by done. unfold write_file.
        by rewrite lookup_insert_ne.
      + rewrite Hc. unfold content, write_file. by rewrite lookup_insert_eq. }
  assert (Hfile : (Buffer.session name fs cs).2 !! name = Some (unlines (render <$> cs))).
  { unfold Buffer.session. destruct (Hinit cs) as (Hn & _ & He & _ & Hc).
    destruct (Buffer.appends (Buffer.init name fs) cs) as [cb1 fs1]. simpl in *.
    subst name. assert (Hex : is_Some (Buffer.write_all
        (append_file fs1 (filename cb1) "") (filename cb1) (buffer_list cb1) !! filename cb1)).
    { apply write_all_exists. rewrite append_file_content. by eexists. }
    destruct Hex as [t Ht]. rewrite Ht. f_equal.
    rewrite <- (content_lookup _ _ _ Ht), write_all_content, content_append_file.
    by rewrite string_app_nil_r. }
  split; [done|]. split; [|split; [|split]].
  - apply map_eq. intros other. destruct (decide (name = other)) as [<-|Hne].
    + rewrite Hfile. unfold Buffer.direct_session. rewrite direct_session_fold.
      assert (Hex : is_Some (Buffer.write_all (write_file fs name "") name cs !! name)).
      { apply write_all_exists. unfold write_file. rewrite lookup_insert_eq. by eexists. }
      destruct Hex as [t Ht]. rewrite Ht. f_equal.
      rewrite <- (content_lookup _ _ _ Ht), write_all_content.
      unfold content, write_file. by rewrite lookup_insert_eq.
    + unfold Buffer.session, Buffer.direct_session. rewrite direct_session_fold.
      destruct (Hinit cs) as (Hn & _ & _ & Ho & _).
      destruct (Buffer.appends (Buffer.init name fs) cs) as [cb1 fs1]. simpl in *.
      subst name. rewrite !write_all_other, append_file_other by done.
      rewrite Ho by done. unfold write_file. by rewrite lookup_insert_ne.
  - intros k. by destruct (Hinit (take k cs)) as (_ & Hl & _).
  - unfold Buffer.init, write_file. simpl. by rewrite lookup_insert_eq.
  - reflexivity.
Qed.

(** ** The matching file *)

Lemma int_dict_getitem_in (d : int_dict) (k v : Z) :
  NoDup d.*1 → (k, v) ∈ d → int_dict_getitem d k = Ok v.
Proof.
  induction d as [|[k' v'] d IH]; intros Hnd Hin; simpl.
  - by apply elem_of_nil in Hin.
  - simpl in Hnd. apply NoDup_cons in Hnd as [Hk' Hnd].
    apply elem_of_cons in Hin as [[= -> ->]|Hin].
    + by rewrite decide_True.
    + rewrite decide_False; [by apply IH|].
      intros ->. apply Hk'. apply list_elem_of_fmap. by exists (k, v).
Qed.

Lemma resident_line_entry (d : int_dict) (e : Z * Z) :
  NoDup d.*1 → e ∈ d → resident_line d e.1 = Ok (entry_line e).
Proof.
  intros Hnd Hin. destruct e as [k v]. unfold resident_line, entry_line. simpl.
  rewrite (int_dict_getitem_in d k v) by done. simpl.
  by destruct (decide (v = NIL_HOSPITAL_UID)).
Qed.

Lemma print_loop_text (d l : int_dict) (text : string) :
  NoDup d.*1 → (∀ e, e ∈ l → e ∈ d) →
  for_each (fun resident_uid text =>
              line ← resident_line d resident_uid; Ok (text +:+ line +:+ newline))
           l.*1 text
  = Ok (text +:+ unlines (entry_line <$> l)).
Proof.
  intros Hnd. revert text. induction l as [|e l IH]; intros text Hl; simpl.
  - by rewrite string_app_nil_r.
  - rewrite (resident_line_entry d e) by (try done; apply Hl; left). simpl.
    rewrite IH by (intros e' He'; apply Hl; by right).
    by rewrite ?string_app_assoc.
Qed.

(** C9: [print_matching] writes the optional comment line, then [m 0] and
    nothing more for an empty matching, and otherwise [m 1] and one line
    [r <resident> <hospital>] per entry of the matching, with [-1] for the
    nil hospital. *)
Theorem C9_print_matching_format
    (matching : int_dict) (header : option string) (name : string) (fs : filesystem) :
  NoDup matching.*1 →
  print_matching_text matching header = Ok (unlines (matching_lines matching header))
  ∧ print_matching matching name header fs
    = Ok (<[name := unlines (matching_lines matching header)]> fs)
  ∧ (matching = [] → matching_lines matching None = ["m 0"])
  ∧ (∀ r, entry_line (r, NIL_HOSPITAL_UID) = "r " +:+ str_int r +:+ " -1")
  ∧ (∀ r h, h ≠ NIL_HOSPITAL_UID →
            entry_line (r, h) = "r " +:+ str_int r +:+ " " +:+ str_int h).
Proof.
  intros Hnd.
  assert (Htext : print_matching_text matching header
                  = Ok (unlines (matching_lines matching header))).
  { unfold print_matching_text, matching_lines.
    destruct matching as [|e m]; simpl bool_decide; cbv iota.
    - destruct header as [h|]; simpl; [|done]. by rewrite ?string_app_assoc.
    - rewrite (print_loop_text (e :: m) (e :: m)) by done.
      destruct header as [h|]; simpl; by rewrite ?string_app_assoc. }
  split; [done|]. split; [|split; [|split]].
  - unfold print_matching. by rewrite Htext.
  - by intros ->.
  - intros r. reflexivity.
  - intros r h Hne. unfold entry_line. simpl.
    by destruct (decide (h = NIL_HOSPITAL_UID)).
Qed.

Lemma C9_print_matching_format_witness :
  print_matching_text [(7, 3); (8, NIL_HOSPITAL_UID)] (Some "sat")
  = Ok (unlines ["# sat"; "m 1"; "r 7 3"; "r 8 -1"]).
Proof.
  apply (C9_print_matching_format [(7, 3); (8, NIL_HOSPITAL_UID)] (Some "sat") "out" ∅).
  apply (bool_decide_unpack _). vm_compute. reflexivity.
Defined.

(** ** Couples and their ranked hospitals *)

Lemma first_occurrences_example : first_occurrences [4; 3; 4] = [4; 3].
Proof. reflexivity. Qed.

(** C5, as amended: for a couple whose two members have different uids,
    [get_ranked_hospitals] of a member returns the set-order enumeration of
    the hospitals in the member's coordinate of the joint list: a list
    without duplicates that holds exactly those hospitals. *)
Theorem C5_ranked_hospitals_distinct_projection `{PySet}
    (pairs : list (Z * Z)) (u : Z) (r0 r1 : Resident) (g : Globals) :
  r_uid r0 ≠ r_uid r1 →
  let c := (Couple_init pairs u r0 r1 g).1 in
  Coup.get_ranked_hospitals c (c_residents c).1 = Ok (set_iter pairs.*1)
  ∧ Coup.get_ranked_hospitals c (c_residents c).2 = Ok (set_iter pairs.*2)
  ∧ NoDup (set_iter pairs.*1) ∧ NoDup (set_iter pairs.*2)
  ∧ (∀ h, h ∈ set_iter pairs.*1 ↔ h ∈ pairs.*1)
  ∧ (∀ h, h ∈ set_iter pairs.*2 ↔ h ∈ pairs.*2).
Proof.
  intros Hne. simpl. unfold Coup.get_ranked_hospitals, getitem. simpl.
  rewrite lookup_insert_ne, !lookup_insert_eq by done.
  repeat split; try apply set_iter_NoDup; by apply set_iter_elem.
Qed.

Lemma C5_ranked_hospitals_distinct_projection_witness :
  let c := (@Couple_init cpython_small [(4, 1); (3, 2); (4, 2)] 100
              (mkResident 11 None None) (mkResident 12 None None) module_globals).1 in
  Coup.get_ranked_hospitals c (c_residents c).1 = Ok [3; 4]
  ∧ Coup.get_ranked_hospitals c (c_residents c).2 = Ok [1; 2].
Proof.
  pose proof (@C5_ranked_hospitals_distinct_projection cpython_small
                [(4, 1); (3, 2); (4, 2)] 100
                (mkResident 11 None None) (mkResident 12 None None) module_globals) as Hc.
  simpl in Hc. destruct Hc as (H0 & H1 & _).
  - lia.
  - split; [exact H0 | exact H1].
Defined.

(** The claim with the order of first occurrence fails: the joint list
    (4,1), (3,2) gives the first member the hospitals 4 and 3 in that
    order, and the set holds them in the order 3, 4. *)
Lemma C5_first_occurrence_counterexample :
  let c := (@Couple_init cpython_small [(4, 1); (3, 2)] 100
              (mkResident 11 None None) (mkResident 12 None None) module_globals).1 in
  Coup.get_ranked_hospitals c (c_residents c).1 = Ok [3; 4]
  ∧ first_occurrences [(4, 1); (3, 2)].*1 = [4; 3]
  ∧ Coup.get_ranked_hospitals c (c_residents c).1
    ≠ Ok (first_occurrences [(4, 1); (3, 2)].*1).
Proof. repeat split. vm_compute. discriminate. Qed.

(** ** The loader *)

(** C4, on four files.  [from_file] accepts two [r] lines with one uid, two
    [p] lines with one uid, two [c] lines with one uid, and a [c] line that
    names a resident declared before: the tests for duplicates read the
    dictionaries local to [from_file], which stay empty. *)
Theorem C4_from_file_accepts_duplicates :
  (∃ inst g, @from_file cpython_small (unlines ["r 1 2"; "r 1 3"]) false module_globals
             = Ok (inst, g)
             ∧ r_uid <$> singles inst = [1; 1])
  ∧ (∃ inst g, @from_file cpython_small (unlines ["p 5 1 1"; "p 5 2 1"]) false module_globals
               = Ok (inst, g)
               ∧ h_uid <$> hospitals inst = [5; 5])
  ∧ (∃ inst g, @from_file cpython_small (unlines ["c 9 1 2 5 5"; "c 9 3 4 5 5"]) false
                 module_globals
               = Ok (inst, g)
               ∧ c_uid <$> couples inst = [9; 9])
  ∧ (∃ inst g, @from_file cpython_small (unlines ["r 1 5"; "c 9 1 2 5 5"]) false
                 module_globals
               = Ok (inst, g)
               ∧ r_uid <$> singles inst = [1]
               ∧ (fun c => (r_uid (c_residents c).1, r_uid (c_residents c).2)) <$> couples inst
                 = [(1, 2)]).
Proof.
  repeat split; eexists _, _; (split; [vm_compute; reflexivity|]); vm_compute; done.
Qed.

(** The local dictionaries are never written, so none of the three tests of
    a line can find a uid in them. *)
Lemma local_dicts_empty (u : Z) :
  local_resident_dict !! u = None ∧ local_hospital_dict !! u = None
  ∧ local_couple_dict !! u = None.
Proof. repeat split; apply lookup_empty. Qed.

(** ** The encoder: clauses, positivity of the variables *)

Lemma add_clauses_nil (s : sat_state) : add_clauses [] s = s.
Proof. destruct s. unfold add_clauses. simpl. by rewrite app_nil_r. Qed.

Lemma add_clauses_app (cs1 cs2 : list DIMACSClause) (s : sat_state) :
  add_clauses cs2 (add_clauses cs1 s) = add_clauses (cs1 ++ cs2) s.
Proof. unfold add_clauses. simpl. by rewrite app_assoc. Qed.

Lemma append_clause_Ok (lits : list Z) (s s' : sat_state) :
  append_clause lits s = Ok s' → s' = add_clauses [mkClause lits] s.
Proof.
  unfold append_clause, DIMACSClause_init. intros Hs.
  apply bind_Ok in Hs as (c & Hc & [= <-]).
  apply bind_Ok in Hc as (u & _ & [= <-]). done.
Qed.

Lemma append_clauses_Ok (ls : list (list Z)) (s s' : sat_state) :
  append_clauses ls s = Ok s' → s' = add_clauses (mkClause <$> ls) s.
Proof.
  unfold append_clauses. revert s. induction ls as [|l ls IH]; intros s Hs; simpl in Hs.
  - injection Hs as <-. by rewrite add_clauses_nil.
  - apply bind_Ok in Hs as (s1 & H1 & Hs). apply append_clause_Ok in H1 as ->.
    rewrite (IH _ Hs). by rewrite add_clauses_app.
Qed.

(** *** Satisfaction *)

Lemma satisfies_app (v : Z → bool) (cs1 cs2 : list DIMACSClause) :
  satisfies v (cs1 ++ cs2) ↔ satisfies v cs1 ∧ satisfies v cs2.
Proof. unfold satisfies. setoid_rewrite elem_of_app. naive_solver. Qed.

Lemma satisfies_cons (v : Z → bool) (c : DIMACSClause) (cs : list DIMACSClause) :
  satisfies v (c :: cs) ↔ clause_true v c = true ∧ satisfies v cs.
Proof. unfold satisfies. setoid_rewrite elem_of_cons. naive_solver. Qed.

Lemma satisfies_forallb (v : Z → bool) (cs : list DIMACSClause) :
  forallb (clause_true v) cs = true → satisfies v cs.
Proof.
  intros Hall c Hc. rewrite forallb_forall in Hall. apply Hall.
  by apply list_elem_of_In.
Qed.

Lemma sat_from_add (n : nat) (v : Z → bool) (cs : list DIMACSClause) (s : sat_state) :
  (n ≤ length (constraints s))%nat →
  sat_from n v (add_clauses cs s) ↔ sat_from n v s ∧ satisfies v cs.
Proof.
  intros Hn. unfold sat_from, add_clauses. simpl.
  rewrite drop_app_le by done. apply satisfies_app.
Qed.

Lemma lit_true_pos (v : Z → bool) (x : Z) : 0 < x → lit_true v x = v x.
Proof. intros Hx. unfold lit_true. by rewrite bool_decide_eq_true_2. Qed.

Lemma lit_true_neg (v : Z → bool) (x : Z) : 0 < x → lit_true v (- x) = negb (v x).
Proof.
  intros Hx. unfold lit_true. rewrite bool_decide_eq_false_2 by lia.
  by rewrite Z.opp_involutive.
Qed.

(** *** Loops over a range, with a property that depends on the index *)

Lemma for_each_seqZ_ind {St} (P : Z → St → Prop) (f : Z → St → result St)
    (a : Z) (n : nat) (s s' : St) :
  for_each f (seqZ a (Z.of_nat n)) s = Ok s' → P a s →
  (∀ i s1 s2, a ≤ i < a + Z.of_nat n → P i s1 → f i s1 = Ok s2 → P (i + 1) s2) →
  P (a + Z.of_nat n) s'.
Proof.
  revert a s. induction n as [|n IH]; intros a s Hrun Hs Hstep.
  - simpl in Hrun. injection Hrun as <-. by rewrite Z.add_0_r.
  - rewrite seqZ_cons in Hrun by lia. simpl in Hrun.
    apply bind_Ok in Hrun as (s1 & Ha & Hrun).
    replace (Z.pred (Z.of_nat (S n))) with (Z.of_nat n) in Hrun by lia.
    replace (a + Z.of_nat (S n)) with (Z.succ a + Z.of_nat n) by lia.
    apply (IH (Z.succ a) s1 Hrun).
    + replace (Z.succ a) with (a + 1) by lia. apply (Hstep a s s1); [lia | done | done].
    + intros i t1 t2 Hi. apply Hstep. lia.
Qed.

Lemma xrange_nat (n : Z) : xrange n = seqZ 0 (Z.of_nat (Z.to_nat n)).
Proof.
  unfold xrange. destruct (decide (0 ≤ n)) as [Hn|Hn].
  - by rewrite Z2Nat.id.
  - replace (Z.to_nat n) with 0%nat by lia. unfold seqZ. simpl.
    by replace (Z.to_nat n) with 0%nat by lia.
Qed.

Lemma elem_of_xrange (n i : Z) : i ∈ xrange n ↔ 0 ≤ i < n.
Proof. unfold xrange. rewrite elem_of_seqZ. lia. Qed.

(** *** Reading the tables *)

Lemma get_res_match_Ok (s : sat_state) (r h x : Z) :
  get_res_match s r h = Ok x ↔ ∃ d, res_match s !! r = Some d ∧ d !! h = Some x.
Proof.
  unfold get_res_match. rewrite bind_Ok. setoid_rewrite getitem_Ok. done.
Qed.

Lemma get_q_Ok (s : sat_state) (h i j x : Z) :
  get_q s h i j = Ok x
  ↔ ∃ qh qhi, q s !! h = Some qh ∧ qh !! i = Some qhi ∧ qhi !! j = Some x.
Proof.
  unfold get_q. rewrite bind_Ok. setoid_rewrite bind_Ok. setoid_rewrite getitem_Ok.
  naive_solver.
Qed.

Lemma get_cpref_Ok (s : sat_state) (c k x : Z) :
  get_cpref s c k = Ok x ↔ ∃ d, cpref s !! c = Some d ∧ d !! k = Some x.
Proof.
  unfold get_cpref. rewrite bind_Ok. setoid_rewrite getitem_Ok. done.
Qed.

(** Reads depend on the one table they read. *)
Lemma get_res_match_ext (s s' : sat_state) (r h : Z) :
  res_match s' = res_match s → get_res_match s' r h = get_res_match s r h.
Proof. unfold get_res_match. by intros ->. Qed.

Lemma get_q_ext (s s' : sat_state) (h i j : Z) :
  q s' !! h = q s !! h → get_q s' h i j = get_q s h i j.
Proof. unfold get_q, getitem. by intros ->. Qed.

Lemma get_cpref_ext (s s' : sat_state) (c k : Z) :
  cpref s' !! c = cpref s !! c → get_cpref s' c k = get_cpref s c k.
Proof. unfold get_cpref, getitem. by intros ->. Qed.

(** *** Positivity is kept by every write *)

Lemma positive_init : positive_tables sat_init.
Proof.
  unfold positive_tables, sat_init. split; [simpl; lia|].
  repeat split; intros *.
  - rewrite get_res_match_Ok. simpl. intros (d & Hd & _). by rewrite lookup_empty in Hd.
  - rewrite get_q_Ok. simpl. intros (d & ? & Hd & _). by rewrite lookup_empty in Hd.
  - rewrite get_cpref_Ok. simpl. intros (d & Hd & _). by rewrite lookup_empty in Hd.
Qed.

Lemma positive_add_clauses (cs : list DIMACSClause) (s : sat_state) :
  positive_tables s → positive_tables (add_clauses cs s).
Proof. done. Qed.

Lemma positive_register (x : Z) (name : var_name) (s : sat_state) :
  positive_tables s → positive_tables (register x name s).
Proof. done. Qed.

Lemma positive_allocate (s : sat_state) :
  positive_tables s → positive_tables (allocate_uid s).2 ∧ 0 < (allocate_uid s).1.
Proof.
  intros (H0 & Hr & Hq & Hc). simpl. split; [|lia].
  split; [simpl; lia|]. done.
Qed.

Lemma positive_set_res_match (r h x : Z) (s s' : sat_state) :
  set_res_match r h x s = Ok s' → 0 < x → positive_tables s → positive_tables s'.
Proof.
  unfold set_res_match. intros Hs Hx (H0 & Hr & Hq & Hc).
  apply bind_Ok in Hs as (d & Hd & [= <-]). apply getitem_Ok in Hd.
  split; [done|]. split; [|done].
  intros r' h' x'. rewrite get_res_match_Ok. simpl.
  intros (d' & Hd' & Hx').
  destruct (decide (r = r')) as [<-|Hne].
  - rewrite lookup_insert_eq in Hd'. injection Hd' as <-.
    destruct (decide (h = h')) as [<-|Hne'].
    + rewrite lookup_insert_eq in Hx'. by injection Hx' as <-.
    + rewrite lookup_insert_ne in Hx' by done. apply (Hr r h' x').
      apply get_res_match_Ok. eauto.
  - rewrite lookup_insert_ne in Hd' by done. apply (Hr r' h' x').
    apply get_res_match_Ok. eauto.
Qed.

Lemma positive_new_resident_row `{PySet} (resident : Resident) (s s' : sat_state) :
  new_resident_row resident s = Ok s' → positive_tables s → positive_tables s'.
Proof.
  unfold new_resident_row. intros Hs (H0 & Hr & Hq & Hc).
  apply bind_Ok in Hs as (u & _ & [= <-]).
  split; [done|]. split; [|done].
  intros r' h' x'. rewrite get_res_match_Ok. simpl.
  intros (d' & Hd' & Hx').
  destruct (decide (r_uid resident = r')) as [<-|Hne].
  - rewrite lookup_insert_eq in Hd'. injection Hd' as <-. by rewrite lookup_empty in Hx'.
  - rewrite lookup_insert_ne in Hd' by done. apply (Hr r' h' x').
    apply get_res_match_Ok. eauto.
Qed.

Lemma positive_with_q_row (h : Z) (qh' : gmap Z (gmap Z Z)) (s : sat_state) :
  (∀ i qhi j x, qh' !! i = Some qhi → qhi !! j = Some x → 0 < x) →
  positive_tables s → positive_tables (with_q (<[h := qh']> (q s)) s).
Proof.
  intros Hnew (H0 & Hr & Hq & Hc). split; [done|]. split; [done|]. split; [|done].
  intros h' i j x. rewrite get_q_Ok. simpl. intros (qh & qhi & Hqh & Hqhi & Hx).
  destruct (decide (h = h')) as [<-|Hne].
  - rewrite lookup_insert_eq in Hqh. injection Hqh as <-. eauto.
  - rewrite lookup_insert_ne in Hqh by done. apply (Hq h' i j x).
    apply get_q_Ok. eauto.
Qed.

Lemma positive_with_cpref_row (c : Z) (d' : gmap Z Z) (s : sat_state) :
  (∀ k x, d' !! k = Some x → 0 < x) →
  positive_tables s → positive_tables (with_cpref (<[c := d']> (cpref s)) s).
Proof.
  intros Hnew (H0 & Hr & Hq & Hc). split; [done|]. split; [done|]. split; [done|].
  intros c' k x. rewrite get_cpref_Ok. simpl. intros (d & Hd & Hx).
  destruct (decide (c = c')) as [<-|Hne].
  - rewrite lookup_insert_eq in Hd. injection Hd as <-. eauto.
  - rewrite lookup_insert_ne in Hd by done. apply (Hc c' k x).
    apply get_cpref_Ok. eauto.
Qed.

(** ** The matching part of the encoder keeps the variables positive *)

Lemma positive_bump (s : sat_state) :
  positive_tables s →
  positive_tables (mkSat (last_uid s + 1) (variable_registry s) (res_match s) (q s)
                         (cpref s) (constraints s))
  ∧ 0 < last_uid s + 1.
Proof. intros Hs. destruct (positive_allocate s Hs). done. Qed.

Lemma positive_append_clause (lits : list Z) (s s' : sat_state) :
  append_clause lits s = Ok s' → positive_tables s → positive_tables s'.
Proof. intros ->%append_clause_Ok. apply positive_add_clauses. Qed.

Lemma positive_append_clauses (ls : list (list Z)) (s s' : sat_state) :
  append_clauses ls s = Ok s' → positive_tables s → positive_tables s'.
Proof. intros ->%append_clauses_Ok. apply positive_add_clauses. Qed.

Section MatchingPositive.
Context `{PySet}.
Variable g : Globals.

Lemma positive_nil_var (resident : Resident) (name : var_name) (s s' : sat_state) :
  nil_var resident name s = Ok s' → positive_tables s → positive_tables s'.
Proof.
  unfold nil_var, allocate_uid. intros Hs Hpos.
  apply bind_Ok in Hs as (s2 & H2 & [= <-]).
  apply positive_register. destruct (positive_bump s Hpos) as [Hb Hx].
  by apply (positive_set_res_match _ _ _ _ _ H2).
Qed.

Lemma positive_single_var (resident : Resident) (hu : Z) (s s' : sat_state) :
  single_var g resident hu s = Ok s' → positive_tables s → positive_tables s'.
Proof.
  unfold single_var, allocate_uid. intros Hs Hpos.
  apply bind_Ok in Hs as (hosp & _ & Hs).
  apply bind_Ok in Hs as (s2 & H2 & [= <-]).
  apply positive_register. destruct (positive_bump s Hpos) as [Hb Hx].
  by apply (positive_set_res_match _ _ _ _ _ H2).
Qed.

Lemma positive_member_var (couple : Couple) (resident : Resident) (hu : Z)
    (s s' : sat_state) :
  member_var g couple resident hu s = Ok s' → positive_tables s → positive_tables s'.
Proof.
  unfold member_var, allocate_uid. intros Hs Hpos.
  apply bind_Ok in Hs as (hosp & _ & Hs).
  apply bind_Ok in Hs as (s2 & H2 & [= <-]).
  apply positive_register. destruct (positive_bump s Hpos) as [Hb Hx].
  by apply (positive_set_res_match _ _ _ _ _ H2).
Qed.

Lemma positive_single_vars (resident : Resident) (s s' : sat_state) :
  single_vars g resident s = Ok s' → positive_tables s → positive_tables s'.
Proof.
  unfold single_vars. intros Hs Hpos.
  apply bind_Ok in Hs as (s0 & H0 & Hs).
  apply bind_Ok in Hs as (ordering & _ & Hs).
  apply bind_Ok in Hs as (s1 & H1 & Hs).
  apply bind_Ok in Hs as (s2 & H2 & Hs).
  apply bind_Ok in Hs as (lits & _ & Hs).
  apply (positive_append_clause _ _ _ Hs).
  apply (positive_nil_var _ _ _ _ H2).
  apply (for_each_ind positive_tables _ _ _ _ H1).
  - by apply (positive_new_resident_row _ _ _ H0).
  - intros hu t1 t2 _ Ht1 Hstep. by apply (positive_single_var _ _ _ _ Hstep).
Qed.

Lemma positive_member_vars (couple : Couple) (resident : Resident) (s s' : sat_state) :
  member_vars g couple resident s = Ok s' → positive_tables s → positive_tables s'.
Proof.
  unfold member_vars. intros Hs Hpos.
  apply bind_Ok in Hs as (s0 & H0 & Hs).
  apply bind_Ok in Hs as (ranked & _ & Hs).
  apply bind_Ok in Hs as (s1 & H1 & Hs).
  apply bind_Ok in Hs as (s2 & H2 & Hs).
  apply bind_Ok in Hs as (lits & _ & Hs).
  apply (positive_append_clause _ _ _ Hs).
  apply (positive_nil_var _ _ _ _ H2).
  apply (for_each_ind positive_tables _ _ _ _ H1).
  - by apply (positive_new_resident_row _ _ _ H0).
  - intros hu t1 t2 _ Ht1 Hstep. by apply (positive_member_var _ _ _ _ _ Hstep).
Qed.

Lemma positive_at_most_one (resident : Resident) (pair : Z * Z) (s s' : sat_state) :
  at_most_one g resident pair s = Ok s' → positive_tables s → positive_tables s'.
Proof.
  unfold at_most_one. intros Hs Hpos.
  apply bind_Ok in Hs as (x1 & _ & Hs).
  apply bind_Ok in Hs as (x2 & _ & Hs).
  by apply (positive_append_clause _ _ _ Hs).
Qed.

Lemma positive_matching_clauses (inst : ProblemInstance) (s s' : sat_state) :
  matching_clauses g inst s = Ok s' → positive_tables s → positive_tables s'.
Proof.
  unfold matching_clauses. intros Hs Hpos.
  apply bind_Ok in Hs as (s1 & H1 & Hs).
  apply bind_Ok in Hs as (s2 & H2 & Hs).
  apply bind_Ok in Hs as (s3 & H3 & Hs).
  apply (for_each_ind positive_tables _ _ _ _ Hs).
  - apply (for_each_ind positive_tables _ _ _ _ H3).
    + apply (for_each_ind positive_tables _ _ _ _ H2).
      * apply (for_each_ind positive_tables _ _ _ _ H1); [done|].
        intros r t1 t2 _ Ht1 Hstep. by apply (positive_single_vars _ _ _ Hstep).
      * intros c t1 t2 _ Ht1 Hstep. unfold couple_vars in Hstep.
        apply bind_Ok in Hstep as (t & Ha & Hb).
        apply (positive_member_vars _ _ _ _ Hb).
        by apply (positive_member_vars _ _ _ _ Ha).
    + intros r t1 t2 _ Ht1 Hstep. unfold single_at_most_one in Hstep.
      apply bind_Ok in Hstep as (ordering & _ & Hstep).
      apply (for_each_ind positive_tables _ _ _ _ Hstep); [done|].
      intros p u1 u2 _ Hu1 Hp. by apply (positive_at_most_one _ _ _ _ Hp).
  - intros c t1 t2 _ Ht1 Hstep. unfold couple_at_most_one in Hstep.
    apply bind_Ok in Hstep as (t & Ha & Hb).
    unfold member_at_most_one in Ha, Hb.
    apply bind_Ok in Ha as (ranked & _ & Ha).
    apply bind_Ok in Hb as (ranked' & _ & Hb).
    apply (for_each_ind positive_tables _ _ _ _ Hb).
    + apply (for_each_ind positive_tables _ _ _ _ Ha); [done|].
      intros p u1 u2 _ Hu1 Hp. by apply (positive_at_most_one _ _ _ _ Hp).
    + intros p u1 u2 _ Hu1 Hp. by apply (positive_at_most_one _ _ _ _ Hp).
Qed.

End MatchingPositive.

(** ** The counter variables *)

#[global] Instance extends_preorder : PreOrder extends.
Proof.
  split.
  - intros s. exists []. by rewrite add_clauses_nil.
  - intros s1 s2 s3 [cs1 ->] [cs2 ->]. exists (cs1 ++ cs2). by rewrite add_clauses_app.
Qed.

Lemma extends_add (cs : list DIMACSClause) (s : sat_state) : extends s (add_clauses cs s).
Proof. by exists cs. Qed.

Lemma extends_positive (s s' : sat_state) :
  extends s s' → positive_tables s → positive_tables s'.
Proof. intros [cs ->]. apply positive_add_clauses. Qed.

Lemma extends_tables (s s' : sat_state) :
  extends s s' →
  res_match s' = res_match s ∧ q s' = q s ∧ cpref s' = cpref s
  ∧ last_uid s' = last_uid s ∧ variable_registry s' = variable_registry s.
Proof. by intros [cs ->]. Qed.

Lemma extends_prefix (s s' : sat_state) :
  extends s s' → constraints s `prefix_of` constraints s'.
Proof. intros [cs ->]. by exists cs. Qed.

Lemma sat_from_prefix (n : nat) (v : Z → bool) (s s' : sat_state) :
  constraints s `prefix_of` constraints s' → sat_from n v s' → sat_from n v s.
Proof.
  intros [cs Hcs] Hsat c Hc. apply Hsat. rewrite Hcs.
  apply list_elem_of_lookup in Hc as [i Hi]. rewrite lookup_drop in Hi.
  apply list_elem_of_lookup. exists i. rewrite lookup_drop.
  by apply lookup_app_l_Some.
Qed.

Lemma sat_from_extends (n : nat) (v : Z → bool) (s s' : sat_state) :
  extends s s' → sat_from n v s' → sat_from n v s.
Proof. intros He. apply sat_from_prefix. by apply extends_prefix. Qed.

Lemma sat_from_new (n : nat) (v : Z → bool) (cs : list DIMACSClause) (s : sat_state) :
  (n ≤ length (constraints s))%nat → sat_from n v (add_clauses cs s) → satisfies v cs.
Proof. intros Hn Hsat. by apply (sat_from_add n v cs s Hn) in Hsat as [_ Hcs]. Qed.

(** A loop whose iterations only append clauses: every iteration ran from a
    state that extends the first and to a state that the last extends. *)
Lemma for_each_elem {A St} (R : St → St → Prop) `{!PreOrder R}
    (f : A → St → result St) (l : list A) (s s' : St) :
  for_each f l s = Ok s' →
  (∀ a t1 t2, a ∈ l → f a t1 = Ok t2 → R t1 t2) →
  R s s' ∧ ∀ a, a ∈ l → ∃ t1 t2, R s t1 ∧ f a t1 = Ok t2 ∧ R t2 s'.
Proof.
  revert s. induction l as [|x l IH]; intros s Hrun Hstep; simpl in Hrun.
  - injection Hrun as <-. split; [reflexivity|]. intros a Ha. by apply elem_of_nil in Ha.
  - apply bind_Ok in Hrun as (s1 & Hx & Hrun).
    assert (Hxs : R s s1) by (apply (Hstep x); [left | done]).
    destruct (IH s1 Hrun) as [Hs1 Hall].
    { intros a t1 t2 Ha. apply Hstep. by right. }
    split; [by transitivity s1|].
    intros a [->|Ha]%elem_of_cons.
    + exists s, s1. split; [reflexivity | done].
    + destruct (Hall a Ha) as (t1 & t2 & H1 & H2 & H3).
      exists t1, t2. split; [by transitivity s1 | done].
Qed.

Section Counters.
Context `{PySet}.
Variable g : Globals.

Lemma matched_ext (s s' : sat_state) (v : Z → bool) (h : Hospital) (u : Z) :
  res_match s' = res_match s → matched g s' v h u = matched g s v h u.
Proof.
  intros Hrm. unfold matched. destruct (getitem (resident_dict g) u); simpl; [|done].
  by rewrite (get_res_match_ext s s').
Qed.

Lemma count_matched_ext (s s' : sat_state) (v : Z → bool) (h : Hospital) (l : list Z) :
  res_match s' = res_match s → count_matched g s' v h l = count_matched g s v h l.
Proof.
  intros Hrm. induction l as [|u l IH]; simpl; [done|].
  by rewrite IH, (matched_ext s s').
Qed.

Lemma count_matched_bounds (s : sat_state) (v : Z → bool) (h : Hospital) (l : list Z) :
  0 ≤ count_matched g s v h l ≤ len l.
Proof.
  unfold len. induction l as [|u l IH]; simpl; [lia|].
  destruct (matched g s v h u); lia.
Qed.

Lemma count_matched_snoc (s : sat_state) (v : Z → bool) (h : Hospital) (l : list Z) (u : Z) :
  count_matched g s v h (l ++ [u])
  = count_matched g s v h l + (if matched g s v h u then 1 else 0).
Proof. induction l as [|u' l IH]; simpl; [lia|]. rewrite IH. lia. Qed.

(** The literal [y] of row [i] is the matching variable of the [i]-th
    resident of the list. *)
Lemma y_var_count (s : sat_state) (v : Z → bool) (h : Hospital) (ord : list Z) (i y : Z) :
  1 ≤ i → y_var g s h ord i = Ok y →
  (i ≤ len ord)
  ∧ count_matched g s v h (take (Z.to_nat i) ord)
    = count_matched g s v h (take (Z.to_nat (i - 1)) ord) + (if v y then 1 else 0).
Proof.
  intros Hi Hy. unfold y_var in Hy.
  apply bind_Ok in Hy as (u & Hu & Hy). apply list_getitem_Ok in Hu.
  apply bind_Ok in Hy as (r & Hr & Hy).
  pose proof (lookup_lt_Some _ _ _ Hu) as Hlt. split; [unfold len; lia|].
  replace (Z.to_nat i) with (S (Z.to_nat (i - 1))) by lia.
  rewrite (take_S_r _ _ _ Hu), count_matched_snoc. f_equal.
  unfold matched. rewrite Hr. simpl. by rewrite Hy.
Qed.

Lemma y_var_positive (s : sat_state) (h : Hospital) (ord : list Z) (i y : Z) :
  positive_tables s → y_var g s h ord i = Ok y → 0 < y.
Proof.
  intros (_ & Hr & _) Hy. unfold y_var in Hy.
  apply bind_Ok in Hy as (u & _ & Hy). apply bind_Ok in Hy as (r & _ & Hy).
  by apply (Hr _ _ _ Hy).
Qed.

Lemma get_q_positive (s : sat_state) (hu i j x : Z) :
  positive_tables s → get_q s hu i j = Ok x → 0 < x.
Proof. intros (_ & _ & Hq & _). apply Hq. Qed.

(** The clauses of the first row say that [q[h][1][0]] is the negation of
    the first matching variable and [q[h][1][1]] the variable itself. *)
Lemma counter_base_sem (h : Hospital) (ord : list Z) (t1 t2 : sat_state)
    (n : nat) (v : Z → bool) (j : Z) :
  counter_base g h ord 1 t1 = Ok t2 →
  positive_tables t1 → (n ≤ length (constraints t1))%nat → sat_from n v t2 →
  0 ≤ j ≤ 1 →
  ∃ a, get_q t1 (h_uid h) 1 j = Ok a
       ∧ (v a = true ↔ count_matched g t1 v h (take (Z.to_nat 1) ord) = j).
Proof.
  intros Hrun Hpos Hn Hsat Hj. unfold counter_base in Hrun.
  apply bind_Ok in Hrun as (y & Hy & Hrun).
  apply bind_Ok in Hrun as (q0 & Hq0 & Hrun).
  apply bind_Ok in Hrun as (q1 & Hq1 & Hrun).
  apply append_clauses_Ok in Hrun as ->.
  apply sat_from_new in Hsat; [|done].
  pose proof (y_var_positive _ _ _ _ _ Hpos Hy) as Hypos.
  pose proof (get_q_positive _ _ _ _ _ Hpos Hq0) as Hq0pos.
  pose proof (get_q_positive _ _ _ _ _ Hpos Hq1) as Hq1pos.
  destruct (y_var_count t1 v h ord 1 y) as [_ Hcount]; [lia | done |].
  simpl in Hcount. rewrite Hcount.
  simpl in Hsat. repeat (apply satisfies_cons in Hsat as [? Hsat]).
  unfold clause_true in *. simpl in *.
  rewrite ?lit_true_neg in * by done. rewrite ?lit_true_pos in * by done.
  assert (j = 0 ∨ j = 1) as [-> | ->] by lia.
  - exists q0. split; [done|]. destruct (v y), (v q0), (v q1); simpl in *; split; (done || lia).
  - exists q1. split; [done|]. destruct (v y), (v q0), (v q1); simpl in *; split; (done || lia).
Qed.

(** The clauses of a later row tie [q[h][i][j]] to the row before. *)
Lemma counter_step_sem (h : Hospital) (ord : list Z) (i j : Z) (t1 t2 : sat_state)
    (n : nat) (v : Z → bool) :
  counter_step g h ord i j t1 = Ok t2 →
  positive_tables t1 → (n ≤ length (constraints t1))%nat → sat_from n v t2 →
  1 < i → 0 ≤ j ≤ Z.min i (h_capacity h + 1) →
  (∀ j' p, 0 ≤ j' ≤ Z.min (i - 1) (h_capacity h + 1) →
           get_q t1 (h_uid h) (i - 1) j' = Ok p →
           (v p = true ↔ count_matched g t1 v h (take (Z.to_nat (i - 1)) ord) = j')) →
  ∃ a, get_q t1 (h_uid h) i j = Ok a
       ∧ (v a = true ↔ count_matched g t1 v h (take (Z.to_nat i) ord) = j).
Proof.
  intros Hrun Hpos Hn Hsat Hi Hj Hprev. unfold counter_step in Hrun.
  pose proof (count_matched_bounds t1 v h (take (Z.to_nat (i - 1)) ord)) as Hb.
  assert (Hlen : len (take (Z.to_nat (i - 1)) ord) ≤ i - 1).
  { unfold len. rewrite length_take. lia. }
  case_bool_decide as Hj0; [|case_bool_decide as Hji].
  - subst j.
    apply bind_Ok in Hrun as (y & Hy & Hrun).
    apply bind_Ok in Hrun as (a & Ha & Hrun).
    apply bind_Ok in Hrun as (p & Hp & Hrun).
    apply append_clauses_Ok in Hrun as ->.
    apply sat_from_new in Hsat; [|done].
    pose proof (y_var_positive _ _ _ _ _ Hpos Hy) as Hypos.
    pose proof (get_q_positive _ _ _ _ _ Hpos Ha) as Hapos.
    pose proof (get_q_positive _ _ _ _ _ Hpos Hp) as Hppos.
    destruct (y_var_count t1 v h ord i y) as [_ Hcount]; [lia | done |].
    rewrite Hcount. specialize (Hprev 0 p ltac:(lia) Hp).
    simpl in Hsat. repeat (apply satisfies_cons in Hsat as [? Hsat]).
    unfold clause_true in *. simpl in *.
    rewrite ?lit_true_neg in * by done. rewrite ?lit_true_pos in * by done.
    exists a. split; [done|].
    destruct (v y), (v a), (v p); simpl in *; split; intros; try done; try lia;
      destruct Hprev as [Hp1 Hp2]; try (specialize (Hp1 eq_refl)); try lia;
      try (exfalso; assert (false = true) by (apply Hp2; lia); done).
  - subst j.
    apply bind_Ok in Hrun as (y & Hy & Hrun).
    apply bind_Ok in Hrun as (a & Ha & Hrun).
    apply bind_Ok in Hrun as (p & Hp & Hrun).
    apply append_clauses_Ok in Hrun as ->.
    apply sat_from_new in Hsat; [|done].
    pose proof (y_var_positive _ _ _ _ _ Hpos Hy) as Hypos.
    pose proof (get_q_positive _ _ _ _ _ Hpos Ha) as Hapos.
    pose proof (get_q_positive _ _ _ _ _ Hpos Hp) as Hppos.
    destruct (y_var_count t1 v h ord i y) as [_ Hcount]; [lia | done |].
    rewrite Hcount. specialize (Hprev (i - 1) p ltac:(lia) Hp).
    simpl in Hsat. repeat (apply satisfies_cons in Hsat as [? Hsat]).
    unfold clause_true in *. simpl in *.
    rewrite ?lit_true_neg in * by done. rewrite ?lit_true_pos in * by done.
    exists a. split; [done|].
    destruct (v y), (v a), (v p); simpl in *; split; intros; try done; try lia;
      destruct Hprev as [Hp1 Hp2]; try (specialize (Hp1 eq_refl)); try lia;
      try (exfalso; assert (false = true) by (apply Hp2; lia); done).
  - apply bind_Ok in Hrun as (y & Hy & Hrun).
    apply bind_Ok in Hrun as (p & Hp & Hrun).
    apply bind_Ok in Hrun as (a & Ha & Hrun).
    apply bind_Ok in Hrun as (p' & Hp' & Hrun).
    apply append_clauses_Ok in Hrun as ->.
    apply sat_from_new in Hsat; [|done].
    pose proof (y_var_positive _ _ _ _ _ Hpos Hy) as Hypos.
    pose proof (get_q_positive _ _ _ _ _ Hpos Ha) as Hapos.
    pose proof (get_q_positive _ _ _ _ _ Hpos Hp) as Hppos.
    pose proof (get_q_positive _ _ _ _ _ Hpos Hp') as Hppos'.
    destruct (y_var_count t1 v h ord i y) as [_ Hcount]; [lia | done |].
    rewrite Hcount.
    pose proof (Hprev (j - 1) p ltac:(lia) Hp) as Hprev1.
    pose proof (Hprev j p' ltac:(lia) Hp') as Hprev2.
    simpl in Hsat. repeat (apply satisfies_cons in Hsat as [? Hsat]).
    unfold clause_true in *. simpl in *.
    rewrite ?lit_true_neg in * by done. rewrite ?lit_true_pos in * by done.
    exists a. split; [done|].
    destruct (v y), (v a), (v p), (v p'); simpl in *; split; intros; try done; try lia;
      destruct Hprev1 as [Hp1 Hp2], Hprev2 as [Hp3 Hp4];
      try (specialize (Hp1 eq_refl)); try (specialize (Hp3 eq_refl)); try lia;
      try (exfalso; assert (false = true) by (first [apply Hp2 | apply Hp4]; lia); done).
Qed.

(** *** One row of counters *)

Lemma get_q_row_ne (s s' : sat_state) (u i i' j : Z) (row : gmap Z Z)
    (qh : gmap Z (gmap Z Z)) :
  q s' = <[u := <[i := row]> qh]> (q s) → q s !! u = Some qh → i' ≠ i →
  get_q s' u i' j = get_q s u i' j.
Proof.
  intros Hq Hqh Hne. unfold get_q, getitem. rewrite Hq, lookup_insert_eq, Hqh. simpl.
  by rewrite lookup_insert_ne.
Qed.

Lemma get_q_same_q (s s' : sat_state) (u i j : Z) :
  q s' = q s → get_q s' u i j = get_q s u i j.
Proof. intros Hq. apply get_q_ext. by rewrite Hq. Qed.

Lemma positive_set_q (hu i j x : Z) (s s' : sat_state) :
  set_q hu i j x s = Ok s' → 0 < x → positive_tables s → positive_tables s'.
Proof.
  unfold set_q. intros Hs Hx Hpos.
  apply bind_Ok in Hs as (qh & Hqh & Hs). apply bind_Ok in Hs as (qhi & Hqhi & [= <-]).
  apply getitem_Ok in Hqh, Hqhi.
  apply positive_with_q_row; [|done].
  intros i' qhi' j' x' Hi' Hj'.
  destruct Hpos as (_ & _ & Hq & _).
  destruct (decide (i = i')) as [<-|Hne].
  - rewrite lookup_insert_eq in Hi'. injection Hi' as <-.
    destruct (decide (j = j')) as [<-|Hne'].
    + rewrite lookup_insert_eq in Hj'. by injection Hj' as <-.
    + rewrite lookup_insert_ne in Hj' by done. apply (Hq hu i j' x').
      apply get_q_Ok. eauto.
  - rewrite lookup_insert_ne in Hi' by done. apply (Hq hu i' j' x').
    apply get_q_Ok. eauto.
Qed.

Lemma counter_var_row_state (h : Hospital) (i j : Z) (qh : gmap Z (gmap Z Z))
    (s t t' : sat_state) :
  counter_var h i j t = Ok t' → row_state h i qh s t → row_state h i qh s t'.
Proof.
  unfold counter_var, allocate_uid. intros Hrun (Hrm & Hcp & Hcs & Hpos & row & Hq).
  apply bind_Ok in Hrun as (t2 & H2 & [= <-]).
  destruct (positive_bump t Hpos) as [Hb Hx].
  pose proof (positive_set_q _ _ _ _ _ _ H2 Hx Hb) as Hpos2.
  unfold set_q in H2. apply bind_Ok in H2 as (qh' & Hqh' & H2).
  apply bind_Ok in H2 as (qhi & Hqhi & [= <-]).
  apply getitem_Ok in Hqh', Hqhi. simpl in Hqh', Hqhi.
  rewrite Hq, lookup_insert_eq in Hqh'. injection Hqh' as <-.
  rewrite lookup_insert_eq in Hqhi. injection Hqhi as <-.
  split; [done|]. split; [done|]. split; [done|].
  split; [by apply positive_register|].
  exists (<[j := last_uid t + 1]> row). simpl.
  by rewrite Hq, !insert_insert_eq.
Qed.

Lemma counter_step_extends (h : Hospital) (ord : list Z) (i j : Z) (t t' : sat_state) :
  counter_step g h ord i j t = Ok t' → extends t t'.
Proof.
  unfold counter_step. intros Hrun.
  case_bool_decide; [|case_bool_decide].
  - do 3 (apply bind_Ok in Hrun as (? & _ & Hrun)).
    apply append_clauses_Ok in Hrun as ->. apply extends_add.
  - do 3 (apply bind_Ok in Hrun as (? & _ & Hrun)).
    apply append_clauses_Ok in Hrun as ->. apply extends_add.
  - do 4 (apply bind_Ok in Hrun as (? & _ & Hrun)).
    apply append_clauses_Ok in Hrun as ->. apply extends_add.
Qed.

Lemma counter_row_spec (h : Hospital) (ord : list Z) (i : Z) (s s' : sat_state)
    (qh : gmap Z (gmap Z Z)) :
  counter_row g h ord i s = Ok s' → 1 ≤ i → positive_tables s →
  q s !! h_uid h = Some qh →
  res_match s' = res_match s ∧ cpref s' = cpref s ∧ positive_tables s'
  ∧ constraints s `prefix_of` constraints s'
  ∧ (∃ row, q s' = <[h_uid h := <[i := row]> qh]> (q s))
  ∧ ∀ (n : nat) (v : Z → bool),
      (n ≤ length (constraints s))%nat → sat_from n v s' →
      (∀ j' p, 1 < i → 0 ≤ j' ≤ Z.min (i - 1) (h_capacity h + 1) →
               get_q s (h_uid h) (i - 1) j' = Ok p →
               (v p = true
                ↔ count_matched g s v h (take (Z.to_nat (i - 1)) ord) = j')) →
      ∀ j, 0 ≤ j ≤ Z.min i (h_capacity h + 1) →
        ∃ a, get_q s' (h_uid h) i j = Ok a
             ∧ (v a = true ↔ count_matched g s v h (take (Z.to_nat i) ord) = j).
Proof.
  intros Hrun Hi Hpos Hqh. unfold counter_row in Hrun.
  rewrite bool_decide_eq_false_2 in Hrun by lia.
  apply bind_Ok in Hrun as (s0 & H0 & Hrun).
  apply bind_Ok in Hrun as (s1 & H1 & Hrun).
  apply bind_Ok in Hrun as (s2 & H2 & Hrun).
  (* the new row *)
  assert (Hrow0 : row_state h i qh s s0).
  { unfold new_q_row in H0. apply bind_Ok in H0 as (qh' & Hqh' & [= <-]).
    apply getitem_Ok in Hqh'. rewrite Hqh in Hqh'. injection Hqh' as <-.
    split; [done|]. split; [done|]. split; [done|]. split; [|by exists ∅].
    apply positive_with_q_row; [|done].
    intros i' qhi j x Hi' Hx. destruct (decide (i = i')) as [<-|Hne].
    - rewrite lookup_insert_eq in Hi'. injection Hi' as <-. by rewrite lookup_empty in Hx.
    - rewrite lookup_insert_ne in Hi' by done. destruct Hpos as (_ & _ & Hq & _).
      apply (Hq (h_uid h) i' j x). apply get_q_Ok. eauto. }
  (* its variables *)
  assert (Hrow1 : row_state h i qh s s1).
  { apply (for_each_ind (row_state h i qh s) _ _ _ _ H1 Hrow0).
    intros j t1 t2 _ Ht1 Hstep. by apply (counter_var_row_state _ _ _ _ _ _ _ Hstep). }
  destruct Hrow1 as (Hrm1 & Hcp1 & Hcs1 & Hpos1 & row & Hq1).
  (* its clauses *)
  assert (Hext12 : extends s1 s2).
  { destruct (bool_decide (i = 1)).
    - unfold counter_base in H2. do 3 (apply bind_Ok in H2 as (? & _ & H2)).
      apply append_clauses_Ok in H2 as ->. apply extends_add.
    - apply (for_each_elem extends _ _ _ _ H2).
      intros j t1 t2 _. apply counter_step_extends. }
  assert (Hext2 : extends s2 s').
  { destruct (bool_decide (i >= h_capacity h + 1)).
    - apply bind_Ok in Hrun as (a & _ & Hrun).
      apply append_clause_Ok in Hrun as ->. apply extends_add.
    - injection Hrun as <-. reflexivity. }
  assert (Hext : extends s1 s') by (by transitivity s2).
  destruct (extends_tables _ _ Hext) as (Hrm & Hq & Hcp & _).
  split; [congruence|]. split; [congruence|].
  split; [by apply (extends_positive s1)|].
  split; [rewrite <- Hcs1; by apply extends_prefix|].
  split; [exists row; congruence|].
  intros n v Hn Hsat Hprev j Hj.
  assert (Hsat2 : sat_from n v s2) by (by apply (sat_from_extends _ _ _ _ Hext2)).
  assert (Hn1 : (n ≤ length (constraints s1))%nat) by (by rewrite Hcs1).
  rewrite (get_q_same_q s1 s') by done.
  rewrite <- (count_matched_ext s s1) by done.
  destruct (decide (i = 1)) as [Hi1|Hi1].
  - subst i. rewrite bool_decide_eq_true_2 in H2 by done.
    apply (counter_base_sem h ord s1 s2 n v j H2 Hpos1 Hn1 Hsat2). lia.
  - rewrite bool_decide_eq_false_2 in H2 by done.
    destruct (for_each_elem extends _ _ _ _ H2) as [_ Hall].
    { intros j' t1 t2 _. apply counter_step_extends. }
    destruct (Hall j) as (t1 & t2 & He1 & Hstep & He2).
    { apply elem_of_xrange. lia. }
    destruct (extends_tables _ _ He1) as (Hrmt & Hqt & _).
    assert (Hsem : ∃ a, get_q t1 (h_uid h) i j = Ok a
              ∧ (v a = true ↔ count_matched g t1 v h (take (Z.to_nat i) ord) = j)).
    { apply (counter_step_sem h ord i j t1 t2 n v Hstep).
      - by apply (extends_positive s1).
      - pose proof (prefix_length _ _ (extends_prefix _ _ He1)). lia.
      - by apply (sat_from_extends _ _ _ _ He2).
      - lia.
      - done.
      - intros j' p Hj' Hp.
        rewrite (count_matched_ext s1 t1), (count_matched_ext s s1) by done.
        apply Hprev; [lia | done |].
        rewrite (get_q_same_q s1 t1) in Hp by done.
        rewrite (get_q_row_ne s s1 (h_uid h) i (i - 1) j' row qh) in Hp; [done..|lia]. }
    destruct Hsem as (a & Ha & Hiff). exists a.
    rewrite (get_q_same_q s1 t1) in Ha by done.
    by rewrite (count_matched_ext s1 t1) in Hiff.
Qed.

(** *** All the rows of one hospital *)

Lemma counter_hospital_spec (h : Hospital) (s s' : sat_state) :
  counter_hospital g h s = Ok s' → positive_tables s →
  ∃ ord, h_preference h = Some ord
    ∧ res_match s' = res_match s ∧ cpref s' = cpref s ∧ positive_tables s'
    ∧ constraints s `prefix_of` constraints s'
    ∧ (∀ u, u ≠ h_uid h → q s' !! u = q s !! u)
    ∧ ∀ (n : nat) (v : Z → bool),
        (n ≤ length (constraints s))%nat → sat_from n v s' → counter_sem g s' v h ord.
Proof.
  intros Hrun Hpos. unfold counter_hospital in Hrun.
  apply bind_Ok in Hrun as (ord & Hord & Hrun).
  unfold Hosp.get_ordering, with_preference in Hord.
  destruct (h_preference h) as [ord'|] eqn:Hpref; [|done].
  injection Hord as <-. unfold LPF.get_ordering in Hrun.
  exists ord'. split; [done|].
  set (s0 := with_q (<[h_uid h := ∅]> (q s)) s) in *.
  set (P := fun (k : Z) (t : sat_state) =>
    res_match t = res_match s ∧ cpref t = cpref s ∧ positive_tables t
    ∧ constraints s `prefix_of` constraints t
    ∧ (∀ u, u ≠ h_uid h → q t !! u = q s !! u)
    ∧ is_Some (q t !! h_uid h)
    ∧ ∀ (n : nat) (v : Z → bool),
        (n ≤ length (constraints s))%nat → sat_from n v t →
        ∀ i j, 1 ≤ i < k → 0 ≤ j ≤ Z.min i (h_capacity h + 1) →
          ∃ a, get_q t (h_uid h) i j = Ok a
               ∧ (v a = true ↔ count_matched g s v h (take (Z.to_nat i) ord') = j)).
  assert (Hfinal : P (0 + Z.of_nat (S (length ord'))) s').
  { apply (for_each_seqZ_ind P (counter_row g h ord') 0 (S (length ord')) s0 s').
    - unfold xrange, len in Hrun.
      by replace (Z.of_nat (S (length ord'))) with (Z.of_nat (length ord') + 1) by lia.
    - unfold P, s0. simpl. split; [done|]. split; [done|]. split.
      { apply positive_with_q_row; [|done]. intros i qhi j x Hi. by rewrite lookup_empty in Hi. }
      split; [done|]. split; [intros u Hu; by rewrite lookup_insert_ne|].
      split; [rewrite lookup_insert_eq; by eexists|].
      intros n v _ _ i j Hi. lia.
    - intros i t1 t2 Hi (Hrm & Hcp & Hpos1 & Hpre & Hoth & [qh Hqh] & Hsem) Hstep.
      destruct (decide (i = 0)) as [->|Hi0].
      + unfold counter_row in Hstep. rewrite bool_decide_eq_true_2 in Hstep by done.
        injection Hstep as <-.
        split; [done|]. split; [done|]. split; [done|]. split; [done|].
        split; [done|]. split; [by eexists|].
        intros n v _ _ i j Hi'. lia.
      + destruct (counter_row_spec h ord' i t1 t2 qh Hstep ltac:(lia) Hpos1 Hqh)
          as (Hrm2 & Hcp2 & Hpos2 & Hpre2 & [row Hq2] & Hsem2).
        split; [congruence|]. split; [congruence|]. split; [done|].
        split; [by transitivity (constraints t1)|].
        split; [intros u Hu; rewrite Hq2, lookup_insert_ne by done; by apply Hoth|].
        split; [rewrite Hq2, lookup_insert_eq; by eexists|].
        intros n v Hn Hsat i' j Hi' Hj.
        assert (Hsat1 : sat_from n v t1) by (by apply (sat_from_prefix _ _ _ _ Hpre2)).
        destruct (decide (i' = i)) as [->|Hne].
        * rewrite <- (count_matched_ext s t1) by done.
          apply (Hsem2 n v); [| done | | done].
          { pose proof (prefix_length _ _ Hpre). lia. }
          intros j' p Hi1 Hj' Hp.
          rewrite (count_matched_ext s t1) by done.
          destruct (Hsem n v Hn Hsat1 (i - 1) j') as (a & Ha & Hiff); [lia | done |].
          rewrite Hp in Ha. by injection Ha as <-.
        * rewrite (get_q_row_ne t1 t2 (h_uid h) i i' j row qh) by done.
          apply (Hsem n v Hn Hsat1). lia. done. }
  destruct Hfinal as (Hrm & Hcp & Hpos' & Hpre & Hoth & _ & Hsem).
  split; [done|]. split; [done|]. split; [done|]. split; [done|]. split; [done|].
  intros n v Hn Hsat i j Hi Hj.
  rewrite (count_matched_ext s s') by done.
  apply (Hsem n v Hn Hsat). unfold len in Hi. lia. done.
Qed.

(** *** All the hospitals *)

Lemma counter_sem_frame (s s' : sat_state) (v : Z → bool) (h : Hospital) (ord : list Z) :
  res_match s' = res_match s → q s' !! h_uid h = q s !! h_uid h →
  counter_sem g s v h ord → counter_sem g s' v h ord.
Proof.
  intros Hrm Hq Hsem i j Hi Hj. destruct (Hsem i j Hi Hj) as (a & Ha & Hiff).
  exists a. rewrite (get_q_ext s s') by done.
  by rewrite (count_matched_ext s s').
Qed.

Lemma counter_hospitals_spec (hs : list Hospital) (s s' : sat_state) :
  for_each (counter_hospital g) hs s = Ok s' → positive_tables s →
  NoDup (h_uid <$> hs) →
  res_match s' = res_match s ∧ cpref s' = cpref s ∧ positive_tables s'
  ∧ constraints s `prefix_of` constraints s'
  ∧ (∀ u, u ∉ (h_uid <$> hs) → q s' !! u = q s !! u)
  ∧ ∀ (n : nat) (v : Z → bool) (h : Hospital) (ord : list Z),
      (n ≤ length (constraints s))%nat → sat_from n v s' →
      h ∈ hs → h_preference h = Some ord → counter_sem g s' v h ord.
Proof.
  revert s. induction hs as [|h0 hs IH]; intros s Hrun Hpos Hnd; simpl in Hrun.
  - injection Hrun as <-.
    split; [done|]. split; [done|]. split; [done|]. split; [done|]. split; [done|].
    intros n v h ord _ _ Hh. by apply elem_of_nil in Hh.
  - apply bind_Ok in Hrun as (s1 & H1 & Hrun).
    rewrite fmap_cons in Hnd. apply NoDup_cons in Hnd as [Hh0 Hnd].
    destruct (counter_hospital_spec h0 s s1 H1 Hpos)
      as (ord0 & Hord0 & Hrm1 & Hcp1 & Hpos1 & Hpre1 & Hoth1 & Hsem1).
    destruct (IH s1 Hrun Hpos1 Hnd) as (Hrm & Hcp & Hpos' & Hpre & Hoth & Hsem).
    split; [congruence|]. split; [congruence|]. split; [done|].
    split; [by transitivity (constraints s1)|].
    split.
    { intros u Hu. rewrite fmap_cons in Hu. apply not_elem_of_cons in Hu as [Hu1 Hu2].
      rewrite Hoth by done. by apply Hoth1. }
    intros n v h ord Hn Hsat [->|Hh]%elem_of_cons Hord.
    + rewrite Hord0 in Hord. injection Hord as <-.
      apply (counter_sem_frame s1 s'); [done | by apply Hoth |].
      apply (Hsem1 n v Hn). by apply (sat_from_prefix _ _ _ _ Hpre).
    + apply (Hsem n v h ord); [|done..].
      pose proof (prefix_length _ _ Hpre1). lia.
Qed.

End Counters.

(** C2: in every assignment that satisfies the matching clauses and the
    clauses of the counters, for every hospital [h] of the instance, every
    [i] from 1 to the length of its list and every [j] from 0 to
    [min(i, capacity + 1)], the variable [q[h][i][j]] exists and is true
    exactly when [j] of the first [i] residents of the list are matched to
    [h].  The hospitals of the instance have pairwise different uids. *)
Theorem C2_counters_count `{PySet} (g : Globals) (inst : ProblemInstance)
    (s : sat_state) (v : Z → bool) (h : Hospital) (ord : list Z) (i j : Z) :
  matching_and_counters g inst = Ok s →
  NoDup (h_uid <$> hospitals inst) →
  satisfies v (constraints s) →
  h ∈ hospitals inst → h_preference h = Some ord →
  1 ≤ i ≤ len ord → 0 ≤ j ≤ Z.min i (h_capacity h + 1) →
  ∃ a, get_q s (h_uid h) i j = Ok a
       ∧ (v a = true ↔ count_matched g s v h (take (Z.to_nat i) ord) = j).
Proof.
  intros Hrun Hnd Hsat Hh Hord Hi Hj. unfold matching_and_counters in Hrun.
  apply bind_Ok in Hrun as (s1 & H1 & Hrun).
  pose proof (positive_matching_clauses g inst _ _ H1 positive_init) as Hpos1.
  destruct (counter_hospitals_spec g (hospitals inst) s1 s Hrun Hpos1 Hnd)
    as (_ & _ & _ & _ & _ & Hsem).
  apply (Hsem 0%nat v h ord); [lia | done | done | done | done | done].
Qed.

(** ** The threshold variables *)

Section Thresholds.
Context `{PySet}.
Variable g : Globals.

Lemma positive_counter_clauses (inst : ProblemInstance) (s s' : sat_state) :
  counter_clauses g inst s = Ok s' → positive_tables s → positive_tables s'.
Proof.
  unfold counter_clauses. intros Hrun Hpos.
  apply (for_each_ind positive_tables _ _ _ _ Hrun Hpos).
  intros h t1 t2 _ Ht1 Hstep.
  by destruct (counter_hospital_spec g h t1 t2 Hstep Ht1) as (_ & _ & _ & _ & Hp & _).
Qed.

Lemma get_cpref_positive (s : sat_state) (c k x : Z) :
  positive_tables s → get_cpref s c k = Ok x → 0 < x.
Proof. intros (_ & _ & _ & Hc). apply Hc. Qed.

Lemma get_res_match_positive (s : sat_state) (r h x : Z) :
  positive_tables s → get_res_match s r h = Ok x → 0 < x.
Proof. intros (_ & Hr & _). apply Hr. Qed.

Lemma member_matched_ext (s s' : sat_state) (v : Z → bool) (r : Resident) (hu : Z) :
  res_match s' = res_match s → member_matched g s' v r hu = member_matched g s v r hu.
Proof.
  intros Hrm. unfold member_matched, match_var.
  destruct (getitem (hospital_dict g) hu); simpl; [|done].
  by rewrite (get_res_match_ext s s').
Qed.

Lemma pairs_matched_up_to_ext (s s' : sat_state) (v : Z → bool) (c : Couple) (k : Z) :
  res_match s' = res_match s →
  pairs_matched_up_to g s' v c k ↔ pairs_matched_up_to g s v c k.
Proof.
  intros Hrm. unfold pairs_matched_up_to, pair_matched.
  by setoid_rewrite (member_matched_ext s s' v _ _ Hrm).
Qed.

Lemma matched_up_to_ext (s s' : sat_state) (v : Z → bool) (c : Couple) (k : Z) :
  res_match s' = res_match s → matched_up_to g s' v c k ↔ matched_up_to g s v c k.
Proof.
  intros Hrm. unfold matched_up_to, nil_matched.
  rewrite (pairs_matched_up_to_ext s s') by done.
  by rewrite !(get_res_match_ext s s') by done.
Qed.

(** One more pair: matched up to [k] is matched up to [k - 1] or to the
    pair of rank [k]. *)
Lemma pairs_matched_up_to_step (s : sat_state) (v : Z → bool) (c : Couple) (k : Z)
    (hh : Z * Z) :
  0 ≤ k → c_preference c !! Z.to_nat k = Some hh →
  pairs_matched_up_to g s v c k
  ↔ pairs_matched_up_to g s v c (k - 1) ∨ pair_matched g s v c hh = true.
Proof.
  intros Hk Hhh. unfold pairs_matched_up_to. split.
  - intros (k' & hh' & Hk' & Hl & Hm).
    destruct (decide (k' = k)) as [->|Hne].
    + right. rewrite Hhh in Hl. by injection Hl as <-.
    + left. exists k', hh'. split; [lia | done].
  - intros [(k' & hh' & Hk' & Hl & Hm) | Hm].
    + exists k', hh'. split; [lia | done].
    + exists k, hh. split; [lia | done].
Qed.

Lemma pairs_matched_up_to_neg (s : sat_state) (v : Z → bool) (c : Couple) (k : Z) :
  k < 0 → ¬ pairs_matched_up_to g s v c k.
Proof. intros Hk (k' & hh & Hk' & _). lia. Qed.

Lemma positive_set_cpref (cu k x : Z) (s s' : sat_state) :
  set_cpref cu k x s = Ok s' → 0 < x → positive_tables s → positive_tables s'.
Proof.
  unfold set_cpref. intros Hs Hx Hpos.
  apply bind_Ok in Hs as (d & Hd & [= <-]). apply getitem_Ok in Hd.
  apply positive_with_cpref_row; [|done].
  intros k' x' Hk'. destruct Hpos as (_ & _ & _ & Hc).
  destruct (decide (k = k')) as [<-|Hne].
  - rewrite lookup_insert_eq in Hk'. by injection Hk' as <-.
  - rewrite lookup_insert_ne in Hk' by done. apply (Hc cu k' x').
    apply get_cpref_Ok. eauto.
Qed.

Lemma cpref_var_spec (c : Couple) (k : Z) (t t' : sat_state) (d : gmap Z Z) :
  cpref_var c k t = Ok t' → positive_tables t → cpref t !! c_uid c = Some d →
  res_match t' = res_match t ∧ q t' = q t ∧ constraints t' = constraints t
  ∧ positive_tables t'
  ∧ ∃ x, 0 < x ∧ cpref t' = <[c_uid c := <[k := x]> d]> (cpref t).
Proof.
  unfold cpref_var, allocate_uid. intros Hrun Hpos Hd.
  apply bind_Ok in Hrun as (t2 & H2 & [= <-]).
  destruct (positive_bump t Hpos) as [Hb Hx].
  pose proof (positive_set_cpref _ _ _ _ _ H2 Hx Hb) as Hpos2.
  unfold set_cpref in H2. apply bind_Ok in H2 as (d' & Hd' & [= <-]).
  apply getitem_Ok in Hd'. simpl in Hd'. rewrite Hd in Hd'. injection Hd' as <-.
  split; [done|]. split; [done|]. split; [done|].
  split; [by apply positive_register|].
  exists (last_uid t + 1). done.
Qed.

(** The four clauses of a threshold after the first. *)
Lemma cpref_step_sem (c : Couple) (k x0 x1 : Z) (t t' : sat_state)
    (n : nat) (v : Z → bool) :
  cpref_step c k x0 x1 t = Ok t' → positive_tables t → 0 < x0 → 0 < x1 →
  extends t t'
  ∧ ∃ a p, get_cpref t (c_uid c) k = Ok a ∧ get_cpref t (c_uid c) (k - 1) = Ok p
      ∧ ((n ≤ length (constraints t))%nat → sat_from n v t' →
         (v a = true ↔ v p = true ∨ (v x0 = true ∧ v x1 = true))).
Proof.
  unfold cpref_step. intros Hrun Hpos Hx0 Hx1.
  apply bind_Ok in Hrun as (a & Ha & Hrun).
  apply bind_Ok in Hrun as (p & Hp & Hrun).
  apply append_clauses_Ok in Hrun as ->.
  split; [apply extends_add|]. exists a, p. split; [done|]. split; [done|].
  intros Hn Hsat. apply sat_from_new in Hsat; [|done].
  pose proof (get_cpref_positive _ _ _ _ Hpos Ha) as Hapos.
  pose proof (get_cpref_positive _ _ _ _ Hpos Hp) as Hppos.
  simpl in Hsat. repeat (apply satisfies_cons in Hsat as [? Hsat]).
  unfold clause_true in *. simpl in *.
  rewrite ?lit_true_neg in * by done. rewrite ?lit_true_pos in * by done.
  destruct (v a), (v p), (v x0), (v x1); simpl in *; split; intros; try done;
    try (by left); try (by right); try naive_solver.
Qed.

Lemma pair_matched_vars (s : sat_state) (v : Z → bool) (c : Couple) (hh : Z * Z)
    (h0 h1 : Hospital) (x0 x1 : Z) :
  getitem (hospital_dict g) hh.1 = Ok h0 → getitem (hospital_dict g) hh.2 = Ok h1 →
  get_res_match s (r_uid (c_residents c).1) (h_uid h0) = Ok x0 →
  get_res_match s (r_uid (c_residents c).2) (h_uid h1) = Ok x1 →
  pair_matched g s v c hh = v x0 && v x1.
Proof.
  intros Hh0 Hh1 Hx0 Hx1. unfold pair_matched, member_matched, match_var.
  rewrite Hh0, Hh1. simpl. by rewrite Hx0, Hx1.
Qed.

(** *** One rank of one couple *)

Lemma cpref_rank_spec (c : Couple) (k : Z) (t1 t2 : sat_state) (d : gmap Z Z) :
  cpref_rank g c (c_preference c) k t1 = Ok t2 → 0 ≤ k → positive_tables t1 →
  cpref t1 !! c_uid c = Some d →
  res_match t2 = res_match t1 ∧ q t2 = q t1 ∧ positive_tables t2
  ∧ constraints t1 `prefix_of` constraints t2
  ∧ (∃ x, cpref t2 = <[c_uid c := <[k := x]> d]> (cpref t1))
  ∧ ∀ (n : nat) (v : Z → bool),
      (n ≤ length (constraints t1))%nat → sat_from n v t2 →
      (∀ p, 0 < k → d !! (k - 1) = Some p →
            (v p = true ↔ pairs_matched_up_to g t1 v c (k - 1))) →
      ∃ a, get_cpref t2 (c_uid c) k = Ok a
           ∧ (v a = true ↔ pairs_matched_up_to g t1 v c k).
Proof.
  intros Hrun Hk Hpos Hd. unfold cpref_rank in Hrun.
  apply bind_Ok in Hrun as (hh & Hhh & Hrun). apply list_getitem_Ok in Hhh.
  apply bind_Ok in Hrun as (h0 & Hh0 & Hrun).
  apply bind_Ok in Hrun as (h1 & Hh1 & Hrun).
  apply bind_Ok in Hrun as (s0 & H0 & Hrun).
  destruct (cpref_var_spec c k t1 s0 d H0 Hpos Hd)
    as (Hrm0 & Hq0 & Hcs0 & Hpos0 & x & Hx & Hcp0).
  assert (Hgetk : get_cpref s0 (c_uid c) k = Ok x).
  { apply get_cpref_Ok. exists (<[k := x]> d).
    by rewrite Hcp0, !lookup_insert_eq. }
  assert (Hgetp : ∀ p, get_cpref s0 (c_uid c) (k - 1) = Ok p → d !! (k - 1) = Some p).
  { intros p (d' & Hd' & Hp)%get_cpref_Ok.
    rewrite Hcp0, lookup_insert_eq in Hd'. injection Hd' as <-.
    rewrite lookup_insert_ne in Hp by lia. done. }
  assert (Hsame : ∀ t, extends s0 t →
            res_match t = res_match t1 ∧ q t = q t1 ∧ positive_tables t
            ∧ constraints t1 `prefix_of` constraints t
            ∧ (∃ x, cpref t = <[c_uid c := <[k := x]> d]> (cpref t1))
            ∧ get_cpref t (c_uid c) k = Ok x).
  { intros t Ht. destruct (extends_tables _ _ Ht) as (Hrm & Hq & Hcp & _).
    split; [congruence|]. split; [congruence|].
    split; [by apply (extends_positive s0)|].
    split; [rewrite <- Hcs0; by apply extends_prefix|].
    split; [exists x; congruence|].
    rewrite (get_cpref_ext s0 t); [done | by rewrite Hcp]. }
  case_bool_decide as Hk0.
  - subst k.
    apply bind_Ok in Hrun as (a & Ha & Hrun).
    apply bind_Ok in Hrun as (x0 & Hx0 & Hrun).
    apply bind_Ok in Hrun as (x1 & Hx1 & Hrun).
    apply append_clauses_Ok in Hrun.
    rewrite Hgetk in Ha. injection Ha as <-.
    assert (Hext : extends s0 t2) by (rewrite Hrun; apply extends_add).
    destruct (Hsame _ Hext) as (? & ? & ? & ? & ? & Hget).
    do 5 (split; [done|]).
    intros n v Hn Hsat _. exists x. split; [done|]. subst t2.
    apply sat_from_new in Hsat; [|by rewrite Hcs0].
    pose proof (get_res_match_positive _ _ _ _ Hpos0 Hx0) as Hx0pos.
    pose proof (get_res_match_positive _ _ _ _ Hpos0 Hx1) as Hx1pos.
    rewrite (pairs_matched_up_to_step t1 v c 0 hh) by done.
    rewrite (get_res_match_ext t1 s0) in Hx0, Hx1 by done.
    rewrite (pair_matched_vars t1 v c hh h0 h1 x0 x1) by done.
    pose proof (pairs_matched_up_to_neg t1 v c (0 - 1) ltac:(lia)) as Hneg.
    simpl in Hsat. repeat (apply satisfies_cons in Hsat as [? Hsat]).
    unfold clause_true in *. simpl in *.
    rewrite ?lit_true_neg in * by done. rewrite ?lit_true_pos in * by done.
    destruct (v x), (v x0), (v x1); simpl in *; split; intros; try done;
      try (by right); naive_solver.
  - apply bind_Ok in Hrun as (x0 & Hx0 & Hrun).
    apply bind_Ok in Hrun as (x1 & Hx1 & Hrun).
    pose proof (get_res_match_positive _ _ _ _ Hpos0 Hx0) as Hx0pos.
    pose proof (get_res_match_positive _ _ _ _ Hpos0 Hx1) as Hx1pos.
    assert (Hstep := cpref_step_sem c k x0 x1 s0 t2).
    pose proof (fun n v => cpref_step_sem c k x0 x1 s0 t2 n v Hrun Hpos0 Hx0pos Hx1pos)
      as Hsem.
    destruct (Hsem 0%nat (fun _ => true)) as (Hext & _).
    destruct (Hsame _ Hext) as (? & ? & ? & ? & ? & Hget).
    do 5 (split; [done|]).
    intros n v Hn Hsat Hprev. exists x. split; [done|].
    destruct (Hsem n v) as (_ & a & p & Ha & Hp & Hiff).
    rewrite Hgetk in Ha. injection Ha as <-.
    rewrite (pairs_matched_up_to_step t1 v c k hh) by done.
    rewrite (get_res_match_ext t1 s0) in Hx0, Hx1 by done.
    rewrite (pair_matched_vars t1 v c hh h0 h1 x0 x1) by done.
    rewrite Hiff; [| by rewrite Hcs0 | done].
    rewrite (Hprev p ltac:(lia) (Hgetp p Hp)).
    rewrite andb_true_iff. done.
Qed.

(** *** All the ranks of one couple *)

Lemma cpref_couple_spec (c : Couple) (s s' : sat_state) :
  cpref_couple g c s = Ok s' → positive_tables s →
  res_match s' = res_match s ∧ q s' = q s ∧ positive_tables s'
  ∧ constraints s `prefix_of` constraints s'
  ∧ (∀ u, u ≠ c_uid c → cpref s' !! u = cpref s !! u)
  ∧ ∀ (n : nat) (v : Z → bool),
      (n ≤ length (constraints s))%nat → sat_from n v s' → cpref_sem g s' v c.
Proof.
  intros Hrun Hpos. unfold cpref_couple, Coup.get_ordering in Hrun.
  apply bind_Ok in Hrun as (s1 & H1 & Hrun).
  apply bind_Ok in Hrun as (s2 & H2 & Hrun).
  apply bind_Ok in Hrun as (x0 & Hx0 & Hrun).
  apply bind_Ok in Hrun as (x1 & Hx1 & Hrun).
  set (s0 := with_cpref (<[c_uid c := ∅]> (cpref s)) s) in *.
  set (P := fun (k : Z) (t : sat_state) =>
    res_match t = res_match s ∧ q t = q s ∧ positive_tables t
    ∧ constraints s `prefix_of` constraints t
    ∧ (∀ u, u ≠ c_uid c → cpref t !! u = cpref s !! u)
    ∧ (∃ d, cpref t !! c_uid c = Some d ∧ ∀ k' x, d !! k' = Some x → 0 ≤ k' < k)
    ∧ ∀ (n : nat) (v : Z → bool),
        (n ≤ length (constraints s))%nat → sat_from n v t →
        ∀ k', 0 ≤ k' < k →
          ∃ a, get_cpref t (c_uid c) k' = Ok a
               ∧ (v a = true ↔ pairs_matched_up_to g s v c k')).
  assert (Hloop : P (0 + Z.of_nat (length (c_preference c))) s1).
  { apply (for_each_seqZ_ind P (cpref_rank g c (c_preference c)) 0
             (length (c_preference c)) s0 s1); [exact H1 | |].
    - unfold P, s0. simpl. split; [done|]. split; [done|].
      split. { apply positive_with_cpref_row; [|done]. intros k x Hk.
               by rewrite lookup_empty in Hk. }
      split; [done|]. split; [intros u Hu; by rewrite lookup_insert_ne|].
      split. { exists ∅. rewrite lookup_insert_eq. split; [done|].
               intros k x Hk. by rewrite lookup_empty in Hk. }
      intros n v _ _ k Hk. lia.
    - intros k t1 t2 Hk (Hrm & Hq & Hpos1 & Hpre & Hoth & (d & Hd & Hdom) & Hsem) Hstep.
      destruct (cpref_rank_spec c k t1 t2 d Hstep ltac:(lia) Hpos1 Hd)
        as (Hrm2 & Hq2 & Hpos2 & Hpre2 & [x Hcp2] & Hsem2).
      split; [congruence|]. split; [congruence|]. split; [done|].
      split; [by transitivity (constraints t1)|].
      split; [intros u Hu; rewrite Hcp2, lookup_insert_ne by done; by apply Hoth|].
      split.
      { exists (<[k := x]> d). rewrite Hcp2, lookup_insert_eq. split; [done|].
        intros k' x' Hk'. destruct (decide (k = k')) as [<-|Hne]; [lia|].
        rewrite lookup_insert_ne in Hk' by done. specialize (Hdom _ _ Hk'). lia. }
      intros n v Hn Hsat k' Hk'.
      assert (Hsat1 : sat_from n v t1) by (by apply (sat_from_prefix _ _ _ _ Hpre2)).
      destruct (decide (k' = k)) as [->|Hne].
      + setoid_rewrite <- (pairs_matched_up_to_ext s t1 v c k Hrm).
        apply (Hsem2 n v); [| done |].
        { pose proof (prefix_length _ _ Hpre). lia. }
        intros p Hk0 Hp.
        rewrite (pairs_matched_up_to_ext s t1) by done.
        destruct (Hsem n v Hn Hsat1 (k - 1)) as (a & Ha & Hiff); [lia|].
        apply get_cpref_Ok in Ha as (d' & Hd' & Ha).
        rewrite Hd in Hd'. injection Hd' as <-. rewrite Hp in Ha. by injection Ha as <-.
      + destruct (Hsem n v Hn Hsat1 k') as (a & Ha & Hiff); [lia|].
        exists a. split; [|done].
        apply get_cpref_Ok in Ha as (d' & Hd' & Ha).
        rewrite Hd in Hd'. injection Hd' as <-.
        apply get_cpref_Ok. exists (<[k := x]> d).
        rewrite Hcp2, lookup_insert_eq. split; [done|]. by rewrite lookup_insert_ne. }
  simpl in Hloop. fold (len (c_preference c)) in Hloop.
  destruct Hloop as (Hrm1 & Hq1 & Hpos1 & Hpre1 & Hoth1 & (d & Hd & Hdom) & Hsem1).
  destruct (cpref_var_spec c (len (c_preference c)) s1 s2 d H2 Hpos1 Hd)
    as (Hrm2 & Hq2 & Hcs2 & Hpos2 & x & Hx & Hcp2).
  pose proof (get_res_match_positive _ _ _ _ Hpos2 Hx0) as Hx0pos.
  pose proof (get_res_match_positive _ _ _ _ Hpos2 Hx1) as Hx1pos.
  pose proof (fun n v => cpref_step_sem c (len (c_preference c)) x0 x1 s2 s' n v
                           Hrun Hpos2 Hx0pos Hx1pos) as Hstep.
  destruct (Hstep 0%nat (fun _ => true)) as (Hext & a & p & Ha & Hp & _).
  destruct (extends_tables _ _ Hext) as (Hrm' & Hq' & Hcp' & _).
  assert (Hax : a = x).
  { apply get_cpref_Ok in Ha as (d' & Hd' & Ha).
    rewrite Hcp2, lookup_insert_eq in Hd'. injection Hd' as <-.
    rewrite lookup_insert_eq in Ha. by injection Ha. }
  subst a.
  assert (Hpd : d !! (len (c_preference c) - 1) = Some p).
  { apply get_cpref_Ok in Hp as (d' & Hd' & Hp).
    rewrite Hcp2, lookup_insert_eq in Hd'. injection Hd' as <-.
    rewrite lookup_insert_ne in Hp by lia. done. }
  pose proof (Hdom _ _ Hpd) as Hlen.
  split; [congruence|]. split; [congruence|].
  split; [by apply (extends_positive s2)|].
  split. { transitivity (constraints s1); [done|]. rewrite <- Hcs2.
           by apply extends_prefix. }
  split. { intros u Hu. rewrite Hcp', Hcp2, lookup_insert_ne by done. by apply Hoth1. }
  intros n v Hn Hsat k Hk.
  assert (Hrm : res_match s' = res_match s) by congruence.
  assert (Hsat1 : sat_from n v s1).
  { apply (sat_from_prefix n v s1 s'); [|done]. rewrite <- Hcs2. by apply extends_prefix. }
  setoid_rewrite (matched_up_to_ext s s' v c k Hrm).
  destruct (decide (k = len (c_preference c))) as [->|Hne].
  - exists x. split; [rewrite (get_cpref_ext s2 s'); [done | by rewrite Hcp']|].
    destruct (Hstep n v) as (_ & a' & p' & Ha' & Hp' & Hiff).
    rewrite Ha in Ha'. injection Ha' as <-. rewrite Hp in Hp'. injection Hp' as <-.
    rewrite Hiff; [| rewrite Hcs2; pose proof (prefix_length _ _ Hpre1); lia | done].
    destruct (Hsem1 n v Hn Hsat1 (len (c_preference c) - 1)) as (a' & Ha' & Hiff'); [lia|].
    apply get_cpref_Ok in Ha' as (d' & Hd' & Ha').
    rewrite Hd in Hd'. injection Hd' as <-. rewrite Hpd in Ha'. injection Ha' as <-.
    rewrite Hiff'. unfold matched_up_to, nil_matched.
    rewrite <- !(get_res_match_ext s s2) by congruence.
    rewrite Hx0, Hx1, andb_true_iff.
    split.
    + intros [(k' & hh & Hk' & Hl & Hm) | Hnil].
      * left. exists k', hh. split; [lia | done].
      * right. done.
    + intros [(k' & hh & Hk' & Hl & Hm) | [_ Hnil]].
      * left. exists k', hh. split; [|done].
        pose proof (lookup_lt_Some _ _ _ Hl). unfold len. lia.
      * right. done.
  - destruct (Hsem1 n v Hn Hsat1 k) as (a & Ha' & Hiff); [lia|].
    exists a. split.
    + rewrite (get_cpref_ext s2 s') by (by rewrite Hcp').
      apply get_cpref_Ok in Ha' as (d' & Hd' & Ha').
      rewrite Hd in Hd'. injection Hd' as <-.
      apply get_cpref_Ok. exists (<[len (c_preference c) := x]> d).
      rewrite Hcp2, lookup_insert_eq. split; [done|]. by rewrite lookup_insert_ne.
    + rewrite Hiff. unfold matched_up_to. naive_solver.
Qed.

(** *** All the couples *)

Lemma cpref_sem_frame (s s' : sat_state) (v : Z → bool) (c : Couple) :
  res_match s' = res_match s → cpref s' !! c_uid c = cpref s !! c_uid c →
  cpref_sem g s v c → cpref_sem g s' v c.
Proof.
  intros Hrm Hcp Hsem k Hk. destruct (Hsem k Hk) as (a & Ha & Hiff).
  exists a. rewrite (get_cpref_ext s s') by done.
  by rewrite (matched_up_to_ext s s').
Qed.

Lemma cpref_couples_spec (cs : list Couple) (s s' : sat_state) :
  for_each (cpref_couple g) cs s = Ok s' → positive_tables s →
  NoDup (c_uid <$> cs) →
  res_match s' = res_match s ∧ q s' = q s ∧ positive_tables s'
  ∧ constraints s `prefix_of` constraints s'
  ∧ (∀ u, u ∉ (c_uid <$> cs) → cpref s' !! u = cpref s !! u)
  ∧ ∀ (n : nat) (v : Z → bool) (c : Couple),
      (n ≤ length (constraints s))%nat → sat_from n v s' →
      c ∈ cs → cpref_sem g s' v c.
Proof.
  revert s. induction cs as [|c0 cs IH]; intros s Hrun Hpos Hnd; simpl in Hrun.
  - injection Hrun as <-.
    split; [done|]. split; [done|]. split; [done|]. split; [done|]. split; [done|].
    intros n v c _ _ Hc. by apply elem_of_nil in Hc.
  - apply bind_Ok in Hrun as (s1 & H1 & Hrun).
    rewrite fmap_cons in Hnd. apply NoDup_cons in Hnd as [Hc0 Hnd].
    destruct (cpref_couple_spec c0 s s1 H1 Hpos)
      as (Hrm1 & Hq1 & Hpos1 & Hpre1 & Hoth1 & Hsem1).
    destruct (IH s1 Hrun Hpos1 Hnd) as (Hrm & Hq & Hpos' & Hpre & Hoth & Hsem).
    split; [congruence|]. split; [congruence|]. split; [done|].
    split; [by transitivity (constraints s1)|].
    split.
    { intros u Hu. rewrite fmap_cons in Hu. apply not_elem_of_cons in Hu as [Hu1 Hu2].
      rewrite Hoth by done. by apply Hoth1. }
    intros n v c Hn Hsat [->|Hc]%elem_of_cons.
    + apply (cpref_sem_frame s1 s'); [done | by apply Hoth |].
      apply (Hsem1 n v Hn). by apply (sat_from_prefix _ _ _ _ Hpre).
    + apply (Hsem n v c); [|done..].
      pose proof (prefix_length _ _ Hpre1). lia.
Qed.

Lemma couple_matched_extends (c : Couple) (s s' : sat_state) :
  couple_matched c s = Ok s' → extends s s'.
Proof.
  unfold couple_matched. intros Hrun.
  apply bind_Ok in Hrun as (lits & _ & Hrun).
  apply append_clause_Ok in Hrun as ->. apply extends_add.
Qed.

Lemma cpref_clauses_spec (inst : ProblemInstance) (s s' : sat_state) :
  cpref_clauses g inst s = Ok s' → positive_tables s →
  NoDup (c_uid <$> couples inst) →
  res_match s' = res_match s ∧ q s' = q s ∧ positive_tables s'
  ∧ constraints s `prefix_of` constraints s'
  ∧ ∀ (n : nat) (v : Z → bool) (c : Couple),
      (n ≤ length (constraints s))%nat → sat_from n v s' →
      c ∈ couples inst → cpref_sem g s' v c.
Proof.
  unfold cpref_clauses. intros Hrun Hpos Hnd.
  apply bind_Ok in Hrun as (s1 & H1 & Hrun).
  destruct (cpref_couples_spec _ _ _ H1 Hpos Hnd)
    as (Hrm1 & Hq1 & Hpos1 & Hpre1 & _ & Hsem1).
  destruct (for_each_elem extends _ _ _ _ Hrun) as [Hext _].
  { intros c t1 t2 _. apply couple_matched_extends. }
  destruct (extends_tables _ _ Hext) as (Hrm & Hq & Hcp & _).
  split; [congruence|]. split; [congruence|].
  split; [by apply (extends_positive s1)|].
  split; [transitivity (constraints s1); [done | by apply extends_prefix]|].
  intros n v c Hn Hsat Hc.
  apply (cpref_sem_frame s1 s'); [done | by rewrite Hcp |].
  apply (Hsem1 n v c Hn); [|done]. by apply (sat_from_extends _ _ _ _ Hext).
Qed.

End Thresholds.

(** C3: in every assignment that satisfies the matching clauses and the
    clauses of the thresholds, for every couple [c] of the instance and
    every [k] from 0 to the length of its joint list, the variable
    [cpref[c][k]] exists and is true exactly when the two members are
    matched to a pair of rank at most [k] of the list or, for [k] the length
    of the list, to such a pair or both to the nil hospital.  The couples of
    the instance have pairwise different uids. *)
Theorem C3_thresholds_rank `{PySet} (g : Globals) (inst : ProblemInstance)
    (s1 s2 s3 : sat_state) (v : Z → bool) (c : Couple) (k : Z) :
  matching_clauses g inst sat_init = Ok s1 →
  counter_clauses g inst s1 = Ok s2 →
  cpref_clauses g inst s2 = Ok s3 →
  NoDup (c_uid <$> couples inst) →
  satisfies v (constraints s1) →
  sat_from (length (constraints s2)) v s3 →
  c ∈ couples inst → 0 ≤ k ≤ len (c_preference c) →
  ∃ a, get_cpref s3 (c_uid c) k = Ok a ∧ (v a = true ↔ matched_up_to g s3 v c k).
Proof.
  intros H1 H2 H3 Hnd _ Hsat Hc Hk.
  pose proof (positive_matching_clauses g inst _ _ H1 positive_init) as Hpos1.
  pose proof (positive_counter_clauses g inst _ _ H2 Hpos1) as Hpos2.
  destruct (cpref_clauses_spec g inst s2 s3 H3 Hpos2 Hnd) as (_ & _ & _ & _ & Hsem).
  by apply (Hsem (length (constraints s2)) v c).
Qed.

(** ** The decoded matching *)

(** C1, on one instance and one model.  The instance has the hospitals 1
    and 2 of capacity 1 and a couple that ranks (1, 2) before (1, nil).  The
    model satisfies every clause that [solve_sat] emits and gives every
    variable a value; it puts the couple in (1, 2).  The decoder returns the
    matching that leaves the second member unmatched, because it also reads
    variable 4, which the encoder registers for "resident 12 is unmatched"
    and then replaces by variable 5 in the table: no clause mentions
    variable 4.  In the decoded matching the couple strictly prefers
    (1, 2), hospital 2 is empty, and neither hospital refuses its member:
    the decoded matching has a blocking pair. *)
Theorem C1_decoded_matching_has_blocking_pair :
  ∃ (inst : ProblemInstance) (g : Globals) (st : sat_state) (m : gmap Z Z) (c : Couple),
    @from_file cpython_small orphan_file false module_globals = Ok (inst, g)
    ∧ @solve_sat_encode cpython_small g inst = Ok st
    ∧ total_model (last_uid st) orphan_model
    ∧ satisfies (assignment_of orphan_model) (constraints st)
    ∧ variable_registry st !! 4 = Some (xc_name 100 12 NIL_HOSPITAL_UID)
    ∧ forallb (fun cl => bool_decide (4 ∉ var_list cl ∧ -4 ∉ var_list cl)) (constraints st)
      = true
    ∧ decode inst st orphan_model = Ok m
    ∧ m = {[11 := 1; 12 := NIL_HOSPITAL_UID]}
    ∧ c ∈ couples inst
    ∧ c_preference c !! 0%nat = Some (1, 2)
    ∧ couple_prefers m c 0 = true
    ∧ switch_blocked g m c (1, 2) = false
    ∧ ¬ no_blocking_pair g inst m.
Proof.
  eexists _, _, _, _, _.
  split; [vm_compute; reflexivity|].
  split; [vm_compute; reflexivity|].
  split; [vm_compute; reflexivity|].
  split; [apply satisfies_forallb; vm_compute; reflexivity|].
  split; [vm_compute; reflexivity|].
  split; [vm_compute; reflexivity|].
  split; [vm_compute; reflexivity|].
  split; [vm_compute; reflexivity|].
  split; [left|].
  split; [reflexivity|].
  split; [vm_compute; reflexivity|].
  split; [vm_compute; reflexivity|].
  intros [_ Hcouples].
  match goal with
  | Hc : ∀ c k, c ∈ ?l → _ |- _ =>
      pose proof (Hc _ 0%nat (list_elem_of_here _ _) (1, 2) eq_refl) as Hb
  end.
  assert (Hf : true = false); [|discriminate Hf].
  rewrite <- Hb; vm_compute; reflexivity.
Qed.

(** ** The theorems about the encoder on concrete instances *)

Lemma C2_counters_count_witness :
  ∃ a, get_q one_place_counters 1 2 1 = Ok a
       ∧ (assignment_of one_place_model a = true
          ↔ count_matched (loaded one_place_file).2 one_place_counters
              (assignment_of one_place_model) (mkHospital 1 1 (Some [11; 12]))
              (take (Z.to_nat 2) [11; 12]) = 1).
Proof.
  apply (@C2_counters_count cpython_small (loaded one_place_file).2
           (loaded one_place_file).1 one_place_counters
           (assignment_of one_place_model)
           (mkHospital 1 1 (Some [11; 12])) [11; 12] 2 1).
  - vm_compute; reflexivity.
  - apply (bool_decide_unpack _); vm_compute; exact I.
  - apply satisfies_forallb; vm_compute; reflexivity.
  - apply (bool_decide_unpack _); vm_compute; exact I.
  - reflexivity.
  - unfold len; simpl; lia.
  - simpl; lia.
Defined.

Lemma C3_thresholds_rank_witness :
  from_option
    (fun c => ∃ a, get_cpref orphan_thresholds (c_uid c) 1 = Ok a
                   ∧ (assignment_of orphan_model a = true
                      ↔ matched_up_to (loaded orphan_file).2 orphan_thresholds
                          (assignment_of orphan_model) c 1))
    True (head (couples (loaded orphan_file).1)).
Proof.
  destruct (head (couples (loaded orphan_file).1)) as [c|] eqn:Hc; [|exact I].
  simpl.
  apply (@C3_thresholds_rank cpython_small (loaded orphan_file).2
           (loaded orphan_file).1 orphan_matching orphan_counters
           orphan_thresholds (assignment_of orphan_model) c 1).
  - vm_compute; reflexivity.
  - vm_compute; reflexivity.
  - vm_compute; reflexivity.
  - apply (bool_decide_unpack _); vm_compute; exact I.
  - apply satisfies_forallb; vm_compute; reflexivity.
  - apply satisfies_forallb; vm_compute; reflexivity.
  - apply head_Some_elem_of in Hc. exact Hc.
  - vm_compute in Hc. injection Hc as <-. vm_compute. split; discriminate.
Defined.

(** ** The verify modes *)

(** *** The lines of the matching file *)

Lemma read_lines_entries {St} (f : string → St → result St) (e : Z * Z → St → result St)
    (lines : list string) (ents : list (Z * Z)) (st : St) :
  (∀ line st, startswith line "r " = false → f line st = Ok st) →
  (∀ line st n, startswith line "r " = true → matching_entry line = Ok n →
                f line st = e n st) →
  comprehension matching_entry
    (filter (fun line => startswith line "r " = true) lines) = Ok ents →
  for_each f lines st = for_each e ents st.
Proof.
  intros Hskip Hread. revert ents st.
  induction lines as [|line lines IH]; intros ents st Hents.
  - simpl in Hents. by injection Hents as <-.
  - rewrite filter_cons in Hents. simpl.
    destruct (decide (startswith line "r " = true)) as [Hr|Hr].
    + simpl in Hents.
      destruct (matching_entry line) as [n|] eqn:Hn; [|discriminate].
      simpl in Hents.
      destruct (comprehension matching_entry _) as [ents'|] eqn:Hrest; [|discriminate].
      injection Hents as <-. simpl.
      rewrite (Hread _ _ _ Hr Hn).
      destruct (e n st) as [st'|]; simpl; [|done]. by apply IH.
    + rewrite Hskip; [|by destruct (startswith line "r ")]. simpl. by apply IH.
Qed.


Lemma read_match_sat_entry (g : Globals) (s : sat_state) (line : string)
    (n : Z * Z) (vs : verify_state) :
  startswith line "r " = true → matching_entry line = Ok n →
  read_match_sat g s line vs = sat_entry g s n vs.
Proof.
  unfold read_match_sat, matching_entry, sat_entry. intros -> Hn.
  destruct (list_getitem (split line) 2) as [t2|]; [|discriminate]. simpl in *.
  destruct (py_int t2) as [n2|]; [|discriminate]. simpl in *.
  destruct (list_getitem (split line) 1) as [t1|]; [|discriminate]. simpl in *.
  destruct (py_int t1) as [n1|]; [|discriminate]. simpl in *.
  injection Hn as <-. simpl.
  by destruct (getitem (hospital_dict g) n2).
Qed.

(** *** Instances without couples *)

Section WellFormed.
Context (g : Globals) (inst : ProblemInstance).
Hypothesis Hwf : well_formed g inst.

Lemma wf_resident_lookup (u : Z) (r : Resident) :
  resident_dict g !! u = Some r ↔ r ∈ singles inst ∧ r_uid r = u.
Proof.
  rewrite (wf_resident_dict _ _ Hwf), <- elem_of_list_to_map.
  - rewrite list_elem_of_fmap. split.
    + intros (r' & [= -> ->] & Hr). done.
    + intros [Hr <-]. by exists r.
  - rewrite <- list_fmap_compose. apply (wf_singles _ _ Hwf).
Qed.

Lemma wf_hospital_lookup (u : Z) (h : Hospital) :
  hospital_dict g !! u = Some h
  ↔ (u = NIL_HOSPITAL_UID ∧ h = NIL_HOSPITAL) ∨ (h ∈ hospitals inst ∧ h_uid h = u).
Proof.
  assert (Hin : ∀ h', h' ∈ hospitals inst → h_uid h' ≠ NIL_HOSPITAL_UID).
  { intros h' Hh'. pose proof (wf_hospital _ _ Hwf) as Hall.
    rewrite Forall_forall in Hall. by destruct (Hall _ Hh'). }
  rewrite (wf_hospital_dict _ _ Hwf).
  destruct (decide (u = NIL_HOSPITAL_UID)) as [->|Hu].
  - rewrite lookup_insert_eq. split.
    + intros [= <-]. by left.
    + intros [[_ ->]|[Hh Hu]]; [done|]. by apply Hin in Hh.
  - rewrite lookup_insert_ne by done. rewrite <- elem_of_list_to_map.
    + rewrite list_elem_of_fmap. split.
      * intros (h' & [= -> ->] & Hh). by right.
      * intros [[? _]|[Hh <-]]; [done|]. by exists h.
    + rewrite <- list_fmap_compose. apply (wf_hospitals _ _ Hwf).
Qed.

Lemma wf_single_props (r : Resident) :
  r ∈ singles inst →
  r_couple r = None
  ∧ ∃ l, r_preference r = Some l ∧ NoDup l ∧ NIL_HOSPITAL_UID ∉ l.
Proof.
  intros Hr. pose proof (wf_single _ _ Hwf) as Hall.
  rewrite Forall_forall in Hall. by apply Hall.
Qed.

Lemma wf_hospital_props (h : Hospital) :
  h ∈ hospitals inst →
  h_uid h ≠ NIL_HOSPITAL_UID ∧ h_uid h ≠ -1 ∧ 0 ≤ h_capacity h
  ∧ ∃ l, h_preference h = Some l ∧ NoDup l.
Proof.
  intros Hh. pose proof (wf_hospital _ _ Hwf) as Hall.
  rewrite Forall_forall in Hall. by apply Hall.
Qed.

Lemma wf_single_registered (r : Resident) :
  r ∈ singles inst → resident_dict g !! r_uid r = Some r.
Proof. intros Hr. by apply wf_resident_lookup. Qed.

Lemma wf_hospital_registered (h : Hospital) :
  h ∈ hospitals inst → hospital_dict g !! h_uid h = Some h.
Proof. intros Hh. apply wf_hospital_lookup. by right. Qed.

Lemma wf_listed_hospital (hu : Z) (h : Hospital) :
  hospital_dict g !! hu = Some h → hu ≠ NIL_HOSPITAL_UID →
  h ∈ hospitals inst ∧ h_uid h = hu ∧ Hosp.is_nil h = false.
Proof.
  intros Hh Hne. apply wf_hospital_lookup in Hh as [[? _]|[Hh Hu]]; [done|].
  split; [done|]. split; [done|].
  unfold Hosp.is_nil. apply bool_decide_eq_false_2. congruence.
Qed.

Lemma wf_residents : residents inst = r_uid <$> singles inst.
Proof.
  unfold residents. rewrite (wf_couples _ _ Hwf). simpl. by rewrite app_nil_r.
Qed.

End WellFormed.

(** *** Lists *)

Lemma weakly_preferred_Ok (l wp : list Z) (u : Z) :
  LPF.get_all_weakly_preferred l u = Ok wp →
  ∃ k, l !! k = Some u ∧ u ∉ take k l ∧ wp = take k l ++ [u]
       ∧ LPF.get_rank l u = Ok (Z.of_nat k).
Proof.
  unfold LPF.get_all_weakly_preferred, LPF.get_all_preferred.
  intros Hwp. apply bind_Ok in Hwp as (pre & Hpre & [= <-]).
  destruct (decide (u ∈ l)) as [Hin|Hout].
  - apply list_elem_of_split_l in Hin as (l1 & l2 & -> & Hu).
    rewrite get_all_preferred_loop_found in Hpre by done.
    injection Hpre as <-. exists (length l1).
    rewrite take_app_length, list_lookup_middle by done.
    repeat split; try done.
    unfold LPF.get_rank. by rewrite index_found.
  - by rewrite get_all_preferred_loop_absent in Hpre.
Qed.

Lemma rank_Ok_NoDup (l : list Z) (u rk : Z) :
  LPF.get_rank l u = Ok rk →
  ∃ k, rk = Z.of_nat k ∧ l !! k = Some u ∧ u ∉ take k l.
Proof.
  intros Hrk. apply index_Ok in Hrk as (? & ? & ?).
  exists (Z.to_nat rk). split; [lia|done].
Qed.



Lemma Forall2_concat_Forall {A B} (C : A → list B → Prop) (P : B → Prop)
    (Q : A → Prop) (l : list A) (bss : list (list B)) :
  Forall2 C l bss →
  (∀ a bs, a ∈ l → C a bs → (Forall P bs ↔ Q a)) →
  (Forall P (concat bss) ↔ ∀ a, a ∈ l → Q a).
Proof.
  induction 1 as [|a bs l bss HC Hall IH]; intros Hsem; simpl.
  - split; [|done]. intros _ a Ha. by apply elem_of_nil in Ha.
  - rewrite Forall_app, IH, (Hsem a bs); [| left | done |].
    + split.
      * intros [Ha Hl] a' [->|Ha']%elem_of_cons; auto.
      * intros Hq. split; [apply Hq; left | intros a' Ha'; apply Hq; by right].
    + intros a' bs' Ha'. apply Hsem. by right.
Qed.

(** *** The value of the variable side *)

Lemma side_value_app (m : gmap Z Z) (a b : list CoeffVar) :
  side_value m (a ++ b) = side_value m a + side_value m b.
Proof. induction a as [|t a IH]; simpl; [done|]. rewrite IH. lia. Qed.

Lemma occupants_among_nil (m : gmap Z Z) (hu : Z) : occupants_among m hu [] = 0.
Proof. done. Qed.

Lemma occupants_among_cons (m : gmap Z Z) (hu u : Z) (l : list Z) :
  occupants_among m hu (u :: l)
  = indicator (bool_decide (assigned m u = hu)) + occupants_among m hu l.
Proof.
  unfold occupants_among, len. rewrite filter_cons.
  case_bool_decide as Hu; destruct (decide _) as [|]; try done; simpl; lia.
Qed.

Lemma occupants_among_app (m : gmap Z Z) (hu : Z) (l1 l2 : list Z) :
  occupants_among m hu (l1 ++ l2) = occupants_among m hu l1 + occupants_among m hu l2.
Proof.
  unfold occupants_among, len. rewrite filter_app, length_app. lia.
Qed.

Lemma occupants_among_bounds (m : gmap Z Z) (hu : Z) (l : list Z) :
  0 ≤ occupants_among m hu l ≤ len l.
Proof.
  unfold occupants_among, len. pose proof (length_filter (fun u => assigned m u = hu) l).
  lia.
Qed.

Lemma occupants_among_perm (m : gmap Z Z) (hu : Z) (l1 l2 : list Z) :
  NoDup l1 → NoDup l2 →
  (∀ u, assigned m u = hu → (u ∈ l1 ↔ u ∈ l2)) →
  occupants_among m hu l1 = occupants_among m hu l2.
Proof.
  intros Hn1 Hn2 Hsame. unfold occupants_among, len. f_equal.
  apply Permutation_length, NoDup_Permutation; try by apply NoDup_filter.
  intros u. rewrite !list_elem_of_filter. naive_solver.
Qed.

Lemma side_value_hospital (m : gmap Z Z) (c hu : Z) (l : list Z) :
  side_value m ((fun u => term c (x_single u hu)) <$> l) = c * occupants_among m hu l.
Proof.
  induction l as [|u l IH].
  - simpl. rewrite occupants_among_nil. lia.
  - rewrite fmap_cons. cbn [side_value].
    rewrite IH, occupants_among_cons. unfold term_value; simpl. lia.
Qed.

Lemma side_value_resident (m : gmap Z Z) (c r : Z) (l : list Z) :
  NoDup l →
  side_value m ((fun h => term c (x_single r h)) <$> l)
  = c * indicator (bool_decide (assigned m r ∈ l)).
Proof.
  induction 1 as [|h l Hh Hnd IH].
  - simpl. lia.
  - rewrite fmap_cons. cbn [side_value]. rewrite IH. unfold term_value; simpl.
    destruct (decide (assigned m r = h)) as [Heq|Hne].
    + rewrite (bool_decide_eq_true_2 (assigned m r = h)) by done.
      rewrite (bool_decide_eq_true_2 (assigned m r ∈ h :: l)) by (rewrite Heq; left).
      rewrite (bool_decide_eq_false_2 (assigned m r ∈ l)) by (by rewrite Heq).
      simpl. lia.
    + rewrite (bool_decide_eq_false_2 (assigned m r = h)) by done.
      rewrite (bool_decide_ext (assigned m r ∈ h :: l) (assigned m r ∈ l)).
      * simpl. lia.
      * rewrite elem_of_cons. naive_solver.
Qed.




Lemma holds_stability (m : gmap Z Z) (r : Resident) (h : Hospital) (better wp : list Z) :
  NoDup wp →
  holds m (stability_constraint r h better wp)
  ↔ h_capacity h
    ≤ occupants_among m (h_uid h) (better ++ [r_uid r])
      + h_capacity h * indicator (bool_decide (assigned m (r_uid r) ∈ wp)).
Proof.
  intros Hnd. unfold holds, stability_constraint; simpl.
  rewrite side_value_app, side_value_hospital, side_value_resident by done. lia.
Qed.

(** *** The constraints of an instance without couples *)

Section MipConstraints.
Context (g : Globals) (inst : ProblemInstance).
Hypothesis Hwf : well_formed g inst.







End MipConstraints.

(** *** The evaluator of the verify mode *)


Section MipVerify.
Context (g : Globals) (inst : ProblemInstance) (m : gmap Z Z).
Context (rm : gmap Z Hospital) (cm : gmap Z (Hospital * Hospital)).
Hypothesis Hwf : well_formed g inst.
Hypothesis Hrm : ∀ r, rm !! r = hu ← m !! r; hospital_dict g !! hu.





End MipVerify.

(** *** The constraints and stability *)

Lemma weakly_preferred_at (l : list Z) (k : nat) (u : Z) :
  l !! k = Some u → u ∉ take k l →
  LPF.get_all_weakly_preferred l u = Ok (take k l ++ [u])
  ∧ LPF.get_rank l u = Ok (Z.of_nat k).
Proof.
  intros Hk Hu.
  assert (Hl : l = take k l ++ u :: drop (S k) l).
  { by rewrite <- (take_drop_middle l k u) at 1. }
  assert (Hlen : length (take k l) = k).
  { apply length_take_le. apply lookup_lt_Some in Hk. lia. }
  split.
  - unfold LPF.get_all_weakly_preferred, LPF.get_all_preferred.
    rewrite Hl at 1. by rewrite get_all_preferred_loop_found.
  - unfold LPF.get_rank. rewrite Hl at 1. rewrite index_found by done.
    unfold len. by rewrite Hlen.
Qed.

Lemma filter_ext_elem {A} (P Q : A → Prop) `{∀ x, Decision (P x)} `{∀ x, Decision (Q x)}
    (l : list A) :
  (∀ x, x ∈ l → (P x ↔ Q x)) → filter P l = filter Q l.
Proof.
  induction l as [|x l IH]; intros Hpq; [done|].
  rewrite !filter_cons.
  destruct (decide (P x)) as [Hp|Hp], (decide (Q x)) as [Hq|Hq].
  - f_equal. apply IH. intros y Hy. apply Hpq. by right.
  - exfalso. apply Hq, Hpq; [left | done].
  - exfalso. apply Hp, Hpq; [left | done].
  - apply IH. intros y Hy. apply Hpq. by right.
Qed.

Lemma better_occupants_alone (m : gmap Z Z) (h : Hospital) (ord : list Z)
    (kr : nat) (r : Z) :
  h_preference h = Some ord → ord !! kr = Some r → r ∉ take kr ord →
  better_occupants m h r [] = occupants_among m (h_uid h) (take kr ord).
Proof.
  intros Hord Hkr Hr. unfold better_occupants, Hosp.get_rank, with_preference.
  rewrite Hord. destruct (weakly_preferred_at _ _ _ Hkr Hr) as [_ ->].
  rewrite Nat2Z.id. unfold occupants_among. f_equal. f_equal.
  apply filter_ext_elem. intros u Hu. split.
  - intros (_ & [?|Hin]); [done|]. by apply elem_of_nil in Hin.
  - intros Hm. split; [|by left]. by intros ->.
Qed.

Lemma Forall2_elem_l {A B} (C : A → B → Prop) (l : list A) (k : list B) (a : A) :
  Forall2 C l k → a ∈ l → ∃ b, b ∈ k ∧ C a b.
Proof.
  induction 1 as [|a' b l k HC _ IH]; intros Ha.
  - by apply elem_of_nil in Ha.
  - apply elem_of_cons in Ha as [->|Ha].
    + exists b. split; [left | done].
    + destruct (IH Ha) as (b' & ? & ?). exists b'. split; [by right | done].
Qed.

Section MipStable.
Context (g : Globals) (inst : ProblemInstance) (m : gmap Z Z).
Hypothesis Hwf : well_formed g inst.


Lemma single_stable_iff (r : Resident) (h : Hospital) (l ord : list Z) (kr k : nat) :
  r_preference r = Some l → NoDup l →
  hospital_dict g !! h_uid h = Some h → Hosp.is_nil h = false →
  h_preference h = Some ord →
  ord !! kr = Some (r_uid r) → r_uid r ∉ take kr ord →
  l !! k = Some (h_uid h) → h_uid h ∉ take k l →
  single_stable g m r (h_uid h)
  ↔ holds m (stability_constraint r h (take kr ord) (take k l ++ [h_uid h])).
Proof.
  intros Hl Hnd Hh Hnil Hord Hkr Hrk Hk Hkk.
  assert (Hndwp : NoDup (take k l ++ [h_uid h])).
  { rewrite <- (take_S_r l k (h_uid h)) by done.
    eapply sublist_NoDup; [done | apply sublist_take]. }
  rewrite holds_stability by done.
  unfold single_stable, single_prefers, Res.get_all_weakly_preferred, with_preference.
  rewrite Hl. destruct (weakly_preferred_at _ _ _ Hk Hkk) as [-> _].
  rewrite occupants_among_app.
  pose proof (occupants_among_bounds m (h_uid h) (take kr ord)) as Hb.
  pose proof (occupants_among_bounds m (h_uid h) [r_uid r]) as Hb1.
  destruct (decide (assigned m (r_uid r) ∈ take k l ++ [h_uid h])) as [Hin|Hout].
  - rewrite (bool_decide_eq_true_2 _ Hin).
    rewrite bool_decide_eq_false_2 by (by intros ?). simpl. split; [lia|done].
  - rewrite (bool_decide_eq_false_2 _ Hout).
    rewrite bool_decide_eq_true_2 by done. simpl.
    assert (occupants_among m (h_uid h) [r_uid r] = 0) as ->.
    { rewrite occupants_among_cons, occupants_among_nil.
      rewrite bool_decide_eq_false_2; [done|].
      intros Heq. apply Hout. rewrite Heq. apply elem_of_app. right. left. }
    split.
    + intros Hst. destruct (Hst eq_refl) as (h' & Hh' & Href).
      assert (h' = h) as -> by congruence.
      unfold refuses in Href. rewrite Hnil in Href. simpl in Href.
      apply bool_decide_eq_true in Href.
      rewrite (better_occupants_alone m h ord kr) in Href by done. lia.
    + intros Hle _. exists h. split; [done|].
      unfold refuses. rewrite Hnil. simpl. apply bool_decide_eq_true.
      rewrite (better_occupants_alone m h ord kr) by done. lia.
Qed.

(** A matching of an instance without couples is stable when every single
    has a hospital of its list or none, no hospital holds more residents
    of its list than its capacity, and no single blocks with a hospital of
    its list. *)
Lemma stable_matching_flat :
  mutual g inst → listed inst →
  ((∀ r, r ∈ singles inst → ∀ l, r_preference r = Some l →
         assigned m (r_uid r) ∈ l ++ [NIL_HOSPITAL_UID])
   ∧ (∀ h, h ∈ hospitals inst → ∀ ord, h_preference h = Some ord →
           occupants_among m (h_uid h) ord ≤ h_capacity h)
   ∧ (∀ r, r ∈ singles inst → ∀ l hu, r_preference r = Some l → hu ∈ l →
           single_stable g m r hu))
  ↔ stable_matching g inst m.
Proof.
  intros Hmut Hlisted.
  unfold stable_matching, acceptable, within_capacity, no_blocking_pair.
  rewrite (wf_couples _ _ Hwf), (wf_residents _ _ Hwf).
  split.
  + intros (Ha & Hc & Hs).
    assert (Hacc : ∀ r l, r ∈ singles inst → r_preference r = Some l →
                     assigned m (r_uid r) ∈ l ++ [NIL_HOSPITAL_UID]).
    { intros r l Hr. by apply Ha. }
    split; [|split].
    * split; [done|]. intros c Hc'. by apply elem_of_nil in Hc'.
    * intros h Hh.
      destruct (wf_hospital_props _ _ Hwf _ Hh) as (Hnn & _ & _ & ord & Hord & Hndo).
      rewrite (occupants_among_perm m (h_uid h) _ ord);
        [by apply Hc | apply (wf_singles _ _ Hwf) | done |].
      intros u Hu. split.
      -- intros (r & -> & Hr)%list_elem_of_fmap.
         destruct (wf_single_props _ _ Hwf _ Hr) as (_ & l & Hl & _ & _).
         pose proof (Hacc r l Hr Hl) as Hin. rewrite Hu in Hin.
         apply elem_of_app in Hin as [Hin|Hin%list_elem_of_singleton]; [|done].
         destruct (Hmut r l _ Hr Hl Hin)
           as (h' & ord' & kr & k & Hh' & _ & _ & _ & Hord' & Hkr & _).
         rewrite (wf_hospital_registered _ _ Hwf _ Hh) in Hh'.
         injection Hh' as <-. assert (ord' = ord) as -> by congruence.
         by apply list_elem_of_lookup_2 in Hkr.
      -- intros Hin. pose proof (Hlisted h ord Hh Hord) as Hall.
         rewrite Forall_forall in Hall. by apply Hall.
    * split; [|intros c k Hc'; by apply elem_of_nil in Hc'].
      intros r hu l Hr Hl Hhu. by apply (Hs r Hr l hu).
  + intros ((Hacc & _) & Hc & Hs & _).
    split; [|split].
    * intros r Hr l Hl. by apply Hacc.
    * intros h Hh ord Hord.
      destruct (wf_hospital_props _ _ Hwf _ Hh) as (Hnn & _ & _ & ord' & Hord' & Hndo).
      assert (ord' = ord) as -> by congruence.
      rewrite <- (occupants_among_perm m (h_uid h) (r_uid <$> singles inst) ord);
        [by apply Hc | apply (wf_singles _ _ Hwf) | done |].
      intros u Hu. split.
      -- intros (r & -> & Hr)%list_elem_of_fmap.
         destruct (wf_single_props _ _ Hwf _ Hr) as (_ & l & Hl & _ & _).
         pose proof (Hacc r l Hr Hl) as Hin. rewrite Hu in Hin.
         apply elem_of_app in Hin as [Hin|Hin%list_elem_of_singleton]; [|done].
         destruct (Hmut r l _ Hr Hl Hin)
           as (h' & ord' & kr & k & Hh' & _ & _ & _ & Hord'' & Hkr & _).
         rewrite (wf_hospital_registered _ _ Hwf _ Hh) in Hh'.
         injection Hh' as <-. assert (ord' = ord) as -> by congruence.
         by apply list_elem_of_lookup_2 in Hkr.
      -- intros Hin. pose proof (Hlisted h ord Hh Hord) as Hall.
         rewrite Forall_forall in Hall. by apply Hall.
    * intros r Hr l hu Hl Hhu. by apply (Hs r hu l).
Qed.


End MipStable.




(** *** The shape of the encoding *)

#[global] Instance persist_preorder : PreOrder persist.
Proof.
  split.
  - intros t. by repeat split.
  - intros t1 t2 t3 (Hx & Hq & Hr) (Hx' & Hq' & Hr'). repeat split; eauto.
    by etrans.
Qed.

Lemma extends_persist (t t' : sat_state) : extends t t' → persist t t'.
Proof.
  intros Hext. destruct (extends_tables _ _ Hext) as (Hx & Hq & _ & _ & Hr).
  repeat split.
  - intros r h x. by rewrite (get_res_match_ext _ _ _ _ Hx).
  - intros h i j x. by rewrite (get_q_same_q _ _ _ _ _ Hq).
  - by rewrite Hr.
Qed.

Lemma extends_registered (t t' : sat_state) :
  extends t t' → registered t → registered t'.
Proof.
  intros Hext (H0 & H1 & H2 & H3).
  destruct (extends_tables _ _ Hext) as (Hx & Hq & _ & Hl & Hr).
  split; [by rewrite Hl|]. split; [|split].
  - intros x n. rewrite Hr, Hl. apply H1.
  - intros r h x. rewrite (get_res_match_ext _ _ _ _ Hx), Hr. apply H2.
  - intros h i j x. rewrite (get_q_same_q _ _ _ _ _ Hq), Hr. apply H3.
Qed.

Lemma extends_constraints (t t' : sat_state) :
  extends t t' → ∃ cs, constraints t' = constraints t ++ cs.
Proof. intros [cs ->]. by exists cs. Qed.

Lemma registered_positive (t : sat_state) (x : Z) :
  registered t →
  (∀ r h, get_res_match t r h = Ok x → 0 < x)
  ∧ (∀ h i j, get_q t h i j = Ok x → 0 < x).
Proof.
  intros (_ & H1 & H2 & H3). split.
  - intros r h Hx. apply H2 in Hx. by apply H1 in Hx as [? _].
  - intros h i j Hx. apply H3 in Hx. by apply H1 in Hx as [? _].
Qed.

(** Two keys with the same variable are the same key. *)
Lemma registered_inj_x (t : sat_state) (r h r' h' x : Z) :
  registered t → get_res_match t r h = Ok x → get_res_match t r' h' = Ok x →
  r = r' ∧ h = h'.
Proof.
  intros (_ & _ & H2 & _) Hx Hx'. apply H2 in Hx, Hx'.
  rewrite Hx in Hx'. by injection Hx' as -> ->.
Qed.

Lemma registered_inj_q (t : sat_state) (h i j h' i' j' x : Z) :
  registered t → get_q t h i j = Ok x → get_q t h' i' j' = Ok x →
  h = h' ∧ i = i' ∧ j = j'.
Proof.
  intros (_ & _ & _ & H3) Hx Hx'. apply H3 in Hx, Hx'.
  rewrite Hx in Hx'. by injection Hx' as -> -> ->.
Qed.

Lemma registered_x_q (t : sat_state) (r h h' i j x : Z) :
  registered t → get_res_match t r h = Ok x → get_q t h' i j = Ok x → False.
Proof.
  intros (_ & _ & H2 & H3) Hx Hx'. apply H2 in Hx. apply H3 in Hx'.
  rewrite Hx in Hx'. discriminate.
Qed.

Lemma gathered_lasting {A} (C : A → sat_state → list DIMACSClause → Prop) (l : list A) :
  (∀ a, a ∈ l → lasting (C a)) → lasting (gathered C l).
Proof.
  intros HC t t' cs Hp (css & -> & Hall). exists css. split; [done|].
  clear -HC Hp Hall. induction Hall as [|a cs l css Ha Hall IH]; constructor.
  - eapply HC; [left | done | done].
  - apply IH. intros a' Ha'. apply HC. by right.
Qed.

Lemma gathered_nil {A} (C : A → sat_state → list DIMACSClause → Prop) (s : sat_state) :
  gathered C [] s [].
Proof. exists []. split; [done | constructor]. Qed.

(** A loop whose turns keep an invariant, which may speak about the turns
    done: the clauses of the loop are those of its turns. *)
Lemma for_each_yields {A} (f : A → sat_state → result sat_state)
    (Inv : list A → sat_state → Prop)
    (C : A → sat_state → list DIMACSClause → Prop) (l : list A) (s s' : sat_state) :
  (∀ a, a ∈ l → lasting (C a)) →
  (∀ done a rest t t', l = done ++ a :: rest → Inv done t → f a t = Ok t' →
     Inv (done ++ [a]) t' ∧ persist t t' ∧ yields (C a) t t') →
  Inv [] s → for_each f l s = Ok s' →
  Inv l s' ∧ persist s s' ∧ yields (gathered C l) s s'.
Proof.
  intros Hlast Hstep.
  assert (Hgen : ∀ rest done t,
            l = done ++ rest → Inv done t → for_each f rest t = Ok s' →
            Inv l s' ∧ persist t s' ∧ yields (gathered C rest) t s').
  { induction rest as [|a rest IH]; intros done t Hl Hinv Hrun; simpl in Hrun.
    - injection Hrun as <-. rewrite app_nil_r in Hl. subst l.
      split; [done|]. split; [done|].
      exists []. rewrite app_nil_r. split; [done | apply gathered_nil].
    - apply bind_Ok in Hrun as (t1 & Ha & Hrun).
      destruct (Hstep done a rest t t1 Hl Hinv Ha) as (Hinv1 & Hp1 & cs1 & Hcs1 & HC1).
      destruct (IH (done ++ [a]) t1) as (Hinv' & Hp' & cs2 & Hcs2 & css & -> & Hall);
        [by rewrite <- app_assoc | done | done |].
      split; [done|]. split; [by etrans|].
      exists (cs1 ++ concat css). split; [by rewrite Hcs2, Hcs1, app_assoc|].
      exists (cs1 :: css). split; [done|]. constructor; [|done].
      eapply Hlast; [|done|done]. rewrite Hl. apply elem_of_app. right. left. }
  intros Hinv Hrun. by apply (Hgen l [] s).
Qed.

(** The same for a loop that appends no clause. *)
Lemma for_each_quiet {A} (f : A → sat_state → result sat_state)
    (Inv : list A → sat_state → Prop) (l : list A) (s s' : sat_state) :
  (∀ done a rest t t', l = done ++ a :: rest → Inv done t → f a t = Ok t' →
     Inv (done ++ [a]) t' ∧ persist t t' ∧ constraints t' = constraints t) →
  Inv [] s → for_each f l s = Ok s' →
  Inv l s' ∧ persist s s' ∧ constraints s' = constraints s.
Proof.
  intros Hstep Hinv Hrun.
  assert (Hstep' : ∀ done a rest t t', l = done ++ a :: rest → Inv done t →
            f a t = Ok t' →
            Inv (done ++ [a]) t' ∧ persist t t'
            ∧ yields ((fun _ _ cs => cs = []) a) t t').
  { intros done a rest t t' Hl Hi Ha.
    destruct (Hstep _ _ _ _ _ Hl Hi Ha) as (? & ? & Hc).
    split; [done|]. split; [done|]. exists []. by rewrite app_nil_r. }
  destruct (for_each_yields f Inv (fun _ _ cs => cs = []) l s s')
    as (Hinv' & Hp & cs & Hcs & css & -> & Hall); try done.
  { by intros a _ t t' cs _ ->. }
  split; [done|]. split; [done|]. rewrite Hcs.
  assert (concat css = []) as ->; [|by rewrite app_nil_r].
  clear -Hall. induction Hall as [|a cs l css -> _ IH]; simpl; done.
Qed.

(** *** Entries that persist when the tables grow *)

Lemma match_var_persist (g : Globals) (t t' : sat_state) (r : Resident) (hu x : Z) :
  persist t t' → match_var g t r hu = Ok x → match_var g t' r hu = Ok x.
Proof.
  intros (Hx & _) Hm. unfold match_var in *.
  apply bind_Ok in Hm as (h & Hh & Hm). rewrite Hh. simpl. by apply Hx.
Qed.

Lemma comprehension_persist {A B} (f f' : A → result B) (l : list A) (bs : list B) :
  (∀ a b, f a = Ok b → f' a = Ok b) →
  comprehension f l = Ok bs → comprehension f' l = Ok bs.
Proof.
  intros Hf. revert bs. induction l as [|a l IH]; intros bs Hc; simpl in *; [done|].
  apply bind_Ok in Hc as (b & Hb & Hc). apply bind_Ok in Hc as (bs' & Hbs & [= <-]).
  rewrite (Hf _ _ Hb). simpl. by rewrite (IH _ Hbs).
Qed.

Lemma y_var_persist (g : Globals) (t t' : sat_state) (h : Hospital) (ord : list Z)
    (i y : Z) :
  persist t t' → y_var g t h ord i = Ok y → y_var g t' h ord i = Ok y.
Proof.
  intros (Hx & _) Hy. unfold y_var in *.
  apply bind_Ok in Hy as (u & Hu & Hy). rewrite Hu. simpl.
  apply bind_Ok in Hy as (r & Hr & Hy). rewrite Hr. simpl. by apply Hx.
Qed.

Lemma append_q_vars_persist (t t' : sat_state) (lits lits' : list Z)
    (q_vars : list (Hospital * Resident * Z)) :
  persist t t' → append_q_vars t lits q_vars = Ok lits' →
  append_q_vars t' lits q_vars = Ok lits'.
Proof.
  intros (_ & Hq & _). unfold append_q_vars. revert lits.
  induction q_vars as [|[[h r] n] q_vars IH]; intros lits Hrun; simpl in *; [done|].
  apply bind_Ok in Hrun as (l1 & Hstep & Hrun).
  assert (Hstep' : (if negb (Hosp.is_nil h)
                    then rk ← Hosp.get_rank h (r_uid r);
                         if bool_decide (rk >= n)
                         then x ← get_q t' (h_uid h) rk n; Ok (lits ++ [x])
                         else Ok lits
                    else Ok lits) = Ok l1).
  { destruct (negb (Hosp.is_nil h)); [|done].
    apply bind_Ok in Hstep as (rk & Hrk & Hstep). rewrite Hrk. simpl.
    case_bool_decide; [|done].
    apply bind_Ok in Hstep as (x & Hx & Hstep). by rewrite (Hq _ _ _ _ Hx). }
  rewrite Hstep'. simpl. by apply IH.
Qed.

Section Lasting.
Variable g : Globals.

Lemma at_least_clause_lasting (r : Resident) : lasting (at_least_clause g r).
Proof.
  intros t t' cs Hp (l & lits & Hl & Hlits & ->). exists l, lits.
  split; [done|]. split; [|done]. unfold at_least_one in *.
  apply bind_Ok in Hlits as (xs & Hxs & Hlits).
  rewrite (comprehension_persist _ (match_var g t' r) _ _ (fun a b => match_var_persist g t t' r a b Hp) Hxs).
  apply bind_Ok in Hlits as (x & Hx & [= <-]).
  destruct Hp as (Hpx & _). cbn [mbind result_bind]. by rewrite (Hpx _ _ _ Hx).
Qed.

Lemma at_most_clause_lasting (r : Resident) (pair : Z * Z) :
  lasting (at_most_clause g r pair).
Proof.
  intros t t' cs Hp (x1 & x2 & H1 & H2 & ->). exists x1, x2.
  split; [by eapply match_var_persist|]. split; [by eapply match_var_persist|done].
Qed.

Lemma at_most_clauses_lasting (r : Resident) : lasting (at_most_clauses g r).
Proof.
  intros t t' cs Hp (l & Hl & Hg). exists l. split; [done|].
  eapply gathered_lasting; [|done|done]. intros pair _. apply at_most_clause_lasting.
Qed.

Lemma base_clauses_lasting (h : Hospital) (ord : list Z) : lasting (base_clauses g h ord).
Proof.
  intros t t' cs Hp (y & q0 & q1 & Hy & H0 & H1 & ->). exists y, q0, q1.
  split; [by eapply y_var_persist|]. destruct Hp as (_ & Hq & _). auto.
Qed.

Lemma step_clauses_lasting (h : Hospital) (ord : list Z) (i j : Z) :
  lasting (step_clauses g h ord i j).
Proof.
  intros t t' cs Hp (y & Hy & Hrest). exists y.
  split; [by eapply y_var_persist|]. destruct Hp as (_ & Hq & _).
  repeat case_bool_decide.
  - destruct Hrest as (a & p & ? & ? & ->). exists a, p. auto.
  - destruct Hrest as (a & p & ? & ? & ->). exists a, p. auto.
  - destruct Hrest as (p & a & p' & ? & ? & ? & ->). exists p, a, p'. auto.
Qed.

Lemma cap_clauses_lasting (h : Hospital) (i : Z) : lasting (cap_clauses h i).
Proof.
  intros t t' cs Hp Hc. unfold cap_clauses in *. case_bool_decide; [|done].
  destruct Hc as (a & Ha & ->). exists a. destruct Hp as (_ & Hq & _). auto.
Qed.

Lemma row_clauses_lasting (h : Hospital) (ord : list Z) (i : Z) :
  lasting (row_clauses g h ord i).
Proof.
  intros t t' cs Hp Hc. unfold row_clauses in *. case_bool_decide; [done|].
  destruct Hc as (cs1 & cs2 & -> & H1 & H2). exists cs1, cs2. split; [done|].
  split; [|by eapply cap_clauses_lasting].
  case_bool_decide.
  - by eapply base_clauses_lasting.
  - eapply gathered_lasting; [|done|done]. intros j _. apply step_clauses_lasting.
Qed.

Lemma hospital_clauses_lasting (h : Hospital) : lasting (hospital_clauses g h).
Proof.
  intros t t' cs Hp (ord & Hord & Hg). exists ord. split; [done|].
  eapply gathered_lasting; [|done|done]. intros i _. apply row_clauses_lasting.
Qed.

Lemma stability_clause_lasting (r : Resident) (hu : Z) :
  lasting (stability_clause g r hu).
Proof.
  intros t t' cs Hp (h & wp & lits & lits' & Hh & Hwp & Hlits & Hq & ->).
  exists h, wp, lits, lits'. repeat (split; [done|]). split; [|split; [|done]].
  - eapply comprehension_persist; [|done]. intros a b. by apply match_var_persist.
  - by eapply append_q_vars_persist.
Qed.

Lemma stability_clauses_of_lasting (r : Resident) : lasting (stability_clauses_of g r).
Proof.
  intros t t' cs Hp (l & Hl & Hg). exists l. split; [done|].
  eapply gathered_lasting; [|done|done]. intros hu _. apply stability_clause_lasting.
Qed.

End Lasting.

(** *** The steps that create variables *)

Lemma lookup2_insert (m : gmap Z (gmap Z Z)) (d : gmap Z Z) (r h x r' h' : Z) :
  m !! r = Some d →
  (d' ← getitem (<[r := <[h := x]> d]> m) r'; getitem d' h')
  = if decide (r' = r ∧ h' = h) then Ok x else d' ← getitem m r'; getitem d' h'.
Proof.
  intros Hd. unfold getitem. destruct (decide (r' = r)) as [->|Hr].
  - rewrite lookup_insert_eq, Hd. simpl. destruct (decide (h' = h)) as [->|Hh].
    + rewrite lookup_insert_eq. by rewrite decide_True.
    + rewrite lookup_insert_ne by done. rewrite decide_False by naive_solver. done.
  - rewrite lookup_insert_ne by done. by rewrite decide_False by naive_solver.
Qed.

Lemma registered_fresh (t : sat_state) :
  registered t → variable_registry t !! (last_uid t + 1) = None.
Proof.
  intros (_ & H1 & _). destruct (variable_registry t !! (last_uid t + 1)) eqn:Hx; [|done].
  apply H1 in Hx. lia.
Qed.

(** A new variable of [res_match], for a key that has no entry. *)
Lemma res_var_step (r h : Z) (t t' : sat_state) :
  (let '(x, s1) := allocate_uid t in
   s2 ← set_res_match r h x s1; Ok (register x (xr_name r h) s2)) = Ok t' →
  registered t → (∀ x, get_res_match t r h ≠ Ok x) →
  registered t' ∧ persist t t' ∧ constraints t' = constraints t ∧ q t' = q t
  ∧ get_res_match t' r h = Ok (last_uid t + 1)
  ∧ (∀ r' h' x, get_res_match t' r' h' = Ok x →
                (r' = r ∧ h' = h) ∨ get_res_match t r' h' = Ok x).
Proof.
  intros Hrun Hreg Hfresh. pose proof (registered_fresh _ Hreg) as Hnew.
  destruct Hreg as (H0 & H1 & H2 & H3).
  unfold allocate_uid, set_res_match in Hrun. cbn [res_match] in Hrun.
  apply bind_Ok in Hrun as (s2 & Hs2 & [= <-]).
  apply bind_Ok in Hs2 as (d & Hd & [= <-]). apply getitem_Ok in Hd.
  assert (Hget : ∀ r' h', get_res_match
            (register (last_uid t + 1) (xr_name r h)
               (with_res_match (<[r := <[h := last_uid t + 1]> d]> (res_match t))
                  (mkSat (last_uid t + 1) (variable_registry t) (res_match t) (q t)
                         (cpref t) (constraints t)))) r' h'
            = if decide (r' = r ∧ h' = h) then Ok (last_uid t + 1)
              else get_res_match t r' h').
  { intros r' h'. unfold get_res_match. simpl. by apply lookup2_insert. }
  split; [|split; [|split; [done|split; [done|split]]]].
  - split; [simpl; lia|]. split; [|split].
    + intros x n. simpl. destruct (decide (x = last_uid t + 1)) as [->|Hne].
      * intros _. lia.
      * rewrite lookup_insert_ne by done. intros Hx%H1. lia.
    + intros r' h' x. rewrite Hget. simpl. destruct (decide _) as [[-> ->]|Hne].
      * intros [= <-]. by rewrite lookup_insert_eq.
      * intros Hx. pose proof (H2 _ _ _ Hx) as Hn. rewrite lookup_insert_ne; [done|].
        intros <-. by rewrite Hnew in Hn.
    + intros h' i j x. unfold get_q. simpl. intros Hx.
      pose proof (H3 _ _ _ _ Hx) as Hn. rewrite lookup_insert_ne; [done|].
      intros <-. by rewrite Hnew in Hn.
  - split; [|split].
    + intros r' h' x Hx. rewrite Hget. destruct (decide _) as [[-> ->]|Hne]; [|done].
      by apply Hfresh in Hx.
    + intros h' i j x. by unfold get_q.
    + simpl. by apply insert_subseteq.
  - rewrite Hget. by rewrite decide_True.
  - intros r' h' x. rewrite Hget. destruct (decide _) as [?|Hne]; [by left | by right].
Qed.

Lemma new_resident_row_step (r : Resident) (t t' : sat_state) :
  new_resident_row r t = Ok t' → registered t →
  registered t' ∧ persist t t' ∧ constraints t' = constraints t ∧ q t' = q t
  ∧ (∀ h x, get_res_match t' (r_uid r) h ≠ Ok x)
  ∧ (∀ r' h x, get_res_match t' r' h = Ok x → get_res_match t r' h = Ok x).
Proof.
  unfold new_resident_row. intros Hrun Hreg.
  apply bind_Ok in Hrun as ([] & Hassert & [= <-]).
  apply py_assert_Ok, negb_true_iff, bool_decide_eq_false in Hassert.
  assert (Hnone : res_match t !! r_uid r = None).
  { destruct (res_match t !! r_uid r) eqn:Hrow; [|done]. exfalso. apply Hassert. by eexists. }
  assert (Hget : ∀ r' h, get_res_match
            (with_res_match (<[r_uid r := ∅]> (res_match t)) t) r' h
            = if decide (r' = r_uid r) then Raise KeyError else get_res_match t r' h).
  { intros r' h. unfold get_res_match, getitem. simpl.
    destruct (decide (r' = r_uid r)) as [->|Hne].
    - rewrite lookup_insert_eq. simpl. by rewrite lookup_empty.
    - by rewrite lookup_insert_ne. }
  destruct Hreg as (H0 & H1 & H2 & H3).
  split; [|split; [|split; [done|split; [done|split]]]].
  - split; [done|]. split; [done|]. split; [|done].
    intros r' h x. rewrite Hget. destruct (decide _); [done|]. apply H2.
  - split; [|split; [done|done]].
    intros r' h x Hx. rewrite Hget. destruct (decide _) as [->|]; [|done].
    unfold get_res_match, getitem in Hx. by rewrite Hnone in Hx.
  - intros h x. rewrite Hget. by rewrite decide_True.
  - intros r' h x. rewrite Hget. by destruct (decide _).
Qed.

Section MatchingShape.
Context `{PySet} (g : Globals) (inst : ProblemInstance).
Hypothesis Hwf : well_formed g inst.

Lemma single_var_step (r : Resident) (l : list Z) (hu : Z) (t t' : sat_state) :
  r ∈ singles inst → r_preference r = Some l → hu ∈ l →
  single_var g r hu t = Ok t' →
  registered t → (∀ x, get_res_match t (r_uid r) hu ≠ Ok x) →
  registered t' ∧ persist t t' ∧ constraints t' = constraints t ∧ q t' = q t
  ∧ (∀ r' h' x, get_res_match t' r' h' = Ok x →
                (r' = r_uid r ∧ h' = hu) ∨ get_res_match t r' h' = Ok x).
Proof.
  intros Hr Hl Hhu Hrun Hreg Hfresh. unfold single_var in Hrun.
  apply bind_Ok in Hrun as (h & Hh & Hrun). apply getitem_Ok in Hh.
  destruct (wf_single_props _ _ Hwf _ Hr) as (_ & l' & Hl' & _ & Hnil).
  assert (l' = l) as -> by congruence.
  destruct (wf_listed_hospital _ _ Hwf _ _ Hh) as (_ & Hu & _); [congruence|].
  rewrite Hu in Hrun.
  destruct (res_var_step _ _ _ _ Hrun Hreg Hfresh) as (? & ? & ? & ? & _ & ?).
  done.
Qed.

Lemma single_vars_step (r : Resident) (seen : list Resident) (t t' : sat_state) :
  r ∈ singles inst → r_uid r ∉ r_uid <$> seen →
  single_vars g r t = Ok t' →
  registered t → x_within t (fun r' _ => r' ∈ r_uid <$> seen) →
  registered t' ∧ x_within t' (fun r' _ => r' ∈ r_uid <$> (seen ++ [r]))
  ∧ persist t t' ∧ q t' = q t ∧ yields (at_least_clause g r) t t'.
Proof.
  intros Hr Hnew Hrun Hreg Hwithin. unfold single_vars in Hrun.
  apply bind_Ok in Hrun as (t0 & Hrow & Hrun).
  apply bind_Ok in Hrun as (l & Hl & Hrun).
  unfold Res.get_ordering, with_preference in Hl.
  destruct (r_preference r) as [l'|] eqn:Hpref; [|done].
  injection Hl as <-. unfold LPF.get_ordering in Hrun.
  apply bind_Ok in Hrun as (t1 & Hloop & Hrun).
  apply bind_Ok in Hrun as (t2 & Hnilvar & Hrun).
  apply bind_Ok in Hrun as (lits & Hlits & Hrun).
  destruct (wf_single_props _ _ Hwf _ Hr) as (_ & l & Hl & Hnd & Hnil).
  assert (l' = l) as -> by congruence.
  destruct (new_resident_row_step _ _ _ Hrow Hreg) as (Hreg0 & Hp0 & Hc0 & Hq0 & Hrow0 & Hold0).
  pose (Inv := fun (doneh : list Z) (u : sat_state) =>
    registered u
    ∧ (∀ r' h' x, get_res_match u r' h' = Ok x →
                  (r' = r_uid r ∧ h' ∈ doneh) ∨ get_res_match t0 r' h' = Ok x)
    ∧ q u = q t0).
  destruct (for_each_quiet (single_var g r) Inv l t0 t1) as ((Hreg1 & Hf1 & Hq1) & Hp1 & Hc1);
    [| unfold Inv; split; [done|]; split; [by right | done] | done |].
  { intros doneh hu rest u u' Hsplit (Hregu & Hfu & Hqu) Hstep.
    assert (Hhu : hu ∈ l) by (rewrite Hsplit; apply elem_of_app; right; left).
    assert (Hfresh : ∀ x, get_res_match u (r_uid r) hu ≠ Ok x).
    { intros x Hx. apply Hfu in Hx as [[_ Hin]|Hx]; [|by apply Hrow0 in Hx].
      rewrite Hsplit in Hnd. apply NoDup_app in Hnd as (_ & Hdis & _).
      apply (Hdis _ Hin). left. }
    destruct (single_var_step _ _ _ _ _ Hr Hl Hhu Hstep Hregu Hfresh)
      as (Hregu' & Hpu & Hcu & Hqu' & Hfu').
    split; [|split; [done|done]]. split; [done|]. split; [|congruence].
    intros r' h' x Hx. apply Hfu' in Hx as [[-> ->]|Hx].
    - left. split; [done|]. apply elem_of_app. right. left.
    - apply Hfu in Hx as [[-> Hin]|Hx]; [|by right].
      left. split; [done|]. apply elem_of_app. by left. }
  unfold nil_var in Hnilvar.
  assert (Hfresh : ∀ x, get_res_match t1 (r_uid r) (h_uid NIL_HOSPITAL) ≠ Ok x).
  { intros x Hx. apply Hf1 in Hx as [[_ Hin]|Hx]; [done|by apply Hrow0 in Hx]. }
  destruct (res_var_step _ _ _ _ Hnilvar Hreg1 Hfresh) as (Hreg2 & Hp2 & Hc2 & Hq2 & _ & Hf2).
  pose proof (append_clause_Ok _ _ _ Hrun) as ->.
  assert (Hext : extends t2 (add_clauses [mkClause lits] t2)) by apply extends_add.
  split; [by apply (extends_registered _ _ Hext)|].
  split; [|split; [|split]].
  - intros r' h' x Hx.
    apply (proj1 (extends_persist _ _ Hext)) in Hx || idtac.
    rewrite (get_res_match_ext t2) in Hx by done.
    apply Hf2 in Hx as [[-> _]|Hx].
    { rewrite fmap_app. apply elem_of_app. right. left. }
    apply Hf1 in Hx as [[-> _]|Hx].
    { rewrite fmap_app. apply elem_of_app. right. left. }
    apply Hold0, Hwithin in Hx. rewrite fmap_app. apply elem_of_app. by left.
  - etrans; [exact Hp0|]. etrans; [exact Hp1|]. etrans; [exact Hp2|].
    by apply extends_persist.
  - simpl. congruence.
  - exists [mkClause lits]. split; [simpl; congruence|].
    exists l, lits. split; [done|]. split; [|done].
    assert (Hlast : lasting (at_least_clause g r)) by apply at_least_clause_lasting.
    destruct (Hlast t2 (add_clauses [mkClause lits] t2) [mkClause lits])
      as (l' & lits' & Hl' & Hlits' & Heq); [by apply extends_persist | by exists l, lits |].
    assert (l' = l) as -> by congruence. by injection Heq as <-.
Qed.

End MatchingShape.

Lemma yields_both (C1 C2 : sat_state → list DIMACSClause → Prop) (t t1 t2 : sat_state) :
  lasting C1 → yields C1 t t1 → persist t1 t2 → yields C2 t1 t2 →
  yields (both C1 C2) t t2.
Proof.
  intros Hlast (c1 & Hc1 & H1) Hp (c2 & Hc2 & H2).
  exists (c1 ++ c2). split; [by rewrite Hc2, Hc1, app_assoc|].
  exists c1, c2. split; [done|]. split; [by eapply Hlast | done].
Qed.

Lemma both_lasting (C1 C2 : sat_state → list DIMACSClause → Prop) :
  lasting C1 → lasting C2 → lasting (both C1 C2).
Proof.
  intros H1 H2 t t' cs Hp (c1 & c2 & -> & Hc1 & Hc2).
  exists c1, c2. split; [done|]. split; [by eapply H1 | by eapply H2].
Qed.

Lemma yields_extends (C : sat_state → list DIMACSClause → Prop) (t : sat_state)
    (cs : list DIMACSClause) :
  lasting C → C t cs → yields C t (add_clauses cs t).
Proof.
  intros Hlast HC. exists cs. split; [done|].
  eapply Hlast; [|done]. apply extends_persist, extends_add.
Qed.

Section MatchingPhase.
Context `{PySet} (g : Globals) (inst : ProblemInstance).
Hypothesis Hwf : well_formed g inst.

Lemma at_most_one_step (r : Resident) (pair : Z * Z) (t t' : sat_state) :
  at_most_one g r pair t = Ok t' →
  extends t t' ∧ yields (at_most_clause g r pair) t t'.
Proof.
  unfold at_most_one. intros Hrun.
  apply bind_Ok in Hrun as (x1 & H1 & Hrun).
  apply bind_Ok in Hrun as (x2 & H2 & Hrun).
  apply append_clause_Ok in Hrun as ->. split; [apply extends_add|].
  apply yields_extends; [apply at_most_clause_lasting|]. by exists x1, x2.
Qed.

Lemma single_at_most_one_step (r : Resident) (t t' : sat_state) :
  single_at_most_one g r t = Ok t' →
  extends t t' ∧ yields (at_most_clauses g r) t t'.
Proof.
  unfold single_at_most_one, Res.get_ordering, with_preference. intros Hrun.
  destruct (r_preference r) as [l|] eqn:Hl; [|done]. simpl in Hrun.
  unfold LPF.get_ordering in Hrun.
  destruct (for_each_yields (at_most_one g r) (fun _ u => extends t u)
              (at_most_clause g r) (combinations2 (l ++ [NIL_HOSPITAL_UID])) t t') as (Hext & _ & cs & Hcs & Hg); try done.
  - intros pair _. apply at_most_clause_lasting.
  - intros seen pair rest u u' _ Hu Hstep.
    destruct (at_most_one_step _ _ _ _ Hstep) as [Hext Hy].
    split; [by etrans|]. split; [by apply extends_persist | done].
  - split; [done|]. exists cs. split; [done|]. by exists l.
Qed.

Lemma matching_clauses_shape (s : sat_state) :
  matching_clauses g inst sat_init = Ok s →
  registered s
  ∧ x_within s (fun r _ => r ∈ r_uid <$> singles inst)
  ∧ q s = ∅
  ∧ yields (both (gathered (at_least_clause g) (singles inst))
                 (gathered (at_most_clauses g) (singles inst))) sat_init s.
Proof.
  unfold matching_clauses. rewrite (wf_couples _ _ Hwf). simpl. intros Hrun.
  apply bind_Ok in Hrun as (s1 & H1 & Hrun).
  apply bind_Ok in Hrun as (s2 & H2 & [= <-]).
  destruct (for_each_yields (single_vars g)
              (fun seen u => registered u
                             ∧ x_within u (fun r _ => r ∈ r_uid <$> seen) ∧ q u = ∅)
              (at_least_clause g) (singles inst) sat_init s1)
    as ((Hreg1 & Hx1 & Hq1) & Hp1 & Hy1); try done.
  { intros r _. apply at_least_clause_lasting. }
  { intros seen r rest u u' Hsplit (Hregu & Hxu & Hqu) Hstep.
    assert (Hr : r ∈ singles inst) by (rewrite Hsplit; apply elem_of_app; right; left).
    assert (Hnew : r_uid r ∉ r_uid <$> seen).
    { pose proof (wf_singles _ _ Hwf) as Hnd. rewrite Hsplit, fmap_app in Hnd.
      apply NoDup_app in Hnd as (_ & Hdis & _). intros Hin.
      apply (Hdis _ Hin). rewrite fmap_cons. left. }
    destruct (single_vars_step g inst Hwf _ _ _ _ Hr Hnew Hstep Hregu Hxu)
      as (Hregu' & Hxu' & Hpu & Hq' & Hyu).
    split; [|split; [exact Hpu | exact Hyu]].
    split; [exact Hregu'|]. split; [exact Hxu'|]. congruence. }
  destruct (for_each_yields (single_at_most_one g) (fun _ u => extends s1 u)
              (at_most_clauses g) (singles inst) s1 s2) as (Hext & Hp2 & Hy2); try done.
  { intros r _. apply at_most_clauses_lasting. }
  { intros seen r rest u u' _ Hu Hstep.
    destruct (single_at_most_one_step _ _ _ Hstep) as [Hext Hy].
    split; [by etrans|]. split; [by apply extends_persist | done]. }
  destruct (extends_tables _ _ Hext) as (Hx & Hq & _).
  split; [by apply (extends_registered _ _ Hext)|].
  split; [|split; [congruence|]].
  - intros r h x. rewrite (get_res_match_ext _ _ _ _ Hx). apply Hx1.
  - eapply yields_both; [|done|done|done].
    apply gathered_lasting. intros r _. apply at_least_clause_lasting.
Qed.

End MatchingPhase.

(** *** The counters *)

Lemma lookup3_insert (m : gmap Z (gmap Z (gmap Z Z))) (qh : gmap Z (gmap Z Z))
    (qhi : gmap Z Z) (h i j x h' i' j' : Z) :
  m !! h = Some qh → qh !! i = Some qhi →
  (a ← getitem (<[h := <[i := <[j := x]> qhi]> qh]> m) h';
   b ← getitem a i'; getitem b j')
  = if decide (h' = h ∧ i' = i ∧ j' = j) then Ok x
    else a ← getitem m h'; b ← getitem a i'; getitem b j'.
Proof.
  intros Hqh Hqhi. unfold getitem. destruct (decide (h' = h)) as [->|Hh].
  - rewrite lookup_insert_eq, Hqh. simpl. destruct (decide (i' = i)) as [->|Hi].
    + rewrite lookup_insert_eq, Hqhi. simpl. destruct (decide (j' = j)) as [->|Hj].
      * rewrite lookup_insert_eq. by rewrite decide_True.
      * rewrite lookup_insert_ne by done. by rewrite decide_False by naive_solver.
    + rewrite lookup_insert_ne by done. by rewrite decide_False by naive_solver.
  - rewrite lookup_insert_ne by done. by rewrite decide_False by naive_solver.
Qed.

(** A new variable of [q], for a key that has no entry. *)
Lemma counter_var_step (h : Hospital) (i j : Z) (t t' : sat_state) :
  counter_var h i j t = Ok t' →
  registered t → (∀ x, get_q t (h_uid h) i j ≠ Ok x) →
  registered t' ∧ persist t t' ∧ constraints t' = constraints t
  ∧ res_match t' = res_match t
  ∧ (∀ h' i' j' x, get_q t' h' i' j' = Ok x →
                   (h' = h_uid h ∧ i' = i ∧ j' = j) ∨ get_q t h' i' j' = Ok x).
Proof.
  intros Hrun Hreg Hfresh. pose proof (registered_fresh _ Hreg) as Hnew.
  destruct Hreg as (H0 & H1 & H2 & H3).
  unfold counter_var, allocate_uid, set_q in Hrun. cbn [q] in Hrun.
  apply bind_Ok in Hrun as (s2 & Hs2 & [= <-]).
  apply bind_Ok in Hs2 as (qh & Hqh & Hs2). apply getitem_Ok in Hqh.
  apply bind_Ok in Hs2 as (qhi & Hqhi & [= <-]). apply getitem_Ok in Hqhi.
  assert (Hget : ∀ h' i' j', get_q
            (register (last_uid t + 1) (q_name (h_uid h) i j)
               (with_q (<[h_uid h := <[i := <[j := last_uid t + 1]> qhi]> qh]> (q t))
                  (mkSat (last_uid t + 1) (variable_registry t) (res_match t) (q t)
                         (cpref t) (constraints t)))) h' i' j'
            = if decide (h' = h_uid h ∧ i' = i ∧ j' = j) then Ok (last_uid t + 1)
              else get_q t h' i' j').
  { intros h' i' j'. unfold get_q. simpl. by apply lookup3_insert. }
  split; [|split; [|split; [done|split; [done|]]]].
  - split; [simpl; lia|]. split; [|split].
    + intros x n. simpl. destruct (decide (x = last_uid t + 1)) as [->|Hne].
      * intros _. lia.
      * rewrite lookup_insert_ne by done. intros Hx%H1. lia.
    + intros r' h' x. unfold get_res_match. simpl. intros Hx.
      pose proof (H2 _ _ _ Hx) as Hn. rewrite lookup_insert_ne; [done|].
      intros <-. by rewrite Hnew in Hn.
    + intros h' i' j' x. rewrite Hget. simpl. destruct (decide _) as [(-> & -> & ->)|Hne].
      * intros [= <-]. by rewrite lookup_insert_eq.
      * intros Hx. pose proof (H3 _ _ _ _ Hx) as Hn. rewrite lookup_insert_ne; [done|].
        intros <-. by rewrite Hnew in Hn.
  - split; [|split].
    + intros r' h' x. by unfold get_res_match.
    + intros h' i' j' x Hx. rewrite Hget.
      destruct (decide _) as [(-> & -> & ->)|Hne]; [|done]. by apply Hfresh in Hx.
    + simpl. by apply insert_subseteq.
  - intros h' i' j' x. rewrite Hget. destruct (decide _) as [?|Hne]; [by left | by right].
Qed.

Lemma new_q_row_step (hu i : Z) (t t' : sat_state) :
  new_q_row hu i t = Ok t' →
  registered t → (∀ j x, get_q t hu i j ≠ Ok x) →
  registered t' ∧ persist t t' ∧ constraints t' = constraints t
  ∧ res_match t' = res_match t
  ∧ (∀ j x, get_q t' hu i j ≠ Ok x)
  ∧ (∀ h' i' j' x, get_q t' h' i' j' = Ok x → get_q t h' i' j' = Ok x).
Proof.
  unfold new_q_row. intros Hrun Hreg Hfresh.
  apply bind_Ok in Hrun as (qh & Hqh & [= <-]). apply getitem_Ok in Hqh.
  assert (Hget : ∀ h' i' j', get_q (with_q (<[hu := <[i := ∅]> qh]> (q t)) t) h' i' j'
            = if decide (h' = hu ∧ i' = i) then Raise KeyError else get_q t h' i' j').
  { intros h' i' j'. unfold get_q, getitem. simpl.
    destruct (decide (h' = hu)) as [->|Hh].
    - rewrite lookup_insert_eq, Hqh. simpl. destruct (decide (i' = i)) as [->|Hi].
      + rewrite lookup_insert_eq. simpl. rewrite lookup_empty. by rewrite decide_True.
      + rewrite lookup_insert_ne by done. by rewrite decide_False by naive_solver.
    - rewrite lookup_insert_ne by done. by rewrite decide_False by naive_solver. }
  destruct Hreg as (H0 & H1 & H2 & H3).
  split; [|split; [|split; [done|split; [done|split]]]].
  - split; [done|]. split; [done|]. split; [done|].
    intros h' i' j' x. rewrite Hget. destruct (decide _); [done|]. apply H3.
  - split; [done|]. split; [|done].
    intros h' i' j' x Hx. rewrite Hget. destruct (decide _) as [[-> ->]|]; [|done].
    by apply Hfresh in Hx.
  - intros j x. rewrite Hget. by rewrite decide_True.
  - intros h' i' j' x. rewrite Hget. by destruct (decide _).
Qed.

Lemma reset_q_step (hu : Z) (t : sat_state) :
  registered t → (∀ i j x, get_q t hu i j ≠ Ok x) →
  let t' := with_q (<[hu := ∅]> (q t)) t in
  registered t' ∧ persist t t' ∧ constraints t' = constraints t
  ∧ res_match t' = res_match t
  ∧ (∀ i j x, get_q t' hu i j ≠ Ok x)
  ∧ (∀ h' i' j' x, get_q t' h' i' j' = Ok x → get_q t h' i' j' = Ok x).
Proof.
  intros Hreg Hfresh t'.
  assert (Hget : ∀ h' i' j', get_q t' h' i' j'
            = if decide (h' = hu) then Raise KeyError else get_q t h' i' j').
  { intros h' i' j'. unfold t', get_q, getitem. simpl.
    destruct (decide (h' = hu)) as [->|Hh].
    - rewrite lookup_insert_eq. simpl. by rewrite lookup_empty.
    - by rewrite lookup_insert_ne by done. }
  destruct Hreg as (H0 & H1 & H2 & H3).
  split; [|split; [|split; [done|split; [done|split]]]].
  - split; [done|]. split; [done|]. split; [done|].
    intros h' i' j' x. rewrite Hget. destruct (decide _); [done|]. apply H3.
  - split; [done|]. split; [|done].
    intros h' i' j' x Hx. rewrite Hget. destruct (decide _) as [->|]; [|done].
    by apply Hfresh in Hx.
  - intros i j x. rewrite Hget. by rewrite decide_True.
  - intros h' i' j' x. rewrite Hget. by destruct (decide _).
Qed.

Lemma NoDup_xrange (n : Z) : NoDup (xrange n).
Proof. apply NoDup_seqZ. Qed.

Lemma NoDup_split_fresh {A} (l seen rest : list A) (a : A) :
  NoDup l → l = seen ++ a :: rest → a ∉ seen.
Proof.
  intros Hnd ->. apply NoDup_app in Hnd as (_ & Hdis & _).
  intros Hin. apply (Hdis _ Hin). left.
Qed.

Section CounterShape.
Variable g : Globals.

Lemma counter_base_step (h : Hospital) (ord : list Z) (t t' : sat_state) :
  counter_base g h ord 1 t = Ok t' →
  extends t t' ∧ yields (base_clauses g h ord) t t'.
Proof.
  unfold counter_base. intros Hrun.
  apply bind_Ok in Hrun as (y & Hy & Hrun).
  apply bind_Ok in Hrun as (q0 & H0 & Hrun).
  apply bind_Ok in Hrun as (q1 & H1 & Hrun).
  apply append_clauses_Ok in Hrun as ->. split; [apply extends_add|].
  apply yields_extends; [apply base_clauses_lasting|]. by exists y, q0, q1.
Qed.

Lemma counter_step_step (h : Hospital) (ord : list Z) (i j : Z) (t t' : sat_state) :
  counter_step g h ord i j t = Ok t' →
  extends t t' ∧ yields (step_clauses g h ord i j) t t'.
Proof.
  unfold counter_step. intros Hrun.
  repeat case_bool_decide.
  - apply bind_Ok in Hrun as (y & Hy & Hrun).
    apply bind_Ok in Hrun as (a & Ha & Hrun).
    apply bind_Ok in Hrun as (p & Hp & Hrun).
    apply append_clauses_Ok in Hrun as ->. split; [apply extends_add|].
    apply yields_extends; [apply step_clauses_lasting|].
    exists y. split; [done|]. rewrite bool_decide_eq_true_2 by done. by exists a, p.
  - apply bind_Ok in Hrun as (y & Hy & Hrun).
    apply bind_Ok in Hrun as (a & Ha & Hrun).
    apply bind_Ok in Hrun as (p & Hp & Hrun).
    apply append_clauses_Ok in Hrun as ->. split; [apply extends_add|].
    apply yields_extends; [apply step_clauses_lasting|].
    exists y. split; [done|]. rewrite bool_decide_eq_false_2 by done.
    rewrite bool_decide_eq_true_2 by done. by exists a, p.
  - apply bind_Ok in Hrun as (y & Hy & Hrun).
    apply bind_Ok in Hrun as (p & Hp & Hrun).
    apply bind_Ok in Hrun as (a & Ha & Hrun).
    apply bind_Ok in Hrun as (p' & Hp' & Hrun).
    apply append_clauses_Ok in Hrun as ->. split; [apply extends_add|].
    apply yields_extends; [apply step_clauses_lasting|].
    exists y. split; [done|]. rewrite !bool_decide_eq_false_2 by done. by exists p, a, p'.
Qed.

Lemma counter_row_step (h : Hospital) (ord : list Z) (i : Z) (t t' : sat_state) :
  counter_row g h ord i t = Ok t' →
  registered t → (∀ j x, get_q t (h_uid h) i j ≠ Ok x) →
  registered t' ∧ persist t t' ∧ res_match t' = res_match t
  ∧ (∀ h' i' j x, get_q t' h' i' j = Ok x →
                  (h' = h_uid h ∧ i' = i ∧ i ≠ 0) ∨ get_q t h' i' j = Ok x)
  ∧ yields (row_clauses g h ord i) t t'.
Proof.
  unfold counter_row. intros Hrun Hreg Hfresh.
  case_bool_decide as Hi0.
  { injection Hrun as <-. split; [done|]. split; [done|]. split; [done|].
    split; [by right|]. exists []. rewrite app_nil_r. split; [done|].
    unfold row_clauses. by rewrite bool_decide_eq_true_2. }
  apply bind_Ok in Hrun as (t0 & Hrow & Hrun).
  apply bind_Ok in Hrun as (t1 & Hvars & Hrun).
  apply bind_Ok in Hrun as (t2 & Hcl & Hrun).
  destruct (new_q_row_step _ _ _ _ Hrow Hreg Hfresh)
    as (Hreg0 & Hp0 & Hc0 & Hx0 & Hfresh0 & Hold0).
  pose (Inv := fun (seen : list Z) (u : sat_state) =>
    registered u ∧ res_match u = res_match t0
    ∧ (∀ h' i' j' x, get_q u h' i' j' = Ok x →
                     (h' = h_uid h ∧ i' = i ∧ j' ∈ seen) ∨ get_q t0 h' i' j' = Ok x)).
  destruct (for_each_quiet (counter_var h i) Inv
              (xrange (Z.min (i + 1) (h_capacity h + 2))) t0 t1)
    as ((Hreg1 & Hx1 & Hf1) & Hp1 & Hc1);
    [| unfold Inv; split; [done|]; split; [done | by right] | done |].
  { intros seen j rest u u' Hsplit (Hregu & Hxu & Hfu) Hstep.
    assert (Hfresh' : ∀ x, get_q u (h_uid h) i j ≠ Ok x).
    { intros x Hx. apply Hfu in Hx as [(_ & _ & Hin)|Hx]; [|by apply Hfresh0 in Hx].
      by apply (NoDup_split_fresh _ _ _ _ (NoDup_xrange _) Hsplit). }
    destruct (counter_var_step _ _ _ _ _ Hstep Hregu Hfresh')
      as (Hregu' & Hpu & Hcu & Hxu' & Hfu').
    split; [|split; [done|done]]. split; [done|]. split; [congruence|].
    intros h' i' j' x Hx. apply Hfu' in Hx as [(-> & -> & ->)|Hx].
    - left. repeat split; try done. apply elem_of_app. right. left.
    - apply Hfu in Hx as [(-> & -> & Hin)|Hx]; [|by right].
      left. repeat split; try done. apply elem_of_app. by left. }
  assert (Hstage : extends t1 t2
    ∧ yields (fun s cs =>
                if bool_decide (i = 1) then base_clauses g h ord s cs
                else gathered (step_clauses g h ord i)
                       (xrange (Z.min (i + 1) (h_capacity h + 2))) s cs) t1 t2).
  { destruct (decide (i = 1)) as [Hi1|Hi1].
    - rewrite (bool_decide_eq_true_2 _ Hi1) in Hcl.
      assert (Hcl' : counter_base g h ord 1 t1 = Ok t2) by (by rewrite <- Hi1 at 1).
      destruct (counter_base_step _ _ _ _ Hcl') as (Hext & cs & Hcs & HC).
      split; [done|]. exists cs. split; [done|].
      by rewrite (bool_decide_eq_true_2 _ Hi1).
    - rewrite (bool_decide_eq_false_2 _ Hi1) in Hcl.
      destruct (for_each_yields (counter_step g h ord i) (fun _ u => extends t1 u)
                  (step_clauses g h ord i)
                  (xrange (Z.min (i + 1) (h_capacity h + 2))) t1 t2)
        as (Hext & _ & cs & Hcs & HC); try done.
      + intros j _. apply step_clauses_lasting.
      + intros seen j rest u u' _ Hu Hstep.
        destruct (counter_step_step _ _ _ _ _ _ Hstep) as [Hext Hy].
        split; [by etrans|]. split; [by apply extends_persist | done].
      + split; [done|]. exists cs. split; [done|].
        by rewrite (bool_decide_eq_false_2 _ Hi1). }
  destruct Hstage as [Hext2 Hy2].
  assert (Hlast2 : lasting (fun s cs =>
                if bool_decide (i = 1) then base_clauses g h ord s cs
                else gathered (step_clauses g h ord i)
                       (xrange (Z.min (i + 1) (h_capacity h + 2))) s cs)).
  { case_bool_decide; [apply base_clauses_lasting|].
    apply gathered_lasting. intros j _. apply step_clauses_lasting. }
  assert (Hlast : extends t2 t' ∧ yields (cap_clauses h i) t2 t').
  { destruct (decide (i >= h_capacity h + 1)) as [Hcap|Hcap].
    - rewrite (bool_decide_eq_true_2 _ Hcap) in Hrun.
      apply bind_Ok in Hrun as (a & Ha & Hrun).
      apply append_clause_Ok in Hrun as ->. split; [apply extends_add|].
      apply yields_extends; [apply cap_clauses_lasting|].
      unfold cap_clauses. rewrite bool_decide_eq_true_2 by done. by exists a.
    - rewrite (bool_decide_eq_false_2 _ Hcap) in Hrun.
      injection Hrun as <-. split; [done|]. exists []. rewrite app_nil_r.
      split; [done|]. unfold cap_clauses. by rewrite bool_decide_eq_false_2. }
  destruct Hlast as [Hext3 Hy3].
  assert (Hext : extends t1 t') by (by etrans).
  destruct (extends_tables _ _ Hext) as (Hxe & Hqe & _).
  split; [by apply (extends_registered _ _ Hext)|].
  split; [|split; [congruence|split]].
  - etrans; [exact Hp0|]. etrans; [exact Hp1|]. by apply extends_persist.
  - intros h' i' j x. rewrite (get_q_same_q _ _ _ _ _ Hqe). intros Hx.
    apply Hf1 in Hx as [(-> & -> & _)|Hx]; [by left|]. right. by apply Hold0.
  - destruct (yields_both _ _ t1 t2 t' Hlast2 Hy2 (extends_persist _ _ Hext3) Hy3)
      as (cs & Hcs & cs1 & cs2 & -> & HC1 & HC2).
    exists (cs1 ++ cs2). split; [congruence|].
    unfold row_clauses. rewrite bool_decide_eq_false_2 by done. by exists cs1, cs2.
Qed.

Lemma counter_hospital_step (h : Hospital) (t t' : sat_state) :
  counter_hospital g h t = Ok t' →
  registered t → (∀ i j x, get_q t (h_uid h) i j ≠ Ok x) →
  registered t' ∧ persist t t' ∧ res_match t' = res_match t
  ∧ (∀ h' i j x, get_q t' h' i j = Ok x →
                 (h' = h_uid h ∧ ∃ ord, h_preference h = Some ord ∧ 1 ≤ i ≤ len ord)
                 ∨ get_q t h' i j = Ok x)
  ∧ yields (hospital_clauses g h) t t'.
Proof.
  unfold counter_hospital, Hosp.get_ordering, with_preference.
  intros Hrun Hreg Hfresh.
  destruct (h_preference h) as [ord|] eqn:Hord; [|done]. simpl in Hrun.
  unfold LPF.get_ordering in Hrun.
  destruct (reset_q_step (h_uid h) t Hreg Hfresh)
    as (Hreg0 & Hp0 & Hc0 & Hx0 & Hfresh0 & Hold0).
  set (t0 := with_q (<[h_uid h := ∅]> (q t)) t) in *.
  pose (Inv := fun (seen : list Z) (u : sat_state) =>
    registered u ∧ res_match u = res_match t0
    ∧ (∀ h' i' j' x, get_q u h' i' j' = Ok x →
                     (h' = h_uid h ∧ i' ∈ seen ∧ i' ≠ 0) ∨ get_q t0 h' i' j' = Ok x)).
  destruct (for_each_yields (counter_row g h ord) Inv (row_clauses g h ord)
              (xrange (len ord + 1)) t0 t')
    as ((Hreg1 & Hx1 & Hf1) & Hp1 & cs & Hcs & Hg);
    [| | unfold Inv; split; [done|]; split; [done | by right] | done |].
  { intros i _. apply row_clauses_lasting. }
  { intros seen i rest u u' Hsplit (Hregu & Hxu & Hfu) Hstep.
    assert (Hfresh' : ∀ j x, get_q u (h_uid h) i j ≠ Ok x).
    { intros j x Hx. apply Hfu in Hx as [(_ & Hin & _)|Hx]; [|by apply Hfresh0 in Hx].
      by apply (NoDup_split_fresh _ _ _ _ (NoDup_xrange _) Hsplit). }
    destruct (counter_row_step _ _ _ _ _ Hstep Hregu Hfresh')
      as (Hregu' & Hpu & Hxu' & Hfu' & Hyu).
    split; [|split; [done|done]]. split; [done|]. split; [congruence|].
    intros h' i' j' x Hx. apply Hfu' in Hx as [(-> & -> & Hne)|Hx].
    - left. repeat split; try done. apply elem_of_app. right. left.
    - apply Hfu in Hx as [(-> & Hin & Hne)|Hx]; [|by right].
      left. repeat split; try done. apply elem_of_app. by left. }
  split; [done|]. split; [by etrans|]. split; [congruence|]. split.
  - intros h' i j x Hx. apply Hf1 in Hx as [(-> & Hin & Hne)|Hx].
    + left. split; [done|]. exists ord. split; [done|].
      apply elem_of_xrange in Hin. lia.
    + right. by apply Hold0.
  - exists cs. split; [by rewrite Hcs|]. by exists ord.
Qed.

Lemma counter_clauses_shape (inst : ProblemInstance) (s s' : sat_state) :
  NoDup (h_uid <$> hospitals inst) →
  counter_clauses g inst s = Ok s' →
  registered s → q_within s (fun _ _ _ => False) →
  registered s' ∧ persist s s' ∧ res_match s' = res_match s
  ∧ q_within s' (fun hu i _ =>
       ∃ h ord, h ∈ hospitals inst ∧ h_uid h = hu ∧ h_preference h = Some ord
                ∧ 1 ≤ i ≤ len ord)
  ∧ yields (gathered (hospital_clauses g) (hospitals inst)) s s'.
Proof.
  unfold counter_clauses. intros Hnd Hrun Hreg Hempty.
  pose (Inv := fun (seen : list Hospital) (u : sat_state) =>
    registered u ∧ res_match u = res_match s
    ∧ q_within u (fun hu i _ =>
        ∃ h ord, h ∈ seen ∧ h_uid h = hu ∧ h_preference h = Some ord
                 ∧ 1 ≤ i ≤ len ord)).
  destruct (for_each_yields (counter_hospital g) Inv (hospital_clauses g)
              (hospitals inst) s s')
    as ((Hreg1 & Hx1 & Hf1) & Hp1 & Hy1);
    [| | unfold Inv; split; [done|]; split; [done|] | done |].
  { intros h _. apply hospital_clauses_lasting. }
  { intros seen h rest u u' Hsplit (Hregu & Hxu & Hfu) Hstep.
    assert (Hfresh : ∀ i j x, get_q u (h_uid h) i j ≠ Ok x).
    { intros i j x Hx. apply Hfu in Hx as (h' & ord & Hin & Hu & _).
      rewrite Hsplit, fmap_app, fmap_cons in Hnd.
      apply NoDup_app in Hnd as (_ & Hdis & _).
      apply (Hdis (h_uid h)); [|left]. rewrite <- Hu. apply list_elem_of_fmap. by exists h'. }
    destruct (counter_hospital_step _ _ _ Hstep Hregu Hfresh)
      as (Hregu' & Hpu & Hxu' & Hfu' & Hyu).
    split; [|split; [done|done]]. split; [done|]. split; [congruence|].
    intros h' i j x Hx. apply Hfu' in Hx as [(-> & ord & Hord & Hi)|Hx].
    - exists h, ord. split; [apply elem_of_app; right; left|done].
    - apply Hfu in Hx as (h'' & ord & Hin & ? & ? & ?).
      exists h'', ord. split; [apply elem_of_app; by left|done]. }
  { intros h i j x Hx. by apply Hempty in Hx. }
  done.
Qed.

End CounterShape.

(** *** Stability, and the whole encoding *)

Section EncodingShape.
Context `{PySet} (g : Globals) (inst : ProblemInstance).
Hypothesis Hwf : well_formed g inst.

Lemma single_stability_step (r : Resident) (hu : Z) (t t' : sat_state) :
  single_stability g r hu t = Ok t' →
  extends t t' ∧ yields (stability_clause g r hu) t t'.
Proof.
  unfold single_stability. intros Hrun.
  apply bind_Ok in Hrun as (h & Hh & Hrun). apply getitem_Ok in Hh.
  apply bind_Ok in Hrun as (wp & Hwp & Hrun).
  apply bind_Ok in Hrun as (lits & Hlits & Hrun).
  apply bind_Ok in Hrun as (lits' & Hlits' & Hrun).
  apply append_clause_Ok in Hrun as ->. split; [apply extends_add|].
  apply yields_extends; [apply stability_clause_lasting|]. by exists h, wp, lits, lits'.
Qed.

Lemma single_stability_all_step (r : Resident) (t t' : sat_state) :
  single_stability_all g r t = Ok t' →
  extends t t' ∧ yields (stability_clauses_of g r) t t'.
Proof.
  unfold single_stability_all, Res.get_ordering, with_preference. intros Hrun.
  destruct (r_preference r) as [l|] eqn:Hl; [|done]. simpl in Hrun.
  unfold LPF.get_ordering in Hrun.
  destruct (for_each_yields (single_stability g r) (fun _ u => extends t u)
              (stability_clause g r) l t t') as (Hext & _ & cs & Hcs & Hg); try done.
  - intros hu _. apply stability_clause_lasting.
  - intros seen hu rest u u' _ Hu Hstep.
    destruct (single_stability_step _ _ _ _ Hstep) as [Hext Hy].
    split; [by etrans|]. split; [by apply extends_persist | done].
  - split; [done|]. exists cs. split; [done|]. by exists l.
Qed.

Lemma solve_sat_encode_shape (s : sat_state) :
  solve_sat_encode g inst = Ok s →
  registered s
  ∧ x_within s (fun r _ => r ∈ r_uid <$> singles inst)
  ∧ q_within s (fun hu i _ =>
       ∃ h ord, h ∈ hospitals inst ∧ h_uid h = hu ∧ h_preference h = Some ord
                ∧ 1 ≤ i ≤ len ord)
  ∧ ∃ c1 c2 c3 c4,
      constraints s = c1 ++ c2 ++ c3 ++ c4
      ∧ gathered (at_least_clause g) (singles inst) s c1
      ∧ gathered (at_most_clauses g) (singles inst) s c2
      ∧ gathered (hospital_clauses g) (hospitals inst) s c3
      ∧ gathered (stability_clauses_of g) (singles inst) s c4.
Proof.
  unfold solve_sat_encode. intros Hrun.
  apply bind_Ok in Hrun as (s1 & H1 & Hrun).
  apply bind_Ok in Hrun as (s2 & H2 & Hrun).
  apply bind_Ok in Hrun as (s3 & H3 & H4).
  unfold cpref_clauses in H3. rewrite (wf_couples _ _ Hwf) in H3. simpl in H3.
  injection H3 as <-.
  unfold stability_clauses in H4. rewrite (wf_couples _ _ Hwf) in H4. simpl in H4.
  apply bind_Ok in H4 as (s4 & H4 & [= ->]).
  destruct (matching_clauses_shape g inst Hwf _ H1) as (Hreg1 & Hx1 & Hq1 & Hy1).
  destruct (counter_clauses_shape g inst s1 s2 (wf_hospitals _ _ Hwf) H2 Hreg1)
    as (Hreg2 & Hp2 & Hx2 & Hq2 & Hy2).
  { intros h i j x Hx. unfold get_q, getitem in Hx. rewrite Hq1 in Hx.
    by rewrite lookup_empty in Hx. }
  destruct (for_each_yields (single_stability_all g) (fun _ u => extends s2 u)
              (stability_clauses_of g) (singles inst) s2 s)
    as (Hext & Hp4 & Hy4); try done.
  { intros r _. apply stability_clauses_of_lasting. }
  { intros seen r rest u u' _ Hu Hstep.
    destruct (single_stability_all_step _ _ _ Hstep) as [Hext Hy].
    split; [by etrans|]. split; [by apply extends_persist | done]. }
  destruct (extends_tables _ _ Hext) as (Hxe & Hqe & _).
  split; [by apply (extends_registered _ _ Hext)|].
  split; [|split].
  - intros r h x. rewrite (get_res_match_ext _ _ _ _ Hxe), (get_res_match_ext _ _ _ _ Hx2).
    apply Hx1.
  - intros h i j x. rewrite (get_q_same_q _ _ _ _ _ Hqe). apply Hq2.
  - assert (Hl1 : lasting (both (gathered (at_least_clause g) (singles inst))
                                (gathered (at_most_clauses g) (singles inst)))).
    { apply both_lasting; apply gathered_lasting; intros r _;
        [apply at_least_clause_lasting | apply at_most_clauses_lasting]. }
    assert (Hl2 : lasting (gathered (hospital_clauses g) (hospitals inst))).
    { apply gathered_lasting. intros h _. apply hospital_clauses_lasting. }
    pose proof (yields_both _ _ _ _ _ Hl1 Hy1 Hp2 Hy2) as Hy12.
    pose proof (yields_both _ _ _ _ _ (both_lasting _ _ Hl1 Hl2) Hy12 Hp4 Hy4) as Hy.
    destruct Hy as (cs & Hcs & c123 & c4 & -> & (c12 & c3 & -> & (c1 & c2 & -> & ? & ?) & ?) & ?).
    exists c1, c2, c3, c4. simpl in Hcs. rewrite Hcs, <- !app_assoc. done.
Qed.

End EncodingShape.

(** *** The values that the verify mode of [solve_sat] assigns *)

Lemma mark_counters_loop (s : sat_state) (h : Hospital) (r : Resident) (ord : list Z)
    (vs0 : verify_state) (st : bool * verify_state) :
  for_each (mark_counters s h r ord) (xrange2 1 (len ord + 1)) (false, vs0) = Ok st →
  h_hash st.2 = h_hash vs0
  ∧ ∀ x, x ∈ value_dict st.2
         ↔ x ∈ value_dict vs0
           ∨ ∃ i, 1 ≤ i ≤ len ord
                  ∧ get_q s (h_uid h) i
                      (indicator (bool_decide (r_uid r ∈ take (Z.to_nat i) ord))) = Ok x.
Proof.
  unfold xrange2, len. replace (Z.of_nat (length ord) + 1 - 1) with (Z.of_nat (length ord)) by lia.
  intros Hrun.
  pose (P := fun (i : Z) (st : bool * verify_state) =>
    st.1 = bool_decide (r_uid r ∈ take (Z.to_nat (i - 1)) ord)
    ∧ h_hash st.2 = h_hash vs0
    ∧ ∀ x, x ∈ value_dict st.2
           ↔ x ∈ value_dict vs0
             ∨ ∃ i', 1 ≤ i' < i
                     ∧ get_q s (h_uid h) i'
                         (indicator (bool_decide (r_uid r ∈ take (Z.to_nat i') ord))) = Ok x).
  assert (Hend : P (1 + Z.of_nat (length ord)) st).
  { apply (for_each_seqZ_ind P _ _ _ _ _ Hrun).
    - unfold P. simpl. split; [done|]. split; [done|].
      intros x. split; [by left|]. intros [?|(i' & ? & _)]; [done|lia].
    - intros i [found vs] st2 Hi (Hfound & Hhh & Hvd) Hstep. simpl in Hfound, Hhh, Hvd.
      unfold mark_counters in Hstep.
      apply bind_Ok in Hstep as (u & Hu & Hstep). apply list_getitem_Ok in Hu.
      assert (Htake : take (Z.to_nat i) ord = take (Z.to_nat (i - 1)) ord ++ [u]).
      { replace (Z.to_nat i) with (S (Z.to_nat (i - 1))) by lia. by apply take_S_r. }
      assert (Hin : bool_decide (r_uid r ∈ take (Z.to_nat i) ord)
                    = bool_decide (u = r_uid r) || found).
      { rewrite Htake, Hfound.
        destruct (bool_decide_reflect (u = r_uid r)),
                 (bool_decide_reflect (r_uid r ∈ take (Z.to_nat (i - 1)) ord)); simpl;
          first [apply bool_decide_eq_true_2 | apply bool_decide_eq_false_2];
          set_solver. }
      assert (Hmark : ∃ x, get_q s (h_uid h) i
                (indicator (bool_decide (r_uid r ∈ take (Z.to_nat i) ord))) = Ok x
              ∧ st2 = (bool_decide (u = r_uid r) || found, set_true x vs)).
      { rewrite Hin. destruct (bool_decide (u = r_uid r)); simpl; [|destruct found; simpl];
          apply bind_Ok in Hstep as (x & Hx & [= <-]); by exists x. }
      destruct Hmark as (x & Hx & ->). unfold P. simpl.
      replace (i + 1 - 1) with i by lia. split; [done|]. split; [done|].
      intros x'. rewrite elem_of_union, elem_of_singleton, Hvd. split.
      + intros [->|[?|(i' & Hi' & Hq)]]; [right | by left | right].
        * exists i. split; [lia|done].
        * exists i'. split; [lia|done].
      + intros [?|(i' & Hi' & Hq)]; [right; by left|].
        destruct (decide (i' = i)) as [->|Hne].
        * left. congruence.
        * right. right. exists i'. split; [lia|done]. }
  destruct Hend as (_ & Hhh & Hvd). split; [done|].
  intros x. rewrite Hvd. split; (intros [?|(i & Hi & Hq)]; [by left|right]);
    exists i; (split; [lia|done]).
Qed.

Section SatValues.
Context (g : Globals) (inst : ProblemInstance) (s : sat_state).
Hypothesis Hwf : well_formed g inst.

Lemma sat_entry_step (e : Z * Z) (vs vs' : verify_state) :
  sat_entry g s e vs = Ok vs' →
  is_Some (hospital_dict g !! e.2) ∧ e.1 ∈ r_uid <$> singles inst
  ∧ (e.2 ≠ NIL_HOSPITAL_UID → e.2 ∉ h_hash vs)
  ∧ (∀ hu, hu ∈ h_hash vs' ↔ hu ∈ h_hash vs ∨ (hu = e.2 ∧ hu ≠ NIL_HOSPITAL_UID))
  ∧ (∀ x, x ∈ value_dict vs' ↔ x ∈ value_dict vs ∨ entry_marks g s e x).
Proof.
  destruct e as [r hu]. unfold sat_entry. cbn [fst snd]. intros Hrun.
  apply bind_Ok in Hrun as (h & Hh & Hrun). apply getitem_Ok in Hh.
  apply bind_Ok in Hrun as (robj & Hr & Hrun).
  apply getitem_Ok, (wf_resident_lookup _ _ Hwf) in Hr as [Hr Hru].
  assert (Hhu : h_uid h = hu).
  { apply (wf_hospital_lookup _ _ Hwf) in Hh as [[-> ->]|[_ ?]]; done. }
  rewrite Hru, Hhu in Hrun.
  apply bind_Ok in Hrun as (x & Hx & Hrun).
  split; [by eexists|]. split; [apply list_elem_of_fmap; by exists robj|].
  destruct (decide (hu = NIL_HOSPITAL_UID)) as [Hnil|Hnil].
  - rewrite bool_decide_eq_false_2 in Hrun by (by intros ?).
    injection Hrun as <-. simpl. split; [done|]. split.
    + intros hu'. split; [by left|]. intros [?|[-> ?]]; done.
    + intros x'. rewrite elem_of_union, elem_of_singleton. unfold entry_marks. simpl.
      split.
      * intros [->|?]; [right; by left | by left].
      * intros [?|[Hx'|[? _]]]; [by right | left; congruence | done].
  - rewrite bool_decide_eq_true_2 in Hrun by done.
    apply bind_Ok in Hrun as ([] & Hassert & Hrun).
    apply py_assert_Ok, negb_true_iff, bool_decide_eq_false in Hassert. simpl in Hassert.
    apply bind_Ok in Hrun as (ord & Hord & Hrun).
    unfold Hosp.get_ordering, with_preference in Hord.
    destruct (h_preference h) as [ord'|] eqn:Hpref; [|done].
    injection Hord as <-. unfold LPF.get_ordering in Hrun.
    apply bind_Ok in Hrun as (st & Hloop & [= <-]).
    apply mark_counters_loop in Hloop as [Hhh Hvd]. simpl in Hhh, Hvd.
    rewrite Hru, Hhu in Hvd.
    split; [done|]. split.
    + intros hu'. rewrite Hhh, elem_of_union, elem_of_singleton. naive_solver.
    + intros x'. rewrite Hvd, elem_of_union, elem_of_singleton. unfold entry_marks. simpl.
      split.
      * intros [[->|?]|(i & Hi & Hq)]; [right; by left | by left |].
        right. right. split; [done|]. by exists h, ord', i.
      * intros [?|[Hx'|(_ & h' & ord & i & Hh' & Hord & Hi & Hq)]];
          [left; by right | left; left; congruence|].
        right. assert (h' = h) as -> by congruence.
        assert (ord = ord') as -> by congruence. by exists i.
Qed.

Lemma sat_entries_spec (ents : list (Z * Z)) (vs0 vs : verify_state) :
  for_each (sat_entry g s) ents vs0 = Ok vs →
  (∀ e, e ∈ ents → is_Some (hospital_dict g !! e.2) ∧ e.1 ∈ r_uid <$> singles inst)
  ∧ (∀ e e', e ∈ ents → e' ∈ ents → e.2 = e'.2 → e.2 ≠ NIL_HOSPITAL_UID → e = e')
  ∧ (∀ hu, hu ∈ ents.*2 → hu ≠ NIL_HOSPITAL_UID → hu ∉ h_hash vs0)
  ∧ (∀ hu, hu ∈ h_hash vs ↔ hu ∈ h_hash vs0 ∨ (hu ∈ ents.*2 ∧ hu ≠ NIL_HOSPITAL_UID))
  ∧ (∀ x, x ∈ value_dict vs ↔ x ∈ value_dict vs0 ∨ ∃ e, e ∈ ents ∧ entry_marks g s e x).
Proof.
  revert vs0. induction ents as [|e ents IH]; intros vs0 Hrun; simpl in Hrun.
  - injection Hrun as <-. split; [intros e []%elem_of_nil|].
    split; [intros e e' []%elem_of_nil|]. split; [intros hu []%elem_of_nil|].
    split; intros y; (split; [by left|]).
    + intros [?|[[]%elem_of_nil _]]; done.
    + intros [?|(e & []%elem_of_nil & _)]; done.
  - apply bind_Ok in Hrun as (vs1 & Hstep & Hrun).
    destruct (sat_entry_step _ _ _ Hstep) as (Hd & Hr & Hnew & Hhh1 & Hvd1).
    destruct (IH _ Hrun) as (Hall & Hnd & Hfresh & Hhh & Hvd).
    split; [|split; [|split; [|split]]].
    + intros e' [->|He']%elem_of_cons; [done | by apply Hall].
    + assert (Hclash : ∀ e', e' ∈ ents → e.2 = e'.2 → e.2 ≠ NIL_HOSPITAL_UID → False).
      { intros e' He' Heq Hne. apply (Hfresh e'.2).
        - apply list_elem_of_fmap. by exists e'.
        - congruence.
        - apply Hhh1. right. split; congruence. }
      intros e1 e2 [->|H1]%elem_of_cons [->|H2]%elem_of_cons Heq Hne.
      * done.
      * by destruct (Hclash _ H2 Heq Hne).
      * destruct (Hclash _ H1); congruence.
      * by apply Hnd.
    + intros hu. rewrite fmap_cons. intros [->|Hin]%elem_of_cons Hne; [by apply Hnew|].
      intros Hhu. apply (Hfresh _ Hin Hne). apply Hhh1. by left.
    + intros hu. rewrite Hhh, Hhh1, fmap_cons, elem_of_cons. naive_solver.
    + intros x. rewrite Hvd, Hvd1. split.
      * intros [[?|?]|(e' & He' & ?)]; [by left | right; exists e; split; [left|done] |].
        right. exists e'. split; [by right|done].
      * intros [?|(e' & [->|He']%elem_of_cons & ?)]; [left; by left | left; by right|].
        right. by exists e'.
Qed.

Lemma mark_empty_step (h : Hospital) (vs vs' : verify_state) :
  mark_empty s h vs = Ok vs' →
  h_hash vs' = h_hash vs
  ∧ ∀ x, x ∈ value_dict vs' ↔ x ∈ value_dict vs ∨ empty_marks s (h_hash vs) h x.
Proof.
  unfold mark_empty. intros Hrun.
  destruct (decide (h_uid h ∈ h_hash vs)) as [Hin|Hout].
  - rewrite bool_decide_eq_true_2 in Hrun by done. injection Hrun as <-.
    split; [done|]. intros x. split; [by left|]. intros [?|[? _]]; done.
  - rewrite bool_decide_eq_false_2 in Hrun by done. simpl in Hrun.
    apply bind_Ok in Hrun as (ord & Hord & Hrun).
    unfold Hosp.get_ordering, with_preference in Hord.
    destruct (h_preference h) as [ord'|] eqn:Hpref; [|done].
    injection Hord as <-. unfold LPF.get_ordering in Hrun.
    unfold xrange2, len in Hrun.
    replace (Z.of_nat (length ord') + 1 - 1) with (Z.of_nat (length ord')) in Hrun by lia.
    pose (P := fun (i : Z) (u : verify_state) =>
      h_hash u = h_hash vs
      ∧ ∀ x, x ∈ value_dict u
             ↔ x ∈ value_dict vs ∨ ∃ i', 1 ≤ i' < i ∧ get_q s (h_uid h) i' 0 = Ok x).
    assert (Hend : P (1 + Z.of_nat (length ord')) vs').
    { apply (for_each_seqZ_ind P _ _ _ _ _ Hrun).
      - split; [done|]. intros x. split; [by left|]. intros [?|(i' & ? & _)]; [done|lia].
      - intros i u u' Hi (Hhh & Hvd) Hstep.
        apply bind_Ok in Hstep as (x & Hx & [= <-]). split; [done|].
        intros x'. simpl. rewrite elem_of_union, elem_of_singleton, Hvd. split.
        + intros [->|[?|(i' & Hi' & Hq)]]; [right | by left | right].
          * exists i. split; [lia|done].
          * exists i'. split; [lia|done].
        + intros [?|(i' & Hi' & Hq)]; [right; by left|].
          destruct (decide (i' = i)) as [->|Hne].
          * left. congruence.
          * right. right. exists i'. split; [lia|done]. }
    destruct Hend as [Hhh Hvd]. split; [done|].
    intros x. rewrite Hvd. unfold empty_marks, len. split.
    + intros [?|(i & Hi & Hq)]; [by left|]. right. split; [done|].
      exists ord', i. split; [done|]. split; [lia|done].
    + intros [?|(_ & ord & i & Hord & Hi & Hq)]; [by left|]. right.
      assert (ord = ord') as -> by congruence. exists i. split; [lia|done].
Qed.

Lemma mark_empty_loop (hs : list Hospital) (vs vs' : verify_state) :
  for_each (mark_empty s) hs vs = Ok vs' →
  h_hash vs' = h_hash vs
  ∧ ∀ x, x ∈ value_dict vs'
         ↔ x ∈ value_dict vs ∨ ∃ h, h ∈ hs ∧ empty_marks s (h_hash vs) h x.
Proof.
  revert vs. induction hs as [|h hs IH]; intros vs Hrun; simpl in Hrun.
  - injection Hrun as <-. split; [done|]. intros x. split; [by left|].
    intros [?|(h & []%elem_of_nil & _)]; done.
  - apply bind_Ok in Hrun as (vs1 & Hstep & Hrun).
    destruct (mark_empty_step _ _ _ Hstep) as [Hhh1 Hvd1].
    destruct (IH _ Hrun) as [Hhh Hvd]. split; [congruence|].
    intros x. rewrite Hvd, Hvd1, Hhh1. split.
    + intros [[?|?]|(h' & Hh' & ?)]; [by left | right; exists h; split; [left|done] |].
      right. exists h'. split; [by right|done].
    + intros [?|(h' & [->|Hh']%elem_of_cons & ?)]; [left; by left | left; by right|].
      right. by exists h'.
Qed.

End SatValues.

(** *** The values say what the matching says *)

Lemma occupants_among_unique (m : gmap Z Z) (hu r : Z) (l : list Z) :
  NoDup l → (∀ u, assigned m u = hu ↔ u = r) →
  occupants_among m hu l = indicator (bool_decide (r ∈ l)).
Proof.
  intros Hnd Hone. induction Hnd as [|u l Hu Hnd IH].
  - by rewrite occupants_among_nil.
  - rewrite occupants_among_cons, IH.
    destruct (decide (u = r)) as [->|Hne].
    + rewrite (bool_decide_eq_true_2 (assigned m r = hu)) by (by apply Hone).
      rewrite (bool_decide_eq_false_2 (r ∈ l)) by done.
      rewrite (bool_decide_eq_true_2 (r ∈ r :: l)) by left. done.
    + rewrite (bool_decide_eq_false_2 (assigned m u = hu))
        by (intros Hm; by apply Hone in Hm).
      cbn [indicator]. rewrite Z.add_0_l. f_equal. apply bool_decide_ext.
      rewrite elem_of_cons. naive_solver.
Qed.

Lemma occupants_among_none (m : gmap Z Z) (hu : Z) (l : list Z) :
  (∀ u, assigned m u ≠ hu) → occupants_among m hu l = 0.
Proof.
  intros Hnone. induction l as [|u l IH]; [done|].
  rewrite occupants_among_cons, IH.
  by rewrite bool_decide_eq_false_2 by apply Hnone.
Qed.

Section Natural.
Context (g : Globals) (inst : ProblemInstance) (s : sat_state).
Context (ents : list (Z * Z)) (vd hh : gset Z).
Hypothesis Hwf : well_formed g inst.
Hypothesis Hreg : registered s.
Hypothesis Hxw : x_within s (fun r _ => r ∈ r_uid <$> singles inst).
Hypothesis Hqw : q_within s (fun hu i _ =>
  ∃ h ord, h ∈ hospitals inst ∧ h_uid h = hu ∧ h_preference h = Some ord
           ∧ 1 ≤ i ≤ len ord).
Hypothesis Hnd : NoDup ents.*1.
Hypothesis Hfile : ∀ r, r ∈ singles inst →
  is_Some ((list_to_map ents : gmap Z Z) !! r_uid r).
Hypothesis Hone : ∀ e e', e ∈ ents → e' ∈ ents → e.2 = e'.2 →
  e.2 ≠ NIL_HOSPITAL_UID → e = e'.
Hypothesis Hhh : ∀ hu, hu ∈ hh ↔ hu ∈ ents.*2 ∧ hu ≠ NIL_HOSPITAL_UID.
Hypothesis Hvd : ∀ x, x ∈ vd
  ↔ (∃ e, e ∈ ents ∧ entry_marks g s e x)
    ∨ ∃ h, h ∈ hospitals inst ∧ empty_marks s hh h x.

Lemma same_hospital (h h' : Hospital) :
  h ∈ hospitals inst → h' ∈ hospitals inst → h_uid h = h_uid h' → h = h'.
Proof.
  intros Hh Hh' Hu. apply (wf_hospital_registered _ _ Hwf) in Hh, Hh'.
  rewrite Hu in Hh. congruence.
Qed.

Lemma assigned_entry (r hu : Z) :
  assigned (list_to_map ents) r = hu → hu ≠ NIL_HOSPITAL_UID → (r, hu) ∈ ents.
Proof.
  unfold assigned. intros Ha Hne.
  destruct (list_to_map ents !! r) as [hu'|] eqn:Hm; simpl in Ha; [|congruence].
  subst hu'. by apply elem_of_list_to_map in Hm.
Qed.

Lemma entry_assigned (r hu : Z) :
  (r, hu) ∈ ents → assigned (list_to_map ents) r = hu.
Proof.
  intros He. apply (elem_of_list_to_map (M := gmap Z)) in He; [|done].
  unfold assigned. by rewrite He.
Qed.

Lemma values_natural : natural inst s (list_to_map ents) (valuation vd).
Proof.
  split.
  - intros r h x Hx. unfold valuation. rewrite bool_decide_eq_true, Hvd. split.
    + intros [([r' hu'] & He & [Hx'|(_ & h' & ord & i & _ & _ & _ & Hq)])
             |(h' & _ & _ & ord & i & _ & _ & Hq)].
      * simpl in Hx'. destruct (registered_inj_x _ _ _ _ _ _ Hreg Hx Hx') as [-> ->].
        by apply entry_assigned.
      * by destruct (registered_x_q _ _ _ _ _ _ _ Hreg Hx Hq).
      * by destruct (registered_x_q _ _ _ _ _ _ _ Hreg Hx Hq).
    + intros Ha. left. exists (r, h). split; [|by left].
      pose proof (Hxw _ _ _ Hx) as (robj & -> & Hr)%list_elem_of_fmap.
      destruct (Hfile _ Hr) as [hu Hm].
      pose proof Hm as He. apply elem_of_list_to_map in He; [|done].
      unfold assigned in Ha. rewrite Hm in Ha. simpl in Ha. by subst hu.
  - intros h ord i j a Hh Hord Ha.
    destruct (Hqw _ _ _ _ Ha) as (h' & ord' & Hh' & Hu & Hord' & Hi).
    assert (h' = h) as -> by (by apply same_hospital).
    assert (ord' = ord) as -> by congruence.
    destruct (wf_hospital_props _ _ Hwf _ Hh) as (Hnn & _ & _ & ord' & Hord'' & Hndo).
    assert (ord' = ord) as -> by congruence.
    assert (Hndt : NoDup (take (Z.to_nat i) ord)).
    { eapply sublist_NoDup; [done | apply sublist_take]. }
    pose proof (wf_hospital_registered _ _ Hwf _ Hh) as Hdict.
    unfold valuation. rewrite bool_decide_eq_true, Hvd.
    destruct (decide (h_uid h ∈ ents.*2)) as [Hin|Hout].
    + apply list_elem_of_fmap in Hin as ([r hu] & Heq & He). simpl in Heq. subst hu.
      assert (Huniq : ∀ u, assigned (list_to_map ents) u = h_uid h ↔ u = r).
      { intros u. split.
        - intros Hu'. apply assigned_entry in Hu'; [|done].
          by pose proof (Hone _ _ Hu' He eq_refl Hnn) as [= ->].
        - intros ->. by apply entry_assigned. }
      rewrite (occupants_among_unique _ _ r) by done. split.
      * intros [([r' hu'] & He' & [Hx'|(Hne' & h' & ord' & i' & Hh'' & Hord2 & Hi' & Hq)])
               |(h' & Hh'' & Hnot & ord' & i' & _ & _ & Hq)].
        -- by destruct (registered_x_q _ _ _ _ _ _ _ Hreg Hx' Ha).
        -- simpl in *. destruct (registered_inj_q _ _ _ _ _ _ _ _ Hreg Ha Hq) as (<- & <- & ->).
           pose proof (Hone _ _ He' He eq_refl Hne') as [= ->].
           assert (h' = h) as -> by congruence. by assert (ord' = ord) as -> by congruence.
        -- destruct (registered_inj_q _ _ _ _ _ _ _ _ Hreg Ha Hq) as (Hu' & _).
           exfalso. apply Hnot. rewrite <- Hu'. apply Hhh. split; [|done].
           apply list_elem_of_fmap. by exists (r, h_uid h).
      * intros <-. left. exists (r, h_uid h). split; [done|]. right.
        split; [done|]. by exists h, ord, i.
    + assert (Hnone : ∀ u, assigned (list_to_map ents) u ≠ h_uid h).
      { intros u Hu'. apply assigned_entry in Hu'; [|done].
        apply Hout. apply list_elem_of_fmap. by exists (u, h_uid h). }
      rewrite (occupants_among_none _ _ _ Hnone). split.
      * intros [([r' hu'] & He' & [Hx'|(Hne' & h' & ord' & i' & Hh'' & Hord2 & Hi' & Hq)])
               |(h' & Hh'' & Hnot & ord' & i' & _ & _ & Hq)].
        -- by destruct (registered_x_q _ _ _ _ _ _ _ Hreg Hx' Ha).
        -- simpl in *. destruct (registered_inj_q _ _ _ _ _ _ _ _ Hreg Ha Hq) as (<- & _).
           exfalso. apply Hout. apply list_elem_of_fmap. by exists (r', h_uid h).
        -- by destruct (registered_inj_q _ _ _ _ _ _ _ _ Hreg Ha Hq) as (_ & _ & ->).
      * intros <-. right. exists h. split; [done|]. split.
        -- rewrite Hhh. by intros [? _].
        -- by exists ord, i.
Qed.

End Natural.
(** *** The clauses under the values of the verify mode *)

(** On the line of a clause, [eval_str_clause] computes the truth of the
    clause. *)
Lemma eval_str_clause_line (vd : gset Z) (lits : list Z) :
  Forall (fun lit => lit ≠ 0) lits →
  eval_str_clause vd (lits ++ [0]) = existsb (lit_true (valuation vd)) lits.
Proof.
  induction 1 as [|lit lits Hlit _ IH]; [done|].
  cbn [app eval_str_clause existsb]. rewrite IH.
  rewrite (bool_decide_eq_false_2 (lit = 0)) by done.
  generalize (existsb (lit_true (valuation vd)) lits). intros rest.
  unfold lit_true, valuation.
  destruct (decide (0 < lit)) as [Hpos|Hneg].
  - rewrite (bool_decide_eq_true_2 (0 < lit)), (bool_decide_eq_true_2 (lit > 0)) by lia.
    rewrite (bool_decide_eq_false_2 (lit < 0)) by lia. simpl.
    by destruct (bool_decide (lit ∈ vd)).
  - rewrite (bool_decide_eq_false_2 (0 < lit)), (bool_decide_eq_false_2 (lit > 0)) by lia.
    rewrite (bool_decide_eq_true_2 (lit < 0)) by lia. simpl.
    by destruct (bool_decide (- lit ∈ vd)).
Qed.

Lemma passes_lits (vd : gset Z) (lits : list Z) :
  Forall (fun lit => lit ≠ 0) lits →
  passes vd (mkClause lits) ↔ existsb (lit_true (valuation vd)) lits = true.
Proof.
  intros Hl. unfold passes, line_numbers. simpl. by rewrite eval_str_clause_line.
Qed.

(** A clause of variables, none negated. *)
Lemma passes_vars (vd : gset Z) (xs : list Z) :
  Forall (fun x => 0 < x) xs →
  passes vd (mkClause xs) ↔ ∃ x, x ∈ xs ∧ valuation vd x = true.
Proof.
  intros Hpos. rewrite passes_lits by (eapply Forall_impl; [done | simpl; lia]).
  induction Hpos as [|x xs Hx _ IH]; simpl.
  - split; [done | intros (x & []%elem_of_nil & _)].
  - rewrite lit_true_pos, orb_true_iff, IH by done. split.
    + intros [Hv|(x' & Hin & Hv)].
      * exists x. split; [left | assumption].
      * exists x'. split; [by right | assumption].
    + intros (x' & [->|Hin]%elem_of_cons & Hv).
      * by left.
      * right. by exists x'.
Qed.

Lemma filter_nil_Forall {A} (P : A → Prop) `{∀ x, Decision (P x)} (l : list A) :
  filter P l = [] ↔ Forall (fun x => ¬ P x) l.
Proof.
  induction l as [|x l IH]; [done|]. rewrite filter_cons, Forall_cons.
  destruct (decide (P x)) as [HP|HP].
  - split; [done|]. by intros [? _].
  - rewrite IH. naive_solver.
Qed.

Lemma not_printed_passes (vd : gset Z) (cs : list DIMACSClause) :
  filter (fun c => eval_str_clause vd (line_numbers c) = false) cs = []
  ↔ Forall (passes vd) cs.
Proof.
  rewrite filter_nil_Forall. apply Forall_proper; [|done].
  intros c. unfold passes. by destruct (eval_str_clause vd (line_numbers c)).
Qed.

Lemma gathered_Forall {A} (C : A → sat_state → list DIMACSClause → Prop)
    (P : DIMACSClause → Prop) (Q : A → Prop) (l : list A) (s : sat_state)
    (cs : list DIMACSClause) :
  gathered C l s cs →
  (∀ a bs, a ∈ l → C a s bs → (Forall P bs ↔ Q a)) →
  (Forall P cs ↔ ∀ a, a ∈ l → Q a).
Proof.
  intros (css & -> & Hall) Hsem.
  by apply (Forall2_concat_Forall (fun a cs' => C a s cs') P Q).
Qed.

Lemma gathered_Forall_all {A} (C : A → sat_state → list DIMACSClause → Prop)
    (P : DIMACSClause → Prop) (l : list A) (s : sat_state) (cs : list DIMACSClause) :
  gathered C l s cs → (∀ a bs, a ∈ l → C a s bs → Forall P bs) → Forall P cs.
Proof.
  intros Hg Hsem. apply (gathered_Forall C P (fun _ => True) l s cs Hg); [|done].
  intros a bs Ha HC. split; [done|]. intros _. by apply (Hsem a).
Qed.

Lemma bool_is_decide (b : bool) (P : Prop) `{Decision P} :
  (b = true ↔ P) → b = bool_decide P.
Proof.
  intros Hb. destruct b.
  - symmetry. apply bool_decide_eq_true_2. by apply Hb.
  - symmetry. apply bool_decide_eq_false_2. intros HP. by apply Hb in HP.
Qed.

(** *** Counting along the list of a hospital *)

Lemma occupants_among_take_step (m : gmap Z Z) (hu : Z) (ord : list Z) (i u : Z) :
  1 ≤ i → ord !! Z.to_nat (i - 1) = Some u →
  occupants_among m hu (take (Z.to_nat i) ord)
  = occupants_among m hu (take (Z.to_nat (i - 1)) ord)
    + indicator (bool_decide (assigned m u = hu)).
Proof.
  intros Hi Hu. replace (Z.to_nat i) with (S (Z.to_nat (i - 1))) by lia.
  rewrite (take_S_r _ _ _ Hu), occupants_among_app, occupants_among_cons,
    occupants_among_nil. lia.
Qed.

Lemma occupants_among_take_bounds (m : gmap Z Z) (hu : Z) (ord : list Z) (k : nat) :
  0 ≤ occupants_among m hu (take k ord) ≤ Z.of_nat k
  ∧ occupants_among m hu (take k ord) ≤ occupants_among m hu ord.
Proof.
  pose proof (occupants_among_bounds m hu (take k ord)) as Hb.
  pose proof (occupants_among_bounds m hu (drop k ord)) as Hd.
  unfold len in Hb. rewrite length_take in Hb.
  rewrite <- (take_drop k ord) at 4. rewrite occupants_among_app. lia.
Qed.

(** The count takes every value up to its last on the way. *)
Lemma occupants_among_reaches (m : gmap Z Z) (hu : Z) (ord : list Z) (k : Z) :
  0 ≤ k ≤ occupants_among m hu ord →
  ∃ i : nat, (i ≤ length ord)%nat ∧ occupants_among m hu (take i ord) = k.
Proof.
  induction ord as [|u ord IH] using rev_ind; intros Hk.
  - exists 0%nat. rewrite occupants_among_nil in Hk. simpl.
    rewrite occupants_among_nil. split; [done|lia].
  - rewrite occupants_among_app, occupants_among_cons, occupants_among_nil in Hk.
    destruct (decide (k ≤ occupants_among m hu ord)) as [Hle|Hgt].
    + destruct IH as (i & Hi & Hocc); [lia|]. exists i.
      rewrite length_app, take_app_le by done. split; [lia|done].
    + exists (length (ord ++ [u])). split; [done|].
      rewrite firstn_all, occupants_among_app, occupants_among_cons,
        occupants_among_nil.
      destruct (bool_decide (assigned m u = hu)); simpl in *; lia.
Qed.

Lemma combinations2_distinct {A} (l : list A) (a b : A) :
  NoDup l → (a, b) ∈ combinations2 l → a ≠ b.
Proof.
  induction 1 as [|x l Hx Hnd IH]; simpl; [by intros ?%elem_of_nil|].
  rewrite elem_of_app, list_elem_of_fmap.
  intros [(y & [= -> ->] & Hy)|Hin]; [by intros -> | by apply IH].
Qed.

(** *** The variables under values that say what the matching says *)

Section ClauseValues.
Context (g : Globals) (inst : ProblemInstance) (s : sat_state).
Context (m : gmap Z Z) (vd : gset Z).
Hypothesis Hwf : well_formed g inst.
Hypothesis Hreg : registered s.
Hypothesis Hnat : natural inst s m (valuation vd).

Lemma x_value (r h x : Z) :
  get_res_match s r h = Ok x →
  0 < x ∧ valuation vd x = bool_decide (assigned m r = h).
Proof.
  intros Hx. split; [by apply (proj1 (registered_positive s x Hreg) r h)|].
  apply bool_is_decide. by apply (proj1 Hnat).
Qed.

Lemma q_value (h : Hospital) (ord : list Z) (i j a : Z) :
  h ∈ hospitals inst → h_preference h = Some ord →
  get_q s (h_uid h) i j = Ok a →
  0 < a
  ∧ valuation vd a
    = bool_decide (occupants_among m (h_uid h) (take (Z.to_nat i) ord) = j).
Proof.
  intros Hh Hord Ha. split; [by apply (proj2 (registered_positive s a Hreg) (h_uid h) i j)|].
  apply bool_is_decide. by apply (proj2 Hnat).
Qed.

Lemma match_var_value (r : Resident) (hu x : Z) :
  match_var g s r hu = Ok x →
  0 < x ∧ valuation vd x = bool_decide (assigned m (r_uid r) = hu).
Proof.
  unfold match_var. intros (h & Hh%getitem_Ok & Hx)%bind_Ok.
  assert (h_uid h = hu) as <-.
  { by apply (wf_hospital_lookup _ _ Hwf) in Hh as [[-> ->]|[_ ?]]. }
  by apply x_value.
Qed.

Lemma y_var_value (h : Hospital) (ord : list Z) (i y : Z) :
  y_var g s h ord i = Ok y →
  ∃ u, ord !! Z.to_nat (i - 1) = Some u ∧ 0 < y
       ∧ valuation vd y = bool_decide (assigned m u = h_uid h).
Proof.
  unfold y_var. intros (u & Hu%list_getitem_Ok & Hy)%bind_Ok.
  apply bind_Ok in Hy as (r & Hr%getitem_Ok & Hy).
  apply (wf_resident_lookup _ _ Hwf) in Hr as [_ Hr]. rewrite Hr in Hy.
  exists u. split; [done|]. by apply x_value.
Qed.

Lemma match_vars_value (r : Resident) (l lits : list Z) :
  comprehension (match_var g s r) l = Ok lits →
  Forall (fun x => 0 < x) lits
  ∧ ((∃ x, x ∈ lits ∧ valuation vd x = true) ↔ assigned m (r_uid r) ∈ l).
Proof.
  revert lits. induction l as [|hu l IH]; intros lits Hc; simpl in Hc.
  - injection Hc as <-. split; [done|]. split.
    + intros (x & []%elem_of_nil & _).
    + intros []%elem_of_nil.
  - apply bind_Ok in Hc as (x & Hx & Hc). apply bind_Ok in Hc as (xs & Hxs & [= <-]).
    destruct (match_var_value _ _ _ Hx) as [Hpos Hv].
    destruct (IH _ Hxs) as [Hall Hiff]. split; [by constructor|].
    rewrite elem_of_cons, <- Hiff. split.
    + intros (x' & [->|Hin]%elem_of_cons & Hv').
      * left. rewrite Hv in Hv'. by apply bool_decide_eq_true in Hv'.
      * right. by exists x'.
    + intros [Heq|(x' & Hin & Hv')].
      * exists x. split; [left|]. rewrite Hv. by apply bool_decide_eq_true.
      * exists x'. split; [by right | assumption].
Qed.

(** *** The clauses of the matching *)

Lemma at_least_value (r : Resident) (cs : list DIMACSClause) :
  at_least_clause g r s cs →
  (Forall (passes vd) cs
   ↔ ∀ l, r_preference r = Some l → assigned m (r_uid r) ∈ l ++ [NIL_HOSPITAL_UID]).
Proof.
  intros (l & lits & Hl & Hlits & ->). unfold at_least_one in Hlits.
  apply bind_Ok in Hlits as (xs & Hxs & Hlits).
  apply bind_Ok in Hlits as (x & Hx & [= <-]).
  destruct (match_vars_value _ _ _ Hxs) as [Hpos Hiff].
  destruct (x_value _ _ _ Hx) as [Hxpos Hxv].
  rewrite Forall_singleton, passes_vars
    by (apply Forall_app; split; [done | by constructor]).
  transitivity (assigned m (r_uid r) ∈ l ++ [NIL_HOSPITAL_UID]).
  - rewrite elem_of_app, <- Hiff, list_elem_of_singleton. split.
    + intros (x' & [Hin| ->%list_elem_of_singleton]%elem_of_app & Hv).
      * left. by exists x'.
      * right. rewrite Hxv in Hv. by apply bool_decide_eq_true in Hv.
    + intros [(x' & Hin & Hv)|Heq].
      * exists x'. split; [apply elem_of_app; by left | assumption].
      * exists x. split; [apply elem_of_app; right; by left|].
        rewrite Hxv. by apply bool_decide_eq_true.
  - split; [intros Hin l' Hl'; congruence | intros Hq; by apply Hq].
Qed.

Lemma at_most_value (r : Resident) (cs : list DIMACSClause) :
  r ∈ singles inst → at_most_clauses g r s cs → Forall (passes vd) cs.
Proof.
  intros Hr (l & Hl & Hg).
  destruct (wf_single_props _ _ Hwf _ Hr) as (_ & l' & Hl' & Hnd & Hnil).
  assert (l' = l) as -> by congruence.
  apply (gathered_Forall_all _ _ _ _ _ Hg).
  intros [h1 h2] bs Hin (x1 & x2 & Hx1 & Hx2 & ->). simpl in *.
  assert (Hne : h1 ≠ h2).
  { apply (combinations2_distinct _ _ _) in Hin; [done|].
    apply NoDup_app. repeat split; [done | | apply NoDup_singleton].
    intros x Hx ->%list_elem_of_singleton. done. }
  destruct (match_var_value _ _ _ Hx1) as [Hp1 Hv1].
  destruct (match_var_value _ _ _ Hx2) as [Hp2 Hv2].
  apply Forall_singleton, passes_lits; [repeat constructor; lia|].
  simpl. rewrite !lit_true_neg, Hv1, Hv2 by done.
  repeat case_bool_decide; simpl; congruence.
Qed.

(** *** The clauses of the counters *)

(** Closes the clauses of a counter: each is a tautology of counting. *)
Ltac counting_clauses :=
  simpl; repeat apply Forall_cons_2; try apply Forall_nil_2;
  (apply passes_lits; [repeat apply Forall_cons_2; try apply Forall_nil_2; lia|]);
  simpl; rewrite ?lit_true_neg by done; rewrite ?lit_true_pos by done;
  repeat match goal with
         | H : valuation _ ?x = _ |- context [valuation _ ?x] => rewrite H
         end;
  repeat match goal with H : valuation _ _ = _ |- _ => clear H end;
  repeat case_bool_decide; simpl in *; try done; lia.

Lemma base_value (h : Hospital) (ord : list Z) (cs : list DIMACSClause) :
  h ∈ hospitals inst → h_preference h = Some ord →
  base_clauses g h ord s cs → Forall (passes vd) cs.
Proof.
  intros Hh Hord (y & q0 & q1 & Hy & Hq0 & Hq1 & ->).
  destruct (y_var_value _ _ _ _ Hy) as (u & Hu & Hyp & Hyv).
  destruct (q_value _ _ _ _ _ Hh Hord Hq0) as [Hp0 Hv0].
  destruct (q_value _ _ _ _ _ Hh Hord Hq1) as [Hp1 Hv1].
  pose proof (occupants_among_take_step m (h_uid h) ord 1 u ltac:(lia) Hu) as Hstep.
  change (take (Z.to_nat (1 - 1)) ord) with (@nil Z) in Hstep.
  rewrite occupants_among_nil in Hstep. rewrite Hstep in Hv0, Hv1.
  clear Hstep.
  destruct (decide (assigned m u = h_uid h)) as [Hm|Hm];
    [rewrite (bool_decide_eq_true_2 _ Hm) in Hyv, Hv0, Hv1
    |rewrite (bool_decide_eq_false_2 _ Hm) in Hyv, Hv0, Hv1];
    counting_clauses.
Qed.

Lemma step_value (h : Hospital) (ord : list Z) (i j : Z) (cs : list DIMACSClause) :
  h ∈ hospitals inst → h_preference h = Some ord → 2 ≤ i → 0 ≤ j ≤ i →
  step_clauses g h ord i j s cs → Forall (passes vd) cs.
Proof.
  intros Hh Hord Hi Hj (y & Hy & Hcs).
  destruct (y_var_value _ _ _ _ Hy) as (u & Hu & Hyp & Hyv).
  pose proof (occupants_among_take_step m (h_uid h) ord i u ltac:(lia) Hu) as Hstep.
  pose proof (occupants_among_take_bounds m (h_uid h) ord (Z.to_nat (i - 1))) as [Hb _].
  destruct (decide (j = 0)) as [Hj0|Hj0].
  - rewrite (bool_decide_eq_true_2 _ Hj0) in Hcs.
    destruct Hcs as (a & p & Ha & Hp & ->).
    destruct (q_value _ _ _ _ _ Hh Hord Ha) as [Hap Hav].
    destruct (q_value _ _ _ _ _ Hh Hord Hp) as [Hpp Hpv].
    rewrite Hstep in Hav. clear Hstep. revert Hb Hav Hpv.
    generalize (occupants_among m (h_uid h) (take (Z.to_nat (i - 1)) ord)).
    intros o Hb Hav Hpv.
    destruct (decide (assigned m u = h_uid h)) as [Hm|Hm];
      [rewrite (bool_decide_eq_true_2 _ Hm) in Hyv, Hav
      |rewrite (bool_decide_eq_false_2 _ Hm) in Hyv, Hav];
      counting_clauses.
  - rewrite (bool_decide_eq_false_2 _ Hj0) in Hcs.
    destruct (decide (j = i)) as [Hji|Hji].
    + rewrite (bool_decide_eq_true_2 _ Hji) in Hcs.
      destruct Hcs as (a & p & Ha & Hp & ->).
      destruct (q_value _ _ _ _ _ Hh Hord Ha) as [Hap Hav].
      destruct (q_value _ _ _ _ _ Hh Hord Hp) as [Hpp Hpv].
      rewrite Hstep in Hav. clear Hstep. revert Hb Hav Hpv.
      generalize (occupants_among m (h_uid h) (take (Z.to_nat (i - 1)) ord)).
      intros o Hb Hav Hpv.
      destruct (decide (assigned m u = h_uid h)) as [Hm|Hm];
        [rewrite (bool_decide_eq_true_2 _ Hm) in Hyv, Hav
        |rewrite (bool_decide_eq_false_2 _ Hm) in Hyv, Hav];
        counting_clauses.
    + rewrite (bool_decide_eq_false_2 _ Hji) in Hcs.
      destruct Hcs as (p & a & p' & Hp & Ha & Hp' & ->).
      destruct (q_value _ _ _ _ _ Hh Hord Ha) as [Hap Hav].
      destruct (q_value _ _ _ _ _ Hh Hord Hp) as [Hpp Hpv].
      destruct (q_value _ _ _ _ _ Hh Hord Hp') as [Hpp' Hpv'].
      rewrite Hstep in Hav. clear Hstep. revert Hb Hav Hpv Hpv'.
      generalize (occupants_among m (h_uid h) (take (Z.to_nat (i - 1)) ord)).
      intros o Hb Hav Hpv Hpv'.
      destruct (decide (assigned m u = h_uid h)) as [Hm|Hm];
        [rewrite (bool_decide_eq_true_2 _ Hm) in Hyv, Hav
        |rewrite (bool_decide_eq_false_2 _ Hm) in Hyv, Hav];
        counting_clauses.
Qed.

Lemma cap_value (h : Hospital) (ord : list Z) (i : Z) (cs : list DIMACSClause) :
  h ∈ hospitals inst → h_preference h = Some ord →
  cap_clauses h i s cs →
  (Forall (passes vd) cs
   ↔ (i >= h_capacity h + 1 →
      occupants_among m (h_uid h) (take (Z.to_nat i) ord) ≠ h_capacity h + 1)).
Proof.
  intros Hh Hord Hcs. unfold cap_clauses in Hcs.
  destruct (decide (i >= h_capacity h + 1)) as [Hi|Hi].
  - rewrite (bool_decide_eq_true_2 _ Hi) in Hcs. destruct Hcs as (a & Ha & ->).
    destruct (q_value _ _ _ _ _ Hh Hord Ha) as [Hap Hav].
    rewrite Forall_singleton, passes_lits by (repeat constructor; lia).
    simpl. rewrite lit_true_neg, Hav by done.
    case_bool_decide as Hocc; simpl.
    + split; [done|]. intros Hq. by destruct (Hq Hi).
    + by split.
  - rewrite (bool_decide_eq_false_2 _ Hi) in Hcs. subst cs. split; [done|constructor].
Qed.

Lemma row_value (h : Hospital) (ord : list Z) (i : Z) (cs : list DIMACSClause) :
  h ∈ hospitals inst → h_preference h = Some ord → 0 ≤ i →
  row_clauses g h ord i s cs →
  (Forall (passes vd) cs
   ↔ (i >= h_capacity h + 1 →
      occupants_among m (h_uid h) (take (Z.to_nat i) ord) ≠ h_capacity h + 1)).
Proof.
  intros Hh Hord Hi Hrow. unfold row_clauses in Hrow.
  destruct (wf_hospital_props _ _ Hwf _ Hh) as (_ & _ & Hcap & _).
  destruct (decide (i = 0)) as [Hi0|Hi0].
  - rewrite (bool_decide_eq_true_2 _ Hi0) in Hrow. subst cs.
    split; [intros _ ?; lia | constructor].
  - rewrite (bool_decide_eq_false_2 _ Hi0) in Hrow.
    destruct Hrow as (cs1 & cs2 & -> & Hcs1 & Hcs2).
    rewrite Forall_app, (cap_value _ _ _ _ Hh Hord Hcs2).
    assert (Forall (passes vd) cs1) as Hpass; [|tauto].
    destruct (decide (i = 1)) as [Hi1|Hi1].
    + rewrite (bool_decide_eq_true_2 _ Hi1) in Hcs1. by eapply base_value.
    + rewrite (bool_decide_eq_false_2 _ Hi1) in Hcs1.
      apply (gathered_Forall_all _ _ _ _ _ Hcs1).
      intros j bs Hj%elem_of_xrange Hbs.
      apply (step_value h ord i j); [done | done | lia | lia | done].
Qed.

(** The clauses of the counters of a hospital hold when the hospital has
    no more residents than its capacity. *)
Lemma hospital_value (h : Hospital) (cs : list DIMACSClause) :
  h ∈ hospitals inst → hospital_clauses g h s cs →
  (Forall (passes vd) cs
   ↔ ∀ ord, h_preference h = Some ord →
            occupants_among m (h_uid h) ord ≤ h_capacity h).
Proof.
  intros Hh (ord & Hord & Hg).
  destruct (wf_hospital_props _ _ Hwf _ Hh) as (_ & _ & Hcap & _).
  rewrite (gathered_Forall _ (passes vd)
             (fun i => i >= h_capacity h + 1 →
                       occupants_among m (h_uid h) (take (Z.to_nat i) ord)
                       ≠ h_capacity h + 1) _ _ _ Hg).
  2:{ intros i bs Hi%elem_of_xrange Hrow. apply (row_value h ord i); [done|done|lia|done]. }
  split.
  - intros Hrows ord' Hord'. assert (ord' = ord) as -> by congruence.
    destruct (decide (occupants_among m (h_uid h) ord ≤ h_capacity h)) as [|Hover];
      [done|].
    destruct (occupants_among_reaches m (h_uid h) ord (h_capacity h + 1))
      as (i & Hi & Hocc); [lia|].
    pose proof (occupants_among_take_bounds m (h_uid h) ord i) as [Hb _].
    exfalso. apply (Hrows (Z.of_nat i)).
    + apply elem_of_xrange. unfold len. lia.
    + lia.
    + by rewrite Nat2Z.id.
  - intros Hle i Hi Hge.
    pose proof (occupants_among_take_bounds m (h_uid h) ord (Z.to_nat i)) as [_ Hb].
    specialize (Hle ord Hord). lia.
Qed.

(** *** The clauses of stability *)

Lemma stability_value (r : Resident) (l : list Z) (hu : Z) (cs : list DIMACSClause) :
  mutual g inst → r ∈ singles inst → r_preference r = Some l → hu ∈ l →
  (∀ h ord, h ∈ hospitals inst → h_preference h = Some ord →
            occupants_among m (h_uid h) ord ≤ h_capacity h) →
  stability_clause g r hu s cs →
  (Forall (passes vd) cs ↔ single_stable g m r hu).
Proof.
  intros Hmut Hr Hl Hhu Hcap (h & wp & lits & lits' & Hh & Hwp & Hlits & Happ & ->).
  destruct (Hmut r l hu Hr Hl Hhu)
    as (h' & ord & kr & k & Hh' & HhH & Hu & Hnil & Hord & Hkr & Hrk & Hk & Hkk).
  assert (h' = h) as -> by congruence. subst hu.
  destruct (wf_single_props _ _ Hwf _ Hr) as (_ & l' & Hl' & Hnd & _).
  assert (l' = l) as -> by congruence.
  rewrite (single_stable_iff g m r h l ord kr k) by done.
  assert (Hndwp : NoDup (take k l ++ [h_uid h])).
  { rewrite <- (take_S_r l k (h_uid h)) by done.
    eapply sublist_NoDup; [done | apply sublist_take]. }
  rewrite holds_stability by done.
  unfold Res.get_all_weakly_preferred, with_preference in Hwp. rewrite Hl in Hwp.
  destruct (weakly_preferred_at _ _ _ Hk Hkk) as [Hwp' _].
  assert (wp = take k l ++ [h_uid h]) as -> by congruence.
  destruct (match_vars_value _ _ _ Hlits) as [Hpos Hiff].
  unfold append_q_vars in Happ. simpl in Happ. rewrite Hnil in Happ. simpl in Happ.
  unfold Hosp.get_rank, with_preference in Happ. rewrite Hord in Happ.
  destruct (weakly_preferred_at _ _ _ Hkr Hrk) as [_ Hrank].
  rewrite Hrank in Happ. simpl in Happ.
  rewrite occupants_among_app, occupants_among_cons, occupants_among_nil.
  pose proof (occupants_among_take_bounds m (h_uid h) ord kr) as [Hb Hb'].
  specialize (Hcap h ord HhH Hord).
  destruct (wf_hospital_props _ _ Hwf _ HhH) as (_ & _ & Hcap0 & _).
  rewrite Forall_singleton.
  destruct (decide (assigned m (r_uid r) ∈ take k l ++ [h_uid h])) as [Hin|Hout].
  - rewrite (bool_decide_eq_true_2 _ Hin). simpl.
    split; [intros _; destruct (bool_decide (assigned m (r_uid r) = h_uid h)); simpl; lia|].
    intros _.
    apply Hiff in Hin as (x & Hx & Hv).
    destruct (bool_decide (Z.of_nat kr >= h_capacity h)).
    + apply bind_Ok in Happ as (lits1 & Happ & [= <-]).
      apply bind_Ok in Happ as (a & Ha & [= <-]).
      destruct (q_value _ _ _ _ _ HhH Hord Ha) as [Hap _].
      apply passes_vars; [apply Forall_app; split; [done | by constructor]|].
      exists x. split; [apply elem_of_app; by left | assumption].
    + injection Happ as <-. apply passes_vars; [done|]. by exists x.
  - rewrite (bool_decide_eq_false_2 _ Hout).
    rewrite (bool_decide_eq_false_2 (assigned m (r_uid r) = h_uid h)).
    2:{ intros Heq. apply Hout. rewrite Heq. apply elem_of_app. right. left. }
    cbn [indicator].
    destruct (decide (Z.of_nat kr >= h_capacity h)) as [Hge|Hlt].
    + rewrite (bool_decide_eq_true_2 _ Hge) in Happ.
      apply bind_Ok in Happ as (lits1 & Happ & [= <-]).
      apply bind_Ok in Happ as (a & Ha & [= <-]).
      destruct (q_value _ _ _ _ _ HhH Hord Ha) as [Hap Hav].
      rewrite Nat2Z.id in Hav.
      rewrite passes_vars by (apply Forall_app; split; [done | by constructor]).
      split.
      * intros (x & [Hx| ->%list_elem_of_singleton]%elem_of_app & Hv).
        -- exfalso. apply Hout, Hiff. by exists x.
        -- rewrite Hav in Hv. apply bool_decide_eq_true in Hv. lia.
      * intros Hle. exists a. split; [apply elem_of_app; right; left|].
        rewrite Hav. apply bool_decide_eq_true. lia.
    + rewrite (bool_decide_eq_false_2 _ Hlt) in Happ. injection Happ as <-.
      rewrite passes_vars by done. split.
      * intros (x & Hx & Hv). exfalso. apply Hout, Hiff. by exists x.
      * intros Hle. lia.
Qed.

(** *** The clauses of an instance without couples and stability *)

Lemma clauses_stable (c1 c2 c3 c4 : list DIMACSClause) :
  mutual g inst → listed inst →
  gathered (at_least_clause g) (singles inst) s c1 →
  gathered (at_most_clauses g) (singles inst) s c2 →
  gathered (hospital_clauses g) (hospitals inst) s c3 →
  gathered (stability_clauses_of g) (singles inst) s c4 →
  (Forall (passes vd) (c1 ++ c2 ++ c3 ++ c4) ↔ stable_matching g inst m).
Proof.
  intros Hmut Hlisted H1 H2 H3 H4. rewrite !Forall_app.
  rewrite (gathered_Forall _ (passes vd)
             (fun r => ∀ l, r_preference r = Some l →
                            assigned m (r_uid r) ∈ l ++ [NIL_HOSPITAL_UID]) _ _ _ H1)
    by (intros r bs _ Hbs; by apply at_least_value).
  rewrite (gathered_Forall _ (passes vd)
             (fun h => ∀ ord, h_preference h = Some ord →
                              occupants_among m (h_uid h) ord ≤ h_capacity h) _ _ _ H3)
    by (intros h bs Hh Hbs; by apply hospital_value).
  assert (Hc2 : Forall (passes vd) c2).
  { apply (gathered_Forall_all _ _ _ _ _ H2). intros r bs Hr Hbs.
    by apply at_most_value with r. }
  assert (Hc4 : (∀ h, h ∈ hospitals inst → ∀ ord, h_preference h = Some ord →
                      occupants_among m (h_uid h) ord ≤ h_capacity h) →
                (Forall (passes vd) c4
                 ↔ ∀ r, r ∈ singles inst → ∀ l hu, r_preference r = Some l → hu ∈ l →
                        single_stable g m r hu)).
  { intros Hcap.
    apply (gathered_Forall _ (passes vd)
             (fun r => ∀ l hu, r_preference r = Some l → hu ∈ l →
                               single_stable g m r hu) _ _ _ H4).
    intros r bs Hr (l & Hl & Hg).
    rewrite (gathered_Forall _ (passes vd) (fun hu => single_stable g m r hu) _ _ _ Hg).
    - split; [intros Hq l' hu Hl'; assert (l' = l) as -> by congruence; apply Hq
             | intros Hq hu Hhu; by apply (Hq l)].
    - intros hu bs' Hhu Hbs'. apply (stability_value r l hu); try done.
      intros h ord Hh. by apply Hcap. }
  rewrite <- (stable_matching_flat g inst m Hwf Hmut Hlisted). split.
  - intros (Ha & _ & Hc & Hs). split; [done|]. split; [done|]. by apply Hc4.
  - intros (Ha & Hc & Hs). split; [done|]. split; [done|]. split; [done|]. by apply Hc4.
Qed.

End ClauseValues.
(** *** The verify mode of [solve_sat] on an instance without couples *)

Section SatVerifyStable.
Context `{PySet} (g : Globals) (inst : ProblemInstance).
Hypothesis Hwf : well_formed g inst.

(** An encoding that succeeds has looked up every hospital of the lists of
    the singles, and the rank of the single on the list of the hospital. *)
Lemma encoded_mutual (s : sat_state) (c4 : list DIMACSClause) :
  gathered (stability_clauses_of g) (singles inst) s c4 → mutual g inst.
Proof.
  intros (css & _ & Hall) r l hu Hr Hl Hhu.
  destruct (Forall2_elem_l _ _ _ _ Hall Hr) as (bs & _ & l' & Hl' & css' & _ & Hall').
  assert (l' = l) as -> by congruence.
  destruct (Forall2_elem_l _ _ _ _ Hall' Hhu)
    as (bs' & _ & h & wp & lits & lits' & Hh & Hwp & _ & Happ & _).
  destruct (wf_single_props _ _ Hwf _ Hr) as (_ & l' & Hl'' & Hnd & Hnil).
  assert (l' = l) as -> by congruence.
  destruct (wf_listed_hospital _ _ Hwf _ _ Hh) as (HhH & Hu & Hn); [by intros ->|].
  destruct (wf_hospital_props _ _ Hwf _ HhH) as (_ & _ & _ & ord & Hord & _).
  unfold Res.get_all_weakly_preferred, with_preference in Hwp. rewrite Hl in Hwp.
  apply weakly_preferred_Ok in Hwp as (k & Hk & Hkk & _ & _).
  unfold append_q_vars in Happ. simpl in Happ. rewrite Hn in Happ. simpl in Happ.
  apply bind_Ok in Happ as (lits1 & Happ & _).
  apply bind_Ok in Happ as (rk & Hrk & _).
  unfold Hosp.get_rank, with_preference in Hrk. rewrite Hord in Hrk.
  apply rank_Ok_NoDup in Hrk as (kr & _ & Hkr & Hrkr).
  by exists h, ord, kr, k.
Qed.

(** It has looked up every resident of the lists of the hospitals. *)
Lemma encoded_listed (s : sat_state) (c3 : list DIMACSClause) :
  gathered (hospital_clauses g) (hospitals inst) s c3 → listed inst.
Proof.
  intros (css & _ & Hall) h ord Hh Hord. apply Forall_forall. intros u Hu.
  destruct (Forall2_elem_l _ _ _ _ Hall Hh) as (bs & _ & ord' & Hord' & css' & _ & Hrows).
  assert (ord' = ord) as -> by congruence.
  destruct (wf_hospital_props _ _ Hwf _ Hh) as (_ & _ & Hcap & _).
  apply list_elem_of_lookup in Hu as [n Hn].
  pose proof (lookup_lt_Some _ _ _ Hn) as Hlt.
  assert (Hi : Z.of_nat n + 1 ∈ xrange (len ord + 1)).
  { apply elem_of_xrange. unfold len. lia. }
  destruct (Forall2_elem_l _ _ _ _ Hrows Hi) as (bs' & _ & Hrow).
  unfold row_clauses in Hrow.
  rewrite (bool_decide_eq_false_2 (Z.of_nat n + 1 = 0)) in Hrow by lia.
  destruct Hrow as (cs1 & cs2 & _ & Hcs1 & _).
  assert (Hy : ∃ y, y_var g s h ord (Z.of_nat n + 1) = Ok y).
  { destruct (decide (Z.of_nat n + 1 = 1)) as [H1|H1].
    - rewrite (bool_decide_eq_true_2 _ H1) in Hcs1.
      destruct Hcs1 as (y & _ & _ & Hy & _). rewrite H1. by exists y.
    - rewrite (bool_decide_eq_false_2 _ H1) in Hcs1.
      destruct Hcs1 as (css1 & _ & Hsteps).
      assert (H0 : 0 ∈ xrange (Z.min (Z.of_nat n + 1 + 1) (h_capacity h + 2))).
      { apply elem_of_xrange. lia. }
      destruct (Forall2_elem_l _ _ _ _ Hsteps H0) as (bs1 & _ & y & Hy & _).
      by exists y. }
  destruct Hy as (y & Hy). unfold y_var in Hy.
  apply bind_Ok in Hy as (u' & Hu'%list_getitem_Ok & Hy).
  replace (Z.to_nat (Z.of_nat n + 1 - 1)) with n in Hu' by lia.
  assert (u' = u) as -> by congruence.
  apply bind_Ok in Hy as (r & Hr%getitem_Ok & _).
  apply (wf_resident_lookup _ _ Hwf) in Hr as [Hr <-].
  apply list_elem_of_fmap. by exists r.
Qed.

(** The values that the verify mode computes from the entries of the
    matching file. *)
Lemma sat_values_entries (s : sat_state) (text : string) (ents : list (Z * Z))
    (vs : verify_state) :
  matching_entries text = Ok ents →
  sat_values g inst s text = Ok vs →
  ∃ vs1, for_each (sat_entry g s) ents (mkVerify ∅ ∅ ∅) = Ok vs1
         ∧ for_each (mark_empty s) (hospitals inst) vs1 = Ok vs.
Proof.
  intros Hents Hvals. unfold sat_values in Hvals.
  rewrite (read_lines_entries (read_match_sat g s) (sat_entry g s) _ ents) in Hvals.
  - apply bind_Ok in Hvals as (vs1 & Hvs1 & Hvals).
    apply bind_Ok in Hvals as (vs2 & Hvs2 & Hvals).
    rewrite (wf_couples _ _ Hwf) in Hvals. injection Hvals as <-. by exists vs1.
  - intros line st Hline. unfold read_match_sat. by rewrite Hline.
  - intros line st n Hline Hn. by apply read_match_sat_entry.
  - exact Hents.
Qed.


Lemma sat_verify_stable (text : string) (ents : list (Z * Z))
    (vs : list DIMACSClause) :
  matching_entries text = Ok ents → NoDup ents.*1 →
  (∀ r, r ∈ singles inst → is_Some ((list_to_map ents : gmap Z Z) !! r_uid r)) →
  sat_verify g inst text = Ok vs →
  (vs = [] ↔ stable_matching g inst (list_to_map ents)).
Proof.
  intros Hents Hnd Hfile Hrun. unfold sat_verify in Hrun.
  apply bind_Ok in Hrun as (s & Hs & Hrun).
  apply bind_Ok in Hrun as (vst & Hvals & [= <-]).
  destruct (solve_sat_encode_shape g inst Hwf s Hs)
    as (Hreg & Hxw & Hqw & c1 & c2 & c3 & c4 & Hcs & H1 & H2 & H3 & H4).
  destruct (sat_values_entries _ _ _ _ Hents Hvals) as (vs1 & Hvs1 & Hvs2).
  destruct (sat_entries_spec g inst s Hwf _ _ _ Hvs1)
    as (Hall & Hone & _ & Hhh & Hvd).
  destruct (mark_empty_loop _ _ _ _ Hvs2) as [_ Hvd2].
  assert (Hnat : natural inst s (list_to_map ents) (valuation (value_dict vst))).
  { apply (values_natural g inst s ents (value_dict vst) (h_hash vs1)); try done.
    - intros hu. rewrite Hhh. simpl. set_solver.
    - intros x. rewrite Hvd2, Hvd. simpl. set_solver. }
  rewrite not_printed_passes, Hcs.
  apply (clauses_stable g inst s _ _ Hwf Hreg Hnat); try done.
  - by eapply encoded_mutual.
  - by eapply encoded_listed.
Qed.

End SatVerifyStable.
(** ** The verify modes on instances without couples *)

Lemma entries_cover (inst : ProblemInstance) (ents : list (Z * Z)) :
  (∀ r, r ∈ singles inst → r_uid r ∈ ents.*1) →
  ∀ r, r ∈ singles inst → is_Some ((list_to_map ents : gmap Z Z) !! r_uid r).
Proof.
  intros Hcover r Hr. apply not_eq_None_Some. intros Hnone.
  apply not_elem_of_list_to_map in Hnone. by apply Hnone, Hcover.
Qed.

Lemma one_place_well_formed :
  well_formed (loaded one_place_file).2 (loaded one_place_file).1.
Proof.
  split.
  - vm_compute; reflexivity.
  - apply (bool_decide_unpack _); vm_compute; exact I.
  - apply (bool_decide_unpack _); vm_compute; exact I.
  - vm_compute; reflexivity.
  - vm_compute; reflexivity.
  - assert (singles (loaded one_place_file).1
            = [mkResident 11 (Some [1]) None; mkResident 12 (Some [1]) None]) as ->
      by (vm_compute; reflexivity).
    repeat apply Forall_cons_2; try apply Forall_nil_2;
      (split; [reflexivity|]); exists [1];
      (split; [reflexivity|]);
      split; apply (bool_decide_unpack _); vm_compute; exact I.
  - assert (hospitals (loaded one_place_file).1 = [mkHospital 1 1 (Some [11; 12])]) as ->
      by (vm_compute; reflexivity).
    repeat apply Forall_cons_2; try apply Forall_nil_2.
    split; [discriminate|]. split; [discriminate|]. split; [simpl; lia|].
    exists [11; 12]. split; [reflexivity|].
    apply (bool_decide_unpack _); vm_compute; exact I.
Qed.



(** X2.  Instance without couples, matching file in which every single
    has one line: when the verify mode of [solve_sat] returns, it has
    printed no failing clause exactly when the matching of the file is
    stable. *)
Theorem sat_verify_accepts_stable `{PySet} (g : Globals) (inst : ProblemInstance)
    (text : string) (ents : list (Z * Z)) (vs : list DIMACSClause) :
  well_formed g inst → matching_entries text = Ok ents → NoDup ents.*1 →
  (∀ r, r ∈ singles inst → r_uid r ∈ ents.*1) →
  sat_verify g inst text = Ok vs →
  (vs = [] ↔ stable_matching g inst (list_to_map ents)).
Proof.
  intros Hwf Hents Hnd Hcover Hrun.
  apply (sat_verify_stable g inst Hwf text ents vs); try done.
  by apply entries_cover.
Qed.

Lemma sat_verify_accepts_stable_witness :
  @sat_verify cpython_small (loaded one_place_file).2 (loaded one_place_file).1
    one_place_matching = Ok []
  ∧ (@nil DIMACSClause = []
     ↔ stable_matching (loaded one_place_file).2 (loaded one_place_file).1
         (list_to_map [(11, 1); (12, 999999)])).
Proof.
  split; [vm_compute; reflexivity|].
  apply (@sat_verify_accepts_stable cpython_small (loaded one_place_file).2
           (loaded one_place_file).1 one_place_matching [(11, 1); (12, 999999)] []).
  - exact one_place_well_formed.
  - vm_compute; reflexivity.
  - apply (bool_decide_unpack _); vm_compute; exact I.
  - intros r Hr. apply (bool_decide_unpack _).
    repeat (apply elem_of_cons in Hr as [->|Hr]; [vm_compute; exact I|]).
    by apply elem_of_nil in Hr.
  - vm_compute; reflexivity.
Defined.


(** ** Edge behaviour of the verify modes *)

(** *** The assertion of the verify mode of [solve_sat] *)

Section SatAssertion.
Context (g : Globals) (s : sat_state).
Hypothesis Hkeyed : keyed g.

Lemma sat_entry_hash (e : Z * Z) (vs vs' : verify_state) :
  sat_entry g s e vs = Ok vs' →
  (e.2 ≠ NIL_HOSPITAL_UID → e.2 ∉ h_hash vs)
  ∧ (∀ hu, hu ∈ h_hash vs' ↔ hu ∈ h_hash vs ∨ (hu = e.2 ∧ hu ≠ NIL_HOSPITAL_UID)).
Proof.
  destruct e as [r hu]. unfold sat_entry. cbn [fst snd]. intros Hrun.
  apply bind_Ok in Hrun as (h & Hh & Hrun). apply getitem_Ok in Hh.
  pose proof (Hkeyed _ _ Hh) as Hhu. simpl in Hhu.
  apply bind_Ok in Hrun as (robj & Hr & Hrun).
  apply bind_Ok in Hrun as (x & Hx & Hrun). rewrite Hhu in Hrun.
  destruct (decide (hu = NIL_HOSPITAL_UID)) as [Hnil|Hnil].
  - rewrite bool_decide_eq_false_2 in Hrun by (by intros ?).
    injection Hrun as <-. simpl. split; [done|].
    intros hu'. split; [by left|]. intros [?|[-> ?]]; done.
  - rewrite bool_decide_eq_true_2 in Hrun by done.
    apply bind_Ok in Hrun as ([] & Hassert & Hrun).
    apply py_assert_Ok, negb_true_iff, bool_decide_eq_false in Hassert. simpl in Hassert.
    apply bind_Ok in Hrun as (ord & Hord & Hrun).
    apply bind_Ok in Hrun as (st & Hloop & [= <-]).
    apply mark_counters_loop in Hloop as [Hhh _]. simpl in Hhh.
    split; [done|].
    intros hu'. rewrite Hhh, elem_of_union, elem_of_singleton. naive_solver.
Qed.

Lemma sat_entry_keys (e : Z * Z) (vs vs' : verify_state) :
  sat_entry g s e vs = Ok vs' →
  is_Some (resident_dict g !! e.1) ∧ is_Some (hospital_dict g !! e.2).
Proof.
  unfold sat_entry. intros Hrun.
  apply bind_Ok in Hrun as (h & Hh%getitem_Ok & Hrun).
  apply bind_Ok in Hrun as (r & Hr%getitem_Ok & _). split; by eexists.
Qed.

Lemma sat_entries_hash (ents : list (Z * Z)) (vs0 vs : verify_state) :
  for_each (sat_entry g s) ents vs0 = Ok vs →
  NoDup (filter (fun hu => hu ≠ NIL_HOSPITAL_UID) ents.*2)
  ∧ (∀ hu, hu ∈ ents.*2 → hu ≠ NIL_HOSPITAL_UID → hu ∉ h_hash vs0)
  ∧ Forall (fun e => is_Some (resident_dict g !! e.1)
                     ∧ is_Some (hospital_dict g !! e.2)) ents.
Proof.
  revert vs0. induction ents as [|e ents IH]; intros vs0 Hrun; simpl in Hrun.
  - split; [constructor|]. split; [intros hu []%elem_of_nil | constructor].
  - apply bind_Ok in Hrun as (vs1 & Hstep & Hrun).
    destruct (sat_entry_hash _ _ _ Hstep) as [Hnew Hhh1].
    destruct (IH _ Hrun) as (Hnd & Hfresh & Hkeys). split; [|split].
    + rewrite fmap_cons, filter_cons. destruct (decide (e.2 ≠ NIL_HOSPITAL_UID)) as [Hne|]; [|done].
      apply NoDup_cons. split; [|done].
      intros [_ Hin]%list_elem_of_filter. apply (Hfresh _ Hin Hne).
      apply Hhh1. by right.
    + intros hu. rewrite fmap_cons. intros [->|Hin]%elem_of_cons Hne; [by apply Hnew|].
      intros Hhu. apply (Hfresh _ Hin Hne). apply Hhh1. by left.
    + constructor; [by eapply sat_entry_keys | done].
Qed.

End SatAssertion.

(** X4.  The verify mode of [solve_sat] checks matchings that give a
    hospital to one resident only: when it returns, no two ['r '] lines of
    the matching file name the same hospital, the nil hospital 999999
    apart (on a second line with the same hospital the statement
    [assert not h in h_hash] fails), and every line names a key of
    [resident_dict] and a key of [hospital_dict] (so the line ['r u -1'],
    which [print_matching] writes for an unmatched resident, makes it fail
    unless a hospital has the uid -1). *)
Theorem sat_verify_one_resident_per_hospital `{PySet} (g : Globals)
    (inst : ProblemInstance) (text : string) (ents : list (Z * Z))
    (vs : list DIMACSClause) :
  keyed g → matching_entries text = Ok ents →
  sat_verify g inst text = Ok vs →
  NoDup (filter (fun hu => hu ≠ NIL_HOSPITAL_UID) ents.*2)
  ∧ Forall (fun e => is_Some (resident_dict g !! e.1)
                     ∧ is_Some (hospital_dict g !! e.2)) ents.
Proof.
  intros Hkeyed Hents Hrun. unfold sat_verify in Hrun.
  apply bind_Ok in Hrun as (s & _ & Hrun).
  apply bind_Ok in Hrun as (vst & Hvals & _).
  unfold sat_values in Hvals. apply bind_Ok in Hvals as (vs1 & Hvs1 & _).
  rewrite (read_lines_entries (read_match_sat g s) (sat_entry g s) _ ents) in Hvs1.
  - by destruct (sat_entries_hash g s Hkeyed _ _ _ Hvs1) as (? & _ & ?).
  - intros line st Hline. unfold read_match_sat. by rewrite Hline.
  - intros line st n Hline Hn. by apply read_match_sat_entry.
  - exact Hents.
Qed.

Lemma sat_verify_one_resident_per_hospital_witness :
  NoDup (filter (fun hu => hu ≠ NIL_HOSPITAL_UID) [(11, 1); (12, 999999)].*2)
  ∧ Forall (fun e => is_Some (resident_dict (loaded one_place_file).2 !! e.1)
                     ∧ is_Some (hospital_dict (loaded one_place_file).2 !! e.2))
           [(11, 1); (12, 999999)].
Proof.
  apply (@sat_verify_one_resident_per_hospital cpython_small (loaded one_place_file).2
           (loaded one_place_file).1 one_place_matching [(11, 1); (12, 999999)] []).
  - apply (bool_decide_unpack _); vm_compute; exact I.
  - vm_compute; reflexivity.
  - vm_compute; reflexivity.
Defined.

(** *** The evaluator of the verify mode of [solve_mip] and [alpha] *)





(** ** The matching file: what [print_matching] writes, [load_matching_from_file] reads *)

(** *** [int(str(n))] *)

From Stdlib Require Import DecimalPos.

Lemma digits_value_uint (d : Decimal.uint) (acc : Z) :
  digits_value (NilEmpty.string_of_uint d) acc = Some (uint_value d acc).
Proof.
  revert acc. induction d as [|d IH|d IH|d IH|d IH|d IH|d IH|d IH|d IH|d IH|d IH];
    intros acc; simpl; [done|..]; rewrite IH; do 2 f_equal;
    match goal with
    | |- context [Z.of_nat (nat_of_ascii ?c) - 48] =>
        let v := eval vm_compute in (Z.of_nat (nat_of_ascii c) - 48) in
        change (Z.of_nat (nat_of_ascii c) - 48) with v
    end; lia.
Qed.

Lemma uint_value_acc (d : Decimal.uint) (acc : positive) :
  uint_value d (Z.pos acc) = Z.pos (Pos.of_uint_acc d acc).
Proof.
  revert acc. induction d as [|d IH|d IH|d IH|d IH|d IH|d IH|d IH|d IH|d IH|d IH];
    intros acc; simpl; [done|..]; rewrite <- IH; f_equal; lia.
Qed.

Lemma uint_value_of_uint (d : Decimal.uint) : uint_value d 0 = Z.of_uint d.
Proof.
  unfold Z.of_uint.
  induction d as [|d IH|d IH|d IH|d IH|d IH|d IH|d IH|d IH|d IH|d IH]; simpl;
    [done | exact IH | ..]; by rewrite <- uint_value_acc.
Qed.

Lemma no_space_uint (d : Decimal.uint) : no_space (NilEmpty.string_of_uint d) = true.
Proof.
  induction d as [|d IH|d IH|d IH|d IH|d IH|d IH|d IH|d IH|d IH|d IH]; simpl;
    [done|..]; exact IH.
Qed.

Lemma string_of_pos_cons (p : positive) :
  ∃ c s, NilEmpty.string_of_uint (Pos.to_uint p) = String c s
         ∧ (48 ≤ nat_of_ascii c ≤ 57)%nat.
Proof.
  pose proof (DecimalPos.Unsigned.to_uint_nonnil p) as Hnn.
  destruct (Pos.to_uint p); [done|..]; simpl; eexists _, _; (split; [done|]);
    vm_compute; split; by repeat constructor.
Qed.

Lemma str_int_pos (p : positive) :
  str_int (Z.pos p) = NilEmpty.string_of_uint (Pos.to_uint p).
Proof.
  unfold str_int. simpl. unfold NilZero.string_of_uint.
  pose proof (DecimalPos.Unsigned.to_uint_nonnil p). by destruct (Pos.to_uint p).
Qed.

Lemma str_int_neg (p : positive) :
  str_int (Z.neg p) = String "-" (NilEmpty.string_of_uint (Pos.to_uint p)).
Proof.
  unfold str_int. simpl. unfold NilZero.string_of_uint.
  pose proof (DecimalPos.Unsigned.to_uint_nonnil p). by destruct (Pos.to_uint p).
Qed.

Lemma unsigned_int_pos (p : positive) :
  unsigned_int (NilEmpty.string_of_uint (Pos.to_uint p)) = Ok (Z.pos p).
Proof.
  destruct (string_of_pos_cons p) as (c & s & Hs & _).
  unfold unsigned_int. rewrite digits_value_uint, uint_value_of_uint, Hs.
  unfold Z.of_uint. by rewrite DecimalPos.Unsigned.of_to.
Qed.

(** [int] reads back what [str] and ['%d'] write. *)
Lemma py_int_str_int (n : Z) : py_int (str_int n) = Ok n.
Proof.
  destruct n as [|p|p].
  - reflexivity.
  - rewrite str_int_pos. pose proof (unsigned_int_pos p) as Hu.
    destruct (string_of_pos_cons p) as (c & s & Hs & Hc). rewrite Hs in *.
    unfold py_int. rewrite !decide_False by lia. done.
  - rewrite str_int_neg. unfold py_int. rewrite decide_True by done.
    by rewrite unsigned_int_pos.
Qed.

Lemma str_int_token (n : Z) : no_space (str_int n) = true ∧ str_int n ≠ "".
Proof.
  destruct n as [|p|p].
  - done.
  - rewrite str_int_pos. split; [apply no_space_uint|].
    by destruct (string_of_pos_cons p) as (c & s & -> & _).
  - rewrite str_int_neg. split; [|done]. simpl. apply no_space_uint.
Qed.

(** *** Lines and tokens *)

Lemma lines_from_line (l rest cur : string) :
  one_line l = true →
  lines_from (l +:+ newline +:+ rest) cur = (cur +:+ l +:+ newline) :: lines_from rest "".
Proof.
  revert cur. induction l as [|c l IH]; intros cur Hl; simpl in *.
  - by rewrite !string_app_nil_l.
  - apply andb_true_iff in Hl as [Hc%negb_true_iff%bool_decide_eq_false Hl].
    rewrite decide_False by done. rewrite IH by done.
    by rewrite string_app_assoc.
Qed.

Lemma file_lines_unlines (ls : list string) :
  Forall (fun l => one_line l = true) ls →
  file_lines (unlines ls) = (fun l => l +:+ newline) <$> ls.
Proof.
  unfold file_lines. induction 1 as [|l ls Hl _ IH]; [done|].
  simpl. rewrite lines_from_line by done. by rewrite IH.
Qed.

Lemma split_from_word (w s : string) (cur : option string) :
  no_space w = true →
  split_from (w +:+ s) cur
  = split_from s (if decide (w = "") then cur else Some (default "" cur +:+ w)).
Proof.
  revert cur. induction w as [|c w IH]; intros cur Hw; simpl in *; [done|].
  apply andb_true_iff in Hw as [Hc%negb_true_iff Hw]. rewrite Hc, IH by done.
  simpl. f_equal. destruct (decide (w = "")) as [->|]; [done|].
  by rewrite string_app_assoc.
Qed.

Lemma split_from_lstrip (s : string) : split_from (lstrip s) None = split_from s None.
Proof. induction s as [|c s IH]; simpl; [done|]. by destruct (is_space c) eqn:Hc; simpl; rewrite ?Hc. Qed.

Lemma split_from_rstrip (s : string) (cur : option string) :
  split_from (rstrip s) cur = split_from s cur.
Proof.
  revert cur. induction s as [|c s IH]; intros cur; simpl; [done|].
  destruct (is_space c) eqn:Hc; simpl.
  - case_bool_decide as Ht; simpl.
    + rewrite <- IH, Ht. by destruct cur.
    + rewrite Hc. by rewrite !IH.
  - rewrite Hc. by rewrite IH.
Qed.

Lemma split_strip (s : string) : split (strip s) = split s.
Proof. unfold split, strip. by rewrite split_from_rstrip, split_from_lstrip. Qed.

Lemma strip_cons (c : ascii) (s : string) :
  is_space c = false → strip (String c s) = String c (rstrip s).
Proof. intros Hc. unfold strip. simpl. rewrite Hc. simpl. by rewrite Hc. Qed.

(** The tokens of a line [r <a> <b>]. *)
Lemma split_entry (a b : string) :
  no_space a = true → a ≠ "" → no_space b = true → b ≠ "" →
  split ("r " +:+ a +:+ " " +:+ b +:+ newline) = ["r"; a; b].
Proof.
  intros Ha Hane Hb Hbne. unfold split. simpl. rewrite !string_app_nil_l.
  rewrite split_from_word, decide_False by done. simpl. rewrite !string_app_nil_l.
  rewrite split_from_word, decide_False by done. simpl. by rewrite !string_app_nil_l.
Qed.

(** *** The lines that [print_matching] writes, read back *)

Lemma load_header_line (h : string) (m : gmap Z Z) :
  load_matching_line ("# " +:+ h +:+ newline) m = Ok m.
Proof.
  unfold load_matching_line.
  change ("# " +:+ h +:+ newline) with (String "#" (String " " (h +:+ newline))).
  rewrite strip_cons by done. simpl.
  by destruct (bool_decide (rstrip (h +:+ newline) = "")).
Qed.

Lemma str_int_minus_one (v : Z) : str_int v = "-1" → v = -1.
Proof.
  intros Hv. pose proof (py_int_str_int v) as Hp. rewrite Hv in Hp.
  by injection Hp as <-.
Qed.

Lemma load_entry_line (e : Z * Z) (m : gmap Z Z) :
  e.2 ≠ -1 →
  load_matching_line (entry_line e +:+ newline) m = Ok (<[e.1 := e.2]> m).
Proof.
  intros Hv. destruct e as [k v]. simpl in Hv. unfold entry_line. cbn [fst snd].
  set (b := if decide (v = NIL_HOSPITAL_UID) then "-1" else str_int v).
  assert (Hb : no_space b = true ∧ b ≠ "").
  { unfold b. destruct (decide _); [done | apply str_int_token]. }
  destruct (str_int_token k) as [Hk Hkne]. destruct Hb as [Hb Hbne].
  assert (Hline : ("r " +:+ str_int k +:+ " " +:+ b) +:+ newline
                  = "r " +:+ str_int k +:+ " " +:+ b +:+ newline).
  { by rewrite !string_app_assoc. }
  rewrite Hline. unfold load_matching_line.
  rewrite split_strip, split_entry by done.
  change ("r " +:+ str_int k +:+ " " +:+ b +:+ newline)
    with (String "r" (String " " (str_int k +:+ " " +:+ b +:+ newline))).
  rewrite strip_cons by done. simpl.
  unfold b. destruct (decide (v = NIL_HOSPITAL_UID)) as [->|Hnil].
  - rewrite decide_True by done. simpl. by rewrite py_int_str_int.
  - rewrite decide_False by (intros Heq; by apply str_int_minus_one in Heq).
    by rewrite !py_int_str_int.
Qed.

Lemma load_entry_lines (l : int_dict) (m : gmap Z Z) :
  Forall (fun e => e.2 ≠ -1) l →
  for_each load_matching_line ((fun s => s +:+ newline) <$> (entry_line <$> l)) m
  = Ok (foldl (fun acc e => <[e.1 := e.2]> acc) m l).
Proof.
  intros Hall. revert m. induction Hall as [|e l He _ IH]; intros m; [done|].
  simpl. rewrite load_entry_line by done. simpl. apply IH.
Qed.

Lemma foldl_insert_list_to_map (l : int_dict) (m : gmap Z Z) :
  NoDup l.*1 →
  foldl (fun acc e => <[e.1 := e.2]> acc) m l = list_to_map l ∪ m.
Proof.
  revert m. induction l as [|[k v] l IH]; intros m Hnd; simpl.
  - by rewrite (left_id_L ∅ (∪)).
  - simpl in Hnd. apply NoDup_cons in Hnd as [Hk Hnd]. rewrite IH by done.
    rewrite <- insert_union_l. symmetry. apply insert_union_r.
    by apply not_elem_of_list_to_map_1.
Qed.

Lemma one_line_entry (e : Z * Z) : one_line (entry_line e) = true.
Proof.
  assert (Hno : ∀ s, no_space s = true → one_line s = true).
  { induction s as [|c s IH]; simpl; [done|].
    intros [Hc Hs]%andb_true_iff. rewrite IH by done.
    rewrite andb_true_r. apply negb_true_iff, bool_decide_eq_false_2.
    intros Hn. apply negb_true_iff in Hc. unfold is_space in Hc.
    apply bool_decide_eq_false in Hc. tauto. }
  assert (Happ : ∀ a b, one_line a = true → one_line b = true → one_line (a +:+ b) = true).
  { induction a as [|c a IH]; intros bb Ha Hbb; simpl in *; [done|].
    apply andb_true_iff in Ha as [-> Ha]. by apply IH. }
  unfold entry_line. apply (Happ "r "); [done|].
  apply Happ; [apply Hno, str_int_token|]. apply (Happ " "); [done|].
  destruct (decide _); [done | apply Hno, str_int_token].
Qed.

Lemma print_matching_text_lines (matching : int_dict) (header : option string) :
  NoDup matching.*1 →
  print_matching_text matching header = Ok (unlines (matching_lines matching header)).
Proof.
  intros Hnd. unfold print_matching_text, matching_lines.
  destruct matching as [|e m]; simpl bool_decide; cbv iota.
  - destruct header as [h|]; simpl; [|done]. by rewrite ?string_app_assoc.
  - rewrite (print_loop_text (e :: m) (e :: m)) by done.
    destruct header as [h|]; simpl; by rewrite ?string_app_assoc.
Qed.

(** X6.  [load_matching_from_file] reads back the matching that
    [print_matching] has written, when no resident has the hospital uid
    -1 (which the file uses for the nil hospital 999999) and the header,
    if any, has no newline. *)
Theorem load_matching_reads_print_matching (matching : int_dict)
    (header : option string) (text : string) :
  NoDup matching.*1 → Forall (fun e => e.2 ≠ -1) matching →
  from_option one_line true header = true →
  print_matching_text matching header = Ok text →
  load_matching_from_file text = Ok (list_to_map matching).
Proof.
  intros Hnd Hvals Hheader Hprint.
  rewrite print_matching_text_lines in Hprint by done. injection Hprint as <-.
  unfold load_matching_from_file. rewrite file_lines_unlines.
  2:{ unfold matching_lines. apply Forall_app. split.
      - destruct header as [h|]; [|constructor]. constructor; [|constructor].
        simpl in *. done.
      - destruct matching as [|e m]; [by repeat constructor|].
        constructor; [done|].
        apply Forall_fmap, Forall_forall. intros e' _. apply one_line_entry. }
  unfold matching_lines. rewrite fmap_app, for_each_app.
  assert (Hhead : for_each load_matching_line
                    ((fun l => l +:+ newline)
                       <$> match header with Some h => ["# " +:+ h] | None => [] end) ∅
                  = Ok ∅).
  { destruct header as [h|]; [|done]. simpl.
    pose proof (load_header_line h ∅) as Hh.
    rewrite !string_app_assoc in *. simpl in *. by rewrite Hh. }
  rewrite Hhead. simpl.
  destruct matching as [|e m]; [done|].
  change ("m 1" :: (entry_line <$> e :: m)) with (["m 1"] ++ (entry_line <$> e :: m)).
  rewrite fmap_app, for_each_app.
  assert (Hcount : for_each load_matching_line
                     ((fun l => l +:+ newline) <$> ["m 1"]) ∅ = Ok ∅) by done.
  rewrite Hcount. cbn [mbind result_bind].
  rewrite load_entry_lines, foldl_insert_list_to_map by done.
  by rewrite (right_id_L ∅ (∪)).
Qed.

Lemma load_matching_reads_print_matching_witness :
  load_matching_from_file (unlines ["# sat"; "m 1"; "r 7 3"; "r 8 -1"])
  = Ok (list_to_map [(7, 3); (8, NIL_HOSPITAL_UID)]).
Proof.
  apply (load_matching_reads_print_matching [(7, 3); (8, NIL_HOSPITAL_UID)] (Some "sat")).
  - apply (bool_decide_unpack _); vm_compute; exact I.
  - repeat constructor; discriminate.
  - reflexivity.
  - vm_compute; reflexivity.
Defined.
(** ** Preference functions: the dispreferred items and the joint lists *)

(** X7.  [ListPreferenceFunction.get_all_dispreferred]: for an item of the
    list, the items after its last occurrence, the least preferred first;
    for an item that is not on the list, the exception.  With
    [get_all_preferred], which gives the items before the item, most
    preferred first, it splits a duplicate-free list around the item. *)
Theorem get_all_dispreferred_after (l : list Z) (k : nat) (u absent : Z) :
  l !! k = Some u → u ∉ drop (S k) l → absent ∉ l →
  LPF.get_all_dispreferred l u = Ok (reverse (drop (S k) l))
  ∧ LPF.get_all_dispreferred l absent = Raise (Exception "uid not in preference list")
  ∧ (NoDup l →
     ∃ pre dis, LPF.get_all_preferred l u = Ok pre
                ∧ LPF.get_all_dispreferred l u = Ok dis
                ∧ pre ++ [u] ++ reverse dis = l).
Proof.
  intros Hk Hlast Habsent.
  assert (Hl : l = take k l ++ u :: drop (S k) l) by (by rewrite take_drop_middle).
  assert (Hdis : LPF.get_all_dispreferred l u = Ok (reverse (drop (S k) l))).
  { unfold LPF.get_all_dispreferred. rewrite Hl at 1.
    rewrite reverse_app, reverse_cons, <- app_assoc. simpl.
    rewrite get_all_preferred_loop_found; [done|]. by rewrite elem_of_reverse. }
  split; [done|]. split.
  - unfold LPF.get_all_dispreferred. apply get_all_preferred_loop_absent.
    by rewrite elem_of_reverse.
  - intros Hnd. exists (take k l), (reverse (drop (S k) l)).
    split; [|split; [done|]].
    + unfold LPF.get_all_preferred. rewrite Hl at 1.
      rewrite get_all_preferred_loop_found; [done|].
      rewrite Hl in Hnd. apply NoDup_app in Hnd as (_ & Hnot & _).
      intros Hin. apply (Hnot _ Hin). left.
    + by rewrite reverse_involutive.
Qed.

Lemma get_all_dispreferred_after_witness :
  LPF.get_all_dispreferred [4; 7; 5; 9] 7 = Ok (reverse (drop 2 [4; 7; 5; 9]))
  ∧ LPF.get_all_dispreferred [4; 7; 5; 9] 8
    = Raise (Exception "uid not in preference list")
  ∧ (NoDup [4; 7; 5; 9] →
     ∃ pre dis, LPF.get_all_preferred [4; 7; 5; 9] 7 = Ok pre
                ∧ LPF.get_all_dispreferred [4; 7; 5; 9] 7 = Ok dis
                ∧ pre ++ [7] ++ reverse dis = [4; 7; 5; 9]).
Proof.
  apply (get_all_dispreferred_after [4; 7; 5; 9] 1 7 8).
  - reflexivity.
  - apply (bool_decide_unpack _); vm_compute; exact I.
  - apply (bool_decide_unpack _); vm_compute; exact I.
Defined.

(** *** Joint lists *)

Lemma check_suitability_agrees (a b : Z * Z) (indices : list Z) :
  LJPF.check_suitability a b indices = true ↔ agrees_on indices a b.
Proof.
  unfold LJPF.check_suitability, agrees_on.
  repeat case_bool_decide; simpl; naive_solver.
Qed.

Lemma weakly_preferred_loop_found (l1 l2 acc : list (Z * Z)) (a : Z * Z)
    (indices : list Z) :
  a ∉ l1 →
  LJPF.get_all_weakly_preferred_loop (l1 ++ a :: l2) a indices acc
  = Ok (acc ++ filter (agrees_on indices a) l1 ++ [a]).
Proof.
  revert acc. induction l1 as [|x l1 IH]; intros acc Hnot; simpl.
  - by rewrite decide_True.
  - rewrite decide_False by (intros ->; apply Hnot; left).
    assert (Hnot' : a ∉ l1) by (intros Hin; apply Hnot; by right).
    rewrite filter_cons.
    destruct (LJPF.check_suitability a x indices) eqn:Hs.
    + rewrite decide_True by (by apply check_suitability_agrees).
      rewrite IH by done. by rewrite <- app_assoc.
    + rewrite decide_False; [by apply IH|].
      intros Hag%check_suitability_agrees. congruence.
Qed.

Lemma weakly_preferred_loop_absent (l acc : list (Z * Z)) (a : Z * Z)
    (indices : list Z) :
  a ∉ l →
  LJPF.get_all_weakly_preferred_loop l a indices acc
  = Raise (Exception "uid not in preference list").
Proof.
  revert acc. induction l as [|x l IH]; intros acc Hnot; simpl; [done|].
  rewrite decide_False by (intros ->; apply Hnot; left).
  assert (Hnot' : a ∉ l) by (intros Hin; apply Hnot; by right).
  destruct (LJPF.check_suitability a x indices); by apply IH.
Qed.

Lemma joint_dispreferred_loop_found (l1 l2 acc : list (Z * Z)) (a : Z * Z)
    (indices : list Z) :
  a ∉ l1 →
  joint_dispreferred_loop (l1 ++ a :: l2) a indices acc
  = Ok (acc ++ filter (agrees_on indices a) l1).
Proof.
  revert acc. induction l1 as [|x l1 IH]; intros acc Hnot; simpl.
  - rewrite decide_True by done. by rewrite app_nil_r.
  - rewrite decide_False by (intros ->; apply Hnot; left).
    assert (Hnot' : a ∉ l1) by (intros Hin; apply Hnot; by right).
    rewrite filter_cons.
    destruct (LJPF.check_suitability a x indices) eqn:Hs.
    + rewrite decide_True by (by apply check_suitability_agrees).
      rewrite IH by done. by rewrite <- app_assoc.
    + rewrite decide_False; [by apply IH|].
      intros Hag%check_suitability_agrees. congruence.
Qed.

Lemma joint_dispreferred_loop_absent (l acc : list (Z * Z)) (a : Z * Z)
    (indices : list Z) :
  a ∉ l →
  joint_dispreferred_loop l a indices acc
  = Raise (Exception "uid not in preference list").
Proof.
  revert acc. induction l as [|x l IH]; intros acc Hnot; simpl; [done|].
  rewrite decide_False by (intros ->; apply Hnot; left).
  assert (Hnot' : a ∉ l) by (intros Hin; apply Hnot; by right).
  destruct (LJPF.check_suitability a x indices); by apply IH.
Qed.

(** X8.  [ListJointPreferenceFunction]: for a pair of the list,
    [get_all_weakly_preferred] gives the pairs before its first occurrence
    that agree with it on the coordinates of [indices], in the order of the
    list, followed by the pair itself, and [get_all_dispreferred] the pairs
    after its last occurrence that agree with it on those coordinates, the
    last of the list first; with no index every pair agrees.  For a pair
    that is not on the list both raise the exception. *)
Theorem joint_preferences_by_position (l : list (Z * Z)) (k k' : nat)
    (a absent : Z * Z) (indices : list Z) :
  l !! k = Some a → a ∉ take k l →
  l !! k' = Some a → a ∉ drop (S k') l →
  absent ∉ l →
  LJPF.get_all_weakly_preferred l a indices
  = Ok (filter (agrees_on indices a) (take k l) ++ [a])
  ∧ joint_get_all_dispreferred l a indices
    = Ok (filter (agrees_on indices a) (reverse (drop (S k') l)))
  ∧ LJPF.get_all_weakly_preferred l a [] = Ok (take k l ++ [a])
  ∧ LJPF.get_all_weakly_preferred l absent indices
    = Raise (Exception "uid not in preference list")
  ∧ joint_get_all_dispreferred l absent indices
    = Raise (Exception "uid not in preference list").
Proof.
  intros Hk Hfirst Hk' Hlast Habsent.
  assert (Hl : l = take k l ++ a :: drop (S k) l) by (by rewrite take_drop_middle).
  assert (Hl' : l = take k' l ++ a :: drop (S k') l) by (by rewrite take_drop_middle).
  assert (Hwp : ∀ idx, LJPF.get_all_weakly_preferred l a idx
                       = Ok (filter (agrees_on idx a) (take k l) ++ [a])).
  { intros idx. unfold LJPF.get_all_weakly_preferred. rewrite Hl at 1.
    by rewrite weakly_preferred_loop_found. }
  split; [apply Hwp|]. split; [|split; [|split]].
  - unfold joint_get_all_dispreferred. rewrite Hl' at 1.
    rewrite reverse_app, reverse_cons, <- app_assoc. simpl.
    rewrite joint_dispreferred_loop_found; [done|]. by rewrite elem_of_reverse.
  - rewrite Hwp. do 2 f_equal. generalize (take k l). intros l0.
    induction l0 as [|b l0 IH]; [done|]. rewrite filter_cons, decide_True, IH; [done|].
    split; by intros ?%elem_of_nil.
  - by apply weakly_preferred_loop_absent.
  - apply joint_dispreferred_loop_absent. by rewrite elem_of_reverse.
Qed.

Lemma joint_preferences_by_position_witness :
  LJPF.get_all_weakly_preferred [(1, 2); (3, 4); (1, 5); (3, 6)] (1, 5) [0]
  = Ok (filter (agrees_on [0] (1, 5)) (take 2 [(1, 2); (3, 4); (1, 5); (3, 6)]) ++ [(1, 5)])
  ∧ joint_get_all_dispreferred [(1, 2); (3, 4); (1, 5); (3, 6)] (1, 5) [0]
    = Ok (filter (agrees_on [0] (1, 5))
            (reverse (drop 3 [(1, 2); (3, 4); (1, 5); (3, 6)])))
  ∧ LJPF.get_all_weakly_preferred [(1, 2); (3, 4); (1, 5); (3, 6)] (1, 5) []
    = Ok (take 2 [(1, 2); (3, 4); (1, 5); (3, 6)] ++ [(1, 5)])
  ∧ LJPF.get_all_weakly_preferred [(1, 2); (3, 4); (1, 5); (3, 6)] (9, 9) [0]
    = Raise (Exception "uid not in preference list")
  ∧ joint_get_all_dispreferred [(1, 2); (3, 4); (1, 5); (3, 6)] (9, 9) [0]
    = Raise (Exception "uid not in preference list").
Proof.
  apply (joint_preferences_by_position [(1, 2); (3, 4); (1, 5); (3, 6)] 2 2 (1, 5) (9, 9) [0]).
  - reflexivity.
  - apply (bool_decide_unpack _); vm_compute; exact I.
  - reflexivity.
  - apply (bool_decide_unpack _); vm_compute; exact I.
  - apply (bool_decide_unpack _); vm_compute; exact I.
Defined.
(** ** The ports of [itertools] *)

(** *** [combinations(iterable, 2)] *)

Section Combinations2.
Context {A : Type}.
Implicit Types (pool pre mid post : list A) (x y z : A).

Lemma lookup_split pre x post : (pre ++ x :: post) !! length pre = Some x.
Proof. by rewrite list_lookup_middle. Qed.

Lemma getitem_split pre x post (i : Z) :
  i = len pre → list_getitem (pre ++ x :: post) (Z.to_nat i) = Ok x.
Proof.
  intros ->. unfold len. rewrite Nat2Z.id. apply list_getitem_Ok, lookup_split.
Qed.

(** The positions of the two indices in a pool split around them. *)
Lemma pick_split pre x mid y post (a b : Z) :
  a = len pre → b = len pre + 1 + len mid →
  pick (pre ++ x :: mid ++ y :: post) [a; b] = Ok [x; y].
Proof.
  intros Ha Hb. unfold pick. simpl. rewrite (getitem_split pre x _ a Ha). simpl.
  replace (pre ++ x :: mid ++ y :: post) with ((pre ++ x :: mid) ++ y :: post)
    by (by rewrite <- app_assoc).
  rewrite (getitem_split (pre ++ x :: mid) y post b); [done|].
  unfold len in *. rewrite length_app. simpl. lia.
Qed.

Lemma turn_last (turns : nat) pool (n a b : Z) (yielded : list (list A)) :
  b ≠ n - 1 →
  combinations_loop (S turns) pool n 2 [a; b] yielded
  = t ← pick pool [a; b + 1];
    combinations_loop turns pool n 2 [a; b + 1] (yielded ++ [t]).
Proof.
  intros Hb. simpl.
  change (first_movable [a; b] n 2 (reverse (xrange 2)))
    with (if bool_decide (b ≠ 1 + n - 2) then Ok (Some 1)
          else first_movable [a; b] n 2 [0]).
  by rewrite bool_decide_eq_true_2 by lia.
Qed.

Lemma turn_first (turns : nat) pool (n a b : Z) (yielded : list (list A)) :
  b = n - 1 → a ≠ n - 2 →
  combinations_loop (S turns) pool n 2 [a; b] yielded
  = t ← pick pool [a + 1; a + 1 + 1];
    combinations_loop turns pool n 2 [a + 1; a + 1 + 1] (yielded ++ [t]).
Proof.
  intros Hb Ha. simpl.
  change (first_movable [a; b] n 2 (reverse (xrange 2)))
    with (if bool_decide (b ≠ 1 + n - 2) then Ok (Some 1)
          else if bool_decide (a ≠ 0 + n - 2) then Ok (Some 0) else Ok None).
  rewrite bool_decide_eq_false_2 by lia. by rewrite bool_decide_eq_true_2 by lia.
Qed.

Lemma turn_return (turns : nat) pool (n a b : Z) (yielded : list (list A)) :
  b = n - 1 → a = n - 2 →
  combinations_loop (S turns) pool n 2 [a; b] yielded = Ok (Some yielded).
Proof.
  intros Hb Ha. simpl.
  change (first_movable [a; b] n 2 (reverse (xrange 2)))
    with (if bool_decide (b ≠ 1 + n - 2) then Ok (Some 1)
          else if bool_decide (a ≠ 0 + n - 2) then Ok (Some 0) else Ok None).
  by rewrite !bool_decide_eq_false_2 by lia.
Qed.

(** The turns that follow the tuple [(x, y)] of a pool split around [x]
    and [y]: [x] with the items after [y], then the pairs of the items
    after [x]. *)
Lemma combinations_loop_split (turns : nat) pre x mid y post
    (yielded : list (list A)) :
  (length post + length (combinations2 (mid ++ y :: post)) < turns)%nat →
  combinations_loop turns (pre ++ x :: mid ++ y :: post)
    (len (pre ++ x :: mid ++ y :: post)) 2
    [len pre; len pre + 1 + len mid] yielded
  = Ok (Some (yielded
              ++ (tuple2 <$> (pair x <$> post) ++ combinations2 (mid ++ y :: post)))).
Proof.
  revert pre x mid y post yielded.
  induction turns as [|turns IH]; intros pre x mid y post yielded Hturns; [lia|].
  assert (Hn : len (pre ++ x :: mid ++ y :: post)
               = len pre + 1 + len mid + 1 + len post).
  { unfold len. rewrite length_app. simpl. rewrite length_app. simpl. lia. }
  destruct post as [|z post].
  - destruct mid as [|m mid].
    + rewrite turn_return; [|rewrite Hn; unfold len; simpl; lia..].
      simpl. by rewrite app_nil_r.
    + rewrite turn_first; [|rewrite Hn; unfold len; simpl; lia..].
      destruct (mid ++ [y]) as [|next rest] eqn:Hmid.
      { by destruct mid. }
      assert (Hpool : pre ++ x :: (m :: mid) ++ [y]
                      = (pre ++ [x]) ++ m :: [] ++ next :: rest).
      { simpl. rewrite Hmid. by rewrite <- app_assoc. }
      assert (Hlen : len mid + 1 = len rest + 1).
      { apply (f_equal length) in Hmid. rewrite length_app in Hmid. simpl in Hmid.
        unfold len. lia. }
      rewrite Hpool.
      rewrite (pick_split (pre ++ [x]) m [] next rest)
        by (unfold len; rewrite ?length_app; simpl; lia).
      cbn [mbind result_bind].
      replace (len pre + 1) with (len (pre ++ [x]))
        by (unfold len; rewrite length_app; simpl; lia).
      replace (len (pre ++ [x]) + 1) with (len (pre ++ [x]) + 1 + len (@nil A))
        by (unfold len; simpl; lia).
      rewrite IH.
      * do 2 f_equal. rewrite <- app_assoc. f_equal. simpl.
        change (m :: mid ++ [y]) with (m :: (mid ++ [y])). rewrite Hmid. done.
      * simpl in Hturns. rewrite Hmid in Hturns. simpl in Hturns.
        rewrite length_app, length_fmap in Hturns. simpl. lia.
  - rewrite turn_last; [|rewrite Hn; unfold len; simpl; lia].
    assert (Hpool : pre ++ x :: mid ++ y :: z :: post
                    = pre ++ x :: (mid ++ [y]) ++ z :: post).
    { by rewrite <- (app_assoc mid [y]). }
    rewrite Hpool.
    rewrite (pick_split pre x (mid ++ [y]) z post)
      by (unfold len; rewrite ?length_app; simpl; lia).
    cbn [mbind result_bind].
    replace (len pre + 1 + len mid + 1) with (len pre + 1 + len (mid ++ [y]))
      by (unfold len; rewrite length_app; simpl; lia).
    rewrite IH.
    + do 2 f_equal. rewrite <- app_assoc. simpl. rewrite <- (app_assoc mid [y]). done.
    + rewrite <- (app_assoc mid [y]). simpl in *. lia.
Qed.

End Combinations2.

(** X9.  The port of [itertools.combinations] with [r = 2]: the generator
    returns after at most as many turns of its loop as there are pairs,
    and it has yielded the pairs of items of the pool at positions
    [i < j], in lexicographic order of the positions; for a pool of fewer
    than two items it yields nothing. *)
Theorem combinations_yields_pairs {A} (pool : list A) (turns : nat) :
  (length (combinations2 pool) < turns)%nat →
  combinations turns pool 2 = Ok (Some (tuple2 <$> combinations2 pool)).
Proof.
  intros Hturns. unfold combinations.
  destruct pool as [|x [|y post]].
  - by rewrite bool_decide_eq_true_2 by (unfold len; simpl; lia).
  - by rewrite bool_decide_eq_true_2 by (unfold len; simpl; lia).
  - rewrite bool_decide_eq_false_2 by (unfold len; simpl; lia).
    change (xrange 2) with [0; 1].
    change (pick (x :: y :: post) [0; 1]) with (@Ok (list A) [x; y]).
    cbn [mbind result_bind].
    change (combinations_loop turns (x :: y :: post) (len (x :: y :: post)) 2
              [0; 1] [[x; y]])
      with (combinations_loop turns ([] ++ x :: [] ++ y :: post)
              (len ([] ++ x :: [] ++ y :: post)) 2
              [len (@nil A); len (@nil A) + 1 + len (@nil A)] [[x; y]]).
    rewrite combinations_loop_split; [done|].
    simpl in *. rewrite length_app, length_fmap in Hturns. lia.
Qed.

Lemma combinations_yields_pairs_witness :
  combinations 4 [5; 6; 7] 2 = Ok (Some (tuple2 <$> combinations2 [5; 6; 7])).
Proof. apply (combinations_yields_pairs [5; 6; 7] 4). simpl. lia. Defined.

(** *** [product] *)

Section Product.
Context {A : Type}.

Lemma product_step_elem (acc : list (list A)) (pool : list A) (t : list A) :
  t ∈ (x ← acc; y ← pool; [x ++ [y]]) ↔ ∃ x y, x ∈ acc ∧ y ∈ pool ∧ t = x ++ [y].
Proof.
  rewrite list_elem_of_bind. split.
  - intros (x & (y & ->%list_elem_of_singleton & Hy)%list_elem_of_bind & Hx).
    by exists x, y.
  - intros (x & y & Hx & Hy & ->). exists x. split; [|done].
    apply list_elem_of_bind. exists y. split; [by left | done].
Qed.

Lemma product_step_length (acc : list (list A)) (pool : list A) :
  length (x ← acc; y ← pool; [x ++ [y]]) = (length acc * length pool)%nat.
Proof.
  induction acc as [|x acc IH]; [done|].
  cbn [mbind list_bind]. rewrite length_app.
  change (mbind _ acc) with (x ← acc; y ← pool; [x ++ [y]]). rewrite IH.
  assert (length (y ← pool; [x ++ [y]]) = length pool) as ->; [|simpl; lia].
  clear. induction pool as [|y pool IH]; [done|]. cbn [mbind list_bind]. simpl.
  f_equal. exact IH.
Qed.

Lemma product_fold_elem (pools : list (list A)) (acc : list (list A)) (t : list A) :
  t ∈ foldl (fun result pool => x ← result; y ← pool; [x ++ [y]]) acc pools
  ↔ ∃ t0 t1, t = t0 ++ t1 ∧ t0 ∈ acc ∧ Forall2 (fun y pool => y ∈ pool) t1 pools.
Proof.
  revert acc. induction pools as [|pool pools IH]; intros acc; simpl.
  - split.
    + intros Ht. exists t, []. rewrite app_nil_r. by repeat split.
    + intros (t0 & t1 & -> & Ht0 & ->%Forall2_nil_inv_r). by rewrite app_nil_r.
  - rewrite IH. split.
    + intros (t0 & t1 & -> & (x & y & Hx & Hy & ->)%product_step_elem & Hall).
      exists x, (y :: t1). rewrite <- app_assoc. split; [done|]. split; [done|].
      by constructor.
    + intros (t0 & t1 & -> & Ht0 & Hall).
      apply Forall2_cons_inv_r in Hall as (y & t1' & Hy & Hall & ->).
      exists (t0 ++ [y]), t1'. rewrite <- app_assoc. split; [done|]. split; [|done].
      apply product_step_elem. by exists t0, y.
Qed.

Lemma product_fold_length (pools : list (list A)) (acc : list (list A)) :
  length (foldl (fun result pool => x ← result; y ← pool; [x ++ [y]]) acc pools)
  = (length acc * foldr (fun pool k => length pool * k) 1 pools)%nat.
Proof.
  revert acc. induction pools as [|pool pools IH]; intros acc; simpl; [lia|].
  rewrite IH, product_step_length. lia.
Qed.

End Product.

(** X10.  The port of [itertools.product]: with the pools repeated
    [repeat] times, a tuple is yielded exactly when it takes one item from
    each pool, in the order of the pools, and the number of the tuples
    yielded is the product of the sizes of the pools; so no pool, or
    [repeat] not positive, gives the empty tuple alone, and an empty pool
    gives no tuple. *)
Theorem product_tuples {A} (args : list (list A)) (repeat : Z) (t : list A) :
  (t ∈ product args repeat
   ↔ Forall2 (fun y pool => y ∈ pool) t (concat (replicate (Z.to_nat repeat) args)))
  ∧ length (product args repeat)
    = foldr (fun pool k => length pool * k)%nat 1%nat
        (concat (replicate (Z.to_nat repeat) args))
  ∧ (repeat ≤ 0 → product args repeat = [[]]).
Proof.
  unfold product. split; [|split].
  - rewrite product_fold_elem. split.
    + intros (t0 & t1 & -> & ->%list_elem_of_singleton & Hall). done.
    + intros Hall. exists [], t. split; [done|]. split; [by left | done].
  - rewrite product_fold_length. simpl. lia.
  - intros Hrep. by replace (Z.to_nat repeat) with 0%nat by lia.
Qed.
(** ** [from_file]: the dictionaries and the lists *)

Lemma stored_snoc {V} (key : V → Z) (d : gmap Z V) (l : list V) (v : V) :
  stored key d (l ++ [v]) = <[key v := v]> (stored key d l).
Proof. unfold stored. by rewrite foldl_app. Qed.

Lemma stored_list_to_map {V} (key : V → Z) (d : gmap Z V) (l : list V) :
  NoDup (key <$> l) →
  stored key d l = list_to_map ((fun v => (key v, v)) <$> l) ∪ d.
Proof.
  unfold stored. revert d. induction l as [|v l IH]; intros d Hnd; simpl.
  - by rewrite (left_id_L ∅ (∪)).
  - simpl in Hnd. apply NoDup_cons in Hnd as [Hv Hnd]. rewrite IH by done.
    rewrite <- insert_union_l. symmetry. apply insert_union_r.
    apply not_elem_of_list_to_map_1. by rewrite <- list_fmap_compose.
Qed.

Section LoaderInvariant.
Context `{PySet} (g0 : Globals) (append_nil : bool).

Lemma load_line_inv (line : string) (st st' : loader_state) :
  loader_inv g0 st → load_line append_nil line st = Ok st' → loader_inv g0 st'.
Proof.
  intros (Hh & Hhp & Hs & Hr) Hline. unfold load_line in Hline.
  destruct (_ || _); [injection Hline as <-; by repeat split|].
  destruct (startswith line "r").
  { unfold load_resident in Hline.
    apply bind_Ok in Hline as (t & _ & Hline). apply bind_Ok in Hline as (u & _ & Hline).
    destruct (bool_decide _); [done|].
    apply bind_Ok in Hline as (rol & _ & Hline). simpl in Hline.
    injection Hline as <-. unfold loader_inv. simpl. split; [done|]. split; [done|]. split.
    - apply Forall_app. split; [done|]. by repeat constructor.
    - intros Hc. rewrite stored_snoc, Hr by done. done. }
  destruct (startswith line "p").
  { unfold load_program in Hline.
    apply bind_Ok in Hline as (t & _ & Hline). apply bind_Ok in Hline as (u & _ & Hline).
    destruct (bool_decide _); [done|].
    apply bind_Ok in Hline as (rol & _ & Hline).
    apply bind_Ok in Hline as (tc & _ & Hline).
    apply bind_Ok in Hline as (cap & _ & Hline). simpl in Hline.
    injection Hline as <-. unfold loader_inv. simpl. split; [|split; [|done]].
    - by rewrite stored_snoc, Hh.
    - apply Forall_app. split; [done|]. by repeat constructor. }
  destruct (startswith line "c"); [|done].
  unfold load_couple in Hline.
  apply bind_Ok in Hline as (t & _ & Hline). apply bind_Ok in Hline as (u & _ & Hline).
  destruct (bool_decide _); [done|].
  apply bind_Ok in Hline as (t0 & _ & Hline). apply bind_Ok in Hline as (u0 & _ & Hline).
  destruct (bool_decide _); [done|].
  apply bind_Ok in Hline as (t1 & _ & Hline). apply bind_Ok in Hline as (u1 & _ & Hline).
  destruct (bool_decide _); [done|].
  apply bind_Ok in Hline as (rol & _ & Hline).
  apply bind_Ok in Hline as (rol' & _ & Hline). simpl in Hline.
  injection Hline as <-. unfold loader_inv. simpl. split; [done|]. split; [done|]. split; [done|].
  intros Hc. by destruct (ld_couples st).
Qed.

Lemma from_file_inv (text : string) (inst : ProblemInstance) (g : Globals) :
  from_file text append_nil g0 = Ok (inst, g) →
  loader_inv g0 (mkLoader (hospitals inst) (singles inst) (couples inst) g).
Proof.
  unfold from_file. intros (st & Hrun & [= <- <-])%bind_Ok.
  assert (Hinv : loader_inv g0 st).
  { apply (for_each_ind (loader_inv g0) _ _ _ _ Hrun).
    - by repeat split.
    - intros line s1 s2 _. apply load_line_inv. }
  by destruct st.
Qed.

End LoaderInvariant.

(** X11.  [from_file] on a file without couples, read when the module has
    just been loaded: the dictionaries hold the singles and the hospitals
    of the instance under their uids, and the nil hospital; every single
    has a list and no couple and every hospital has a list.  So when the
    uids are distinct, the lists have no duplicates, no list of a single
    names 999999, no hospital has the uid 999999 or -1 and no capacity is
    negative, the instance is one of those that the statements X1 to X3
    are about. *)
Theorem from_file_without_couples `{PySet} (text : string) (inst : ProblemInstance)
    (g : Globals) :
  from_file text false module_globals = Ok (inst, g) →
  couples inst = [] →
  NoDup (r_uid <$> singles inst) → NoDup (h_uid <$> hospitals inst) →
  Forall (fun r => ∀ l, r_preference r = Some l → NoDup l ∧ NIL_HOSPITAL_UID ∉ l)
         (singles inst) →
  Forall (fun h => h_uid h ≠ NIL_HOSPITAL_UID ∧ h_uid h ≠ -1 ∧ 0 ≤ h_capacity h
                   ∧ ∀ l, h_preference h = Some l → NoDup l)
         (hospitals inst) →
  well_formed g inst.
Proof.
  intros Hload Hc Hrs Hhs Hsl Hhl.
  destruct (from_file_inv module_globals false text inst g Hload) as (Hh & Hhp & Hs & Hr).
  simpl in *. split; try done.
  - rewrite (Hr Hc), stored_list_to_map by done. by rewrite (right_id_L ∅ (∪)).
  - rewrite Hh, stored_list_to_map by done.
    symmetry. apply insert_union_singleton_r.
    apply not_elem_of_list_to_map_1. rewrite <- list_fmap_compose.
    intros (h & Hu & Hin)%list_elem_of_fmap. rewrite Forall_forall in Hhl.
    destruct (Hhl h Hin) as [Hne _]. simpl in Hu. congruence.
  - rewrite Forall_forall in Hs, Hsl. apply Forall_forall. intros r Hin.
    destruct (Hs r Hin) as [Hnone [l Hl]]. split; [done|]. exists l. split; [done|].
    exact (Hsl r Hin l Hl).
  - rewrite Forall_forall in Hhp, Hhl. apply Forall_forall. intros h Hin.
    destruct (Hhp h Hin) as [l Hl]. destruct (Hhl h Hin) as (? & ? & ? & Hnd).
    repeat split; try done. exists l. split; [done|]. exact (Hnd l Hl).
Qed.

Lemma from_file_without_couples_witness :
  well_formed (loaded one_place_file).2 (loaded one_place_file).1.
Proof.
  apply (@from_file_without_couples cpython_small one_place_file).
  - vm_compute; reflexivity.
  - vm_compute; reflexivity.
  - apply (bool_decide_unpack _); vm_compute; exact I.
  - apply (bool_decide_unpack _); vm_compute; exact I.
  - assert (singles (loaded one_place_file).1
            = [mkResident 11 (Some [1]) None; mkResident 12 (Some [1]) None]) as ->
      by (vm_compute; reflexivity).
    repeat apply Forall_cons_2; try apply Forall_nil_2;
      intros l [= <-]; split; apply (bool_decide_unpack _); vm_compute; exact I.
  - assert (hospitals (loaded one_place_file).1 = [mkHospital 1 1 (Some [11; 12])]) as ->
      by (vm_compute; reflexivity).
    repeat apply Forall_cons_2; try apply Forall_nil_2.
    split; [discriminate|]. split; [discriminate|]. split; [simpl; lia|].
    intros l [= <-]. apply (bool_decide_unpack _); vm_compute; exact I.
Defined.

(** *** [append_nil] *)

Lemma last_item_Ok {A} (l : list A) (a : A) : last_item l = Ok a ↔ last l = Some a.
Proof. unfold last_item. destruct (last l); split; congruence. Qed.

Section AppendNil.
Context `{PySet}.

Lemma resident_line_rol_nil (items : list string) (rol : list Z) :
  resident_line_rol true items = Ok rol → last rol = Some NIL_HOSPITAL_UID.
Proof.
  unfold resident_line_rol. intros (rol0 & _ & Hrol)%bind_Ok.
  apply bind_Ok in Hrol as (l1 & _ & Hrol).
  apply bind_Ok in Hrol as (l2 & Hl2%last_item_Ok & [= <-]).
  destruct (decide (l2 ≠ NIL_HOSPITAL_UID)) as [Hne|Heq].
  - by rewrite last_snoc.
  - apply dec_stable in Heq. by rewrite <- Heq.
Qed.

Lemma load_line_nil (line : string) (st st' : loader_state) :
  nil_appended st → load_line true line st = Ok st' → nil_appended st'.
Proof.
  intros [Hs Hc] Hline. unfold load_line in Hline.
  destruct (_ || _); [injection Hline as <-; by split|].
  destruct (startswith line "r").
  { unfold load_resident in Hline.
    apply bind_Ok in Hline as (t & _ & Hline). apply bind_Ok in Hline as (u & _ & Hline).
    destruct (bool_decide _); [done|].
    apply bind_Ok in Hline as (rol & Hrol & Hline). simpl in Hline.
    injection Hline as <-. unfold nil_appended. simpl. split; [|done].
    apply Forall_app. split; [done|]. constructor; [|done]. simpl.
    exists rol. split; [done|]. by apply (resident_line_rol_nil (split line)). }
  destruct (startswith line "p").
  { unfold load_program in Hline.
    apply bind_Ok in Hline as (t & _ & Hline). apply bind_Ok in Hline as (u & _ & Hline).
    destruct (bool_decide _); [done|].
    apply bind_Ok in Hline as (rol & _ & Hline).
    apply bind_Ok in Hline as (tc & _ & Hline).
    apply bind_Ok in Hline as (cap & _ & Hline). simpl in Hline.
    injection Hline as <-. by split. }
  destruct (startswith line "c"); [|done].
  unfold load_couple in Hline.
  apply bind_Ok in Hline as (t & _ & Hline). apply bind_Ok in Hline as (u & _ & Hline).
  destruct (bool_decide _); [done|].
  apply bind_Ok in Hline as (t0 & _ & Hline). apply bind_Ok in Hline as (u0 & _ & Hline).
  destruct (bool_decide _); [done|].
  apply bind_Ok in Hline as (t1 & _ & Hline). apply bind_Ok in Hline as (u1 & _ & Hline).
  destruct (bool_decide _); [done|].
  apply bind_Ok in Hline as (rol & _ & Hline).
  apply bind_Ok in Hline as (rol' & Hrol' & Hline). simpl in Hline.
  injection Hline as <-. unfold nil_appended. simpl. split; [done|].
  apply Forall_app. split; [done|]. constructor; [|done]. simpl.
  apply bind_Ok in Hrol' as (l & Hl%last_item_Ok & [= <-]).
  destruct (decide (l ≠ (NIL_HOSPITAL_UID, NIL_HOSPITAL_UID))) as [Hne|Heq].
  - by rewrite last_snoc.
  - apply dec_stable in Heq. by rewrite <- Heq.
Qed.

End AppendNil.

(** X12.  [from_file] with [append_nil=True]: in the instance it returns,
    the list of every single ends with the nil hospital 999999 and the list
    of every couple with the pair (999999, 999999); a resident line with a
    uid and no hospital makes it fail with [IndexError]. *)
Theorem from_file_append_nil `{PySet} (text : string) (g0 g : Globals)
    (inst : ProblemInstance) :
  from_file text true g0 = Ok (inst, g) →
  Forall (fun r => ∃ l, r_preference r = Some l ∧ last l = Some NIL_HOSPITAL_UID)
         (singles inst)
  ∧ Forall (fun c => last (c_preference c) = Some (NIL_HOSPITAL_UID, NIL_HOSPITAL_UID))
           (couples inst)
  ∧ (∀ t0 t1 u st, py_int t1 = Ok u →
       load_resident true [t0; t1] st = Raise IndexError).
Proof.
  unfold from_file. intros (st & Hrun & [= <- <-])%bind_Ok.
  assert (Hinv : nil_appended st).
  { apply (for_each_ind nil_appended _ _ _ _ Hrun).
    - by split.
    - intros line s1 s2 _. apply load_line_nil. }
  destruct Hinv as [Hs Hc]. split; [done|]. split; [done|].
  intros t0 t1 u st0 Hu. unfold load_resident. simpl. by rewrite Hu.
Qed.

Lemma from_file_append_nil_witness :
  Forall (fun r => ∃ l, r_preference r = Some l ∧ last l = Some NIL_HOSPITAL_UID)
         (singles (loaded_nil mixed_file).1)
  ∧ Forall (fun c => last (c_preference c) = Some (NIL_HOSPITAL_UID, NIL_HOSPITAL_UID))
           (couples (loaded_nil mixed_file).1)
  ∧ (∀ t0 t1 u st, py_int t1 = Ok u →
       load_resident true [t0; t1] st = Raise IndexError).
Proof.
  apply (@from_file_append_nil cpython_small mixed_file module_globals
           (loaded_nil mixed_file).2 (loaded_nil mixed_file).1).
  vm_compute; reflexivity.
Defined.
(** ** The encoding of an instance without couples as a DIMACS file *)

Section ClausesOver.
Context (g : Globals) (s : sat_state).

Lemma x_over (r h x : Z) : get_res_match s r h = Ok x → table_entry s x.
Proof. intros Hx. left. by exists r, h. Qed.

Lemma q_over (h i j x : Z) : get_q s h i j = Ok x → table_entry s x.
Proof. intros Hx. right. by exists h, i, j. Qed.

Lemma match_var_over (r : Resident) (hu x : Z) :
  match_var g s r hu = Ok x → table_entry s x.
Proof. unfold match_var. intros (h & _ & Hx)%bind_Ok. by eapply x_over. Qed.

Lemma y_var_over (h : Hospital) (ord : list Z) (i y : Z) :
  y_var g s h ord i = Ok y → table_entry s y.
Proof.
  unfold y_var. intros (u & _ & Hy)%bind_Ok. apply bind_Ok in Hy as (r & _ & Hy).
  by eapply x_over.
Qed.

Lemma match_vars_over (r : Resident) (l lits : list Z) :
  comprehension (match_var g s r) l = Ok lits → Forall (literal_over s) lits.
Proof.
  revert lits. induction l as [|hu l IH]; intros lits Hc; simpl in Hc.
  - injection Hc as <-. constructor.
  - apply bind_Ok in Hc as (x & Hx & Hc). apply bind_Ok in Hc as (xs & Hxs & [= <-]).
    constructor; [left; by eapply match_var_over | by apply IH].
Qed.

Lemma pos_over (x : Z) : table_entry s x → literal_over s x.
Proof. by left. Qed.

Lemma neg_over (x : Z) : table_entry s x → literal_over s (- x).
Proof. intros Hx. right. by rewrite Z.opp_involutive. Qed.

(** Closes the goals about clauses written out literal by literal. *)
Ltac clauses_over :=
  simpl; repeat apply Forall_cons_2; try apply Forall_nil_2;
  (split; [done|]); simpl; repeat apply Forall_cons_2; try apply Forall_nil_2;
  first [apply neg_over | apply pos_over];
  eauto using x_over, q_over, match_var_over, y_var_over.

Lemma at_least_over (r : Resident) (cs : list DIMACSClause) :
  at_least_clause g r s cs → Forall (clause_over s) cs.
Proof.
  intros (l & lits & _ & Hlits & ->). unfold at_least_one in Hlits.
  apply bind_Ok in Hlits as (xs & Hxs & Hlits).
  apply bind_Ok in Hlits as (x & Hx & [= <-]).
  apply Forall_singleton. split; [by destruct xs|]. simpl.
  apply Forall_app. split; [by eapply match_vars_over|].
  apply Forall_singleton. left. by eapply x_over.
Qed.

Lemma at_most_over (r : Resident) (cs : list DIMACSClause) :
  at_most_clauses g r s cs → Forall (clause_over s) cs.
Proof.
  intros (l & _ & Hg). apply (gathered_Forall_all _ _ _ _ _ Hg).
  intros p bs _ (x1 & x2 & Hx1 & Hx2 & ->). clauses_over.
Qed.

Lemma step_over (h : Hospital) (ord : list Z) (i j : Z) (cs : list DIMACSClause) :
  step_clauses g h ord i j s cs → Forall (clause_over s) cs.
Proof.
  intros (y & Hy & Hcs).
  destruct (bool_decide (j = 0)); [|destruct (bool_decide (j = i))].
  - destruct Hcs as (a & p & Ha & Hp & ->). clauses_over.
  - destruct Hcs as (a & p & Ha & Hp & ->). clauses_over.
  - destruct Hcs as (p & a & p' & Hp & Ha & Hp' & ->). clauses_over.
Qed.

Lemma hospital_over (h : Hospital) (cs : list DIMACSClause) :
  hospital_clauses g h s cs → Forall (clause_over s) cs.
Proof.
  intros (ord & _ & Hg). apply (gathered_Forall_all _ _ _ _ _ Hg).
  intros i bs _ Hrow. unfold row_clauses in Hrow.
  destruct (bool_decide (i = 0)); [subst bs; constructor|].
  destruct Hrow as (cs1 & cs2 & -> & Hcs1 & Hcs2). apply Forall_app. split.
  - destruct (bool_decide (i = 1)).
    + destruct Hcs1 as (y & q0 & q1 & Hy & Hq0 & Hq1 & ->). clauses_over.
    + apply (gathered_Forall_all _ _ _ _ _ Hcs1). intros j bs' _. apply step_over.
  - unfold cap_clauses in Hcs2.
    destruct (bool_decide (i >= h_capacity h + 1)); [|subst cs2; constructor].
    destruct Hcs2 as (a & Ha & ->). clauses_over.
Qed.

Lemma stability_over (r : Resident) (cs : list DIMACSClause) :
  stability_clauses_of g r s cs → Forall (clause_over s) cs.
Proof.
  intros (l & _ & Hg). apply (gathered_Forall_all _ _ _ _ _ Hg).
  intros hu bs _ (h & wp & lits & lits' & _ & Hwp & Hlits & Happ & ->).
  pose proof (match_vars_over _ _ _ Hlits) as Hover.
  assert (Hne : lits ≠ []).
  { unfold Res.get_all_weakly_preferred, with_preference in Hwp.
    destruct (r_preference r) as [l'|]; [|done].
    apply weakly_preferred_Ok in Hwp as (k & _ & _ & -> & _).
    destruct (take k l'); simpl in Hlits.
    - apply bind_Ok in Hlits as (x & _ & [= <-]). done.
    - apply bind_Ok in Hlits as (x & _ & Hlits).
      apply bind_Ok in Hlits as (xs & _ & [= <-]). done. }
  unfold append_q_vars in Happ. simpl in Happ.
  apply bind_Ok in Happ as (lits1 & Happ & [= <-]).
  apply Forall_singleton.
  destruct (negb (Hosp.is_nil h)).
  - apply bind_Ok in Happ as (rk & _ & Happ). destruct (bool_decide _).
    + apply bind_Ok in Happ as (x & Hx & [= <-]). split; [by destruct lits|].
      simpl. apply Forall_app. split; [done|]. apply Forall_singleton.
      left. by eapply q_over.
    + injection Happ as <-. by split.
  - injection Happ as <-. by split.
Qed.

End ClausesOver.

Lemma registered_dimacs (s : sat_state) (lit : Z) :
  registered s → literal_over s lit → dimacs_literal s lit.
Proof.
  intros (_ & Hreg & Hx & Hq) Hlit.
  assert (Hentry : ∀ x, table_entry s x → 0 < x ≤ last_uid s).
  { intros x [(r & h & Hx')|(h & i & j & Hq')].
    - apply Hx in Hx'. by apply Hreg in Hx'.
    - apply Hq in Hq'. by apply Hreg in Hq'. }
  unfold dimacs_literal. destruct Hlit as [Hp%Hentry|Hn%Hentry]; lia.
Qed.

(** X13.  The encoding of an instance without couples is a well-formed
    DIMACS problem under the header ['p cnf <last_uid> <clauses>'] that
    [solve_sat] writes: no clause is empty and every literal is a non-zero
    number of absolute value at most [last_uid]; and the variables tell
    their keys apart: two entries of [res_match], or of [q], with the same
    variable have the same key, and no variable is in both tables. *)
Theorem encoding_is_dimacs `{PySet} (g : Globals) (inst : ProblemInstance)
    (s : sat_state) :
  well_formed g inst → solve_sat_encode g inst = Ok s →
  Forall (fun c => var_list c ≠ [] ∧ Forall (dimacs_literal s) (var_list c))
         (constraints s)
  ∧ (∀ r h r' h' x, get_res_match s r h = Ok x → get_res_match s r' h' = Ok x →
                    r = r' ∧ h = h')
  ∧ (∀ h i j h' i' j' x, get_q s h i j = Ok x → get_q s h' i' j' = Ok x →
                         h = h' ∧ i = i' ∧ j = j')
  ∧ (∀ r h h' i j x, get_res_match s r h = Ok x → get_q s h' i j = Ok x → False).
Proof.
  intros Hwf Hs.
  destruct (solve_sat_encode_shape g inst Hwf s Hs)
    as (Hreg & _ & _ & c1 & c2 & c3 & c4 & Hcs & H1 & H2 & H3 & H4).
  split; [|split; [|split]].
  - assert (Hover : Forall (clause_over s) (constraints s)).
    { rewrite Hcs, !Forall_app. repeat split.
      - apply (gathered_Forall_all _ _ _ _ _ H1). intros r bs _. apply at_least_over.
      - apply (gathered_Forall_all _ _ _ _ _ H2). intros r bs _. apply at_most_over.
      - apply (gathered_Forall_all _ _ _ _ _ H3). intros h bs _. apply hospital_over.
      - apply (gathered_Forall_all _ _ _ _ _ H4). intros r bs _. apply stability_over. }
    eapply Forall_impl; [exact Hover|]. intros c [Hne Hlits]. split; [done|].
    eapply Forall_impl; [exact Hlits|]. intros lit. by apply registered_dimacs.
  - intros r h r' h' x. by apply registered_inj_x.
  - intros h i j h' i' j' x. by apply registered_inj_q.
  - intros r h h' i j x. by apply registered_x_q.
Qed.

Lemma encoding_is_dimacs_witness :
  Forall (fun c => var_list c ≠ []
                   ∧ Forall (dimacs_literal one_place_encoding) (var_list c))
         (constraints one_place_encoding)
  ∧ (∀ r h r' h' x, get_res_match one_place_encoding r h = Ok x →
                    get_res_match one_place_encoding r' h' = Ok x → r = r' ∧ h = h')
  ∧ (∀ h i j h' i' j' x, get_q one_place_encoding h i j = Ok x →
                         get_q one_place_encoding h' i' j' = Ok x →
                         h = h' ∧ i = i' ∧ j = j')
  ∧ (∀ r h h' i j x, get_res_match one_place_encoding r h = Ok x →
                     get_q one_place_encoding h' i j = Ok x → False).
Proof.
  apply (@encoding_is_dimacs cpython_small (loaded one_place_file).2
           (loaded one_place_file).1 one_place_encoding).
  - exact one_place_well_formed.
  - vm_compute; reflexivity.
Defined.
